(* ===== verification/_CoqProject ===== *)
-Q . S2P
Prelude.v
JsBase.v
Json.v
JsText.v
JsMap.v
NumSpec.v
Watermark.v
WatermarkSpec.v
Journal.v
JournalSpec.v
Lease.v
LeaseSpec.v
Local.v
LocalSpec.v
Canonical.v
CanonicalSpec.v
JsonSpec.v
Authority.v
AuthoritySpec.v
Governance.v
Voting.v
Mandates.v
VotingSpec.v
GovernanceSpec.v
MandatesSpec.v
Guards.v
GuardsSpec.v
Omnia.v
Transactions.v
TransactionsSpec.v
NodeScript.v
Mmr.v
Eltoo.v
Programs.v
ProgramsSpec.v
Sign.v
Channel.v
ChannelSpec.v
Receipt.v
SigningSpec.v
Draft.v
MiniNumber.v
MiniNumberSpec.v
Lexer.v
Parser.v
ParserSpec.v
NodeScriptSpec.v
Wots.v
TreeKey.v
Settlement.v
Opening.v
SettlementSpec.v
OpeningSpec.v
MinimaTx.v
Address.v
Vm.v
Eval.v
KissChannel.v
FrameSpec.v
EltooParse.v
EvalSpec.v
OpcodeSpec.v
EltooRun.v
EltooSpec.v
MmrSpec.v
ProofSpec.v
WotsSpec.v
MinimaTxSpec.v
TreeKeySpec.v
AddressSpec.v
KissChannelSpec.v
