(* ===== verification/Prelude.v ===== *)
(** * Totem SDK verification library: overview, and the shared prelude

    This library models the parts of the Totem SDK (TypeScript, under
    src/packages) on which keys, money and authority depend, and proves what
    makes them correct.  A definition carries the name of the function, method
    or type it translates; a file whose name ends in Spec holds the theorems
    about the file before it.  This file has the error results and the state
    monad every component uses, their inversion lemmas, and the preservation
    lemmas [preserves_*] with the hint database that applies them.

    ** The parts, and how they interact

    One-time keys.  A WOTS key may sign once.  [Watermark] (wots-lease
    watermark.ts) allocates signing indices; [Journal] (journal.ts) is the
    durable, hash-chained log of key uses; [Lease] (core LeaseStore.ts) keeps
    the leases; [Local] (local.ts) is the provider that allocates from the first,
    writes ahead to the second and recovers from both.

    Agreement.  [Canonical] (proof canonical.ts) is the JSON text every identifier
    hashes.  [Authority] (authority/src) decides whether an agent's action is
    covered by a signed mandate.  [Governance], [Voting] and [Mandates]
    (governance/src) freeze members, count ballots in binary64 arithmetic and turn
    a passed proposal into mandates that [Authority] accepts.

    Channels.  [Guards], [Omnia], [Transactions], [Eltoo], [Programs], [Sign] and
    [Channel] (omnia/src guards.ts and capacity.ts; types.ts, state-vars.ts and
    transition.ts; transactions.ts; script.ts; program.ts; sign.ts, close-package.ts and
    addresses.ts; channel.ts and htlc.ts) write the script that guards the channel coin,
    and build, sign and verify the states of a payment channel.  They ask for signing
    indices through the class [WotsLeaseProvider] of [Sign]; [SigningSpec] states its
    laws, [LeaseLaws], and proves that [Local] satisfies them.  [Draft]
    (transactions.ts) reads the text of a draft back; [Receipt] (htlc.ts) has the
    receipts of fulfilled payments; [Opening] (channel.ts) opens a channel and accepts
    one; [Settlement] (settlement.ts, witness.ts) closes a channel, with the consent of
    all or with the last co-signed state, over the classes [ChainStateProvider] and
    [TxPow]; every transaction handed over is recorded with its witness.  [KissChannel]
    (kissvm.ts) runs the channel script in [Eval] over the transaction of a state.

    Scripts.  [MiniNumber], [Lexer], [Parser], [Vm] and [Eval] (kissvm/src) are the
    interpreter of the on-chain language KISSVM: decimals, tokens, trees, the
    machine and the evaluator.  It first passes a script through [NodeScript]
    (core scripts/canonical.ts) and walks Merkle proofs of [Mmr] (core mmr.ts,
    Streamable.ts), the tree behind wallet keys, MAST and the PROOF opcode.

    Wallet keys.  [Wots] (core wots.ts) signs with Winternitz chains over SHA-3;
    [TreeKey] (core treekey.ts, verify.ts, javaStreamables.ts) builds from them trees
    of one-time keys under one public key, whose use counter names the leaf that
    signs; no two signatures should ever share a counter.

    Wallets.  [MinimaTx] (core transaction.ts, Streamable.ts) writes and reads the
    transactions that a wallet signs, computes their digests and the ids of tokens and
    outputs.  [Address] (minima32.ts, script.ts, derive.ts, verify.ts,
    address-derivation.ts) turns a public key of [TreeKey] into the address of its
    script's [Mmr] leaf, derives addresses from a seed and verifies a signed message
    against an address.

    Language.  [JsBase], with the facts of [JsText], [JsMap] and [NumSpec], is what
    these parts use of JavaScript: binary64 numbers as exact rationals, strings,
    untyped values with their identity, decimal and hexadecimal text, maps in
    insertion order, UTF-8 and bytes; [Json] is JSON.parse with a reviver, and
    JSON.stringify.

    ** State, steps and errors

    A class or store of the source is a record; a method is a function of type [M S E
    A], from a state to a result and the state it leaves, so what a call changed before
    it threw is visible.  A durable write may be refused: the medium is part of the
    state and a list of answers decides.  Calls that the source serialises with a lock
    are single steps of what the lock belongs to: one provider, or one adapter object;
    histories are inductive relations or lists of calls, with any interleaving of
    instances over one adapter object, and for reservations also over distinct ones.  An
    asynchronous call outside a lock, such as signing in [Sign], is split where the
    source awaits.

    ** What is shown

    - Keys: the allocator returns the least free leaf; no leaf is reserved twice
      whatever instances, crashes and refused writes a history has, over one adapter
      object or with compare-and-set (distinct adapter objects without it are kept apart
      by nothing but a refresh); no call of the watermark but those that give leaves
      back lets a consumed leaf be allocated; recovery covers the journal; settled
      reservations are final; over any provider with these laws, and so over the local
      one, no leaf signs two digests.
    - Journal, leases and seeds: validation, append, hash chain, atomic roll-back,
      restart, migration and hand-over.
    - Agreement: canonical text identifies values; the decision of the authority engine
      on every branch; limits over every window; the count is exact, bounded and errs on
      one side only; delegation ends; a governed mandate binds its action.
    - Channels: opening gives both sides one channel, whose coin lies at the address of
      its script; value is conserved along every history whose attached states lock what
      the channel locks, which the code does not compare; a payment is settled once,
      accepted updates do not fork, the digest commits to the whole state, program
      ledgers balance, vaults release in time.  A close broadcasts the very transactions
      that all parties signed, and the settlement of the last update after its contest;
      a settlement request is signed for the channel's own settlement only, which pays
      each party its balance.
    - Scripts: evaluation ends within the instruction limit for every text, unless a
      SAMESTATE walks a range of equal ports that it does not finish; a script that
      parses never reaches a default branch; decimal addition is exact or refused;
      MULTISIG, MAST, SAMESTATE and PROOF decide what they should; the canonical text
      keeps distinct variables distinct.
    - Channel scripts: the text that [Eltoo] and [Programs] write is parsed and run for
      all keys and delays at once ([FrameSpec], [EltooParse], [EltooRun]); whatever the
      program, a channel coin moves only by both signatures with a newer sequence, or by
      a settlement after the contest window; what the pre-validation of a state decides,
      and that it refuses the signatures the channel layer makes.
    - Merkle trees: every leaf of a full tree verifies; a root binds its leaves up to a
      collision; proofs survive their byte form, so scripts and wallet agree.
    - Wallet keys: every signature of a tree verifies under its public key, in any state
      a wallet can bring it to; at different counters no key signs two messages,
      whatever the cache of parent signatures holds; the checksum leaves no signature to
      be extended to another digest; signatures survive their byte form; where the two
      verifiers differ.
    - Wallets: from seed to verified message, what a derived address's key tree signs
      verifies against the address; an address belongs to one key and reads back from
      its text; a transaction whose amounts have fewer than 256 decimals survives its
      byte form and its digest commits to what it means, output ids name outputs, and
      only whole transactions are read.

    Hash functions, signature schemes and lease providers are parameters.  No theorem
    assumes that a hash is injective: a conclusion that needs it offers a collision as
    the other case, and names the strings, those the code has hashed, among which it is.

    ** Bounds and fuel

    The allocation scan is bounded by the 64 x 64 x 64 leaves of a tree.  The tokenizer
    and [toNodeScript] take the length of the text, the parser the number of tokens and
    one: every call or turn consumes one, and [ParserSpec] proves that this fuel never
    runs out.  The evaluator takes any fuel above the 1024 instructions of its limit,
    since every level of its recursion counts one first; [EvalSpec] proves that it then
    never runs out.  Channel scripts nest four levels deep, and any fuel from four will
    do.  The one loop of the evaluator that counts nothing, SAMESTATE, is given a number
    of turns as a parameter, and running out of them is the separate outcome [Endless]
    with the port that was reached, since such a loop need not end ([OpcodeSpec]).  The
    search for a canonical name tries one candidate more than there are names.  [Json]
    takes twice the length of the text and two; [JsonSpec] proves that more fuel reads
    the same.  Decimal printing, [addLeaf] and the path of a use counter are bounded by
    a logarithm, which a negative counter, that [setUses] admits, makes run out: the
    outcome [Endless] of [TreeKey].

    ** What is left out, and why

    Strings are sequences of the 256 Latin-1 code units; upper-casing is ASCII's, and
    decoding yields a question mark for what has no place among them.  A plain object
    has its own members only, in the order of their insertion even when they are
    numerals: keys such as constructor, which JavaScript finds on the prototype, are
    absent.  The sign of zero, the size limit of BigInt and the depth of the host's
    stack are not kept.  Time is read once per call.  Locale-sensitive order is a
    parameter where the source uses it.  An adapter returns fresh values: a medium that
    hands out the same mutable object twice is not modelled.

    The wait for a funding coin is a number of further readings of the chain, those that
    fit before its deadline.  Left out of the modelled packages: source spans, sqrt, the
    simulation and template files (kissvm); witnesses, coin proofs, transaction builders
    and coin selection, seed phrases, the cache of child nodes and the progress reports
    (core).  Packages that talk to sockets, devices, servers or a chain node, user
    interfaces, generated bindings, tests and documentation are not modelled; the
    manifest lists them with the reason.*)

From Stdlib Require Import ZArith Lia QArith Ascii String.
From stdpp Require Import base gmap sets list strings pretty.

#[global] Open Scope Z_scope.

(** ** Errors as values *)

(** Outcome of a call that may throw: [Ok a] when it returns [a], [Err e] when
    it throws [e]. *)
Inductive result (E A : Type) : Type :=
| Ok (a : A)
| Err (e : E).
Arguments Ok {E A} a.
Arguments Err {E A} e.

#[global] Instance result_ret {E} : MRet (result E) := λ A a, Ok a.
#[global] Instance result_bind {E} : MBind (result E) := λ A B f m,
  match m with Ok a => f a | Err e => Err e end.
#[global] Instance result_fmap {E} : FMap (result E) := λ A B f m,
  match m with Ok a => Ok (f a) | Err e => Err e end.

Definition is_ok {E A} (r : result E A) : bool :=
  match r with Ok _ => true | Err _ => false end.

(** [throw_if b e]: the guard [if (b) throw e]. *)
Definition throw_if {E} (b : bool) (e : E) : result E unit :=
  if b then Err e else Ok tt.

Definition of_option {E A} (e : E) (o : option A) : result E A :=
  match o with Some a => Ok a | None => Err e end.

Fixpoint result_mapM {E A B} (f : A → result E B) (l : list A) : result E (list B) :=
  match l with
  | [] => Ok []
  | a :: l => b ← f a; bs ← result_mapM f l; Ok (b :: bs)
  end.

(** ** Mutable state and exceptions

    A method that mutates an object and may throw.  As in JavaScript, an
    exception does not undo the mutations made before it. *)
Definition M (S E A : Type) : Type := S → result E A * S.

#[global] Instance M_ret {S E} : MRet (M S E) := λ A a s, (Ok a, s).
#[global] Instance M_bind {S E} : MBind (M S E) := λ A B f m s,
  match m s with
  | (Ok a, s') => f a s'
  | (Err e, s') => (Err e, s')
  end.
#[global] Instance M_fmap {S E} : FMap (M S E) := λ A B f m, a ← m; mret (f a).

Definition mget {S E} : M S E S := λ s, (Ok s, s).
Definition mput {S E} (s : S) : M S E unit := λ _, (Ok tt, s).
Definition mmodify {S E} (f : S → S) : M S E unit := λ s, (Ok tt, f s).
Definition mthrow {S E A} (e : E) : M S E A := λ s, (Err e, s).
Definition mlift {S E A} (r : result E A) : M S E A := λ s, (r, s).
Definition mthrow_if {S E} (b : bool) (e : E) : M S E unit := mlift (throw_if b e).

(** [for (const a of l) await f(a)] *)
Fixpoint mfor {S E A} (f : A → M S E unit) (l : list A) : M S E unit :=
  match l with
  | [] => mret tt
  | a :: l => _ ← f a; mfor f l
  end.

(** [try { m } catch (e) { h(e); throw e }]: the roll-back idiom. *)
Definition mrollback {S E A} (m : M S E A) (h : S → S) : M S E A := λ s,
  match m s with
  | (Ok a, s') => (Ok a, s')
  | (Err e, s') => (Err e, h s')
  end.

(** [try { m } catch (e) { h(e) }] *)
Definition mcatch {S E A} (m : M S E A) (h : E → M S E A) : M S E A := λ s,
  match m s with
  | (Ok a, s') => (Ok a, s')
  | (Err e, s') => h e s'
  end.

(** [await m.catch(() => {})] *)
Definition mignore {S E A} (m : M S E A) : M S E unit := λ s, (Ok tt, (m s).2).

Lemma result_bind_Ok {E A B} (m : result E A) (f : A → result E B) b :
  m ≫= f = Ok b ↔ ∃ a, m = Ok a ∧ f a = Ok b.
Proof. destruct m; naive_solver. Qed.

Lemma result_bind_Err {E A B} (m : result E A) (f : A → result E B) e :
  m ≫= f = Err e ↔ m = Err e ∨ ∃ a, m = Ok a ∧ f a = Err e.
Proof. destruct m; naive_solver. Qed.

Lemma Ok_inj {E A} (a b : A) : @Ok E A a = Ok b → a = b.
Proof. congruence. Qed.

Lemma throw_if_Ok {E} b (e : E) : throw_if b e = Ok tt ↔ b = false.
Proof. destruct b; naive_solver. Qed.

Lemma mbind_Ok {S E A B} (m : M S E A) (f : A → M S E B) s b s' :
  (m ≫= f) s = (Ok b, s') ↔ ∃ a s1, m s = (Ok a, s1) ∧ f a s1 = (Ok b, s').
Proof.
  unfold mbind, M_bind. destruct (m s) as [[a|e] s1]; naive_solver.
Qed.

Lemma mbind_Err {S E A B} (m : M S E A) (f : A → M S E B) s e s' :
  (m ≫= f) s = (Err e, s') ↔
  m s = (Err e, s') ∨ ∃ a s1, m s = (Ok a, s1) ∧ f a s1 = (Err e, s').
Proof.
  unfold mbind, M_bind. destruct (m s) as [[a|e'] s1]; naive_solver.
Qed.

Lemma mlift_Ok {S E A} (r : result E A) (s : S) a s' : mlift r s = (Ok a, s') ↔ r = Ok a ∧ s' = s.
Proof. unfold mlift. naive_solver. Qed.
Lemma mthrow_if_Ok {S E} b (e : E) (s : S) u s' : mthrow_if b e s = (Ok u, s') ↔ b = false ∧ s' = s.
Proof. unfold mthrow_if. rewrite mlift_Ok. destruct b, u; naive_solver. Qed.

Lemma result_mapM_Ok {E A B} (f : A → result E B) l k :
  result_mapM f l = Ok k ↔ Forall2 (λ a b, f a = Ok b) l k.
Proof.
  revert k; induction l as [|a l IH]; intros k; simpl.
  - split; [intros [= <-]; constructor | by inversion 1].
  - rewrite result_bind_Ok. setoid_rewrite result_bind_Ok. setoid_rewrite IH.
    split.
    + intros (b & Hb & bs & Hbs & [= <-]). by constructor.
    + inversion 1; subst. eauto.
Qed.

(** ** Collisions

    Two different members of a list with one image.  A statement that offers a
    collision names the inputs among which it lies, those that the code hashed: over
    all inputs every hash of bounded length has one. *)
Definition collision_in {A B} (h : A → B) (l : list A) : Prop := ∃ x y, x ∈ l ∧ y ∈ l ∧ x ≠ y ∧ h x = h y.
Lemma same_or_collision `{EqDecision A} {B} (h : A → B) l x y :
  x ∈ l → y ∈ l → h x = h y → x = y ∨ collision_in h l.
Proof. intros Hx Hy E. destruct (decide (x = y)) as [|N]; [by left|right; by exists x, y]. Qed.
Lemma collision_weaken {A B} (h : A → B) l k : l ⊆ k → collision_in h l → collision_in h k.
Proof. intros Hl (x & y & Hx & Hy & H). exists x, y. split; [by apply Hl|]. split; [by apply Hl|done]. Qed.

(** ** Program logic for [M]

    [ensures P m Q]: from a state in [P], [m] ends in a state in [Q], whether it
    returns or throws.  This is how invariants are carried through exceptions. *)
Definition ensures {S E A} (P : S → Prop) (m : M S E A) (Q : result E A → S → Prop) : Prop :=
  ∀ s, P s → Q (m s).1 (m s).2.

(** [preserves I m]: the object invariant [I] survives [m], on every exit. *)
Definition preserves {S E A} (I : S → Prop) (m : M S E A) : Prop :=
  ensures I m (λ _, I).

Lemma preserves_ret {S E A} (I : S → Prop) (a : A) : preserves I (mret a : M S E A).
Proof. by intros s. Qed.
Lemma preserves_lift {S E A} (I : S → Prop) (r : result E A) : preserves I (mlift r : M S E A).
Proof. by intros s. Qed.
Lemma preserves_get {S E} (I : S → Prop) : preserves I (mget : M S E S).
Proof. by intros s. Qed.
Lemma preserves_modify {S E} (I : S → Prop) f :
  (∀ s, I s → I (f s)) → preserves I (mmodify f : M S E unit).
Proof. intros H s Hs. by apply H. Qed.

Lemma preserves_bind {S E A B} (I : S → Prop) (m : M S E A) (f : A → M S E B) :
  preserves I m → (∀ a, preserves I (f a)) → preserves I (m ≫= f).
Proof.
  intros Hm Hf s Hs. specialize (Hm s Hs). unfold mbind, M_bind.
  destruct (m s) as [[a|e] s1]; simpl in *; [by apply Hf | done].
Qed.

Lemma preserves_catch {S E A} (I : S → Prop) (m : M S E A) (h : E → M S E A) :
  preserves I m → (∀ e, preserves I (h e)) → preserves I (mcatch m h).
Proof.
  intros Hm Hh s Hs. specialize (Hm s Hs). unfold mcatch.
  destruct (m s) as [[a|e] s1]; simpl in *; [done | by apply Hh].
Qed.

Lemma preserves_ignore {S E A} (I : S → Prop) (m : M S E A) : preserves I m → preserves I (mignore m).
Proof. intros Hm s Hs. exact (Hm s Hs). Qed.

Lemma preserves_for {S E A} (I : S → Prop) (f : A → M S E unit) l :
  (∀ a, a ∈ l → preserves I (f a)) → preserves I (mfor f l).
Proof.
  induction l as [|a l IH]; intros H; simpl; [apply preserves_ret|].
  apply preserves_bind; [apply H; set_solver|]. intros _. apply IH. set_solver.
Qed.

Create HintDb totem.
#[export] Hint Resolve preserves_ret preserves_lift preserves_get
  preserves_modify preserves_bind preserves_for preserves_catch preserves_ignore : totem.
#[export] Hint Rewrite @result_bind_Ok @mbind_Ok @throw_if_Ok : totem.

(** ** Durable writes

    Each durable cell carries a fault schedule: one boolean per future write,
    [true] when the write is refused (full medium, or the process dies there);
    an exhausted schedule refuses nothing.  Theorems quantify over schedules, so
    they cover a crash before any write. *)
Definition write_refused (faults : list bool) : bool := default false (head faults).

(** Run a method of a component inside the object that owns it. *)
Definition zoom {S T E E' A} (get : T → S) (put : S → T → T) (inj : E → E')
    (m : M S E A) : M T E' A := λ t,
  match m (get t) with
  | (Ok a, s) => (Ok a, put s t)
  | (Err e, s) => (Err (inj e), put s t)
  end.

Lemma preserves_zoom {S T E E' A} (get : T → S) (put : S → T → T) (inj : E → E')
    (m : M S E A) (I : S → Prop) (J : T → Prop) :
  preserves I m →
  (∀ t, J t → I (get t)) → (∀ s t, J t → I s → J (put s t)) →
  preserves J (zoom get put inj m).
Proof.
  intros Hm Hget Hput t Ht. unfold zoom. specialize (Hm (get t) (Hget t Ht)).
  destruct (m (get t)) as [[a|e] s]; simpl in *; auto.
Qed.

(** ** Tactics *)

(** Split the guards of a handler: every [match] and [if] of the goal or of a
    hypothesis, with the impossible branches closed. *)
Ltac split_guards :=
  repeat (case_match; simplify_eq/=).

(** Read off the steps of a returning monadic computation. *)
Ltac inv_M :=
  repeat match goal with
  | H : (_ ≫= _) = Ok _ |- _ => apply result_bind_Ok in H as (? & ? & H)
  | H : (_ ≫= _) _ = (Ok _, _) |- _ => apply mbind_Ok in H as (? & ? & ? & H)
  | H : throw_if _ _ = Ok ?u |- _ => destruct u; apply throw_if_Ok in H
  | H : mret _ = Ok _ |- _ => injection H as H
  | H : mret _ _ = (Ok _, _) |- _ => injection H as ? ?
  | H : Ok _ = Ok _ |- _ => injection H as H
  end; simplify_eq/=.
