(* ===== verification/JsBase.v ===== *)
(** * The JavaScript values and built-ins the SDK relies on

    Strings are sequences of code units in 0..255 (the Latin-1 part of UTF-16),
    numbers are the binary64 values, written as exact rationals with the two
    infinities and NaN (the sign of zero is not kept), and [jsval] is the type
    [unknown] of the source: what a decoded record or an untyped constraint can
    hold.  Arrays and objects carry an identity, because [===] compares them by
    reference. *)

From Stdlib Require Import ZArith Lia QArith Ascii String.
From stdpp Require Import base gmap list strings pretty.
From S2P Require Import Prelude.

(** ** Characters and strings *)

Module Js.

Definition code (c : ascii) : Z := Z.of_N (N_of_ascii c).
Definition in_range (lo hi : Z) (c : ascii) : bool := (lo <=? code c) && (code c <=? hi).
Definition is_digit (c : ascii) : bool := in_range 48 57 c.
Definition is_lower_hex (c : ascii) : bool := is_digit c || in_range 97 102 c.
Definition is_hex_digit (c : ascii) : bool := is_lower_hex c || in_range 65 70 c.
(** [\s] within the code units modelled. *)
Definition is_space (c : ascii) : bool := in_range 9 13 c || (code c =? 32) || (code c =? 160).

Definition is_letter (c : ascii) : bool := in_range 65 90 c || in_range 97 122 c.

Fixpoint str_forallb (p : ascii → bool) (s : string) : bool :=
  match s with
  | EmptyString => true
  | String c s => p c && str_forallb p s
  end.

(** [/^\d+$/.test(s)] *)
Definition all_digits (s : string) : bool :=
  match s with EmptyString => false | _ => str_forallb is_digit s end.

(** [s.split(sep)] for a one-character separator. *)
Fixpoint split_on (sep : ascii) (s : string) : list string :=
  match s with
  | EmptyString => [EmptyString]
  | String c s' =>
      match split_on sep s' with
      | w :: ws => if Ascii.eqb c sep then EmptyString :: w :: ws else String c w :: ws
      | [] => []
      end
  end.

Definition includes_char (c : ascii) (s : string) : bool := negb (str_forallb (λ d, negb (Ascii.eqb c d)) s).

(** [s.slice(n)] and [s.slice(0, n)] *)
Fixpoint drop_str (n : nat) (s : string) : string :=
  match n, s with
  | O, _ => s
  | S n, String _ s => drop_str n s
  | S _, EmptyString => EmptyString
  end.
Fixpoint take_str (n : nat) (s : string) : string :=
  match n, s with
  | S n, String c s => String c (take_str n s)
  | _, _ => EmptyString
  end.
Definition starts_with (p s : string) : bool := String.prefix p s.

Fixpoint repeat_char (n : nat) (c : ascii) : string :=
  match n with O => EmptyString | S n => String c (repeat_char n c) end.
(** [s.padStart(n, c)] *)
Definition pad_start (n : nat) (c : ascii) (s : string) : string :=
  repeat_char (n - String.length s) c +:+ s.

Fixpoint trim_start (s : string) : string :=
  match s with
  | String c s' => if is_space c then trim_start s' else s
  | EmptyString => EmptyString
  end.
Fixpoint rev_str (acc s : string) : string :=
  match s with EmptyString => acc | String c s => rev_str (String c acc) s end.
Definition trim (s : string) : string :=
  rev_str "" (trim_start (rev_str "" (trim_start s))).

(** ** Numbers *)

Definition MAX_SAFE_INTEGER : Z := 2 ^ 53 - 1.
(** [Number.isSafeInteger] on an integer-valued number. *)
Definition is_safe_integer (z : Z) : bool := Z.abs z <=? MAX_SAFE_INTEGER.

Inductive jsnum : Type :=
| NFin (q : Q)
| NInf (neg : bool)
| NNaN.

Definition of_Z (z : Z) : jsnum := NFin (inject_Z z).

(** Quotient rounded to the nearest integer, ties to even ([n >= 0], [d > 0]). *)
Definition round_half_even (n d : Z) : Z :=
  let q := n / d in
  let r := n - q * d in
  match Z.compare (2 * r) d with
  | Lt => q
  | Gt => q + 1
  | Eq => if Z.even q then q else q + 1
  end.

(** The binary64 value nearest to [n / d] ([n >= 0]): the exponent [k] of the
    last significand bit, clamped at the subnormals, then rounding to a multiple
    of [2 ^ k]. *)
Definition round_pos (n : Z) (d : positive) : option Q :=
  if n =? 0 then Some (inject_Z 0) else
  let e0 := Z.log2 n - Z.log2 (Z.pos d) in
  let below := if 0 <=? e0 then n <? Z.pos d * 2 ^ e0 else n * 2 ^ (- e0) <? Z.pos d in
  let e := if below then e0 - 1 else e0 in
  let k := Z.max (e - 52) (- 1074) in
  let m := if 0 <=? k then round_half_even n (Z.pos d * 2 ^ k)
           else round_half_even (n * 2 ^ (- k)) (Z.pos d) in
  let v := if 0 <=? k then inject_Z (m * 2 ^ k) else Qmake m (Z.to_pos (2 ^ (- k))) in
  if Qle_bool (inject_Z (2 ^ 1024)) v then None else Some v.

Definition to_binary64 (q : Q) : jsnum :=
  let neg := Qnum q <? 0 in
  match round_pos (Z.abs (Qnum q)) (Qden q) with
  | Some v => NFin (Qred (if neg then Qopp v else v))
  | None => NInf neg
  end.

Definition num_neg (a : jsnum) : bool :=
  match a with NFin q => Qnum q <? 0 | NInf n => n | NNaN => false end.
Definition num_zero (a : jsnum) : bool := match a with NFin q => Qeq_bool q 0 | _ => false end.

(** [a + b], [a - b], [a * b] and [a / b]; a zero divisor counts as positive. *)
Definition num_add (a b : jsnum) : jsnum :=
  match a, b with
  | NFin a, NFin b => to_binary64 (Qplus a b)
  | NNaN, _ | _, NNaN => NNaN
  | NInf n, NInf n' => if Bool.eqb n n' then NInf n else NNaN
  | NInf n, NFin _ | NFin _, NInf n => NInf n
  end.
Definition num_opp (a : jsnum) : jsnum :=
  match a with NFin q => NFin (Qopp q) | NInf n => NInf (negb n) | NNaN => NNaN end.
Definition num_sub (a b : jsnum) : jsnum := num_add a (num_opp b).
Definition num_mul (a b : jsnum) : jsnum :=
  match a, b with
  | NFin a, NFin b => to_binary64 (Qmult a b)
  | NNaN, _ | _, NNaN => NNaN
  | _, _ => if num_zero a || num_zero b then NNaN else NInf (xorb (num_neg a) (num_neg b))
  end.
Definition num_div (a b : jsnum) : jsnum :=
  match a, b with
  | NNaN, _ | _, NNaN | NInf _, NInf _ => NNaN
  | NFin _, NInf _ => of_Z 0
  | NInf n, NFin _ => NInf (xorb n (num_neg b))
  | NFin p, NFin q => if Qeq_bool q 0 then (if Qeq_bool p 0 then NNaN else NInf (num_neg a))
                      else to_binary64 (Qdiv p q)
  end.
(** [Math.floor(a)] *)
Definition num_floor (a : jsnum) : jsnum :=
  match a with NFin q => of_Z (Qnum q / Z.pos (Qden q)) | _ => a end.
Definition num_is_finite (a : jsnum) : bool := match a with NFin _ => true | _ => false end.

(** [a < b] and [a <= b]; every comparison with NaN is false. *)
Definition num_lt (a b : jsnum) : bool :=
  match a, b with
  | NNaN, _ | _, NNaN => false
  | NFin a, NFin b => negb (Qle_bool b a)
  | NInf n, NInf n' => n && negb n'
  | NInf n, NFin _ => n
  | NFin _, NInf n => negb n
  end.
Definition num_le (a b : jsnum) : bool :=
  match a, b with
  | NNaN, _ | _, NNaN => false
  | NFin a, NFin b => Qle_bool a b
  | NInf n, NInf n' => n || negb n'
  | NInf n, NFin _ => n
  | NFin _, NInf n => negb n
  end.
(** [a === b] on numbers *)
Definition num_eqb (a b : jsnum) : bool :=
  match a, b with
  | NFin a, NFin b => Qeq_bool a b
  | NInf n, NInf n' => Bool.eqb n n'
  | _, _ => false
  end.

(** The integer a number denotes, if it is one. *)
Definition num_integer (n : jsnum) : option Z :=
  match n with
  | NFin q => if Qnum q mod Z.pos (Qden q) =? 0 then Some (Qnum q / Z.pos (Qden q)) else None
  | _ => None
  end.

(** [Number.isSafeInteger(n)] *)
Definition num_is_safe_integer (n : jsnum) : bool :=
  match num_integer n with Some z => is_safe_integer z | None => false end.
(** [Math.min(a, b)] *)
Definition num_min (a b : jsnum) : jsnum :=
  match a, b with
  | NNaN, _ | _, NNaN => NNaN
  | _, _ => if num_le a b then a else b
  end.
(** [!n] *)
Definition num_max (a b : jsnum) : jsnum :=
  match a, b with
  | NNaN, _ | _, NNaN => NNaN
  | _, _ => if num_lt a b then b else a
  end.
(** The keys of a Map: NaN is itself. *)
Definition num_same (a b : jsnum) : bool :=
  match a, b with NNaN, NNaN => true | _, _ => num_eqb a b end.
Definition num_falsy (n : jsnum) : bool := num_zero n || match n with NNaN => true | _ => false end.

(** ** Numerals *)

Definition digit_val (c : ascii) : option Z :=
  if in_range 48 57 c then Some (code c - 48)
  else if in_range 97 122 c then Some (code c - 87)
  else if in_range 65 90 c then Some (code c - 55)
  else None.

Fixpoint radix_digits (base acc : Z) (s : string) : option Z :=
  match s with
  | EmptyString => Some acc
  | String c s =>
      match digit_val c with
      | Some d => if d <? base then radix_digits base (acc * base + d) s else None
      | None => None
      end
  end.
(** A non-empty digit sequence in the given base. *)
Definition parse_radix (base : Z) (s : string) : option Z :=
  match s with EmptyString => None | _ => radix_digits base 0 s end.

(** [0x..], [0o..], [0b..] *)
Definition parse_prefixed (s : string) : option Z :=
  match s with
  | String z (String k r) =>
      if Ascii.eqb z "0" then
        if Ascii.eqb k "x" || Ascii.eqb k "X" then parse_radix 16 r
        else if Ascii.eqb k "o" || Ascii.eqb k "O" then parse_radix 8 r
        else if Ascii.eqb k "b" || Ascii.eqb k "B" then parse_radix 2 r
        else None
      else None
  | _ => None
  end.

Definition parse_signed (s : string) : option Z :=
  match s with
  | String c r =>
      if Ascii.eqb c "-" then Z.opp <$> parse_radix 10 r
      else if Ascii.eqb c "+" then parse_radix 10 r
      else parse_radix 10 s
  | EmptyString => None
  end.

(** [BigInt(s)] on a string; [None] is the SyntaxError. *)
Definition big_of_string (s : string) : option Z :=
  let t := trim s in
  match t with
  | EmptyString => Some 0
  | _ => match parse_prefixed t with Some z => Some z | None => parse_signed t end
  end.

(** Split a string at the first character satisfying [p]. *)
Fixpoint break_at (p : ascii → bool) (s : string) : string * option string :=
  match s with
  | EmptyString => (EmptyString, None)
  | String c r => if p c then (EmptyString, Some r)
                  else let '(a, b) := break_at p r in (String c a, b)
  end.

(** [n * 10^k] as a rational. *)
Definition pow10_q (k : Z) (n : Z) : Q :=
  if 0 <=? k then inject_Z (n * 10 ^ k) else Qmake n (Z.to_pos (10 ^ (- k))).

(** An unsigned decimal literal [ddd.ddd] with an optional exponent. *)
Definition parse_udecimal (s : string) : option Q :=
  let '(mant, ex) := break_at (λ c, Ascii.eqb c "e" || Ascii.eqb c "E") s in
  let '(ip, fp) := break_at (Ascii.eqb ".") mant in
  let frac := match fp with Some f => f | None => "" end in
  match parse_radix 10 (ip +:+ frac),
        (match ex with None => Some 0 | Some e => parse_signed e end) with
  | Some n, Some e => Some (pow10_q (e - Z.of_nat (String.length frac)) n)
  | _, _ => None
  end.

(** [Number(s)] on a string. *)
Definition num_of_string (s : string) : jsnum :=
  let t := trim s in
  match t with
  | EmptyString => of_Z 0
  | String c r =>
      match parse_prefixed t with
      | Some z => to_binary64 (inject_Z z)
      | None =>
          let '(neg, body) :=
            if Ascii.eqb c "-" then (true, r) else if Ascii.eqb c "+" then (false, r) else (false, t) in
          if String.eqb body "Infinity" then NInf neg
          else match parse_udecimal body with
               | Some q => to_binary64 (if neg then Qopp q else q)
               | None => NNaN
               end
      end
  end.

(** [z.toString(10)] for [z >= 0]. *)
Definition digit_char (d : Z) : ascii := ascii_of_N (Z.to_N (48 + d)).
Fixpoint dec_acc (fuel : nat) (n : Z) (s : string) : string :=
  match fuel with
  | O => s
  | S fuel => if n <? 10 then String (digit_char n) s
              else dec_acc fuel (n / 10) (String (digit_char (n mod 10)) s)
  end.
Definition dec (n : Z) : string := dec_acc (S (Z.to_nat (Z.log2 n))) n "".

(** The decimal exponent [e] with [10^(e-1) <= q < 10^e], for [q > 0]. *)
Fixpoint small_exponent (fuel : nat) (q : Q) : Z :=
  match fuel with
  | O => 0
  | S fuel => if Qle_bool 1 (q * inject_Z 10) then 0 else small_exponent fuel (q * inject_Z 10) - 1
  end.
Definition dec_exponent (q : Q) : Z :=
  if Qle_bool 1 q then Z.of_nat (String.length (dec (Qnum q / Z.pos (Qden q))))
  else small_exponent 330 q.

(** The least number of digits whose decimal reads back as [q]. *)
Fixpoint shortest (fuel : nat) (k e : Z) (q : Q) : Z * Z :=
  let scaled := (q * pow10_q (k - e) 1)%Q in
  let n := round_half_even (Qnum scaled) (Z.pos (Qden scaled)) in
  match fuel with
  | O => (n, k)
  | S fuel =>
      match to_binary64 (pow10_q (e - k) n) with
      | NFin v => if Qeq_bool v q then (n, k) else shortest fuel (k + 1) e q
      | _ => shortest fuel (k + 1) e q
      end
  end.

(** Number::toString on a positive value: the digits [s] (there are [k]), the
    decimal point after the [e]-th. *)
Definition layout_number (s : string) (k e : Z) : string :=
  if (k <=? e) && (e <=? 21) then s +:+ repeat_char (Z.to_nat (e - k)) "0"
  else if (0 <? e) && (e <=? 21) then take_str (Z.to_nat e) s +:+ "." +:+ drop_str (Z.to_nat e) s
  else if (-6 <? e) && (e <=? 0) then "0." +:+ repeat_char (Z.to_nat (- e)) "0" +:+ s
  else
    let mant := if k =? 1 then s else take_str 1 s +:+ "." +:+ drop_str 1 s in
    mant +:+ "e" +:+ (if e - 1 <? 0 then "-" else "+") +:+ dec (Z.abs (e - 1)).

Definition shortest_to_string (q : Q) : string :=
  let e := dec_exponent q in
  let '(n, k) := shortest 17 1 e q in
  if n =? 10 ^ k then layout_number (dec (10 ^ (k - 1))) k (e + 1) else layout_number (dec n) k e.

(** Safe integers print as themselves. *)
Definition pos_to_string (q : Q) : string :=
  match num_integer (NFin q) with
  | Some z => if z <=? MAX_SAFE_INTEGER then dec z else shortest_to_string q
  | None => shortest_to_string q
  end.

(** [String(n)] *)
Definition num_to_string (n : jsnum) : string :=
  match n with
  | NNaN => "NaN"
  | NInf neg => if neg then "-Infinity" else "Infinity"
  | NFin q => if Qeq_bool q 0 then "0"
              else if Qnum q <? 0 then String "-" (pos_to_string (Qopp q)) else pos_to_string q
  end.

(** The longest prefix of characters in [p], and the rest. *)
Fixpoint span_while (p : ascii → bool) (s : string) : string * string :=
  match s with
  | String c r => if p c then let '(a, b) := span_while p r in (String c a, b) else (EmptyString, s)
  | EmptyString => (EmptyString, EmptyString)
  end.

(** ** Values *)

Inductive jsval : Type :=
| JUndef
| JNull
| JBool (b : bool)
| JNum (n : jsnum)
| JBig (z : Z)
| JStr (s : string)
| JFun (name : string)
| JArr (id : positive) (l : list jsval)
| JObj (id : positive) (fields : list (string * jsval)).

(** [a === b] *)
Definition strict_eq (a b : jsval) : bool :=
  match a, b with
  | JUndef, JUndef | JNull, JNull => true
  | JBool x, JBool y => Bool.eqb x y
  | JNum x, JNum y => num_eqb x y
  | JBig x, JBig y => Z.eqb x y
  | JStr x, JStr y => String.eqb x y
  | JFun x, JFun y => String.eqb x y
  | JArr i _, JArr j _ | JObj i _, JObj j _ => Pos.eqb i j
  | _, _ => false
  end.

(** [a] and [b] are the same value for [Array.prototype.includes], which unlike
    [===] finds NaN. *)
Definition same_value_zero (a b : jsval) : bool :=
  match a, b with
  | JNum NNaN, JNum NNaN => true
  | _, _ => strict_eq a b
  end.

Definition get_own (fields : list (string * jsval)) (k : string) : option jsval :=
  snd <$> List.find (λ kv, String.eqb (fst kv) k) fields.

(** Properties every plain object inherits from [Object.prototype]. *)
Definition object_proto_keys : list string :=
  ["constructor"; "__defineGetter__"; "__defineSetter__"; "hasOwnProperty";
   "__lookupGetter__"; "__lookupSetter__"; "isPrototypeOf"; "propertyIsEnumerable";
   "toString"; "valueOf"; "__proto__"; "toLocaleString"]%string.

(** The exceptions of the language's own operations. *)
Inductive js_error := TypeError | RangeError | SyntaxError.
#[global] Instance js_error_eq_dec : EqDecision js_error.
Proof. solve_decision. Defined.

Definition big_to_string (z : Z) : string := if z <? 0 then String "-" (dec (- z)) else dec z.

Definition join_with (sep : string) (l : list string) : string := String.concat sep l.

(** [String(v)]; the source text of a function is not modelled. *)
Fixpoint to_string (v : jsval) : string :=
  match v with
  | JUndef => "undefined" | JNull => "null"
  | JBool b => if b then "true" else "false"
  | JNum n => num_to_string n | JBig z => big_to_string z
  | JStr s => s
  | JFun name => "function " +:+ name
  | JArr _ l => join_with "," (map (λ x, match x with JUndef | JNull => "" | _ => to_string x end) l)
  | JObj _ _ => "[object Object]"
  end.

(** [Number(v)] *)
Definition to_number (v : jsval) : jsnum :=
  match v with
  | JUndef | JFun _ | JObj _ _ => NNaN
  | JNull => of_Z 0
  | JBool b => of_Z (if b then 1 else 0)
  | JNum n => n
  | JBig z => to_binary64 (inject_Z z)
  | JStr s => num_of_string s
  | JArr _ _ => num_of_string (to_string v)
  end.

(** [BigInt(v)] *)
Definition to_bigint (v : jsval) : result js_error Z :=
  match v with
  | JUndef | JNull => Err TypeError
  | JBool b => Ok (if b then 1 else 0)
  | JNum n => of_option RangeError (num_integer n)
  | JBig z => Ok z
  | JStr s => of_option SyntaxError (big_of_string s)
  | JFun _ => Err SyntaxError
  | JArr _ _ | JObj _ _ => of_option SyntaxError (big_of_string (to_string v))
  end.

(** The array index a property name denotes: a canonical decimal. *)
Definition array_index (k : string) : option nat :=
  if all_digits k then
    n ← radix_digits 10 0 k; if String.eqb (dec n) k then Some (Z.to_nat n) else None
  else None.

Definition array_proto_keys : list string :=
  ["length"; "constructor"; "at"; "concat"; "copyWithin"; "fill"; "find"; "findIndex"; "findLast";
   "findLastIndex"; "lastIndexOf"; "pop"; "push"; "reverse"; "shift"; "unshift"; "slice"; "sort";
   "splice"; "includes"; "indexOf"; "join"; "keys"; "entries"; "values"; "forEach"; "filter"; "flat";
   "flatMap"; "map"; "every"; "some"; "reduce"; "reduceRight"; "toReversed"; "toSorted"; "toSpliced";
   "with"]%string.

Definition mem_string (k : string) (l : list string) : bool := existsb (String.eqb k) l.

(** [v[k]] for an object or array [v]: own properties, then those every object
    inherits (functions, named by their key). *)
Definition get_prop (v : jsval) (k : string) : jsval :=
  match v with
  | JObj _ fields =>
      match get_own fields k with
      | Some x => x
      | None => if mem_string k object_proto_keys then JFun k else JUndef
      end
  | JArr _ l =>
      match array_index k with
      | Some i => default JUndef (l !! i)
      | None =>
          if String.eqb k "length" then JNum (of_Z (Z.of_nat (length l)))
          else if mem_string k array_proto_keys || mem_string k object_proto_keys then JFun k
          else JUndef
      end
  | _ => JUndef
  end.

(** [s.includes(t)] *)
Fixpoint str_includes (t s : string) : bool :=
  starts_with t s || match s with EmptyString => false | String _ s => str_includes t s end.

(** ** Map

    A JavaScript Map keyed by strings, in insertion order; setting a present key
    keeps its place. *)
Fixpoint map_get {A} (k : string) (m : list (string * A)) : option A :=
  match m with
  | [] => None
  | (k', v) :: m => if String.eqb k' k then Some v else map_get k m
  end.
Fixpoint map_set {A} (k : string) (v : A) (m : list (string * A)) : list (string * A) :=
  match m with
  | [] => [(k, v)]
  | (k', v') :: m => if String.eqb k' k then (k', v) :: m else (k', v') :: map_set k v m
  end.
Fixpoint map_delete {A} (k : string) (m : list (string * A)) : list (string * A) :=
  match m with
  | [] => []
  | (k', v) :: m => if String.eqb k' k then m else (k', v) :: map_delete k m
  end.
Definition map_has {A} (k : string) (m : list (string * A)) : bool :=
  match map_get k m with Some _ => true | None => false end.

(** ** JSON text *)

Definition hex_char (n : Z) : ascii :=
  ascii_of_N (Z.to_N (if n <? 10 then 48 + n else 87 + n)).

(** Escape of one code unit by [JSON.stringify]. *)
Definition json_escape (c : ascii) : string :=
  let n := code c in
  if n =? 34 then String "\"%char (String c "")
  else if n =? 92 then String "\"%char (String c "")
  else if n =? 8 then "\b"
  else if n =? 12 then "\f"
  else if n =? 10 then "\n"
  else if n =? 13 then "\r"
  else if n =? 9 then "\t"
  else if n <? 32 then "\u00" +:+ String (hex_char (n / 16)) (String (hex_char (n mod 16)) "")
  else String c "".

Fixpoint json_chars (s : string) : string :=
  match s with EmptyString => "" | String c s => json_escape c +:+ json_chars s end.

Definition dquote : ascii := ascii_of_N 34.
Definition json_string (s : string) : string :=
  String dquote (json_chars s +:+ String dquote "").

(** [JSON.stringify] of an object literal with the given members; [None] is an
    [undefined] member, which is left out. *)
Definition json_member (kv : string * option string) : option string :=
  (λ v, json_string kv.1 +:+ ":" +:+ v) <$> kv.2.
Definition join_comma (l : list string) : string := String.concat "," l.
Definition json_object (members : list (string * option string)) : string :=
  "{" +:+ join_comma (omap json_member members) +:+ "}".

(** [new TextEncoder().encode(s)]: UTF-8. *)
Fixpoint utf8 (s : string) : string :=
  match s with
  | EmptyString => ""
  | String c s =>
      if code c <? 128 then String c (utf8 s)
      else String (ascii_of_N (Z.to_N (192 + code c / 64)))
             (String (ascii_of_N (Z.to_N (128 + code c mod 64))) (utf8 s))
  end.

(** ** Bytes

    A [Uint8Array] is the string of its bytes. *)

Definition byte (z : Z) : ascii := ascii_of_N (Z.to_N z).

(** The base-256 digits of [n], most significant first. *)
Fixpoint be_acc (fuel : nat) (n : Z) (s : string) : string :=
  match fuel with
  | O => s
  | S fuel => let s := String (byte (n mod 256)) s in
              if n <? 256 then s else be_acc fuel (n / 256) s
  end.
Definition big_endian (n : Z) : string := be_acc (S (Z.to_nat (Z.log2 n))) n "".

(** [setUint32(0, n, false)] *)
Definition uint32 (n : Z) : string :=
  String (byte (n / 2 ^ 24 mod 256)) (String (byte (n / 2 ^ 16 mod 256))
    (String (byte (n / 2 ^ 8 mod 256)) (String (byte (n mod 256)) ""))).

(** ** Bytes as hexadecimal text *)

Definition hex_byte (c : ascii) : string :=
  String (hex_char (code c / 16)) (String (hex_char (code c mod 16)) "").
Fixpoint hex_of_bytes (s : string) : string :=
  match s with "" => "" | String c s => hex_byte c +:+ hex_of_bytes s end%string.
Definition upper_char (c : ascii) : ascii := if in_range 97 122 c then ascii_of_N (Z.to_N (code c - 32)) else c.
Fixpoint str_map (f : ascii → ascii) (s : string) : string :=
  match s with "" => "" | String c s => String (f c) (str_map f s) end%string.
(** The bytes of an even number of hexadecimal digits. *)
Fixpoint hex_pairs (s : string) : string :=
  match s with
  | String a (String b s) =>
      String (ascii_of_N (Z.to_N (16 * default 0 (digit_val a) + default 0 (digit_val b)))) (hex_pairs s)
  | _ => ""
  end%string.

(** [toUpperCase] on ASCII text, [toLowerCase] on any text of this alphabet. *)
Definition toUpperCase : string → string := str_map upper_char.
Definition lower_char (c : ascii) : ascii :=
  if in_range 65 90 c then ascii_of_N (Z.to_N (code c + 32)) else
  if in_range 192 222 c && negb (code c =? 215) then ascii_of_N (Z.to_N (code c + 32)) else c.
Fixpoint toLowerCase (s : string) : string :=
  match s with "" => "" | String c s => String (lower_char c) (toLowerCase s) end%string.

(** [n.toString(16)] *)
Fixpoint hex_acc (fuel : nat) (n : Z) (s : string) : string :=
  match fuel with
  | O => s
  | S fuel => let s := String (hex_char (n mod 16)) s in if n <? 16 then s else hex_acc fuel (n / 16) s
  end.
Definition hex_text (n : Z) : string :=
  let digits := hex_acc (S (Z.to_nat (Z.log2 (Z.abs n)))) (Z.abs n) "" in
  if n <? 0 then String "-" digits else digits.

(** [new TextDecoder().decode(bytes)]; a character above 255 or a malformed byte,
    which have no place in this alphabet, is a question mark. *)
Fixpoint utf8_decode (s : string) : string :=
  match s with
  | EmptyString => EmptyString
  | String c r =>
      if code c <? 128 then String c (utf8_decode r) else
      match r with
      | String d r' =>
          if in_range 194 195 c && in_range 128 191 d
          then String (byte ((code c - 192) * 64 + (code d - 128))) (utf8_decode r')
          else String "?" (utf8_decode r)
      | EmptyString => "?"
      end
  end.

(** [ToIntegerOrInfinity] clamped to an index of a sequence of [len] elements, as
    the arguments of [slice] are. *)
Definition slice_index (len : Z) (n : jsnum) : Z :=
  match n with
  | NNaN => 0
  | NInf neg => if neg then 0 else len
  | NFin q => let z := Z.quot (Qnum q) (Z.pos (Qden q)) in
              if z <? 0 then Z.max 0 (len + z) else Z.min z len
  end.
(** [s.slice(from)] and [s.slice(from, to)] *)
Definition slice_str (s : string) (from : jsnum) (to : option jsnum) : string :=
  let len := Z.of_nat (String.length s) in
  let i := slice_index len from in
  let j := match to with Some n => slice_index len n | None => len end in
  take_str (Z.to_nat (j - i)) (drop_str (Z.to_nat i) s).

(** [l\[n\]], undefined for a number that is no index. *)
Definition nth_num {A} (l : list A) (n : jsnum) : option A :=
  i ← num_integer n; if i <? 0 then None else l !! Z.to_nat i.

End Js.
