(* ===== verification/Json.v ===== *)
(** * JSON.parse and JSON.stringify

    The reader of JSON text, a reviver that maps every value from the inside out,
    and the text of a value.  Objects and arrays that are read are fresh; their
    identities are not told apart. *)

From Stdlib Require Import ZArith Lia QArith Ascii String.
From stdpp Require Import base list strings.
From S2P Require Import Prelude JsBase.

Module Json.
Import Js.

(** ** Reading *)

Definition json_space (c : ascii) : bool := (code c =? 32) || (code c =? 9) || (code c =? 10) || (code c =? 13).
Fixpoint skip_space (s : string) : string :=
  match s with String c r => if json_space c then skip_space r else s | EmptyString => "" end.

Definition hex4 (a b c d : ascii) : option Z :=
  x ← digit_val a; y ← digit_val b; z ← digit_val c; w ← digit_val d;
  if (x <? 16) && (y <? 16) && (z <? 16) && (w <? 16) then Some (((x * 16 + y) * 16 + z) * 16 + w) else None.
(** A code unit above 255 has no place in this alphabet. *)
Definition code_unit (n : Z) : ascii := if n <? 256 then byte n else "?"%char.
Definition escaped (e : ascii) : option ascii :=
  if (code e =? 34) || (code e =? 92) || (code e =? 47) then Some e
  else match e with
       | "b"%char => Some (byte 8) | "f"%char => Some (byte 12) | "n"%char => Some (byte 10)
       | "r"%char => Some (byte 13) | "t"%char => Some (byte 9) | _ => None
       end.

(** The characters up to the closing quote, and the rest. *)
Fixpoint string_body (s : string) : option (string * string) :=
  match s with
  | EmptyString => None
  | String c r =>
      if Ascii.eqb c dquote then Some (EmptyString, r)
      else if Ascii.eqb c "\" then
        match r with
        | String e r1 =>
            if Ascii.eqb e "u" then
              match r1 with
              | String a (String b (String g (String d r2))) =>
                  u ← hex4 a b g d; p ← string_body r2; Some (String (code_unit u) p.1, p.2)
              | _ => None
              end
            else k ← escaped e; p ← string_body r1; Some (String k p.1, p.2)
        | EmptyString => None
        end
      else if code c <? 32 then None
      else p ← string_body r; Some (String c p.1, p.2)
  end.

(** [-? int frac? exp?] *)
Definition take_sign (s : string) : string * string :=
  match s with String c r => if Ascii.eqb c "-" then ("-"%string, r) else (""%string, s) | EmptyString => (""%string, s) end.
Definition int_ok (ip : string) : bool :=
  match ip with EmptyString => false | String c r => negb (Ascii.eqb c "0") || String.eqb r "" end.
Definition take_fraction (s : string) : option (string * string) :=
  match s with
  | String c r =>
      if Ascii.eqb c "." then
        let '(f, rest) := span_while is_digit r in if String.eqb f "" then None else Some (String c f, rest)
      else Some (""%string, s)
  | EmptyString => Some (""%string, s)
  end.
Definition take_exponent (s : string) : option (string * string) :=
  match s with
  | String c r =>
      if Ascii.eqb c "e" || Ascii.eqb c "E" then
        let '(sign, r) := match r with
                          | String x r' => if Ascii.eqb x "+" || Ascii.eqb x "-" then (String x "", r') else (""%string, r)
                          | EmptyString => (""%string, r)
                          end in
        let '(e, rest) := span_while is_digit r in
        if String.eqb e "" then None else Some (String c (sign +:+ e), rest)
      else Some (""%string, s)
  | EmptyString => Some (""%string, s)
  end.
Definition number_token (s : string) : option (string * string) :=
  let '(sign, s) := take_sign s in
  let '(ip, s) := span_while is_digit s in
  if int_ok ip then
    f ← take_fraction s; e ← take_exponent f.2; Some (sign +:+ ip +:+ f.1 +:+ e.1, e.2)
  else None.

(** The last of several members with one key counts, in the place of the first. *)
Definition object_of (members : list (string * jsval)) : list (string * jsval) :=
  foldl (λ m kv, map_set kv.1 kv.2 m) [] members.

(** What follows [c], when the next character is [c]. *)
Definition next (c : ascii) (s : string) : option string :=
  match skip_space s with String d r => if Ascii.eqb d c then Some r else None | EmptyString => None end.

(** A value, the elements of an array and the members of an object, by readers of
    what is inside. *)
Definition read_value (elements : string → option (list jsval * string))
    (members : string → option (list (string * jsval) * string)) (s : string) : option (jsval * string) :=
  match skip_space s with
  | EmptyString => None
  | String c r =>
      if Ascii.eqb c dquote then p ← string_body r; Some (JStr p.1, p.2)
      else if Ascii.eqb c "[" then
        match next "]" r with
        | Some rest => Some (JArr 1 [], rest)
        | None => p ← elements r; Some (JArr 1 p.1, p.2)
        end
      else if Ascii.eqb c "{" then
        match next "}" r with
        | Some rest => Some (JObj 1 [], rest)
        | None => p ← members r; Some (JObj 1 (object_of p.1), p.2)
        end
      else if starts_with "true" (String c r) then Some (JBool true, drop_str 4 (String c r))
      else if starts_with "false" (String c r) then Some (JBool false, drop_str 5 (String c r))
      else if starts_with "null" (String c r) then Some (JNull, drop_str 4 (String c r))
      else p ← number_token (String c r); Some (JNum (num_of_string p.1), p.2)
  end.
Definition read_elements (value : string → option (jsval * string)) (elements : string → option (list jsval * string))
    (s : string) : option (list jsval * string) :=
  p ← value s;
  match next "," p.2 with
  | Some r => q ← elements r; Some (p.1 :: q.1, q.2)
  | None => r ← next "]" p.2; Some ([p.1], r)
  end.
Definition read_members (value : string → option (jsval * string))
    (members : string → option (list (string * jsval) * string)) (s : string) : option (list (string * jsval) * string) :=
  r ← next dquote s;
  k ← string_body r;
  r ← next ":" k.2;
  p ← value r;
  match next "," p.2 with
  | Some r => q ← members r; Some ((k.1, p.1) :: q.1, q.2)
  | None => r ← next "}" p.2; Some ([(k.1, p.1)], r)
  end.

Fixpoint parse_value (fuel : nat) (s : string) : option (jsval * string) :=
  match fuel with O => None | S fuel => read_value (parse_elements fuel) (parse_members fuel) s end
with parse_elements (fuel : nat) (s : string) : option (list jsval * string) :=
  match fuel with O => None | S fuel => read_elements (parse_value fuel) (parse_elements fuel) s end
with parse_members (fuel : nat) (s : string) : option (list (string * jsval) * string) :=
  match fuel with O => None | S fuel => read_members (parse_value fuel) (parse_members fuel) s end.

(** A value and a list of them take two calls for each character at most. *)
Definition json_fuel (s : string) : nat := 2 * String.length s + 2.
Definition json_parse (s : string) : result js_error jsval :=
  match parse_value (json_fuel s) s with
  | Some (v, rest) => if String.eqb (skip_space rest) "" then Ok v else Err SyntaxError
  | None => Err SyntaxError
  end.

(** [JSON.parse(text, (_, v) => f(v))] for an [f] that returns no [undefined]: the
    members of a value first, then the value. *)
Fixpoint json_revive (f : jsval → result js_error jsval) (v : jsval) : result js_error jsval :=
  match v with
  | JArr i l =>
      l' ← (fix go (l : list jsval) : result js_error (list jsval) :=
              match l with [] => Ok [] | x :: l => y ← json_revive f x; ys ← go l; Ok (y :: ys) end) l;
      f (JArr i l')
  | JObj i fields =>
      fs' ← (fix go (fs : list (string * jsval)) : result js_error (list (string * jsval)) :=
               match fs with [] => Ok [] | (k, x) :: fs => y ← json_revive f x; ys ← go fs; Ok ((k, y) :: ys) end) fields;
      f (JObj i fs')
  | _ => f v
  end.

(** ** Writing *)

(** [JSON.stringify] of plain data: no [undefined], function or bigint inside. *)
Fixpoint json_text (v : jsval) : string :=
  match v with
  | JBool b => if b then "true" else "false"
  | JNum (NFin q) => num_to_string (NFin q)
  | JStr s => json_string s
  | JArr _ l => "[" +:+ join_comma (map json_text l) +:+ "]"
  | JObj _ fields =>
      "{" +:+ join_comma ((fix go (fs : list (string * jsval)) : list string :=
                 match fs with [] => [] | (k, x) :: fs => (json_string k +:+ ":" +:+ json_text x) :: go fs end) fields) +:+ "}"
  | _ => "null"
  end%string.

End Json.
