(* ===== verification/JsText.v ===== *)
(** * Facts about printed text: decimals, JSON strings, UTF-8

    Printing is injective where the SDK hashes or parses what it printed: a
    decimal reads back, a JSON string ends where it says, UTF-8 loses nothing. *)

From Stdlib Require Import ZArith Lia QArith Ascii String.
From stdpp Require Import base list strings.
From S2P Require Import Prelude JsBase.

Module JsText.
Import Js.
#[local] Arguments String.append : simpl nomatch.

(** ** Strings as sequences *)

Lemma app_nil_r_str (s : string) : s +:+ "" = s.
Proof. induction s as [|c s IH]; simpl; [done|by rewrite IH]. Qed.
Lemma app_assoc_str (a b c : string) : (a +:+ b) +:+ c = a +:+ (b +:+ c).
Proof. induction a as [|x a IH]; simpl; [done|by rewrite IH]. Qed.
Lemma app_inj_head (a b c : string) : a +:+ b = a +:+ c → b = c.
Proof. induction a as [|x a IH]; simpl; [done|]. intros [= H]. by apply IH. Qed.
Lemma length_app_str (a b : string) : String.length (a +:+ b) = (String.length a + String.length b)%nat.
Proof. induction a as [|x a IH]; simpl; [done|by rewrite IH]. Qed.

Lemma str_forallb_app p a b : str_forallb p (a +:+ b) = str_forallb p a && str_forallb p b.
Proof. induction a as [|x a IH]; simpl; [done|]. rewrite IH. apply andb_assoc. Qed.

Lemma take_app_str (a b : string) : take_str (String.length a) (a +:+ b) = a.
Proof. induction a as [|x a IH]; simpl; [by destruct b|by rewrite IH]. Qed.
Lemma drop_app_str (a b : string) : drop_str (String.length a) (a +:+ b) = b.
Proof. induction a as [|x a IH]; simpl; [by destruct b|done]. Qed.
Lemma take_drop_str n (s : string) : take_str n s +:+ drop_str n s = s.
Proof. revert s; induction n as [|n IH]; intros [|c s]; simpl; try done. by rewrite IH. Qed.

Lemma length_take_str n s : (n <= String.length s)%nat → String.length (take_str n s) = n.
Proof. revert s. induction n as [|n IH]; intros [|c s] Hs; simpl in *; try done; [lia|]. rewrite IH; [done|lia]. Qed.
Lemma length_drop_str n s : String.length (drop_str n s) = (String.length s - n)%nat.
Proof. revert s. induction n as [|n IH]; intros [|c s]; simpl; try done. Qed.
Lemma drop_app_within n (a b : string) : (n <= String.length a)%nat → drop_str n (a +:+ b) = drop_str n a +:+ b.
Proof. revert a. induction n as [|n IH]; intros [|c a] Hn; simpl in *; try done; [lia|]. apply IH. lia. Qed.
Lemma take_app_within n (a b : string) : (n <= String.length a)%nat → take_str n (a +:+ b) = take_str n a.
Proof. revert a. induction n as [|n IH]; intros [|c a] Hn; simpl in *; try done; [lia|]. rewrite IH; [done|lia]. Qed.

Lemma length_repeat_char n c : String.length (repeat_char n c) = n.
Proof. induction n; simpl; congruence. Qed.
Lemma str_forallb_repeat p n c : p c = true → str_forallb p (repeat_char n c) = true.
Proof. intros H. induction n; simpl; [done|]. by rewrite H. Qed.

Lemma starts_with_app p s : starts_with p (p +:+ s) = true.
Proof.
  unfold starts_with. induction p as [|c p IH]; simpl; [by destruct s|].
  destruct (ascii_dec c c); [done|done].
Qed.
Lemma starts_with_spec p s : starts_with p s = true ↔ ∃ r, s = p +:+ r.
Proof.
  split; [|intros [r ->]; apply starts_with_app]. revert s.
  induction p as [|c p IH]; intros s; simpl; [by exists s|]. unfold starts_with in *.
  destruct s as [|d s]; simpl; [done|]. destruct (ascii_dec c d) as [->|]; [|done].
  intros [r ->]%IH. by exists r.
Qed.

Lemma app_cons_nonempty a c b : a +:+ String c b ≠ "".
Proof. by destruct a. Qed.

(** A prefix delimited by its alphabet is determined. *)
Lemma delimited_inj p a b r r' :
  str_forallb p a = true → str_forallb p b = true →
  (match r with String c _ => p c = false | _ => True end) →
  (match r' with String c _ => p c = false | _ => True end) →
  a +:+ r = b +:+ r' → a = b ∧ r = r'.
Proof.
  revert b; induction a as [|x a IH]; intros [|y b]; simpl; intros Ha Hb Hr Hr' E.
  - done.
  - subst r. apply andb_true_iff in Hb as [Hb _]. congruence.
  - subst r'. apply andb_true_iff in Ha as [Ha _]. congruence.
  - injection E as -> E. apply andb_true_iff in Ha as [_ Ha], Hb as [_ Hb].
    by destruct (IH b Ha Hb Hr Hr' E) as [-> ->].
Qed.

(** ** Decimals *)

Lemma digit_char_spec d :
  0 <= d < 10 → digit_val (digit_char d) = Some d ∧ is_digit (digit_char d) = true.
Proof.
  intros H. assert (d = 0 ∨ d = 1 ∨ d = 2 ∨ d = 3 ∨ d = 4 ∨ d = 5 ∨ d = 6 ∨ d = 7 ∨ d = 8 ∨ d = 9)
    as Hd by lia. by destruct_or! Hd; subst.
Qed.

Lemma radix_digit d a s :
  0 <= d < 10 → radix_digits 10 a (String (digit_char d) s) = radix_digits 10 (a * 10 + d) s.
Proof.
  intros H. simpl. destruct (digit_char_spec d H) as [-> _].
  by replace (d <? 10) with true by lia.
Qed.

Lemma radix_dec_acc fuel n s :
  0 <= n < 2 ^ Z.of_nat fuel → (0 < fuel)%nat →
  radix_digits 10 0 (dec_acc fuel n s) = radix_digits 10 n s.
Proof.
  revert n s; induction fuel as [|fuel IH]; intros n s Hn Hf; [lia|]. simpl dec_acc.
  destruct (n <? 10) eqn:E.
  - rewrite radix_digit by lia. f_equal.
  - assert (n / 10 < 2 ^ Z.of_nat fuel).
    { rewrite Nat2Z.inj_succ, Z.pow_succ_r in Hn by lia. Z.div_mod_to_equations; lia. }
    assert (0 < fuel)%nat by (destruct fuel; [simpl in *; Z.div_mod_to_equations; lia|lia]).
    rewrite IH by (Z.div_mod_to_equations; lia). rewrite radix_digit by (Z.div_mod_to_equations; lia).
    f_equal. Z.div_mod_to_equations; lia.
Qed.

Lemma dec_fuel n : 0 <= n → 0 <= n < 2 ^ Z.of_nat (S (Z.to_nat (Z.log2 n))).
Proof.
  intros Hn. split; [done|]. rewrite Nat2Z.inj_succ, Z2Nat.id by apply Z.log2_nonneg.
  destruct (Z.eq_dec n 0) as [->|]; [done|]. apply Z.log2_spec. lia.
Qed.

Lemma dec_acc_app fuel n s : dec_acc fuel n s = dec_acc fuel n "" +:+ s.
Proof.
  revert n s; induction fuel as [|fuel IH]; intros n s; simpl; [done|].
  destruct (n <? 10); [done|]. rewrite (IH _ (String _ s)), (IH _ (String _ "")), app_assoc_str. done.
Qed.

Lemma radix_dec n s : 0 <= n → radix_digits 10 0 (dec n +:+ s) = radix_digits 10 n s.
Proof.
  intros Hn. unfold dec. rewrite <- dec_acc_app. apply radix_dec_acc; [by apply dec_fuel|lia].
Qed.

Lemma radix_dec_0 n : 0 <= n → radix_digits 10 0 (dec n) = Some n.
Proof. intros Hn. rewrite <- (app_nil_r_str (dec n)). by rewrite radix_dec. Qed.

Lemma dec_inj m n : 0 <= m → 0 <= n → dec m = dec n → m = n.
Proof.
  intros Hm Hn E. apply (f_equal (radix_digits 10 0)) in E.
  rewrite !radix_dec_0 in E by done. congruence.
Qed.

Lemma dec_acc_digits fuel n s :
  0 <= n → str_forallb is_digit s = true → str_forallb is_digit (dec_acc fuel n s) = true.
Proof.
  revert n s; induction fuel as [|fuel IH]; intros n s Hn Hs; simpl; [done|].
  destruct (n <? 10) eqn:E; simpl.
  - by rewrite (proj2 (digit_char_spec n ltac:(lia))).
  - apply IH; [Z.div_mod_to_equations; lia|]. simpl.
    by rewrite (proj2 (digit_char_spec (n mod 10) ltac:(Z.div_mod_to_equations; lia))).
Qed.
Lemma dec_digits n : 0 <= n → str_forallb is_digit (dec n) = true.
Proof. intros Hn. by apply dec_acc_digits. Qed.

Lemma dec_acc_length fuel n s (k : nat) :
  0 <= n < 10 ^ Z.of_nat k → (0 < k)%nat →
  (String.length (dec_acc fuel n s) <= k + String.length s)%nat.
Proof.
  revert n s k; induction fuel as [|fuel IH]; intros n s k Hn Hk; simpl; [lia|].
  destruct (n <? 10) eqn:E; simpl; [lia|]. destruct k as [|[|k]]; [lia|simpl in Hn; lia|].
  specialize (IH (n / 10) (String (digit_char (n mod 10)) s) (S k)).
  rewrite Nat2Z.inj_succ, Z.pow_succ_r in Hn by lia. simpl in IH.
  assert (0 <= n / 10 < 10 ^ Z.of_nat (S k)) by (Z.div_mod_to_equations; lia). specialize (IH H). lia.
Qed.
Lemma dec_length n (k : nat) :
  0 <= n < 10 ^ Z.of_nat k → (0 < k)%nat → (String.length (dec n) <= k)%nat.
Proof. intros. pose proof (dec_acc_length (S (Z.to_nat (Z.log2 n))) n "" k) as H1. simpl in H1. unfold dec. simpl. lia. Qed.

Lemma dec_nonempty n : dec n ≠ "".
Proof.
  unfold dec. simpl. destruct (n <? 10); [done|]. rewrite dec_acc_app.
  destruct (dec_acc _ _ _); done.
Qed.

Lemma radix_zeros k a s : a = 0 → radix_digits 10 a (repeat_char k "0" +:+ s) = radix_digits 10 0 s.
Proof. intros ->. induction k as [|k IH]; simpl; [done|]. done. Qed.

(** [n.toString(10).padStart(k, '0')]: [k] digits that read back as [n]. *)
Lemma padded_spec n (k : nat) :
  0 <= n < 10 ^ Z.of_nat k → (0 < k)%nat →
  let s := pad_start k "0" (dec n) in
  String.length s = k ∧ str_forallb is_digit s = true ∧ radix_digits 10 0 s = Some n.
Proof.
  intros Hn Hk s. unfold s, pad_start. rewrite length_app_str, length_repeat_char.
  pose proof (dec_length n k Hn Hk). split; [lia|]. split.
  - rewrite str_forallb_app, str_forallb_repeat by done. apply dec_digits. lia.
  - rewrite radix_zeros by done. apply radix_dec_0. lia.
Qed.

(** Digit strings and the integers they denote. *)
Lemma digit_val_digit c : is_digit c = true → ∃ d, digit_val c = Some d ∧ 0 <= d < 10.
Proof.
  unfold is_digit, digit_val, in_range. intros H. rewrite H. exists (code c - 48). split; [done|].
  apply andb_true_iff in H as [H1 H2]. lia.
Qed.
Lemma radix_digits_digits s : ∀ a,
  0 <= a → str_forallb is_digit s = true → ∃ n, radix_digits 10 a s = Some n ∧ 0 <= n.
Proof.
  induction s as [|c s IH]; intros a Ha H; simpl in *; [by exists a|].
  apply andb_true_iff in H as [Hc Hs]. destruct (digit_val_digit c Hc) as (d & -> & Hd).
  replace (d <? 10) with true by lia. apply IH; [lia|done].
Qed.
Lemma all_digits_radix s : all_digits s = true → ∃ n, parse_radix 10 s = Some n ∧ 0 <= n.
Proof. intros H. destruct s as [|c s]; [done|]. by apply radix_digits_digits. Qed.

Lemma all_digits_dec n : 0 <= n → all_digits (dec n) = true.
Proof.
  intros H. pose proof (dec_digits n H) as Hd. pose proof (dec_nonempty n) as Hn.
  unfold all_digits. by destruct (dec n).
Qed.
Lemma parse_radix_dec n : 0 <= n → parse_radix 10 (dec n) = Some n.
Proof.
  intros H. pose proof (radix_dec_0 n H) as Hr. pose proof (dec_nonempty n) as Hn.
  unfold parse_radix. by destruct (dec n).
Qed.

(** ** JSON strings *)

(** One escape read back. *)
Definition hex_of (c : ascii) : Z := default 0 (digit_val c).
Definition unescape1 (s : string) : option (ascii * string) :=
  match s with
  | String b (String k r) =>
      if Ascii.eqb b "\" then
        match k, r with
        | "b"%char, _ => Some (ascii_of_N 8, r)
        | "f"%char, _ => Some (ascii_of_N 12, r)
        | "n"%char, _ => Some (ascii_of_N 10, r)
        | "r"%char, _ => Some (ascii_of_N 13, r)
        | "t"%char, _ => Some (ascii_of_N 9, r)
        | "u"%char, String _ (String _ (String h (String l r))) =>
            Some (ascii_of_N (Z.to_N (hex_of h * 16 + hex_of l)), r)
        | _, _ => Some (k, r)
        end
      else Some (b, String k r)
  | String b EmptyString => Some (b, "")
  | EmptyString => None
  end.

Lemma unescape1_escape c s : s ≠ "" → unescape1 (json_escape c +:+ s) = Some (c, s).
Proof.
  intros Hs. destruct c as [b0 b1 b2 b3 b4 b5 b6 b7], s as [|x s]; [done|].
  destruct b0, b1, b2, b3, b4, b5, b6, b7; reflexivity.
Qed.

Lemma json_escape_not_quote c s t : json_escape c +:+ s ≠ String dquote t.
Proof.
  destruct c as [b0 b1 b2 b3 b4 b5 b6 b7].
  destruct b0, b1, b2, b3, b4, b5, b6, b7; discriminate.
Qed.

Lemma json_chars_inj a : ∀ b r r',
  json_chars a +:+ String dquote r = json_chars b +:+ String dquote r' → a = b ∧ r = r'.
Proof.
  induction a as [|c a IH]; intros [|d b] r r' E; simpl in E.
  - by injection E as ->.
  - exfalso. rewrite app_assoc_str in E. symmetry in E. by apply json_escape_not_quote in E.
  - exfalso. rewrite app_assoc_str in E. by apply json_escape_not_quote in E.
  - rewrite !app_assoc_str in E. apply (f_equal unescape1) in E.
    rewrite (unescape1_escape c), (unescape1_escape d) in E by apply app_cons_nonempty.
    injection E as -> E. by destruct (IH b r r' E) as [-> ->].
Qed.

Lemma json_string_inj a b r r' : json_string a +:+ r = json_string b +:+ r' → a = b ∧ r = r'.
Proof.
  unfold json_string. intros E. injection E as E. rewrite !app_assoc_str in E.
  by apply json_chars_inj in E.
Qed.

(** ** UTF-8 *)

Definition utf8_head (s : string) : option (ascii * string) :=
  match s with
  | String c r =>
      if code c <? 128 then Some (c, r)
      else match r with
           | String d r => Some (ascii_of_N (Z.to_N ((code c - 192) * 64 + (code d - 128))), r)
           | _ => None
           end
  | _ => None
  end.

Lemma utf8_head_spec c s : utf8_head (utf8 (String c s)) = Some (c, utf8 s).
Proof.
  destruct c as [b0 b1 b2 b3 b4 b5 b6 b7].
  destruct b0, b1, b2, b3, b4, b5, b6, b7; reflexivity.
Qed.

Lemma utf8_inj a b : utf8 a = utf8 b → a = b.
Proof.
  revert b; induction a as [|c a IH]; intros [|d b] E; [done| | |].
  - apply (f_equal utf8_head) in E. by rewrite utf8_head_spec in E.
  - apply (f_equal utf8_head) in E. by rewrite utf8_head_spec in E.
  - apply (f_equal utf8_head) in E. rewrite !utf8_head_spec in E. injection E as -> E.
    by rewrite (IH b E).
Qed.
Lemma utf8_round s : utf8_decode (utf8 s) = s.
Proof.
  induction s as [|c s IH]; [done|]. transitivity (String c (utf8_decode (utf8 s))); [|by rewrite IH].
  destruct c as [[] [] [] [] [] [] [] []]; reflexivity.
Qed.

(** ** Trimming and [BigInt] of digits *)

Lemma rev_str_rev_str s : ∀ acc a, rev_str acc (rev_str a s) = rev_str (s +:+ acc) a.
Proof. induction s as [|c s IH]; intros acc a; simpl; [done|]. by rewrite IH. Qed.

Lemma rev_str_forallb p s : ∀ acc, str_forallb p (rev_str acc s) = str_forallb p acc && str_forallb p s.
Proof.
  induction s as [|c s IH]; intros acc; simpl; [by rewrite andb_true_r|].
  rewrite IH. simpl. destruct (p c), (str_forallb p acc), (str_forallb p s); done.
Qed.

Lemma trim_start_digits s : str_forallb is_digit s = true → trim_start s = s.
Proof.
  destruct s as [|c s]; [done|]. simpl. intros [Hc _]%andb_true_iff.
  assert (is_space c = false) as ->; [|done]. unfold is_space, is_digit, in_range in *. lia.
Qed.

Lemma trim_digits s : str_forallb is_digit s = true → trim s = s.
Proof.
  intros H. unfold trim. rewrite (trim_start_digits s H), trim_start_digits.
  - rewrite rev_str_rev_str. simpl. apply app_nil_r_str.
  - by rewrite rev_str_forallb, H.
Qed.

Lemma big_of_string_digits s : all_digits s = true → big_of_string s = parse_radix 10 s.
Proof.
  intros H. unfold big_of_string. destruct s as [|c s]; [done|].
  rewrite trim_digits by done. simpl in H.
  assert (parse_prefixed (String c s) = None) as ->.
  { destruct s as [|k r]; [done|]. simpl in *. destruct (Ascii.eqb c "0"); [|done].
    rewrite !andb_true_iff in H. destruct H as (_ & Hk & _).
    destruct (Ascii.eqb_spec k "x"), (Ascii.eqb_spec k "X"), (Ascii.eqb_spec k "o"), (Ascii.eqb_spec k "O"),
      (Ascii.eqb_spec k "b"), (Ascii.eqb_spec k "B"); subst; done. }
  unfold parse_signed. apply andb_true_iff in H as [Hc _].
  destruct (Ascii.eqb_spec c "-"), (Ascii.eqb_spec c "+"); subst; done.
Qed.

Lemma trim_no_space s : str_forallb (λ c, negb (is_space c)) s = true → trim s = s.
Proof.
  assert (H : ∀ s, str_forallb (λ c, negb (is_space c)) s = true → trim_start s = s).
  { intros [|c r]; [done|]. simpl. intros [Hc _]%andb_true_iff. by destruct (is_space c). }
  intros Hs. unfold trim. rewrite (H s Hs), H.
  - rewrite rev_str_rev_str. simpl. apply app_nil_r_str.
  - by rewrite rev_str_forallb, Hs.
Qed.

Lemma str_forallb_impl (p q : ascii → bool) s :
  (∀ c, p c = true → q c = true) → str_forallb p s = true → str_forallb q s = true.
Proof.
  intros H. induction s as [|c s IH]; simpl; [done|]. rewrite !andb_true_iff. intros []. auto.
Qed.

(** A bigint reads back from its text. *)
Lemma big_of_string_big z : big_of_string (big_to_string z) = Some z.
Proof.
  unfold big_to_string. destruct (Z.ltb_spec z 0).
  - unfold big_of_string. rewrite trim_no_space.
    2:{ simpl. eapply str_forallb_impl; [|apply dec_digits; lia]. intros c Hc.
        apply negb_true_iff. unfold is_space, is_digit, in_range in *. lia. }
    unfold parse_prefixed, parse_signed. simpl. destruct (dec (- z)) as [|c s] eqn:E; [by apply dec_nonempty in E|].
    rewrite <- E, parse_radix_dec by lia. simpl. f_equal. lia.
  - rewrite big_of_string_digits by (apply all_digits_dec; lia). apply parse_radix_dec. lia.
Qed.

(** ** Safe integers as text *)

Lemma num_integer_of_Z z : num_integer (of_Z z) = Some z.
Proof. unfold num_integer, of_Z, inject_Z. simpl. by rewrite Z.mod_1_r, Z.div_1_r. Qed.

Lemma num_to_string_of_Z z : 0 <= z <= MAX_SAFE_INTEGER → num_to_string (of_Z z) = dec z.
Proof.
  intros Hz. unfold num_to_string, of_Z. destruct (Qeq_bool (inject_Z z) 0) eqn:E.
  - apply Qeq_bool_iff in E. unfold Qeq in E. simpl in E. assert (z = 0) as -> by lia. done.
  - simpl. replace (z <? 0) with false by lia. unfold pos_to_string.
    change (NFin (inject_Z z)) with (of_Z z). rewrite num_integer_of_Z.
    by replace (z <=? MAX_SAFE_INTEGER) with true by lia.
Qed.

(** ** Hexadecimal text *)

Lemma all_bytes (P : ascii → Prop) : (∀ n, 0 <= n < 256 → P (byte n)) → ∀ c, P c.
Proof.
  intros H c. specialize (H (code c)). unfold byte, code in H. rewrite N2Z.id, ascii_N_embedding in H.
  apply H. pose proof (N_ascii_bounded c). lia.
Qed.

Lemma hex_byte_pairs c s : hex_pairs (hex_byte c +:+ s) = String c (hex_pairs s).
Proof. destruct c as [[] [] [] [] [] [] [] []]; reflexivity. Qed.
Lemma hex_byte_digits c : str_forallb is_hex_digit (hex_byte c) = true.
Proof. destruct c as [[] [] [] [] [] [] [] []]; reflexivity. Qed.

Lemma hex_of_bytes_cons c s : hex_of_bytes (String c s) = hex_byte c +:+ hex_of_bytes s.
Proof. done. Qed.

Lemma hex_of_bytes_pairs s : hex_pairs (hex_of_bytes s) = s.
Proof. induction s as [|c s IH]; [done|]. by rewrite hex_of_bytes_cons, hex_byte_pairs, IH. Qed.
Lemma hex_of_bytes_digits s : str_forallb is_hex_digit (hex_of_bytes s) = true.
Proof. induction s as [|c s IH]; [done|]. by rewrite hex_of_bytes_cons, str_forallb_app, hex_byte_digits. Qed.
Lemma hex_of_bytes_even s : Nat.odd (String.length (hex_of_bytes s)) = false.
Proof. induction s as [|c s IH]; [done|]. rewrite hex_of_bytes_cons, length_app_str. exact IH. Qed.
Lemma hex_of_bytes_no_prefix s : starts_with "0x" (hex_of_bytes s) = false.
Proof.
  destruct s as [|c s]; [done|]. rewrite hex_of_bytes_cons. destruct c as [[] [] [] [] [] [] [] []]; reflexivity.
Qed.
Lemma lower_hex s : toLowerCase (hex_of_bytes s) = hex_of_bytes s.
Proof.
  induction s as [|c s IH]; [done|]. rewrite hex_of_bytes_cons.
  transitivity (hex_byte c +:+ toLowerCase (hex_of_bytes s)); [|by rewrite IH].
  destruct c as [[] [] [] [] [] [] [] []]; reflexivity.
Qed.

End JsText.
