(* ===== verification/JsMap.v ===== *)
(** * Maps keyed by strings

    Lemmas on the association lists that model JavaScript [Map]s: lookups after
    updates, the keys, and membership of pairs. *)

From Stdlib Require Import ZArith Lia.
From stdpp Require Import base sets list strings.
From S2P Require Import Prelude JsBase.

Module JsMap.

Lemma map_get_set_eq {A} k (v : A) m : Js.map_get k (Js.map_set k v m) = Some v.
Proof.
  induction m as [|[k0 v0] m IH]; simpl; [by rewrite String.eqb_refl|].
  destruct (String.eqb_spec k0 k) as [->|]; simpl; [by rewrite String.eqb_refl|].
  by destruct (String.eqb_spec k0 k).
Qed.
Lemma map_get_set_ne {A} k k' (v : A) m : k ≠ k' → Js.map_get k' (Js.map_set k v m) = Js.map_get k' m.
Proof.
  intros Hk. induction m as [|[k0 v0] m IH]; simpl; [by destruct (String.eqb_spec k k')|].
  destruct (String.eqb_spec k0 k) as [->|]; simpl.
  - by destruct (String.eqb_spec k k').
  - by destruct (String.eqb_spec k0 k').
Qed.
Lemma map_get_delete_ne {A} k k' (m : list (string * A)) :
  k ≠ k' → Js.map_get k' (Js.map_delete k m) = Js.map_get k' m.
Proof.
  intros Hk. induction m as [|[k0 v0] m IH]; simpl; [done|].
  destruct (String.eqb_spec k0 k) as [->|]; simpl.
  - by destruct (String.eqb_spec k k').
  - by destruct (String.eqb_spec k0 k').
Qed.
Lemma map_get_None {A} k (m : list (string * A)) : Js.map_get k m = None ↔ k ∉ m.*1.
Proof.
  induction m as [|[k0 v0] m IH]; simpl; [set_solver|].
  destruct (String.eqb_spec k0 k) as [->|]; [set_solver|]. rewrite IH. set_solver.
Qed.
Lemma map_set_keys {A} k (v : A) m x : x ∈ (Js.map_set k v m).*1 ↔ x = k ∨ x ∈ m.*1.
Proof.
  induction m as [|[k0 v0] m IH]; simpl; [set_solver|].
  destruct (String.eqb_spec k0 k) as [->|]; set_solver.
Qed.
Lemma map_set_NoDup {A} k (v : A) m : NoDup m.*1 → NoDup (Js.map_set k v m).*1.
Proof.
  induction m as [|[k0 v0] m IH]; simpl; [intros _; repeat constructor; set_solver|].
  destruct (String.eqb_spec k0 k) as [->|]; [done|]. simpl.
  intros [Hni Hnd]%NoDup_cons. constructor; [|by apply IH]. rewrite map_set_keys. naive_solver.
Qed.
Lemma map_delete_keys {A} k (m : list (string * A)) x : x ∈ (Js.map_delete k m).*1 → x ∈ m.*1.
Proof.
  induction m as [|[k0 v0] m IH]; simpl; [done|]. destruct (String.eqb_spec k0 k); set_solver.
Qed.
Lemma map_delete_NoDup {A} k (m : list (string * A)) : NoDup m.*1 → NoDup (Js.map_delete k m).*1.
Proof.
  induction m as [|[k0 v0] m IH]; simpl; [done|]. intros [Hni Hnd]%NoDup_cons.
  destruct (String.eqb_spec k0 k); [done|]. simpl. constructor; [|by apply IH].
  intros H%map_delete_keys. done.
Qed.
Lemma map_get_delete_eq {A} k (m : list (string * A)) :
  NoDup m.*1 → Js.map_get k (Js.map_delete k m) = None.
Proof.
  induction m as [|[k0 v0] m IH]; simpl; [done|]. intros [Hni Hnd]%NoDup_cons.
  destruct (String.eqb_spec k0 k) as [->|]; simpl; [by apply map_get_None|].
  destruct (String.eqb_spec k0 k); [done|by apply IH].
Qed.

(** Setting and deleting do not disturb a map into which the old value is put back. *)
Lemma map_set_back {A} k (v p : A) m k' :
  Js.map_get k m = Some p → Js.map_get k' (Js.map_set k p (Js.map_set k v m)) = Js.map_get k' m.
Proof.
  intros H. destruct (decide (k = k')) as [->|Hne]; [by rewrite map_get_set_eq|].
  by rewrite !map_get_set_ne.
Qed.

Lemma map_set_keeps {A} k (v : A) m : ∀ k' v',
  (k', v') ∈ Js.map_set k v m → (k' = k ∧ v' = v) ∨ (k', v') ∈ m.
Proof.
  induction m as [|[k0 v0] m IH]; intros k' v'; simpl; [set_solver|].
  destruct (String.eqb_spec k0 k) as [->|]; [set_solver|].
  intros [?|?]%elem_of_cons; [set_solver|]. apply IH in H as [?|?]; set_solver.
Qed.
Lemma map_set_has {A} k (v : A) m : (k, v) ∈ Js.map_set k v m.
Proof.
  induction m as [|[k0 v0] m IH]; simpl; [set_solver|].
  destruct (String.eqb_spec k0 k) as [->|]; set_solver.
Qed.
Lemma map_set_key {A} k (v : A) m k' v' :
  (k', v') ∈ m → ∃ v'', (k', v'') ∈ Js.map_set k v m.
Proof.
  induction m as [|[k0 v0] m IH]; simpl; [set_solver|].
  destruct (String.eqb_spec k0 k) as [->|].
  - intros [[= -> ->]|?]%elem_of_cons; [exists v; set_solver|exists v'; set_solver].
  - intros [[= -> ->]|Hin]%elem_of_cons; [exists v0; set_solver|].
    destruct (IH Hin) as [v'' ?]. exists v''. set_solver.
Qed.

Lemma map_get_elem {A} k (v : A) m : Js.map_get k m = Some v → (k, v) ∈ m.
Proof.
  induction m as [|[k0 v0] m IH]; simpl; [done|].
  destruct (String.eqb_spec k0 k) as [->|]; [intros [= ->]; set_solver|]. intros H. set_solver.
Qed.
Lemma elem_map_get {A} k (v : A) m : NoDup m.*1 → (k, v) ∈ m → Js.map_get k m = Some v.
Proof.
  induction m as [|[k0 v0] m IH]; simpl; [set_solver|]. intros [Hni Hnd]%NoDup_cons.
  intros [[= -> ->]|Hin]%elem_of_cons; [by rewrite String.eqb_refl|].
  destruct (String.eqb_spec k0 k) as [->|]; [|by apply IH].
  exfalso. apply Hni. apply list_elem_of_fmap. by exists (k, v).
Qed.

End JsMap.
