(* ===== verification/NumSpec.v ===== *)
(** * Binary64 arithmetic: exactness and error bounds

    Operations on integers within the safe range are exact, comparisons of
    integers are those of [Z], and rounding raises a value by a relative error of
    at most [2 ^ -53]. *)

From Stdlib Require Import ZArith Lia QArith Qabs.
From stdpp Require Import base list.
From S2P Require Import Prelude JsBase.

Module JsNum.
Import Js.

Lemma round_half_even_exact a d : 0 < d → round_half_even (a * d) d = a.
Proof.
  intros Hd. unfold round_half_even. rewrite Z.div_mul by lia.
  replace (2 * (a * d - a * d)) with 0 by lia. destruct (Z.compare_spec 0 d); lia.
Qed.

Lemma round_half_even_upper n d : 0 < d → 2 * (round_half_even n d * d) <= 2 * n + d.
Proof.
  intros Hd. unfold round_half_even. pose proof (Z.div_mod n d ltac:(lia)). pose proof (Z.mod_pos_bound n d Hd).
  set (q := n / d) in *. destruct (Z.compare_spec (2 * (n - q * d)) d); [destruct (Z.even q)| |]; nia.
Qed.

(** The exponent [round_pos] finds. *)
Definition exponent (n : Z) (d : positive) : Z :=
  let e0 := Z.log2 n - Z.log2 (Z.pos d) in
  let below := if 0 <=? e0 then n <? Z.pos d * 2 ^ e0 else n * 2 ^ (- e0) <? Z.pos d in
  if below then e0 - 1 else e0.

(** [2 ^ e <= n / d < 2 ^ (e + 1)], scaled by any sufficient power. *)
Lemma exponent_spec n d K :
  0 < n → 0 <= K → 0 <= K + exponent n d →
  Z.pos d * 2 ^ (K + exponent n d) <= n * 2 ^ K < Z.pos d * 2 ^ (K + exponent n d + 1).
Proof.
  intros Hn HK. unfold exponent. set (e0 := Z.log2 n - Z.log2 (Z.pos d)).
  pose proof (Z.log2_spec n Hn) as [Hn1 Hn2]. pose proof (Z.log2_spec (Z.pos d) ltac:(lia)) as [Hd1 Hd2].
  pose proof (Z.log2_nonneg n). pose proof (Z.log2_nonneg (Z.pos d)).
  rewrite Z.pow_succ_r in Hn2, Hd2 by lia.
  set (a := 2 ^ Z.log2 n) in *. set (b := 2 ^ Z.log2 (Z.pos d)) in *.
  assert (Hab : 0 <= e0 → a = b * 2 ^ e0).
  { intros. unfold a, b. rewrite <- Z.pow_add_r by lia. f_equal. lia. }
  assert (Hba : e0 <= 0 → b = a * 2 ^ (- e0)).
  { intros. unfold a, b. rewrite <- Z.pow_add_r by lia. f_equal. lia. }
  assert (Hsplit : ∀ x y, 0 <= x → 0 <= y → 2 ^ (x + y) = 2 ^ x * 2 ^ y) by (intros; apply Z.pow_add_r; lia).
  destruct (Z.leb_spec 0 e0) as [He|He].
  - specialize (Hab He). assert (0 < 2 ^ e0) by (apply Z.pow_pos_nonneg; lia).
    assert (0 < 2 ^ K) by (apply Z.pow_pos_nonneg; lia).
    assert (2 ^ (K + e0) = 2 ^ K * 2 ^ e0) as E by (apply Hsplit; lia).
    assert (2 ^ (K + e0 + 1) = 2 * (2 ^ K * 2 ^ e0)) as E1 by (rewrite Z.pow_add_r, E by lia; lia).
    destruct (Z.ltb_spec n (Z.pos d * 2 ^ e0)); intros HKe.
    + assert (2 * 2 ^ (K + (e0 - 1)) = 2 ^ K * 2 ^ e0) as E2.
      { rewrite <- E. replace (K + e0) with (K + (e0 - 1) + 1) by lia. rewrite (Z.pow_add_r 2 _ 1) by lia. lia. }
      replace (K + (e0 - 1) + 1) with (K + e0) by lia. rewrite E. nia.
    + rewrite E, E1. nia.
  - specialize (Hba ltac:(lia)). assert (0 < 2 ^ (- e0)) by (apply Z.pow_pos_nonneg; lia).
    destruct (Z.ltb_spec (n * 2 ^ (- e0)) (Z.pos d)); intros HKe.
    + assert (2 ^ K = 2 * 2 ^ (K + (e0 - 1)) * 2 ^ (- e0)) as E.
      { replace K with (K + (e0 - 1) + 1 + - e0) at 1 by lia. rewrite !Z.pow_add_r by lia. lia. }
      replace (K + (e0 - 1) + 1) with (Z.succ (K + (e0 - 1))) by lia. rewrite Z.pow_succ_r by lia.
      assert (0 < 2 ^ (K + (e0 - 1))) by (apply Z.pow_pos_nonneg; lia). rewrite E. nia.
    + assert (2 ^ K = 2 ^ (K + e0) * 2 ^ (- e0)) as E by (rewrite <- Z.pow_add_r by lia; f_equal; lia).
      replace (K + e0 + 1) with (Z.succ (K + e0)) by lia. rewrite Z.pow_succ_r by lia.
      assert (0 < 2 ^ (K + e0)) by (apply Z.pow_pos_nonneg; lia). rewrite E. nia.
Qed.

(** A quotient below [2 ^ 53] keeps [52 - e] fractional bits. *)
Lemma round_pos_small n d :
  0 < n → - 1022 <= exponent n d <= 52 →
  let K := 52 - exponent n d in
  let m := round_half_even (n * 2 ^ K) (Z.pos d) in
  m <= 2 ^ 53 ∧ ∃ v, round_pos n d = Some v ∧ v == Qmake m (Z.to_pos (2 ^ K)).
Proof.
  intros Hn He K m. pose proof (exponent_spec n d K Hn ltac:(lia) ltac:(lia)) as [Hlo Hhi].
  replace (K + exponent n d) with 52 in * by lia.
  pose proof (round_half_even_upper (n * 2 ^ K) (Z.pos d) ltac:(lia)) as Hup. fold m in Hup.
  assert (Hm : m <= 2 ^ 53).
  { change (52 + 1) with 53 in Hhi. apply Z.lt_succ_r. apply Z.mul_lt_mono_pos_r with (Z.pos d); lia. }
  split; [done|].
  assert (HK : 0 < 2 ^ K) by (apply Z.pow_pos_nonneg; lia).
  assert (Hbig : 2 ^ 53 < 2 ^ 1024) by (apply Z.pow_lt_mono_r; lia).
  assert (Hdef : m = round_half_even (n * 2 ^ K) (Z.pos d)) by reflexivity. clearbody m.
  assert (HKe : K = 52 - exponent n d) by reflexivity. clearbody K.
  unfold round_pos. destruct (Z.eqb_spec n 0); [lia|].
  fold (exponent n d). cbv zeta. fold (exponent n d).
  rewrite (Z.max_l (exponent n d - 52)) by lia.
  destruct (Z.leb_spec 0 (exponent n d - 52)) as [H0|H0].
  - assert (exponent n d - 52 = 0) as -> by lia. assert (K = 0) as -> by lia.
    change (2 ^ 0) with 1 in *. rewrite !Z.mul_1_r in *. rewrite <- Hdef.
    destruct (Qle_bool _ _) eqn:E.
    { apply Qle_bool_imp_le in E. unfold Qle in E. simpl in E. lia. }
    eexists. split; [done|]. reflexivity.
  - replace (- (exponent n d - 52)) with K by lia. rewrite <- Hdef.
    destruct (Qle_bool _ _) eqn:E.
    { apply Qle_bool_imp_le in E. unfold Qle in E. cbn [Qnum Qden inject_Z] in E. rewrite Z2Pos.id in E by lia.
      nia. }
    eexists. split; [done|]. reflexivity.
Qed.

(** ** Exactness *)

Lemma Qred_inject z : Qred (inject_Z z) = inject_Z z.
Proof.
  unfold Qred, inject_Z. pose proof (Z.ggcd_gcd z 1) as Hg. pose proof (Z.ggcd_correct_divisors z 1) as Hd.
  destruct (Z.ggcd z 1) as [g [r1 r2]]. simpl in *. rewrite Z.gcd_1_r in Hg. subst g.
  destruct Hd as [H1 H2]. assert (r2 = 1) as -> by lia. assert (r1 = z) as -> by lia. done.
Qed.

Lemma exponent_integer z d : 0 < z <= MAX_SAFE_INTEGER → 0 <= exponent (z * Z.pos d) d <= 52.
Proof.
  intros Hz. unfold MAX_SAFE_INTEGER in Hz.
  assert (Hlo : ∀ K, 0 <= K → 0 <= K + exponent (z * Z.pos d) d →
    2 ^ (K + exponent (z * Z.pos d) d) <= z * 2 ^ K < 2 ^ (K + exponent (z * Z.pos d) d + 1)).
  { intros K HK HKe. pose proof (exponent_spec (z * Z.pos d) d K ltac:(lia) HK HKe). nia. }
  set (e := exponent (z * Z.pos d) d) in *. split.
  - destruct (Z.leb_spec 0 e); [done|]. exfalso. destruct (Hlo (- e) ltac:(lia) ltac:(lia)) as [_ H1].
    replace (- e + e + 1) with 1 in H1 by lia. change (2 ^ 1) with 2 in H1.
    assert (2 ^ 1 <= 2 ^ (- e)) by (apply Z.pow_le_mono_r; lia). change (2 ^ 1) with 2 in *. nia.
  - destruct (Z.leb_spec e 52); [done|]. exfalso. destruct (Hlo 0 ltac:(lia) ltac:(lia)) as [H1 _].
    assert (2 ^ 53 <= 2 ^ (0 + e)) by (apply Z.pow_le_mono_r; lia). change (2 ^ 0) with 1 in H1. lia.
Qed.

(** A rational that is a safe integer is a binary64 value. *)
Lemma to_binary64_integer z q : q == inject_Z z → Z.abs z <= MAX_SAFE_INTEGER → to_binary64 q = of_Z z.
Proof.
  intros Hq Hz. destruct q as [n d]. unfold Qeq in Hq. simpl in Hq. rewrite Z.mul_1_r in Hq. subst n.
  unfold to_binary64. simpl.
  assert (Hr : ∃ v, round_pos (Z.abs (z * Z.pos d)) d = Some v ∧ v == inject_Z (Z.abs z)).
  { destruct (Z.eq_dec z 0) as [->|Hz0]; [by exists (inject_Z 0)|].
    replace (Z.abs (z * Z.pos d)) with (Z.abs z * Z.pos d) by nia.
    pose proof (exponent_integer (Z.abs z) d ltac:(lia)) as He.
    pose proof (round_pos_small (Z.abs z * Z.pos d) d ltac:(nia) ltac:(lia)) as [_ (v & Hv & Heq)].
    exists v. split; [done|]. rewrite Heq. set (K := 52 - _) in *.
    assert (0 < 2 ^ K) by (apply Z.pow_pos_nonneg; lia).
    replace (Z.abs z * Z.pos d * 2 ^ K) with (Z.abs z * 2 ^ K * Z.pos d) by lia.
    rewrite round_half_even_exact by lia. unfold Qeq. cbn [Qnum Qden inject_Z]. rewrite Z2Pos.id by lia. lia. }
  destruct Hr as (v & -> & Hv). unfold of_Z. f_equal. rewrite <- (Qred_inject z). apply Qred_complete.
  destruct (Z.ltb_spec (z * Z.pos d) 0); rewrite Hv; unfold Qeq; simpl; lia.
Qed.

Lemma num_add_Z a b : Z.abs (a + b) <= MAX_SAFE_INTEGER → num_add (of_Z a) (of_Z b) = of_Z (a + b).
Proof. intros H. unfold num_add. apply to_binary64_integer; [|done]. unfold Qeq. simpl. lia. Qed.
Lemma num_mul_Z a b : Z.abs (a * b) <= MAX_SAFE_INTEGER → num_mul (of_Z a) (of_Z b) = of_Z (a * b).
Proof. intros H. unfold num_mul. apply to_binary64_integer; [|done]. unfold Qeq. simpl. lia. Qed.

Lemma num_le_Z a b : num_le (of_Z a) (of_Z b) = (a <=? b).
Proof. unfold num_le, of_Z, Qle_bool. simpl. by rewrite !Z.mul_1_r. Qed.
Lemma num_lt_Z a b : num_lt (of_Z a) (of_Z b) = (a <? b).
Proof. unfold num_lt, of_Z, Qle_bool. simpl. rewrite !Z.mul_1_r. lia. Qed.
Lemma num_eqb_Z a b : num_eqb (of_Z a) (of_Z b) = (a =? b).
Proof. unfold num_eqb, of_Z, Qeq_bool. simpl. rewrite !Z.mul_1_r. by rewrite Zeq_is_eq_bool || idtac. Qed.
Lemma num_integer_Z a : num_integer (of_Z a) = Some a.
Proof. unfold num_integer, of_Z. simpl. by rewrite Z.mod_1_r, Z.div_1_r. Qed.
Lemma num_floor_Z a : num_floor (of_Z a) = of_Z a.
Proof. unfold num_floor, of_Z. simpl. by rewrite Z.div_1_r. Qed.

(** ** Rounding error *)

Lemma round_half_even_lower n d : 0 < d → 2 * n - d <= 2 * (round_half_even n d * d).
Proof.
  intros Hd. unfold round_half_even. pose proof (Z.div_mod n d ltac:(lia)). pose proof (Z.mod_pos_bound n d Hd).
  set (q := n / d) in *. destruct (Z.compare_spec (2 * (n - q * d)) d); [destruct (Z.even q)| |]; nia.
Qed.

Lemma exponent_bounds n d a b :
  0 < n → 0 <= a → 0 <= b → Z.pos d <= n * 2 ^ a → n < Z.pos d * 2 ^ b → - a <= exponent n d < b.
Proof.
  intros Hn Ha Hb Hlo Hhi. set (e := exponent n d). pose proof (exponent_spec n d) as Hs. fold e in Hs.
  assert (Hlt : ∀ x y, 2 ^ x < 2 ^ y → 0 <= y → x < y).
  { intros x y H Hy. destruct (Z.lt_ge_cases x y); [done|].
    pose proof (Z.pow_le_mono_r 2 y x ltac:(lia) ltac:(lia)). lia. }
  split.
  - destruct (Z.le_gt_cases (- a) e); [done|]. exfalso.
    destruct (Hs (- e) ltac:(lia) ltac:(lia) ltac:(lia)) as [_ H1].
    replace (- e + e + 1) with 1 in H1 by lia. change (2 ^ 1) with 2 in H1.
    assert (2 * 2 ^ a <= 2 ^ (- e)).
    { rewrite <- Z.pow_succ_r by lia. apply Z.pow_le_mono_r; lia. }
    nia.
  - destruct (Z.le_gt_cases b e); [|done]. exfalso.
    destruct (Hs 0 ltac:(lia) ltac:(lia) ltac:(lia)) as [H1 _]. change (2 ^ 0) with 1 in H1.
    assert (2 ^ b <= 2 ^ (0 + e)) by (apply Z.pow_le_mono_r; lia). nia.
Qed.

(** A value in [[2 ^ -100, 2 ^ 52)] rounds within a relative error of [2 ^ -53]. *)
Lemma to_binary64_error q :
  (0 < q)%Q → (1 <= q * inject_Z (2 ^ 100))%Q → (q < inject_Z (2 ^ 52))%Q →
  ∃ v, to_binary64 q = NFin v ∧
    (v * inject_Z (2 ^ 53) <= q * inject_Z (2 ^ 53 + 1))%Q ∧
    (q * inject_Z (2 ^ 53 - 1) <= v * inject_Z (2 ^ 53))%Q.
Proof.
  destruct q as [n d]. intros H0 H1 H2. unfold Qle, Qlt in H0, H1, H2. cbn [Qnum Qden inject_Z Qmult] in *.
  rewrite ?Pos.mul_1_r, ?Z.mul_1_r, ?Z.mul_1_l in *. assert (0 < n) by lia. clear H0. rename H into H0.
  pose proof (exponent_bounds n d 100 52 H0 ltac:(lia) ltac:(lia) ltac:(lia) ltac:(lia)) as He.
  unfold to_binary64. cbn [Qnum Qden]. replace (n <? 0) with false by lia. rewrite Z.abs_eq by lia.
  destruct (round_pos_small n d H0 ltac:(lia)) as (_ & v & -> & Hv).
  exists (Qred v). split; [done|]. rewrite (Qred_correct v), Hv.
  pose proof (exponent_spec n d (52 - exponent n d) H0 ltac:(lia) ltac:(lia)) as [Hlo _].
  set (K := 52 - exponent n d) in *. replace (K + exponent n d) with 52 in Hlo by lia.
  pose proof (round_half_even_upper (n * 2 ^ K) (Z.pos d) ltac:(lia)) as Hup.
  pose proof (round_half_even_lower (n * 2 ^ K) (Z.pos d) ltac:(lia)) as Hdn.
  set (m := round_half_even _ _) in *. assert (0 < 2 ^ K) by (apply Z.pow_pos_nonneg; lia).
  clearbody m K. unfold Qle. cbn [Qnum Qden inject_Z Qmult].
  rewrite !Pos.mul_1_r, Z2Pos.id by lia.
  change (2 ^ 52) with 4503599627370496 in *. change (2 ^ 53) with 9007199254740992 in *.
  set (P := 2 ^ K) in *. clearbody P. split; lia.
Qed.

(** The same bounds on numerators and denominators. *)
Lemma to_binary64_error_Z n d :
  0 < n → Z.pos d <= n * 2 ^ 100 → n < Z.pos d * 2 ^ 52 →
  ∃ vn vd, to_binary64 (n # d) = NFin (vn # vd) ∧
    vn * Z.pos d * 2 ^ 53 <= n * Z.pos vd * (2 ^ 53 + 1) ∧
    n * Z.pos vd * (2 ^ 53 - 1) <= vn * Z.pos d * 2 ^ 53.
Proof.
  intros H0 H1 H2. destruct (to_binary64_error (n # d)) as ([vn vd] & Hv & Hup & Hlo).
  - unfold Qlt. simpl. lia.
  - unfold Qle. cbn [Qnum Qden inject_Z Qmult]. rewrite ?Pos.mul_1_r. lia.
  - unfold Qlt. cbn [Qnum Qden inject_Z]. lia.
  - exists vn, vd. split; [done|]. unfold Qle in Hup, Hlo. cbn [Qnum Qden inject_Z Qmult] in *.
    rewrite ?Pos.mul_1_r in *. split; lia.
Qed.

Lemma num_div_pos a d : num_div (of_Z a) (of_Z (Z.pos d)) = to_binary64 (a # d).
Proof. unfold num_div, of_Z. simpl. unfold Qdiv, Qmult. simpl. by rewrite Z.mul_1_r. Qed.

Lemma num_div_exact a d : 0 < d → Z.abs a <= MAX_SAFE_INTEGER → num_div (of_Z (a * d)) (of_Z d) = of_Z a.
Proof.
  intros Hd Ha. destruct d as [|d|d]; [lia| |lia]. rewrite num_div_pos.
  apply to_binary64_integer; [|done]. unfold Qeq. simpl. lia.
Qed.

(** [Math.floor] of a rounded quotient is the integer quotient while the spacing
    of the values is below [1 / d]. *)
Lemma num_floor_div a d :
  0 <= a → a < 2 ^ 51 → Z.pos d <= 2 ^ 100 → num_floor (num_div (of_Z a) (of_Z (Z.pos d))) = of_Z (a / Z.pos d).
Proof.
  intros Ha Hb Hd. rewrite num_div_pos.
  destruct (Z.eq_dec (a mod Z.pos d) 0) as [Hm|Hm].
  { pose proof (Z.div_mod a (Z.pos d) ltac:(lia)). set (q := a / Z.pos d) in *.
    assert (Z.abs q <= MAX_SAFE_INTEGER).
    { unfold MAX_SAFE_INTEGER. assert (0 <= q) by (by apply Z.div_pos). nia. }
    rewrite (to_binary64_integer q); [by rewrite num_floor_Z|unfold Qeq; simpl; lia|done]. }
  assert (0 < a) by (destruct (Z.eq_dec a 0) as [->|]; [by rewrite Z.mod_0_l in Hm|lia]).
  destruct (to_binary64_error_Z a d) as (vn & vd & -> & Hup & Hlo); [done|nia|nia|].
  unfold num_floor. cbn [Qnum Qden]. f_equal.
  pose proof (Z.div_mod a (Z.pos d) ltac:(lia)). pose proof (Z.mod_pos_bound a (Z.pos d) ltac:(lia)).
  set (q := a / Z.pos d) in *. set (r := a mod Z.pos d) in *.
  change (2 ^ 53) with 9007199254740992 in *. change (2 ^ 51) with 2251799813685248 in *.
  symmetry. apply Z.div_unique_pos with (vn - q * Z.pos vd); [|lia].
  assert (q * Z.pos vd <= vn).
  { apply Z.mul_le_mono_pos_r with (Z.pos d * 9007199254740992); [lia|].
    transitivity (a * Z.pos vd * (9007199254740992 - 1)); [|lia]. nia. }
  assert (vn < (q + 1) * Z.pos vd); [|lia].
  apply Z.mul_lt_mono_pos_r with (Z.pos d * 9007199254740992); [lia|].
  apply Z.le_lt_trans with (a * Z.pos vd * (9007199254740992 + 1)); [lia|]. nia.
Qed.

End JsNum.
