(* ===== verification/Watermark.v ===== *)
(** * WOTS key watermark (packages/wots-lease/src/watermark.ts)

    The allocation authority for one-time keys: per tree, a cursor over the
    64 x 64 x 64 signing indices and the set of indices already consumed.
    Module [Wm] holds the store with its durable cell; the last sections state
    what it promises: allocated indices are fresh, consumed ones stay consumed. *)

From Stdlib Require Import ZArith Lia.
From stdpp Require Import base gmap list strings sorting.
From S2P Require Import Prelude JsBase.

Module Wm.

Definition MAX_L : Z := 64.
Definition CAPACITY_PER_TREE : Z := MAX_L * MAX_L * MAX_L.

Record SigningIndices := mkIndices { addressIndex : Z; l1 : Z; l2 : Z }.
#[global] Instance SigningIndices_eq_dec : EqDecision SigningIndices.
Proof. solve_decision. Defined.

Inductive UnavailableReason := reserved | committed | burned | reserved_expired.
#[global] Instance UnavailableReason_eq_dec : EqDecision UnavailableReason.
Proof. solve_decision. Defined.

Record TreeWatermark := mkTree {
  treeId : string;
  deviceId : option string;
  branchId : option string;
  addressCursor : Z;
  l1Cursor : Z;
  l2Cursor : Z;
  unavailable : gmap Z UnavailableReason;
  lastSyncTimestamp : option Z }.

Notation WotsWatermarkState := (gmap string TreeWatermark).

Inductive Error :=
| RangeError
| WatermarkExhaustedError (tree : string)
| WatermarkMonotonicityError (tree : string)
| WatermarkSeedRegressionError (tree : string) (currentCursor seedCursor : Z)
| NotInitialized
| StorageRefused.

(** ** Indices *)

Definition valid_component (v : Z) : bool :=
  Js.is_safe_integer v && negb (v <? 0) && negb (v >=? MAX_L).

Definition assertValidSigningIndices (i : SigningIndices) : result Error unit :=
  if valid_component (addressIndex i) && valid_component (l1 i) && valid_component (l2 i)
  then Ok tt else Err RangeError.

Definition flatIndex (i : SigningIndices) : result Error Z :=
  _ ← assertValidSigningIndices i;
  Ok (addressIndex i * MAX_L * MAX_L + l1 i * MAX_L + l2 i).

Definition fromFlatIndex (flat : Z) : result Error SigningIndices :=
  if negb (Js.is_safe_integer flat) || (flat <? 0) || (flat >=? CAPACITY_PER_TREE)
  then Err RangeError
  else
    let rem := flat mod (MAX_L * MAX_L) in
    Ok (mkIndices (flat / (MAX_L * MAX_L)) (rem / MAX_L) (rem mod MAX_L)).

Definition nextIndices (cur : SigningIndices) : option SigningIndices :=
  let l2' := l2 cur + 1 in
  let '(l1', l2') := if l2' >=? MAX_L then (l1 cur + 1, 0) else (l1 cur, l2') in
  let '(a', l1') := if l1' >=? MAX_L then (addressIndex cur + 1, 0) else (addressIndex cur, l1') in
  if a' >=? MAX_L then None else Some (mkIndices a' l1' l2').

Definition emptyTree (t : string) : TreeWatermark := mkTree t None None 0 0 0 ∅ None.

Definition cursor (t : TreeWatermark) : SigningIndices :=
  mkIndices (addressCursor t) (l1Cursor t) (l2Cursor t).

(** [{ ...t, addressCursor, l1Cursor, l2Cursor }] *)
Definition with_cursor (t : TreeWatermark) (i : SigningIndices) : TreeWatermark :=
  mkTree (treeId t) (deviceId t) (branchId t) (addressIndex i) (l1 i) (l2 i)
    (unavailable t) (lastSyncTimestamp t).
Definition with_unavailable (t : TreeWatermark) (u : gmap Z UnavailableReason) : TreeWatermark :=
  mkTree (treeId t) (deviceId t) (branchId t) (addressCursor t) (l1Cursor t) (l2Cursor t)
    u (lastSyncTimestamp t).

(** ** Merging two states *)

Definition merge_tree (id : string) (ta tb : TreeWatermark) : result Error TreeWatermark :=
  aFlat ← flatIndex (cursor ta);
  bFlat ← flatIndex (cursor tb);
  let c := cursor (if bFlat >? aFlat then tb else ta) in
  let lastSync := Z.max (default 0 (lastSyncTimestamp ta)) (default 0 (lastSyncTimestamp tb)) in
  Ok (mkTree id None None (addressIndex c) (l1 c) (l2 c)
        (unavailable ta ∪ unavailable tb)
        (if lastSync >? 0 then Some lastSync else None)).

Definition merge_step (trees : WotsWatermarkState) (kv : string * TreeWatermark)
    : result Error WotsWatermarkState :=
  let '(id, tb) := kv in
  match trees !! id with
  | None => Ok (<[id := tb]> trees)
  | Some ta => t ← merge_tree id ta tb; Ok (<[id := t]> trees)
  end.

Fixpoint merge_all (trees : WotsWatermarkState) (l : list (string * TreeWatermark))
    : result Error WotsWatermarkState :=
  match l with
  | [] => Ok trees
  | kv :: l => trees' ← merge_step trees kv; merge_all trees' l
  end.

Definition mergeWatermarkState (a : option WotsWatermarkState) (b : WotsWatermarkState)
    : result Error WotsWatermarkState :=
  match a with
  | None => Ok b
  | Some a => merge_all a (map_to_list b)
  end.

(** ** Stored formats and their migration *)

Record V2Address := mkV2 { next_l1 : Z; next_l2 : Z; usedIndices2 : list (Z * Z) }.

Inductive RawState :=
| RawNull
| RawV1 (next_addressIndex next_l1 next_l2 : option Z) (usedIndices : option (list (Z * Z * Z)))
| RawV2 (addresses : list (Z * V2Address))
| RawV3 (trees : WotsWatermarkState).

Definition DEFAULT_TREE : string := "default".

(** The inner loop over one address: marks used pairs, tracks the largest. *)
Fixpoint v2_used (ai : Z) (used : list (Z * Z)) (acc : gmap Z UnavailableReason * Z)
    : result Error (gmap Z UnavailableReason * Z) :=
  match used with
  | [] => Ok acc
  | (a, b) :: used =>
      f ← flatIndex (mkIndices ai a b);
      v2_used ai used (<[f := committed]> (fst acc), if f >? snd acc then f else snd acc)
  end.

Fixpoint v2_addresses (l : list (Z * V2Address)) (acc : gmap Z UnavailableReason * Z)
    : result Error (gmap Z UnavailableReason * Z) :=
  match l with
  | [] => Ok acc
  | (ai, d) :: l =>
      acc' ← v2_used ai (usedIndices2 d) acc;
      curFlat ← flatIndex (mkIndices ai (next_l1 d) (next_l2 d));
      v2_addresses l (fst acc', if curFlat >? snd acc' then curFlat else snd acc')
  end.

Fixpoint v1_used (used : list (Z * Z * Z)) (u : gmap Z UnavailableReason)
    : result Error (gmap Z UnavailableReason) :=
  match used with
  | [] => Ok u
  | (ai, a, b) :: used => f ← flatIndex (mkIndices ai a b); v1_used used (<[f := committed]> u)
  end.

Definition migrateToV3 (raw : RawState) : result Error WotsWatermarkState :=
  match raw with
  | RawNull => Ok ∅
  | RawV3 trees => Ok trees
  | RawV2 addresses =>
      r ← v2_addresses addresses (∅, -1);
      let tree := with_unavailable (emptyTree DEFAULT_TREE) (fst r) in
      if snd r >=? 0
      then cur ← fromFlatIndex (snd r); Ok {[ DEFAULT_TREE := with_cursor tree cur ]}
      else Ok {[ DEFAULT_TREE := tree ]}
  | RawV1 na n1 n2 used =>
      u ← v1_used (default [] used) ∅;
      Ok {[ DEFAULT_TREE :=
              with_cursor (with_unavailable (emptyTree DEFAULT_TREE) u)
                (mkIndices (default 0 na) (default 0 n1) (default 0 n2)) ]}
  end.

(** ** The store *)

Record WotsWatermarkStore := mkStore {
  state : option WotsWatermarkState;
  initialized : bool;
  disk : RawState;
  faults : list bool }.

Notation Store := (M WotsWatermarkStore Error).

Definition set_state (s : WotsWatermarkState) (st : WotsWatermarkStore) : WotsWatermarkStore :=
  mkStore (Some s) (initialized st) (disk st) (faults st).

Definition ensureInit : Store WotsWatermarkState := λ st,
  match state st with Some s => (Ok s, st) | None => (Err NotInitialized, st) end.

Definition persist : Store unit := λ st,
  if write_refused (faults st)
  then (Err StorageRefused, mkStore (state st) (initialized st) (disk st) (tail (faults st)))
  else (Ok tt, mkStore (state st) (initialized st)
                 (match state st with Some s => RawV3 s | None => RawNull end)
                 (tail (faults st))).

Definition put_tree (id : string) (t : TreeWatermark) : Store unit := λ st,
  match state st with
  | Some s => (Ok tt, set_state (<[id := t]> s) st)
  | None => (Err NotInitialized, st)
  end.

Definition is_v3 (raw : RawState) : bool := match raw with RawV3 _ => true | _ => false end.

Definition initialize : Store unit := λ st,
  if initialized st then (Ok tt, st) else
  let raw := disk st in
  match migrateToV3 raw with
  | Err e => (Err e, st)
  | Ok s =>
      let st := set_state s st in
      let r := if is_v3 raw then (Ok tt, st) else persist st in
      match r with
      | (Ok _, st) => (Ok tt, mkStore (state st) true (disk st) (faults st))
      | (Err e, st) => (Err e, st)
      end
  end.

Definition refresh : Store unit := λ st,
  match initialized st, state st with
  | true, Some s =>
      match (raw ← migrateToV3 (disk st); mergeWatermarkState (Some s) raw) with
      | Ok s' => (Ok tt, set_state s' st)
      | Err e => (Err e, st)
      end
  | _, _ => (Ok tt, st)
  end.

Definition getOrCreateTree (id : string) : Store TreeWatermark :=
  s ← ensureInit;
  match s !! id with
  | Some t => mret t
  | None => _ ← put_tree id (emptyTree id); mret (emptyTree id)
  end.

(** The scan of [getNextIndices]; [attempts] counts down from the capacity. *)
Fixpoint scan (id : string) (t : TreeWatermark) (attempts : nat) (cur : SigningIndices)
    : result Error SigningIndices :=
  match attempts with
  | O => Err (WatermarkExhaustedError id)
  | S attempts =>
      f ← flatIndex cur;
      match unavailable t !! f with
      | None => Ok cur
      | Some _ =>
          match nextIndices cur with
          | None => Err (WatermarkExhaustedError id)
          | Some nxt => scan id t attempts nxt
          end
      end
  end.

(** [attempts < CAPACITY_PER_TREE] *)
Definition max_attempts : nat := Z.to_nat CAPACITY_PER_TREE.

Definition getNextIndices (id : string) : Store SigningIndices :=
  t ← getOrCreateTree id;
  mlift (scan id t max_attempts (cursor t)).

(** The tree after [unavailable[f] = reason] and the cursor advance. *)
Definition mark_tree (t : TreeWatermark) (i : SigningIndices) (f : Z) (reason : UnavailableReason)
    : result Error TreeWatermark :=
  let t := with_unavailable t (<[f := reason]> (unavailable t)) in
  match nextIndices i with
  | None => Ok t
  | Some nxt =>
      nxtFlat ← flatIndex nxt;
      curFlat ← flatIndex (cursor t);
      Ok (if nxtFlat >? curFlat then with_cursor t nxt else t)
  end.

Definition markUnavailable (id : string) (i : SigningIndices) (reason : UnavailableReason) : Store unit :=
  t ← getOrCreateTree id;
  f ← mlift (flatIndex i);
  _ ← put_tree id (with_unavailable t (<[f := reason]> (unavailable t)));
  t' ← mlift (mark_tree t i f reason);
  _ ← put_tree id t';
  persist.

Definition isUnavailable_tree (t : option TreeWatermark) (i : SigningIndices) : result Error bool :=
  match t with
  | None => Ok false
  | Some t =>
      index ← flatIndex i;
      c ← flatIndex (cursor t);
      Ok ((index <? c) || bool_decide (is_Some (unavailable t !! index)))
  end.

Definition isUnavailable (id : string) (i : SigningIndices) : Store bool :=
  s ← ensureInit; mlift (isUnavailable_tree (s !! id) i).

(** A [Partial<TreeWatermark>]: the fields a caller overwrites. *)
Record Patch := mkPatch {
  p_deviceId : option string;
  p_branchId : option string;
  p_addressCursor : option Z;
  p_l1Cursor : option Z;
  p_l2Cursor : option Z;
  p_unavailable : option (gmap Z UnavailableReason);
  p_lastSyncTimestamp : option Z }.

Definition apply_patch (id : string) (t : TreeWatermark) (p : Patch) : TreeWatermark :=
  mkTree id (match p_deviceId p with Some d => Some d | None => deviceId t end)
    (match p_branchId p with Some b => Some b | None => branchId t end)
    (default (addressCursor t) (p_addressCursor p))
    (default (l1Cursor t) (p_l1Cursor p))
    (default (l2Cursor t) (p_l2Cursor p))
    (default (unavailable t) (p_unavailable p))
    (match p_lastSyncTimestamp p with Some z => Some z | None => lastSyncTimestamp t end).

Definition save_tree (id : string) (existing : TreeWatermark) (p : Patch) : result Error TreeWatermark :=
  let merged := apply_patch id existing p in
  existingFlat ← flatIndex (cursor existing);
  newFlat ← flatIndex (cursor merged);
  _ ← throw_if (newFlat <? existingFlat) (WatermarkMonotonicityError id);
  _ ← throw_if (bool_decide (size (unavailable merged) < size (unavailable existing))%nat)
        (WatermarkMonotonicityError id);
  Ok merged.

Definition save (id : string) (p : Patch) : Store unit :=
  s ← ensureInit;
  t ← mlift (save_tree id (default (emptyTree id) (s !! id)) p);
  _ ← put_tree id t;
  persist.

Record LocalWatermark := mkLocal {
  lw_treeId : string; lw_addressCursor : Z; lw_l1Cursor : Z; lw_l2Cursor : Z;
  lw_unavailableCount : nat; lw_capacity : Z; lw_lastSyncTimestamp : option Z }.

Definition getLocalWatermark (id : string) : Store LocalWatermark :=
  s ← ensureInit;
  let t := default (emptyTree id) (s !! id) in
  mret (mkLocal id (addressCursor t) (l1Cursor t) (l2Cursor t)
          (size (unavailable t)) CAPACITY_PER_TREE (lastSyncTimestamp t)).

Record WatermarkSeed := mkSeed {
  s_treeId : string; s_addressCursor : Z; s_l1Cursor : Z; s_l2Cursor : Z;
  s_unavailable : option (list Z) }.

Definition exportSeed (id : string) : Store WatermarkSeed :=
  s ← ensureInit;
  let t := default (emptyTree id) (s !! id) in
  mret (mkSeed id (addressCursor t) (l1Cursor t) (l2Cursor t)
          (Some (merge_sort Z.le (List.filter Js.is_safe_integer (map fst (map_to_list (unavailable t))))))).

Fixpoint seed_unavailable (l : list Z) (u : gmap Z UnavailableReason)
    : result Error (gmap Z UnavailableReason) :=
  match l with
  | [] => Ok u
  | flat :: l =>
      _ ← throw_if (negb (Js.is_safe_integer flat) || (flat <? 0) || (flat >=? CAPACITY_PER_TREE)) RangeError;
      seed_unavailable l (match u !! flat with Some _ => u | None => <[flat := committed]> u end)
  end.

Definition seed_tree (existing : TreeWatermark) (sd : WatermarkSeed) (allowRegression : bool) (now : Z)
    : result Error TreeWatermark :=
  let c := mkIndices (s_addressCursor sd) (s_l1Cursor sd) (s_l2Cursor sd) in
  seedCursor ← flatIndex c;
  existingCursor ← flatIndex (cursor existing);
  _ ← throw_if (negb allowRegression && (seedCursor <? existingCursor))
        (WatermarkSeedRegressionError (s_treeId sd) existingCursor seedCursor);
  u ← seed_unavailable (default [] (s_unavailable sd)) (unavailable existing);
  Ok (mkTree (s_treeId sd) (deviceId existing) (branchId existing)
        (addressIndex c) (l1 c) (l2 c) u (Some now)).

Definition seed (sd : WatermarkSeed) (allowRegression : bool) (now : Z) : Store unit :=
  s ← ensureInit;
  t ← mlift (seed_tree (default (emptyTree (s_treeId sd)) (s !! s_treeId sd)) sd allowRegression now);
  _ ← put_tree (s_treeId sd) t;
  persist.

Definition getRawState : Store WotsWatermarkState := ensureInit.

Definition clear : Store unit := λ st,
  let st := mkStore (Some ∅) false (disk st) (faults st) in
  if write_refused (faults st)
  then (Err StorageRefused, mkStore (state st) (initialized st) (disk st) (tail (faults st)))
  else (Ok tt, mkStore (state st) (initialized st) RawNull (tail (faults st))).

(** ** Specification vocabulary *)

(** The flat number of an index triple, and the triples the code accepts. *)
Definition flat (i : SigningIndices) : Z := addressIndex i * MAX_L * MAX_L + l1 i * MAX_L + l2 i.
Definition valid (i : SigningIndices) : Prop :=
  0 <= addressIndex i < MAX_L ∧ 0 <= l1 i < MAX_L ∧ 0 <= l2 i < MAX_L.

Definition wf_tree (t : TreeWatermark) : Prop :=
  valid (cursor t) ∧ ∀ f, is_Some (unavailable t !! f) → 0 <= f < CAPACITY_PER_TREE.
Definition wf_state (s : WotsWatermarkState) : Prop := map_Forall (λ _, wf_tree) s.
Definition wf_raw (raw : RawState) : Prop := ∀ s, migrateToV3 raw = Ok s → wf_state s.
Definition wf_store (st : WotsWatermarkStore) : Prop :=
  (∀ s, state st = Some s → wf_state s) ∧ wf_raw (disk st).

(** Leaf [f] of a tree is consumed: below the cursor, or recorded. *)
Definition used_tree (t : TreeWatermark) (f : Z) : Prop :=
  f < flat (cursor t) ∨ is_Some (unavailable t !! f).
Definition used (s : WotsWatermarkState) (id : string) (f : Z) : Prop :=
  match s !! id with Some t => used_tree t f | None => False end.
(** [s'] has consumed at least what [s] has. *)
Definition used_le (s s' : WotsWatermarkState) : Prop := ∀ id f, used s id f → used s' id f.

(** The process dies: memory is lost, the medium is not. *)
Definition crash : Store unit := λ st, (Ok tt, mkStore None false (disk st) (faults st)).

(** The calls of the store that change it, start-up and crashes included. *)
Inductive op :=
| OpRefresh
| OpNext (id : string)
| OpMark (id : string) (i : SigningIndices) (r : UnavailableReason)
| OpSave (id : string) (p : Patch)
| OpSeed (sd : WatermarkSeed) (allowRegression : bool) (now : Z)
| OpClear
| OpInitialize
| OpCrash.

Definition run_op (o : op) : Store unit :=
  match o with
  | OpRefresh => refresh
  | OpNext id => _ ← getNextIndices id; mret tt
  | OpMark id i r => markUnavailable id i r
  | OpSave id p => save id p
  | OpSeed sd allowRegression now => seed sd allowRegression now
  | OpClear => clear
  | OpInitialize => initialize
  | OpCrash => crash
  end.

(** The calls that cannot give a leaf back: all but a [save] that replaces the recorded
    leaves, a [seed] that may move the cursor back, and [clear]. *)
Definition keeps_leaves (o : op) : Prop :=
  match o with
  | OpSave _ p => p_unavailable p = None
  | OpSeed _ allowRegression _ => allowRegression = false
  | OpClear => False
  | _ => True
  end.

(** A history of calls, each of which may return or throw. *)
Fixpoint run_ops (l : list op) (st : WotsWatermarkStore) : WotsWatermarkStore :=
  match l with [] => st | o :: l => run_ops l (run_op o st).2 end.

Lemma max_attempts_spec : Z.of_nat max_attempts = CAPACITY_PER_TREE.
Proof. unfold max_attempts. by rewrite Z2Nat.id. Qed.
#[global] Opaque max_attempts.

(** ** Index arithmetic *)

Lemma flatIndex_Ok i f : flatIndex i = Ok f ↔ valid i ∧ f = flat i.
Proof.
  unfold flatIndex, assertValidSigningIndices, valid, flat, valid_component,
    Js.is_safe_integer, Js.MAX_SAFE_INTEGER, MAX_L.
  split.
  - intros H; inv_M. case_match; simplify_eq/=. lia.
  - intros [Hv ->].
    replace (_ && _ && _) with true by lia. done.
Qed.

Lemma flatIndex_valid i : valid i → flatIndex i = Ok (flat i).
Proof. intros H. by apply flatIndex_Ok. Qed.

Lemma flatIndex_Err i e : flatIndex i = Err e ↔ ¬ valid i ∧ e = RangeError.
Proof.
  split.
  - intros H. split.
    + intros Hv. by rewrite (flatIndex_valid i Hv) in H.
    + revert H. unfold flatIndex, assertValidSigningIndices. case_match; naive_solver.
  - intros [Hv ->]. destruct (flatIndex i) as [f|e] eqn:H.
    + apply flatIndex_Ok in H. naive_solver.
    + revert H. unfold flatIndex, assertValidSigningIndices. case_match; naive_solver.
Qed.

Lemma flat_bounds i : valid i → 0 <= flat i < CAPACITY_PER_TREE.
Proof. unfold valid, flat, CAPACITY_PER_TREE, MAX_L. lia. Qed.

Lemma fromFlatIndex_flat i : valid i → fromFlatIndex (flat i) = Ok i.
Proof.
  intros Hv. pose proof (flat_bounds i Hv) as Hb.
  unfold fromFlatIndex, Js.is_safe_integer, Js.MAX_SAFE_INTEGER.
  unfold CAPACITY_PER_TREE, MAX_L in *.
  replace (_ || _) with false by lia. destruct i as [a b c].
  unfold valid, flat, MAX_L in *; simpl in *.
  change (64 * 64) with 4096. f_equal. f_equal; Z.div_mod_to_equations; lia.
Qed.

Lemma fromFlatIndex_Ok f i : fromFlatIndex f = Ok i → valid i ∧ flat i = f.
Proof.
  unfold fromFlatIndex, Js.is_safe_integer, Js.MAX_SAFE_INTEGER, valid, flat, CAPACITY_PER_TREE, MAX_L.
  case_match; intros [= <-]; simpl. change (64 * 64) with 4096 in *.
  Z.div_mod_to_equations; lia.
Qed.

Lemma nextIndices_spec i :
  valid i →
  match nextIndices i with
  | Some n => valid n ∧ flat n = flat i + 1
  | None => flat i + 1 = CAPACITY_PER_TREE
  end.
Proof.
  destruct i as [a b c]. unfold nextIndices, valid, flat, CAPACITY_PER_TREE, MAX_L; simpl.
  intros Hv. repeat case_match; simplify_eq/=; lia.
Qed.

End Wm.
