(* ===== verification/WatermarkSpec.v ===== *)
(** * What the watermark store promises

    The allocation scan is complete and minimal, consumed leaves stay consumed through
    every history of calls (returning or throwing) but those that give leaves back, merging is the union
    of what two states consumed, migration and export keep every used leaf, and
    the size check of [save] alone does not keep the map from forgetting. *)

From Stdlib Require Import ZArith Lia.
From stdpp Require Import base gmap list strings sorting.
From S2P Require Import Prelude JsBase Watermark.

Module WmSpec.
Import Wm.

(** Read the successful index computations of a step. *)
Ltac inv_flat :=
  repeat match goal with H : flatIndex _ = Ok _ |- _ => apply flatIndex_Ok in H as [? ->] end.

(** ** The allocation scan *)

Lemma scan_spec id t n i :
  valid i → CAPACITY_PER_TREE - flat i <= Z.of_nat n →
  (∀ f, is_Some (unavailable t !! f) → 0 <= f < CAPACITY_PER_TREE) →
  match scan id t n i with
  | Ok j => valid j ∧ flat i <= flat j ∧ unavailable t !! flat j = None ∧
            ∀ f, flat i <= f < flat j → is_Some (unavailable t !! f)
  | Err e => e = WatermarkExhaustedError id ∧
             ∀ f, flat i <= f < CAPACITY_PER_TREE → is_Some (unavailable t !! f)
  end.
Proof.
  revert i; induction n as [|n IH]; intros i Hv Hn Hwf.
  { pose proof (flat_bounds i Hv). lia. }
  simpl. rewrite (flatIndex_valid i Hv). simpl.
  destruct (unavailable t !! flat i) as [r|] eqn:Hu; simpl.
  2: { split; [done|]. split; [lia|]. split; [done|]. intros f ?; lia. }
  pose proof (nextIndices_spec i Hv) as Hnext.
  destruct (nextIndices i) as [nxt|] eqn:Hnx.
  - destruct Hnext as [Hvn Hfn].
    assert (Hfi : ∀ f, flat i <= f → f ≠ flat i → flat nxt <= f) by lia.
    specialize (IH nxt Hvn ltac:(lia) Hwf). case_match.
    + destruct IH as (? & ? & ? & Hall). split_and!; [done|lia|done|].
      intros f Hf. destruct (decide (f = flat i)) as [->|]; [eauto|apply Hall; lia].
    + destruct IH as (? & Hall). split; [done|].
      intros f Hf. destruct (decide (f = flat i)) as [->|]; [eauto|apply Hall; lia].
  - split; [done|]. intros f Hf. assert (f = flat i) as -> by lia. eauto.
Qed.

(** ** Single-tree updates *)

Lemma wf_emptyTree id : wf_tree (emptyTree id).
Proof.
  split; [unfold valid, MAX_L; simpl; lia|]. intros f. simpl. rewrite lookup_empty.
  by intros [? ?].
Qed.

Lemma used_emptyTree id f : used_tree (emptyTree id) f ↔ f < 0.
Proof. unfold used_tree, flat. simpl. rewrite lookup_empty. naive_solver lia. Qed.

Lemma wf_with_unavailable t u :
  wf_tree t → (∀ f, is_Some (u !! f) → 0 <= f < CAPACITY_PER_TREE) →
  wf_tree (with_unavailable t u).
Proof. intros [Hc _] Hu. by split. Qed.

Lemma insert_bounds (u : gmap Z UnavailableReason) f r :
  0 <= f < CAPACITY_PER_TREE →
  (∀ g, is_Some (u !! g) → 0 <= g < CAPACITY_PER_TREE) →
  ∀ g, is_Some (<[f := r]> u !! g) → 0 <= g < CAPACITY_PER_TREE.
Proof. intros Hf Hu g. rewrite lookup_insert. case_decide; naive_solver. Qed.

(** Marking leaf [flat i]: the tree stays well formed, the leaf is consumed,
    nothing is released. *)
Lemma mark_tree_spec t i r :
  wf_tree t → valid i →
  ∃ t', mark_tree t i (flat i) r = Ok t' ∧ wf_tree t' ∧
        (∀ f, used_tree t' f ↔ used_tree t f ∨ f = flat i ∨ (f <= flat i ∧ flat i + 1 < CAPACITY_PER_TREE ∧ flat (cursor t) <= flat i)).
Proof.
  intros [Hc Hu] Hv. unfold mark_tree.
  set (t0 := with_unavailable t _).
  assert (Hwf0 : wf_tree t0).
  { apply wf_with_unavailable; [by split|]. apply insert_bounds; [by apply flat_bounds|done]. }
  assert (Hc0 : cursor t0 = cursor t) by done.
  assert (Hu0 : ∀ f, is_Some (unavailable t0 !! f) ↔ f = flat i ∨ is_Some (unavailable t !! f)).
  { intros f. change (unavailable t0) with (<[flat i:=r]> (unavailable t)).
    rewrite lookup_insert. case_decide; naive_solver. }
  pose proof (nextIndices_spec i Hv) as Hnext.
  destruct (nextIndices i) as [nxt|].
  - destruct Hnext as [Hvn Hfn]. pose proof (flat_bounds nxt Hvn).
    rewrite (flatIndex_valid nxt Hvn). simpl.
    rewrite (flatIndex_valid (cursor t0)) by (rewrite Hc0; done). simpl. rewrite Hc0.
    eexists; split; [done|]. destruct (flat nxt >? flat (cursor t)) eqn:Hgt.
    + assert (Hcn : cursor (with_cursor t0 nxt) = nxt) by (by destruct nxt).
      split; [split; [by rewrite Hcn | apply Hwf0]|]. intros f. unfold used_tree.
      rewrite Hcn. change (unavailable (with_cursor t0 nxt)) with (unavailable t0).
      rewrite Hu0. naive_solver lia.
    + split; [done|]. intros f. unfold used_tree. rewrite Hu0, Hc0. naive_solver lia.
  - eexists; split; [done|]. split; [done|]. intros f. unfold used_tree. rewrite Hu0, Hc0.
    naive_solver lia.
Qed.

(** ** State order *)

Lemma used_le_refl s : used_le s s.
Proof. by intros id f. Qed.
Lemma used_le_trans s1 s2 s3 : used_le s1 s2 → used_le s2 s3 → used_le s1 s3.
Proof. intros H1 H2 id f H. by apply H2, H1. Qed.
#[global] Instance used_le_preorder : PreOrder used_le.
Proof. split; [intros ?; apply used_le_refl|intros ???; apply used_le_trans]. Qed.

Lemma used_le_insert s id t :
  (∀ f, used s id f → used_tree t f) → used_le s (<[id := t]> s).
Proof.
  intros H id' f Hf. unfold used. rewrite lookup_insert. case_decide as E.
  - subst. by apply H.
  - exact Hf.
Qed.

Lemma used_insert s id t id' f :
  used (<[id := t]> s) id' f ↔ (id = id' ∧ used_tree t f) ∨ (id ≠ id' ∧ used s id' f).
Proof. unfold used. rewrite lookup_insert. case_decide; naive_solver. Qed.

(** ** Merging *)

Lemma merge_tree_spec id ta tb :
  wf_tree ta → wf_tree tb →
  ∃ t, merge_tree id ta tb = Ok t ∧ wf_tree t ∧
       ∀ f, used_tree t f ↔ used_tree ta f ∨ used_tree tb f.
Proof.
  intros [Ha Hua] [Hb Hub]. unfold merge_tree.
  rewrite (flatIndex_valid _ Ha), (flatIndex_valid _ Hb). simpl.
  eexists; split; [done|]. unfold wf_tree, used_tree; simpl. split.
  - split.
    + destruct (_ >? _); simpl; by destruct (cursor _) eqn:E; unfold cursor in *; simplify_eq/=.
    + intros f. rewrite lookup_union_is_Some. naive_solver.
  - intros f. rewrite lookup_union_is_Some.
    destruct (flat (cursor tb) >? flat (cursor ta)) eqn:E; unfold flat, cursor in *; simpl in *;
      naive_solver lia.
Qed.

Lemma merge_all_spec l : ∀ a,
  NoDup l.*1 → wf_state a → Forall (λ kv, wf_tree kv.2) l →
  ∃ s, merge_all a l = Ok s ∧ wf_state s ∧
       ∀ id f, used s id f ↔ used a id f ∨ ∃ t, (id, t) ∈ l ∧ used_tree t f.
Proof.
  induction l as [|[id tb] l IH]; intros a Hnd Ha Hl; simpl.
  { exists a. split_and!; [done..|]. set_solver. }
  apply NoDup_cons in Hnd as [Hni Hnd]. apply Forall_cons in Hl as [Htb Hl]. simpl in *.
  assert (∃ t, merge_step a (id, tb) = Ok (<[id := t]> a) ∧ wf_tree t ∧
               ∀ f, used_tree t f ↔ used a id f ∨ used_tree tb f) as (t & Hstep & Hwt & Ht).
  { unfold merge_step, used. destruct (a !! id) as [ta|] eqn:E; simpl.
    - destruct (merge_tree_spec id ta tb) as (t & -> & ? & ?); [by eapply Ha|done|].
      by exists t.
    - exists tb. naive_solver. }
  simpl in Hstep. rewrite Hstep. simpl.
  destruct (IH (<[id := t]> a)) as (s & Hs & Hws & Hus); [done| |done|].
  { by apply map_Forall_insert_2. }
  exists s. split_and!; [done..|]. intros id' f. rewrite Hus, used_insert, Ht.
  split.
  - intros [[[-> ?]|[? ?]]|(t' & ? & ?)]; set_solver.
  - intros [?|(t' & Hin & ?)].
    + destruct (decide (id = id')) as [->|]; naive_solver.
    + apply elem_of_cons in Hin as [[= -> ->]|Hin]; [naive_solver|].
      right; eauto.
Qed.

Lemma merge_spec a b :
  wf_state a → wf_state b →
  ∃ s, mergeWatermarkState (Some a) b = Ok s ∧ wf_state s ∧
       ∀ id f, used s id f ↔ used a id f ∨ used b id f.
Proof.
  intros Ha Hb. simpl.
  destruct (merge_all_spec (map_to_list b) a) as (s & Hs & Hws & Hus);
    [apply NoDup_fst_map_to_list|done| |].
  { apply Forall_forall. intros [id t] Hin. apply elem_of_map_to_list in Hin. by eapply Hb. }
  exists s. split_and!; [done..|]. intros id f. rewrite Hus. f_equiv.
  unfold used. setoid_rewrite elem_of_map_to_list.
  destruct (b !! id) eqn:E; naive_solver.
Qed.

(** ** The operations of an initialised store *)

(** One call: whatever its outcome, the store stays initialised and well formed,
    nothing consumed is released, and what it writes, if anything, has consumed
    at least what memory had. *)
Definition disk_ge (s : WotsWatermarkState) (st st' : WotsWatermarkStore) : Prop :=
  disk st' = disk st ∨ ∃ s', disk st' = RawV3 s' ∧ used_le s s'.
Definition good_step (st st' : WotsWatermarkStore) : Prop :=
  ∀ s, state st = Some s → wf_store st →
  ∃ s', state st' = Some s' ∧ wf_store st' ∧ used_le s s' ∧ disk_ge s st st'.

Lemma good_step_refl st : good_step st st.
Proof. intros s Hs Hw. exists s. split_and!; [done..|by left]. Qed.

Lemma good_step_trans st1 st2 st3 : good_step st1 st2 → good_step st2 st3 → good_step st1 st3.
Proof.
  intros H1 H2 s Hs Hw. destruct (H1 s Hs Hw) as (s2 & Hs2 & Hw2 & Hle & Hd).
  destruct (H2 s2 Hs2 Hw2) as (s3 & ? & ? & ? & Hd'). exists s3. split_and!; [done..| |].
  - by transitivity s2.
  - unfold disk_ge in *. destruct Hd' as [->|(s' & -> & ?)]; [done|].
    right. exists s'. split; [done|]. by transitivity s2.
Qed.

Definition good {A} (m : Store A) : Prop := ∀ st, good_step st (m st).2.

Lemma good_lift {A} (r : result Error A) : good (mlift r).
Proof. intros st. apply good_step_refl. Qed.

Lemma good_bind {A B} (m : Store A) (f : A → Store B) : good m → (∀ a, good (f a)) → good (m ≫= f).
Proof.
  intros Hm Hf st. unfold mbind, M_bind. specialize (Hm st).
  destruct (m st) as [[a|e] st1]; simpl in *; [|done].
  eapply good_step_trans; [done|apply Hf].
Qed.

Lemma good_persist : good persist.
Proof.
  intros st s Hs [Hw Hr]. unfold persist. case_match; simpl.
  - exists s. split_and!; [done|by split|done|by left].
  - exists s. rewrite Hs. split_and!; [done| |done|right; by exists s].
    split; [by rewrite <- Hs|]. intros s' [= <-]. by apply Hw.
Qed.

(** Replacing a tree by a well-formed one that has consumed at least as much. *)
Lemma good_put_tree id t st s :
  state st = Some s → wf_tree t → (∀ f, used s id f → used_tree t f) →
  good_step st (put_tree id t st).2.
Proof.
  intros Hs Ht Hle s' Hs' [Hw Hr]. rewrite Hs in Hs'. injection Hs' as <-.
  unfold put_tree. rewrite Hs. simpl. exists (<[id := t]> s). split_and!; [done| | |by left].
  - split; [|done]. intros s' [= <-]. apply map_Forall_insert_2; [done|]. by apply Hw.
  - by apply used_le_insert.
Qed.

Lemma state_put_tree id t st s :
  state st = Some s → put_tree id t st = (Ok tt, set_state (<[id := t]> s) st).
Proof. intros Hs. unfold put_tree. by rewrite Hs. Qed.

Lemma getOrCreateTree_spec id st s :
  state st = Some s →
  ∃ st' s', getOrCreateTree id st = (Ok (default (emptyTree id) (s !! id)), st') ∧
    state st' = Some s' ∧ s' !! id = Some (default (emptyTree id) (s !! id)) ∧
    (wf_store st → wf_store st') ∧ disk st' = disk st ∧
    (∀ id' f, used s' id' f ↔ used s id' f ∨ (s !! id = None ∧ id' = id ∧ f < 0)).
Proof.
  intros Hs. unfold getOrCreateTree, ensureInit, mbind, M_bind. rewrite Hs.
  destruct (s !! id) as [t|] eqn:E; simpl.
  - exists st, s. split_and!; [done..|naive_solver|naive_solver].
  - rewrite (state_put_tree _ _ _ s Hs). simpl. eexists _, _. split; [done|]. simpl.
    split; [done|]. split; [apply lookup_insert_eq|]. split; [|split; [done|]].
    + intros [Hw Hr]. split; [|done]. intros s' [= <-].
      apply map_Forall_insert_2; [apply wf_emptyTree|by apply Hw].
    + intros id' f. rewrite used_insert, used_emptyTree. unfold used.
      destruct (decide (id = id')) as [<-|]; [rewrite E|]; naive_solver.
Qed.

Lemma good_getOrCreateTree id : good (getOrCreateTree id).
Proof.
  intros st s Hs Hw. destruct (getOrCreateTree_spec id st s Hs) as (st' & s' & -> & Hs' & _ & Hw' & Hd & Hus).
  exists s'. split_and!; [done|auto| |by left]. intros id' f Hf. apply Hus. by left.
Qed.

Lemma good_getNextIndices id : good (getNextIndices id).
Proof. apply good_bind; [apply good_getOrCreateTree|]. intros t. apply good_lift. Qed.

Lemma good_markUnavailable id i r : good (markUnavailable id i r).
Proof.
  intros st s Hs Hw.
  destruct (getOrCreateTree_spec id st s Hs) as (st1 & s1 & Hget & Hs1 & Hid & Hw1 & Hd1 & Hus).
  specialize (Hw1 Hw). assert (Hle1 : used_le s s1) by (intros id' f Hf; apply Hus; by left).
  set (t := default (emptyTree id) (s !! id)) in *.
  assert (Hwt : wf_tree t) by (by eapply (proj1 Hw1)).
  unfold markUnavailable, mbind, M_bind. rewrite Hget. simpl.
  destruct (flatIndex i) as [f|e] eqn:Hf; simpl; [|exists s1; split_and!; [done..|by left]].
  apply flatIndex_Ok in Hf as [Hv ->].
  destruct (mark_tree_spec t i r Hwt Hv) as (t' & Hm & Hwt' & Hut').
  rewrite (state_put_tree _ _ _ s1 Hs1). simpl. rewrite Hm. simpl.
  set (st2 := set_state _ _).
  assert (Hgo : good_step st1 st2).
  { intros s1' Hs1' _. rewrite Hs1 in Hs1'. injection Hs1' as <-.
    assert (Hs2 : state st2 = Some (<[id := t']> s1)) by (simpl; by rewrite insert_insert_eq).
    exists (<[id := t']> s1). split; [done|]. split; [|split; [|by left]].
    - split; [|apply Hw1]. rewrite Hs2. intros s' [= <-].
      apply map_Forall_insert_2; [done|]. by apply (proj1 Hw1).
    - apply used_le_insert. intros f Hf. apply Hut'. left.
      unfold used in Hf. by rewrite Hid in Hf. }
  destruct (good_step_trans st1 _ _ Hgo (good_persist _) s1 Hs1 Hw1) as (s' & ? & ? & ? & Hd).
  exists s'. split_and!; [done..|by transitivity s1|]. unfold disk_ge in *. rewrite <- Hd1.
  destruct Hd as [?|(s'' & ? & ?)]; [by left|right]. exists s''. split; [done|]. by transitivity s1.
Qed.

Lemma good_refresh : good refresh.
Proof.
  intros st s Hs [Hw Hr]. unfold refresh. rewrite Hs.
  assert (Hrefl : good_step st st) by apply good_step_refl.
  destruct (initialized st); [|by apply Hrefl].
  destruct (migrateToV3 (disk st)) as [raw|e] eqn:Hm; simpl; [|by apply Hrefl].
  destruct (merge_spec s raw) as (s' & Hmg & Hws' & Hus'); [by apply Hw|by apply Hr|].
  unfold mergeWatermarkState in Hmg. rewrite Hmg. simpl.
  exists s'. split_and!; [done| | |by left].
  - split; [|done]. by intros ? [= <-].
  - intros id f Hf. apply Hus'. by left.
Qed.

(** Both cursor-moving calls replace one tree by a computed one. *)
Lemma good_replace (st : WotsWatermarkStore) s id r :
  state st = Some s →
  (∀ t, wf_store st → r = Ok t → wf_tree t ∧ ∀ f, used s id f → used_tree t f) →
  good_step st ((t ← mlift r; _ ← put_tree id t; persist) st).2.
Proof.
  intros Hs Hr s' Hs' Hw. rewrite Hs in Hs'. injection Hs' as <-.
  unfold mbind, M_bind, mlift. destruct r as [t|e]; simpl; [|by apply good_step_refl].
  destruct (Hr t Hw eq_refl) as [Hwt Hle].
  pose proof (good_put_tree id t st s Hs Hwt Hle) as Hput.
  rewrite (state_put_tree _ _ _ _ Hs) in Hput |- *. simpl in *.
  by apply (good_step_trans st _ _ Hput (good_persist _)).
Qed.

Lemma wf_default s id : wf_state s → wf_tree (default (emptyTree id) (s !! id)).
Proof. intros Hw. destruct (s !! id) as [t|] eqn:E; simpl; [by eapply Hw|apply wf_emptyTree]. Qed.

Lemma used_default s id f : used s id f → used_tree (default (emptyTree id) (s !! id)) f.
Proof. unfold used. by destruct (s !! id). Qed.

Lemma save_unfold id p st s :
  state st = Some s →
  save id p st =
  (t ← mlift (save_tree id (default (emptyTree id) (s !! id)) p); _ ← put_tree id t; persist) st.
Proof. intros Hs. unfold save, ensureInit, mbind, M_bind. by rewrite Hs. Qed.

Lemma seed_unfold sd regress now st s :
  state st = Some s →
  seed sd regress now st =
  (t ← mlift (seed_tree (default (emptyTree (s_treeId sd)) (s !! s_treeId sd)) sd regress now);
   _ ← put_tree (s_treeId sd) t; persist) st.
Proof. intros Hs. unfold seed, ensureInit, mbind, M_bind. by rewrite Hs. Qed.

(** A step of an uninitialised store has nothing to keep. *)
Lemma good_step_intro st st' :
  (∀ s, state st = Some s → good_step st st') → good_step st st'.
Proof. intros H s Hs. by apply (H s Hs). Qed.

Lemma good_save id p : p_unavailable p = None → good (save id p).
Proof.
  intros Hp st. apply good_step_intro. intros s Hs. rewrite (save_unfold _ _ _ s Hs).
  eapply good_replace; [done|]. intros t Hw Ht. unfold save_tree in Ht.
  set (t0 := default (emptyTree id) (s !! id)) in *.
  assert (Hwt0 : wf_tree t0) by (apply wf_default; by apply (proj1 Hw)).
  inv_M. inv_flat.
  assert (unavailable (apply_patch id t0 p) = unavailable t0) as Hu by (simpl; by rewrite Hp).
  split; [split; [done|rewrite Hu; apply Hwt0]|]. intros f Hf. apply used_default in Hf. fold t0 in Hf.
  unfold used_tree in *. rewrite Hu. destruct Hf as [Hf|Hf]; [left; lia|by right].
Qed.

Lemma seed_unavailable_spec l : ∀ u u',
  seed_unavailable l u = Ok u' →
  Forall (λ f, 0 <= f < CAPACITY_PER_TREE) l ∧
  ∀ f, is_Some (u' !! f) ↔ is_Some (u !! f) ∨ f ∈ l.
Proof.
  induction l as [|g l IH]; intros u u' H; simpl in H.
  { simplify_eq. split; [done|]. set_solver. }
  inv_M. apply IH in H as [Hl Hu'].
  assert (Hg : 0 <= g < CAPACITY_PER_TREE) by lia.
  split; [by constructor|]. intros f. rewrite Hu', elem_of_cons.
  destruct (u !! g) eqn:E.
  - split; [naive_solver|]. intros [?|[->|?]]; eauto.
  - rewrite lookup_insert. case_decide; naive_solver.
Qed.

Lemma seed_tree_Ok t0 sd regress now t :
  wf_tree t0 → seed_tree t0 sd regress now = Ok t →
  wf_tree t ∧ (regress = false → ∀ f, used_tree t0 f → used_tree t f) ∧
  (∀ f, used_tree t f ↔ f < flat (mkIndices (s_addressCursor sd) (s_l1Cursor sd) (s_l2Cursor sd))
                        ∨ is_Some (unavailable t0 !! f) ∨ f ∈ default [] (s_unavailable sd)).
Proof.
  intros Hwf H. unfold seed_tree in H. inv_M.
  inv_flat. select (seed_unavailable _ _ = Ok _) (fun H => apply seed_unavailable_spec in H as [Hl Hus]).
  split; [|split].
  - split; [done|]. simpl. intros f. rewrite Hus. rewrite Forall_forall in Hl. intros [Hf|Hf].
    + by apply Hwf.
    + by apply Hl.
  - intros -> f. unfold used_tree; simpl. rewrite Hus. unfold cursor at 2; simpl.
    unfold flat in *; simpl in *. intros [?|?]; [left; lia|naive_solver].
  - intros f. unfold used_tree; simpl. rewrite Hus. done.
Qed.

Lemma good_seed sd now : good (seed sd false now).
Proof.
  intros st. apply good_step_intro. intros s Hs. rewrite (seed_unfold _ _ _ _ s Hs).
  eapply good_replace; [done|]. intros t Hw Ht.
  apply seed_tree_Ok in Ht as (Hwt & Hle & _); [|apply wf_default; by apply (proj1 Hw)].
  split; [done|]. intros f Hf. apply Hle; [done|]. by apply used_default.
Qed.

(** Leaf [f] of tree [id] is consumed for good: in memory, when there is one, and
    on the medium. *)
Definition consumed (id : string) (f : Z) (st : WotsWatermarkStore) : Prop :=
  wf_store st ∧ (∀ s, state st = Some s → used s id f) ∧
  ∀ s, migrateToV3 (disk st) = Ok s → used s id f.

Lemma good_consumed id f st st' :
  is_Some (state st) → good_step st st' → consumed id f st → consumed id f st'.
Proof.
  intros [s Hs] Hg (Hw & Hm & Hd). destruct (Hg s Hs Hw) as (s' & Hs' & Hw' & Hle & Hge).
  split; [done|]. rewrite Hs'. split.
  - intros ? [= <-]. by apply Hle, Hm.
  - intros s2 Hs2. destruct Hge as [Heq|(s3 & Heq & Hle3)]; rewrite Heq in Hs2; [by apply Hd|].
    simpl in Hs2. simplify_eq. by apply Hle3, Hm.
Qed.

(** Before start-up every call but [initialize] and [clear] is refused or does nothing. *)
Lemma run_op_None o st :
  state st = None → o ≠ OpInitialize → keeps_leaves o → (run_op o st).2 = st ∨ o = OpCrash.
Proof.
  intros Hs Hi Hk. destruct o; simpl; try by right.
  all: left; unfold refresh, getNextIndices, getOrCreateTree, markUnavailable, save, seed,
    ensureInit, getOrCreateTree, ensureInit, mbind, M_bind; rewrite Hs; by destruct (initialized st).
Qed.

Lemma consumed_initialize id f st : consumed id f st → consumed id f (initialize st).2.
Proof.
  intros (Hw & Hm & Hd). unfold initialize. destruct (initialized st); [done|].
  destruct (migrateToV3 (disk st)) as [s|e] eqn:E; simpl; [|by split_and!; rewrite ?E].
  assert (Hws : wf_state s) by (by apply Hw).
  destruct (is_v3 (disk st)); [|unfold persist; destruct (write_refused _)]; simpl;
    unfold consumed, wf_store; simpl; rewrite ?E; split_and!; try naive_solver.
  - apply Hw.
  - apply Hw.
  - intros s' [= <-]. done.
Qed.

Lemma consumed_run_op id f o st : keeps_leaves o → consumed id f st → consumed id f (run_op o st).2.
Proof.
  intros Hk Hc. assert (o = OpInitialize ∨ o ≠ OpInitialize) as [->|Hi] by (destruct o; (by left) || by right); [by apply consumed_initialize|].
  assert (o = OpCrash ∨ o ≠ OpCrash) as [->|Hcr] by (destruct o; (by left) || by right); [by destruct Hc as ([? ?] & ? & ?)|].
  destruct (state st) as [s|] eqn:Hs.
  - eapply good_consumed; [by rewrite Hs| |done].
    destruct o; simpl; try done.
    + apply good_refresh.
    + apply good_bind; [apply good_getNextIndices|]. intros ?. apply (good_lift (Ok tt)).
    + apply good_markUnavailable.
    + by apply good_save.
    + simpl in Hk. subst. apply good_seed.
  - destruct (run_op_None o st Hs Hi Hk) as [->| ->]; [done|]. done.
Qed.

Lemma consumed_run_ops id f l st : Forall keeps_leaves l → consumed id f st → consumed id f (run_ops l st).
Proof. intros Hl. revert st; induction Hl as [|o l Ho _ IH]; intros st H; simpl; [done|]. by apply IH, consumed_run_op. Qed.

Lemma markUnavailable_Ok id i r st st' s :
  state st = Some s → wf_store st → markUnavailable id i r st = (Ok tt, st') →
  valid i ∧ consumed id (flat i) st'.
Proof.
  intros Hs Hw H. pose proof (good_markUnavailable id i r st s Hs Hw) as (s2 & Hs2 & Hw2 & _).
  rewrite H in Hs2, Hw2. simpl in *. revert H.
  destruct (getOrCreateTree_spec id st s Hs) as (st1 & s1 & Hget & Hs1 & Hid & Hw1 & Hd1 & Hus).
  set (t := default (emptyTree id) (s !! id)) in *.
  assert (Hwt : wf_tree t) by (eapply (proj1 (Hw1 Hw)); done).
  unfold markUnavailable, mbind, M_bind. rewrite Hget. simpl.
  destruct (flatIndex i) as [f|e] eqn:Hf; simpl; [|done].
  apply flatIndex_Ok in Hf as [Hv ->]. intros H. split; [done|].
  destruct (mark_tree_spec t i r Hwt Hv) as (t' & Hm & Hwt' & Hut').
  rewrite (state_put_tree _ _ _ s1 Hs1) in H. simpl in H. rewrite Hm in H. simpl in H.
  unfold persist in H. simpl in H. destruct (write_refused _); simplify_eq/=.
  assert (Hu : ∀ s0, used (<[id:=t']> s0) id (flat i)).
  { intros s0. apply used_insert. left. split; [done|]. apply Hut'. tauto. }
  split_and!; [done|..]; intros s3 [= <-]; apply Hu.
Qed.

Lemma getNextIndices_spec id st s :
  state st = Some s → wf_store st →
  let t := default (emptyTree id) (s !! id) in
  match (getNextIndices id st).1 with
  | Ok j => valid j ∧ flat (cursor t) <= flat j ∧ unavailable t !! flat j = None ∧
            ∀ f, flat (cursor t) <= f < flat j → is_Some (unavailable t !! f)
  | Err e => e = WatermarkExhaustedError id ∧
             ∀ f, flat (cursor t) <= f < CAPACITY_PER_TREE → is_Some (unavailable t !! f)
  end.
Proof.
  intros Hs Hw t. unfold getNextIndices, mbind, M_bind.
  destruct (getOrCreateTree_spec id st s Hs) as (st1 & s1 & -> & _). fold t.
  change ((mlift ?r : Store SigningIndices) ?s).1 with r.
  assert (Hwt : wf_tree t) by (apply wf_default; by apply (proj1 Hw)).
  apply scan_spec; [apply Hwt| |apply Hwt].
  pose proof (flat_bounds _ (proj1 Hwt)). rewrite max_attempts_spec. lia.
Qed.

Lemma seed_unavailable_total l : ∀ u,
  Forall (λ f, 0 <= f < CAPACITY_PER_TREE) l → ∃ u', seed_unavailable l u = Ok u'.
Proof.
  induction l as [|g l IH]; intros u Hl; simpl; [by eexists|].
  apply Forall_cons in Hl as [Hg Hl].
  replace (negb _ || _ || _) with false; [by apply IH|].
  unfold Js.is_safe_integer, Js.MAX_SAFE_INTEGER, CAPACITY_PER_TREE, MAX_L in *. lia.
Qed.

Lemma seed_tree_Err t0 sd now e :
  wf_tree t0 → valid (mkIndices (s_addressCursor sd) (s_l1Cursor sd) (s_l2Cursor sd)) →
  (∀ f, f ∈ default [] (s_unavailable sd) → 0 <= f < CAPACITY_PER_TREE) →
  seed_tree t0 sd false now = Err e →
  let c := flat (mkIndices (s_addressCursor sd) (s_l1Cursor sd) (s_l2Cursor sd)) in
  e = WatermarkSeedRegressionError (s_treeId sd) (flat (cursor t0)) c ∧ c < flat (cursor t0).
Proof.
  intros Hwf Hv Hl. unfold seed_tree. rewrite (flatIndex_valid _ Hv), (flatIndex_valid _ (proj1 Hwf)).
  simpl. destruct (_ <? _) eqn:E; simpl; [naive_solver lia|].
  destruct (seed_unavailable_total (default [] (s_unavailable sd)) (unavailable t0)) as [u' ->];
    [by apply Forall_forall|done].
Qed.

Lemma leaf_safe f : 0 <= f < CAPACITY_PER_TREE → Js.is_safe_integer f = true.
Proof. unfold Js.is_safe_integer, Js.MAX_SAFE_INTEGER, CAPACITY_PER_TREE, MAX_L. lia. Qed.

Lemma exportSeed_spec id st s sd :
  state st = Some s → (exportSeed id st).1 = Ok sd →
  let t := default (emptyTree id) (s !! id) in
  s_treeId sd = id ∧ mkIndices (s_addressCursor sd) (s_l1Cursor sd) (s_l2Cursor sd) = cursor t ∧
  ∀ f, f ∈ default [] (s_unavailable sd) ↔ is_Some (unavailable t !! f) ∧ Js.is_safe_integer f = true.
Proof.
  intros Hs. unfold exportSeed, ensureInit, mbind, M_bind. rewrite Hs. simpl. intros [= <-]. simpl.
  split; [done|]. split; [done|]. intros f. rewrite merge_sort_Permutation.
  rewrite list_elem_of_In, filter_In, <- list_elem_of_In, list_elem_of_fmap. f_equiv.
  split.
  - intros ([g r] & -> & Hin%elem_of_map_to_list). by exists r.
  - intros [r Hr]. exists (f, r). split; [done|]. by apply elem_of_map_to_list.
Qed.

(** ** Migration *)

(** What a stored format of an earlier version says is used: the listed leaves,
    and those below the next position of an address. *)
Definition legacy_used (raw : RawState) (f : Z) : Prop :=
  match raw with
  | RawNull => False
  | RawV3 s => used s DEFAULT_TREE f
  | RawV1 na n1 n2 l =>
      f < flat (mkIndices (default 0 na) (default 0 n1) (default 0 n2)) ∨
      ∃ ai a b, (ai, a, b) ∈ default [] l ∧ f = flat (mkIndices ai a b)
  | RawV2 addresses =>
      ∃ ai d, (ai, d) ∈ addresses ∧
        (f < flat (mkIndices ai (next_l1 d) (next_l2 d)) ∨
         ∃ a b, (a, b) ∈ usedIndices2 d ∧ f = flat (mkIndices ai a b))
  end.

Lemma v1_used_spec l : ∀ u u',
  v1_used l u = Ok u' →
  ∀ f, is_Some (u' !! f) ↔ is_Some (u !! f) ∨ ∃ ai a b, (ai, a, b) ∈ l ∧ f = flat (mkIndices ai a b).
Proof.
  induction l as [|[[ai a] b] l IH]; intros u u' H f; simpl in H.
  { simplify_eq. set_solver. }
  inv_M. inv_flat. rewrite (IH _ _ H f), lookup_insert. case_decide; [set_solver|].
  split; [|set_solver]. intros [?|?]; set_solver.
Qed.

(** The accumulator bounds: everything marked is a leaf at most the running
    maximum, which is a leaf or -1. *)
Definition v2_acc_ok (acc : gmap Z UnavailableReason * Z) : Prop :=
  -1 <= acc.2 < CAPACITY_PER_TREE ∧ ∀ f, is_Some (acc.1 !! f) → 0 <= f <= acc.2.

Lemma v2_used_spec ai l : ∀ acc acc',
  v2_used ai l acc = Ok acc' → v2_acc_ok acc →
  v2_acc_ok acc' ∧ acc.2 <= acc'.2 ∧
  ∀ f, is_Some (acc'.1 !! f) ↔ is_Some (acc.1 !! f) ∨ ∃ a b, (a, b) ∈ l ∧ f = flat (mkIndices ai a b).
Proof.
  induction l as [|[a b] l IH]; intros acc acc' H Hok; simpl in H.
  { simplify_eq. split_and!; [done|done|set_solver]. }
  inv_M. inv_flat. rename select (valid _) into Hv. pose proof (flat_bounds _ Hv) as Hb.
  destruct Hok as [Hm Hu]. set (g := flat (mkIndices ai a b)) in *.
  apply IH in H as (Hok' & Hle & Hu').
  - simpl in *. split; [done|]. split; [destruct (g >? acc.2) eqn:?; lia|].
    intros f. rewrite Hu', lookup_insert. case_decide; set_solver.
  - split; simpl; [destruct (g >? acc.2) eqn:?; lia|].
    intros f. rewrite lookup_insert. case_decide as E; [|intros Hf%Hu]; intros; subst;
      destruct (g >? acc.2) eqn:?; lia.
Qed.

Lemma v2_addresses_spec l : ∀ acc acc',
  v2_addresses l acc = Ok acc' → v2_acc_ok acc →
  v2_acc_ok acc' ∧ acc.2 <= acc'.2 ∧ (∀ f, is_Some (acc.1 !! f) → is_Some (acc'.1 !! f)) ∧
  ∀ ai d, (ai, d) ∈ l →
    flat (mkIndices ai (next_l1 d) (next_l2 d)) <= acc'.2 ∧
    ∀ a b, (a, b) ∈ usedIndices2 d → is_Some (acc'.1 !! flat (mkIndices ai a b)).
Proof.
  induction l as [|[ai d] l IH]; intros acc acc' H Hok; simpl in H.
  { simplify_eq. split_and!; [done|done|done|set_solver]. }
  inv_M. inv_flat. rename select (valid _) into Hv. pose proof (flat_bounds _ Hv) as Hb.
  rename select (v2_used _ _ _ = _) into Hus.
  apply v2_used_spec in Hus as ([Hm1 Hu1] & Hle1 & Heq1); [|done].
  set (g := flat (mkIndices ai (next_l1 d) (next_l2 d))) in *.
  apply IH in H as (Hok' & Hle & Hu' & Hl).
  - simpl in *. split; [done|].
    assert (g <= acc'.2 ∧ acc.2 <= acc'.2) as [Hg ?] by (destruct (g >? x.2) eqn:?; lia).
    split; [done|]. split; [intros f Hf; apply Hu', Heq1; by left|].
    intros ai' d' [[= -> ->]|Hin]%elem_of_cons; [|by apply Hl]. split; [done|].
    intros a b Hab. apply Hu', Heq1. right. eauto.
  - split; simpl; [destruct (g >? x.2) eqn:?; lia|].
    intros f Hf%Hu1. destruct (g >? x.2) eqn:?; lia.
Qed.

(** ** Runs over a willing medium *)

Lemma getOrCreateTree_run id st s :
  state st = Some s →
  let t := default (emptyTree id) (s !! id) in
  getOrCreateTree id st = (Ok t, set_state (<[id := t]> s) st).
Proof.
  intros Hs. unfold getOrCreateTree, ensureInit, mbind, M_bind. rewrite Hs.
  destruct (s !! id) as [t|] eqn:E; simpl.
  - rewrite insert_id by done. by destruct st; simpl in *; subst.
  - by rewrite (state_put_tree _ _ _ s Hs).
Qed.

Lemma getNextIndices_run id st s :
  state st = Some s →
  let t := default (emptyTree id) (s !! id) in
  getNextIndices id st = ((getNextIndices id st).1, set_state (<[id := t]> s) st).
Proof.
  intros Hs t. unfold getNextIndices, mbind, M_bind.
  rewrite (getOrCreateTree_run id st s Hs). cbv iota zeta. fold t.
  set (r := scan _ _ _ _). clearbody r. reflexivity.
Qed.

Lemma refresh_run st s raw :
  initialized st = true → state st = Some s → wf_store st → migrateToV3 (disk st) = Ok raw →
  ∃ s2, refresh st = (Ok tt, set_state s2 st) ∧ wf_state s2 ∧
        ∀ id f, used s2 id f ↔ used s id f ∨ used raw id f.
Proof.
  intros Hi Hs [Hw Hr] Hm. destruct (merge_spec s raw) as (s2 & Hmg & Hws & Hus);
    [by apply Hw|by apply Hr|].
  exists s2. split; [|done]. unfold mergeWatermarkState in Hmg.
  unfold refresh. rewrite Hi, Hs, Hm. simpl. by rewrite Hmg.
Qed.

Lemma markUnavailable_run id i r st s :
  state st = Some s → wf_state s → valid i → write_refused (faults st) = false →
  ∃ t', markUnavailable id i r st =
        (Ok tt, mkStore (Some (<[id := t']> s)) (initialized st) (RawV3 (<[id := t']> s)) (tail (faults st)))
    ∧ wf_tree t' ∧ used_tree t' (flat i) ∧
    ∀ f, used_tree (default (emptyTree id) (s !! id)) f → used_tree t' f.
Proof.
  intros Hs Hw Hv Hf. set (t := default (emptyTree id) (s !! id)).
  destruct (mark_tree_spec t i r (wf_default s id Hw) Hv) as (t' & Hm & Hwt & Hu).
  exists t'. split; [|split; [done|split; [apply Hu; tauto|intros f ?; apply Hu; tauto]]].
  unfold markUnavailable, mbind, M_bind. rewrite (getOrCreateTree_run id st s Hs). fold t.
  unfold mlift. rewrite (flatIndex_valid i Hv).
  rewrite (state_put_tree _ _ (set_state (<[id:=t]> s) st) (<[id:=t]> s)) by done. rewrite Hm.
  rewrite (state_put_tree _ _ (set_state _ (set_state _ st)) _) by done. unfold persist. simpl. rewrite Hf.
  by rewrite !insert_insert_eq.
Qed.

(** An initialised store whose medium refuses no write, for the witnesses. *)
Definition sample_tree : TreeWatermark :=
  with_cursor (with_unavailable (emptyTree "t") {[ 4096 := committed; 4097 := burned ]})
    (mkIndices 1 0 0).
Definition sample_state : WotsWatermarkState := {[ "t"%string := sample_tree ]}.
Definition sample_store : WotsWatermarkStore := mkStore (Some sample_state) true (RawV3 sample_state) [].

Lemma sample_tree_wf : wf_tree sample_tree.
Proof.
  split; [unfold valid, MAX_L; simpl; lia|]. unfold CAPACITY_PER_TREE, MAX_L. intros f.
  change (unavailable sample_tree) with ({[ 4096 := committed; 4097 := burned ]} : gmap Z UnavailableReason).
  intros [r Hr]. apply lookup_insert_Some in Hr as [[<- _]|[_ Hr]]; [lia|].
  apply lookup_singleton_Some in Hr as [<- _]. lia.
Qed.
Lemma sample_store_wf : wf_store sample_store.
Proof.
  split; [intros s [= <-]|intros s [= <-]]; apply map_Forall_singleton, sample_tree_wf.
Qed.

(** ** Properties *)

(** The number of a triple and the triple of a number are inverse of each
    other on exactly the accepted values: one is returned for the other, and
    neither accepts anything the other cannot produce. *)
Theorem flat_index_bijection i f : flatIndex i = Ok f ↔ fromFlatIndex f = Ok i.
Proof.
  rewrite flatIndex_Ok. split.
  - intros [Hv ->]. by apply fromFlatIndex_flat.
  - intros H. apply fromFlatIndex_Ok in H as [? <-]. done.
Qed.

(** The allocator returns the least leaf at or above the cursor that is not
    recorded, never one below the cursor, and fails only when the tree has none
    left; the bound on its loop is never the reason. *)
Theorem getNextIndices_least id st s :
  state st = Some s → wf_store st →
  let t := default (emptyTree id) (s !! id) in
  match (getNextIndices id st).1 with
  | Ok j => valid j ∧ ¬ used s id (flat j) ∧
            ∀ f, 0 <= f < flat j → used_tree t f
  | Err e => e = WatermarkExhaustedError id ∧ ∀ f, 0 <= f < CAPACITY_PER_TREE → used_tree t f
  end.
Proof.
  intros Hs Hw t. pose proof (getNextIndices_spec id st s Hs Hw) as H. cbv zeta in H. fold t in H.
  destruct ((getNextIndices id st).1) as [j|e].
  - destruct H as (Hv & Hge & Hno & Hall). split; [done|]. split.
    + intros Hu. apply used_default in Hu. fold t in Hu. destruct Hu as [?|Hu]; [lia|].
      rewrite Hno in Hu. by destruct Hu.
    + intros f Hf. unfold used_tree. destruct (decide (f < flat (cursor t))); [by left|].
      right. apply Hall. lia.
  - destruct H as (-> & Hall). split; [done|]. intros f Hf. unfold used_tree.
    destruct (decide (f < flat (cursor t))); [by left|]. right. apply Hall. lia.
Qed.

Lemma getNextIndices_least_witness :
  (getNextIndices "t" sample_store).1 = Ok (mkIndices 1 0 2) ∧
  ¬ used sample_state "t" 4098.
Proof.
  split; [vm_compute; reflexivity|].
  apply (getNextIndices_least "t" sample_store sample_state eq_refl sample_store_wf).
Defined.

(** C35. A leaf whose consumption was recorded is not allocated again by any history of
    allocations, marks, saves that do not replace the recorded leaves, seeds that may not
    move the cursor back, refreshes, refused writes, crashes and restarts.  The calls
    left out (a save that replaces the recorded leaves, a seed with allowRegression, and
    clear) are those by which a caller can give leaves back: see
    [save_can_forget_a_committed_leaf]. *)
Theorem no_leaf_is_allocated_twice id i r st st1 s l st2 j st3 :
  state st = Some s → wf_store st →
  markUnavailable id i r st = (Ok tt, st1) →
  Forall keeps_leaves l →
  st2 = run_ops l st1 → getNextIndices id st2 = (Ok j, st3) →
  j ≠ i.
Proof.
  intros Hs Hw Hm Hl -> Hn ->. apply (markUnavailable_Ok _ _ _ _ _ s) in Hm as [Hv Hc]; [|done..].
  apply (consumed_run_ops _ _ l) in Hc as (Hw2 & Hu & _); [|done].
  destruct (state (run_ops l st1)) as [s2|] eqn:Hs2.
  - pose proof (getNextIndices_spec id _ s2 Hs2 Hw2) as H. rewrite Hn in H. simpl in H.
    destruct H as (_ & Hge & Hno & _). specialize (Hu s2 eq_refl).
    apply used_default in Hu as [?|[x Hx]]; [lia|]. by rewrite Hno in Hx.
  - unfold getNextIndices, getOrCreateTree, ensureInit, mbind, M_bind in Hn.
    by rewrite Hs2 in Hn.
Qed.

Definition sample_ops : list op :=
  [OpCrash; OpInitialize; OpSave "t" (mkPatch (Some "dev"%string) None None None None None (Some 7))].
Lemma no_leaf_is_allocated_twice_witness :
  (getNextIndices "t" (run_ops sample_ops
     (markUnavailable "t" (mkIndices 1 0 2) reserved sample_store).2)).1 = Ok (mkIndices 1 0 3) ∧
  mkIndices 1 0 3 ≠ mkIndices 1 0 2.
Proof.
  split; [vm_compute; reflexivity|].
  eapply (no_leaf_is_allocated_twice "t" (mkIndices 1 0 2) reserved sample_store
    _ sample_state sample_ops _ (mkIndices 1 0 3));
    [reflexivity|apply sample_store_wf|vm_compute; reflexivity|by repeat constructor|reflexivity|vm_compute; reflexivity].
Defined.

(** Merging two states never fails on well-formed ones, and the result has
    consumed exactly the leaves that one or the other had. *)
Theorem merge_is_union_of_used a b :
  wf_state a → wf_state b →
  ∃ s, mergeWatermarkState (Some a) b = Ok s ∧ wf_state s ∧
       ∀ id f, used s id f ↔ used a id f ∨ used b id f.
Proof. apply merge_spec. Qed.

Lemma merge_is_union_of_used_witness :
  ∃ s, mergeWatermarkState (Some sample_state) {[ "t"%string := with_cursor sample_tree (mkIndices 0 5 1) ]} = Ok s ∧
       used s "t" 4097.
Proof.
  destruct (merge_is_union_of_used sample_state
    {[ "t"%string := with_cursor sample_tree (mkIndices 0 5 1) ]}) as (s & Hs & _ & Hu).
  - apply map_Forall_singleton, sample_tree_wf.
  - apply map_Forall_singleton. split; [unfold valid, MAX_L; simpl; lia|apply sample_tree_wf].
  - exists s. split; [done|]. apply Hu. left. right. by exists burned.
Defined.

(** Migrating a stored record of an earlier version to the current one loses
    no used leaf: every leaf it lists, and every one below the next position of an
    address, is consumed afterwards; a migrated version 2 record is well formed. *)
Theorem migration_keeps_used_leaves raw s f :
  migrateToV3 raw = Ok s → legacy_used raw f →
  used s DEFAULT_TREE f ∧ (match raw with RawV2 _ => wf_state s | _ => True end).
Proof.
  destruct raw as [|na n1 n2 l|addresses|s']; simpl; intros H Hl; [done| | |naive_solver].
  - inv_M. rename select (v1_used _ _ = _) into Hv1.
    split; [|done]. unfold used. rewrite lookup_singleton_eq. unfold used_tree.
    simpl in *. rewrite (v1_used_spec _ _ _ Hv1). rewrite lookup_empty. naive_solver.
  - inv_M. rename select (v2_addresses _ _ = _) into Hv2. apply v2_addresses_spec in Hv2 as ([Hm Hu] & _ & _ & Hall);
      [|split; [unfold CAPACITY_PER_TREE, MAX_L; simpl; lia|intros g; simpl; rewrite lookup_empty; by intros [? ?]]].
    destruct Hl as (ai & d & Hin & Hl). destruct (Hall _ _ Hin) as [Hnext Hused].
    assert (f <= x.2) as Hfx.
    { destruct Hl as [?|(a & b & Hab & ->)]; [lia|]. by apply Hu, Hused. }
    destruct (x.2 >=? 0) eqn:Hge; simpl in *; inv_M.
    + rename select (fromFlatIndex _ = _) into Hc. apply fromFlatIndex_Ok in Hc as [Hv Hflat].
      destruct x0 as [c1 c2 c3]. split.
      * unfold used. rewrite lookup_singleton_eq. unfold used_tree; simpl.
        change (cursor _) with (mkIndices c1 c2 c3). rewrite Hflat.
        destruct Hl as [?|(a & b & Hab & ->)]; [left; lia|right; by apply Hused].
      * apply map_Forall_singleton. split; [done|]. simpl. intros g Hg%Hu. lia.
    + split.
      * unfold used. rewrite lookup_singleton_eq. unfold used_tree, flat; simpl.
        destruct Hl as [?|(a & b & Hab & ->)]; [left; lia|right; by apply Hused].
      * apply map_Forall_singleton. split; [apply wf_emptyTree|]. simpl. intros g Hg%Hu. lia.
Qed.

Lemma migration_keeps_used_leaves_witness :
  ∃ s, migrateToV3 (RawV2 [(2, mkV2 1 5 [(0, 3); (1, 4)]); (0, mkV2 0 9 [(0, 8)])]) = Ok s ∧
       used s DEFAULT_TREE (flat (mkIndices 2 1 4)).
Proof.
  eexists. split; [vm_compute; reflexivity|].
  apply (migration_keeps_used_leaves
    (RawV2 [(2, mkV2 1 5 [(0, 3); (1, 4)]); (0, mkV2 0 9 [(0, 8)])])); [vm_compute; reflexivity|].
  exists 2, (mkV2 1 5 [(0, 3); (1, 4)]). split; [left|]. right. exists 1, 4.
  split; [|reflexivity]. right. left.
Defined.

(** Handing a tree over to another device with [exportSeed] and [seed] is a
    join or a refusal: when the call returns, the target has consumed exactly what
    it or the source had; when it throws for a regression, the target's cursor is
    ahead and nothing has changed. *)
Theorem seed_handover id st s sd st2 s2 now :
  state st = Some s → wf_store st → (exportSeed id st).1 = Ok sd →
  state st2 = Some s2 → wf_store st2 →
  let t := default (emptyTree id) (s !! id) in
  let t2 := default (emptyTree id) (s2 !! id) in
  match seed sd false now st2 with
  | (Ok _, st') => ∃ t', state st' = Some (<[id := t']> s2) ∧ wf_tree t' ∧
                         ∀ f, used_tree t' f ↔ used_tree t f ∨ used_tree t2 f
  | (Err e, st') => e = StorageRefused ∨
      e = WatermarkSeedRegressionError id (flat (cursor t2)) (flat (cursor t)) ∧
      flat (cursor t) < flat (cursor t2) ∧ st' = st2
  end.
Proof.
  intros Hs Hw Hex Hs2 Hw2 t t2.
  assert (Hwt : wf_tree t) by (apply wf_default; by apply (proj1 Hw)).
  assert (Hwt2 : wf_tree t2) by (apply wf_default; by apply (proj1 Hw2)).
  apply (exportSeed_spec id st s) in Hex as (Hid & Hcur & Hl); [|done]. fold t in Hcur, Hl.
  rewrite (seed_unfold _ _ _ _ s2 Hs2). unfold mbind, M_bind, mlift. rewrite Hid. fold t2.
  destruct (seed_tree t2 sd false now) as [t'|e] eqn:Hst; simpl.
  - apply seed_tree_Ok in Hst as (Hwt' & Hle & Hu); [|done]. rewrite Hcur in Hu.
    rewrite (state_put_tree _ _ _ s2 Hs2). simpl. unfold persist. simpl.
    destruct (write_refused _); simpl; [by left|]. exists t'. split; [done|]. split; [done|].
    specialize (Hle eq_refl). intros f. split.
    + intros [?|[?|?]]%Hu; unfold used_tree; rewrite ?Hl in *; naive_solver.
    + intros [Hf|Hf]; [|by apply Hle]. apply Hu. destruct Hf as [?|?]; [by left|].
      right; right. apply Hl. split; [done|]. by apply leaf_safe, (proj2 Hwt).
  - right. apply seed_tree_Err in Hst; [|done|by rewrite Hcur; apply Hwt|].
    + rewrite Hcur, Hid in Hst. naive_solver.
    + intros f Hf. apply (proj2 Hwt), Hl, Hf.
Qed.

Lemma seed_handover_witness :
  match seed (mkSeed "t" 1 0 0 (Some [4096; 4097])) false 7 (mkStore (Some ∅) true RawNull []) with
  | (Ok _, st') => ∃ t', state st' = Some (<["t"%string := t']> ∅) ∧ wf_tree t' ∧
      ∀ f, used_tree t' f ↔ used_tree sample_tree f ∨ used_tree (emptyTree "t") f
  | _ => False
  end.
Proof.
  pose proof (seed_handover "t" sample_store sample_state (mkSeed "t" 1 0 0 (Some [4096; 4097]))
    (mkStore (Some ∅) true RawNull []) ∅ 7 eq_refl sample_store_wf) as H.
  apply H; [vm_compute; reflexivity|reflexivity|].
  split; intros s [= <-]; apply map_Forall_empty.
Defined.

(** The guard of [save] compares sizes: an update that replaces the recorded
    leaves by as many others is accepted and written, and the allocator then hands
    out a leaf that had been recorded as committed. *)
Theorem save_can_forget_a_committed_leaf :
  ∃ p st', save "t" p sample_store = (Ok tt, st') ∧
    unavailable sample_tree !! 4096 = Some committed ∧
    (getNextIndices "t" st').1 = Ok (mkIndices 1 0 0) ∧ flatIndex (mkIndices 1 0 0) = Ok 4096.
Proof.
  exists (mkPatch None None None None None (Some {[ 5000 := burned; 5001 := burned ]}) None).
  eexists. split; [vm_compute; reflexivity|]. vm_compute. done.
Qed.

End WmSpec.
