(* ===== verification/Journal.v ===== *)
(** * Lease journal (packages/wots-lease/src/journal.ts)

    The append-only audit log of key-use events: one immutable record per
    sequence number in a key/value adapter, chained by SHA-256.  Records read
    back are untyped values and are validated.  [withStorageLock] and
    [appendTail] serialise the operations of every instance over one adapter, so
    each call is one step; a call starts from whatever its instance remembers. *)

From Stdlib Require Import ZArith Lia QArith Ascii String.
From stdpp Require Import base gmap list strings sorting.
From S2P Require Import Prelude JsBase Watermark.

Module Jr.

Definition LEGACY_STORAGE_KEY : string := "totem_wots_journal".
Definition ENTRY_PREFIX : string := "totem_wots_journal:v1:entry:".
Definition RECORD_VERSION : Z := 1.
Definition SEQUENCE_WIDTH : nat := 16.
Definition MAX_INDEX_COMPONENT : Z := 63.

Record JournalEntry := mkEntry {
  treeId : string;
  branchId : string;
  wotsIndex : Z;
  indices : Wm.SigningIndices;
  status : Wm.UnavailableReason;
  reservationId : option string;
  payloadHash : option string;
  txId : option string;
  timestamp : Js.jsnum;
  deviceId : string;
  previousHash : option string;
  hash : option string }.

Inductive JError :=
| InvalidObject (key : string)
| InvalidField (field key : string)
| IndicesOutOfRange (key : string)
| IndexMismatch (key : string)
| InvalidHash (source : string) (i : nat)
| HashMismatch (source : string) (i : nat)
| FirstHasPrevious (source : string)
| PreviousMismatch (source : string) (i : nat)
| MalformedKey (key : string)
| InvalidSequence (key : string)
| Fork (sequence : Z)
| SequenceGap (i : Z)
| MissingRecord (key : string)
| UnsupportedVersion (key : string)
| SequenceKeyMismatch (key : string)
| HashKeyMismatch (key : string)
| LegacyDivergence (i : nat)
| LegacyNotArray
| NoHash (sequence : Z)
| SlotRecorded (tree : string) (index : Z)
| ReservationOtherUse (reservation : string)
| ReservationClosed (reservation : string)
| SequenceExists (sequence : Z)
| JNotInitialized
| AppendOnly
| JStorageRefused.

Definition status_name (s : Wm.UnavailableReason) : string :=
  match s with
  | Wm.reserved => "reserved" | Wm.committed => "committed"
  | Wm.burned => "burned" | Wm.reserved_expired => "reserved-expired"
  end.
Definition status_of_name (s : string) : option Wm.UnavailableReason :=
  if String.eqb s "reserved" then Some Wm.reserved
  else if String.eqb s "committed" then Some Wm.committed
  else if String.eqb s "burned" then Some Wm.burned
  else if String.eqb s "reserved-expired" then Some Wm.reserved_expired
  else None.

(** ** Validation of a decoded record *)

Section validation.
Import Js.

Definition asObject (value : jsval) (key : string) : result JError (list (string * jsval)) :=
  match value with JObj _ fields => Ok fields | _ => Err (InvalidObject key) end.

Definition field (object : list (string * jsval)) (f : string) : jsval := default JUndef (get_own object f).

Definition requiredString (object : list (string * jsval)) (f key : string) : result JError string :=
  match field object f with
  | JStr s => if String.eqb s "" then Err (InvalidField f key) else Ok s
  | _ => Err (InvalidField f key)
  end.

Definition optionalString (object : list (string * jsval)) (f key : string) : result JError (option string) :=
  match field object f with
  | JUndef => Ok None
  | JStr s => Ok (Some s)
  | _ => Err (InvalidField f key)
  end.

Definition requiredInteger (object : list (string * jsval)) (f key : string) : result JError Z :=
  match field object f with
  | JNum n =>
      match num_integer n with
      | Some z => if is_safe_integer z && negb (z <? 0) then Ok z else Err (InvalidField f key)
      | None => Err (InvalidField f key)
      end
  | _ => Err (InvalidField f key)
  end.

(** [typeof v === 'number' && Number.isFinite(v) && v >= 0] *)
Definition requiredTimestamp (object : list (string * jsval)) (key : string) : result JError jsnum :=
  match field object "timestamp" with
  | JNum (NFin q) => if num_lt (NFin q) (of_Z 0) then Err (InvalidField "timestamp" key) else Ok (NFin q)
  | _ => Err (InvalidField "timestamp" key)
  end.

Definition validateEntry (value : jsval) (key : string) : result JError JournalEntry :=
  object ← asObject value key;
  ixs ← asObject (field object "indices") (key +:+ ".indices");
  st ← requiredString object "status" key;
  st ← of_option (InvalidField "status" key) (status_of_name st);
  ts ← requiredTimestamp object key;
  tree ← requiredString object "treeId" key;
  branch ← requiredString object "branchId" key;
  wi ← requiredInteger object "wotsIndex" key;
  a ← requiredInteger ixs "addressIndex" (key +:+ ".indices");
  b ← requiredInteger ixs "l1" (key +:+ ".indices");
  c ← requiredInteger ixs "l2" (key +:+ ".indices");
  r ← optionalString object "reservationId" key;
  ph ← optionalString object "payloadHash" key;
  tx ← optionalString object "txId" key;
  dev ← requiredString object "deviceId" key;
  prev ← optionalString object "previousHash" key;
  h ← optionalString object "hash" key;
  _ ← throw_if ((a >? MAX_INDEX_COMPONENT) || (b >? MAX_INDEX_COMPONENT) || (c >? MAX_INDEX_COMPONENT))
        (IndicesOutOfRange key);
  _ ← throw_if (negb (wi =? a * 64 * 64 + b * 64 + c)) (IndexMismatch key);
  Ok (mkEntry tree branch wi (Wm.mkIndices a b c) st r ph tx ts dev prev h).

Definition opt_field (k : string) (v : option string) : list (string * jsval) :=
  match v with Some s => [(k, JStr s)] | None => [] end.

(** The object an entry is, as [cloneEntry] builds it. *)
Definition clone_indices (i : Wm.SigningIndices) : list (string * jsval) :=
  [("addressIndex", JNum (of_Z (Wm.addressIndex i))); ("l1", JNum (of_Z (Wm.l1 i)));
   ("l2", JNum (of_Z (Wm.l2 i)))]%string.
Definition clone_fields (e : JournalEntry) : list (string * jsval) :=
  [("treeId", JStr (treeId e)); ("branchId", JStr (branchId e));
   ("wotsIndex", JNum (of_Z (wotsIndex e))); ("indices", JObj 2 (clone_indices (indices e)));
   ("status", JStr (status_name (status e)))]%string ++
  opt_field "reservationId" (reservationId e) ++
  opt_field "payloadHash" (payloadHash e) ++
  opt_field "txId" (txId e) ++
  [("timestamp", JNum (timestamp e)); ("deviceId", JStr (deviceId e))]%string ++
  opt_field "previousHash" (previousHash e) ++
  opt_field "hash" (hash e).
Definition cloneEntry (e : JournalEntry) : jsval := JObj 1 (clone_fields e).

Definition entriesEqual (a b : JournalEntry) : bool :=
  String.eqb (treeId a) (treeId b) && String.eqb (branchId a) (branchId b)
  && (wotsIndex a =? wotsIndex b)
  && (Wm.addressIndex (indices a) =? Wm.addressIndex (indices b))
  && (Wm.l1 (indices a) =? Wm.l1 (indices b)) && (Wm.l2 (indices a) =? Wm.l2 (indices b))
  && bool_decide (status a = status b)
  && bool_decide (reservationId a = reservationId b)
  && bool_decide (payloadHash a = payloadHash b)
  && bool_decide (txId a = txId b)
  && num_eqb (timestamp a) (timestamp b)
  && String.eqb (deviceId a) (deviceId b)
  && bool_decide (previousHash a = previousHash b)
  && bool_decide (hash a = hash b).

(** ** Record keys *)

Record ParsedRecordKey := mkKey { key : string; sequence : Z; key_hash : string }.

(** [/^[0-9a-f]{64}$/] *)
Definition is_hash (h : string) : bool := Nat.eqb (String.length h) 64 && str_forallb is_lower_hex h.

Definition sequenceText (n : Z) : string := pad_start SEQUENCE_WIDTH "0" (dec n).
Definition recordKey (n : Z) (h : string) : string :=
  ENTRY_PREFIX +:+ sequenceText n +:+ ":" +:+ h.

(** [/^(\d{16}):([0-9a-f]{64})$/]; sixteen digits are read exactly up to 2^53,
    and above that both the literal and the rounded number are unsafe. *)
Definition parseRecordKey (k : string) : result JError ParsedRecordKey :=
  let relative := drop_str (String.length ENTRY_PREFIX) k in
  let d := take_str 16 relative in
  match drop_str 16 relative with
  | String colon h =>
      if Nat.eqb (String.length d) 16 && str_forallb is_digit d && Ascii.eqb colon ":" && is_hash h
      then
        let n := default 0 (radix_digits 10 0 d) in
        if is_safe_integer n then Ok (mkKey k n h) else Err (InvalidSequence k)
      else Err (MalformedKey k)
  | EmptyString => Err (MalformedKey k)
  end.

(** [a.sequence - b.sequence || a.key.localeCompare(b.key)] is at most 0. *)
Definition key_le (a b : ParsedRecordKey) : Prop :=
  sequence a < sequence b ∨ (sequence a = sequence b ∧ String.leb (key a) (key b) = true).
#[global] Instance key_le_dec : RelDecision key_le.
Proof. intros a b. unfold key_le. solve_decision. Defined.

Fixpoint check_sequence (i : Z) (prev : option Z) (l : list ParsedRecordKey) : result JError unit :=
  match l with
  | [] => Ok tt
  | p :: l =>
      _ ← throw_if (bool_decide (prev = Some (sequence p))) (Fork (sequence p));
      _ ← throw_if (negb (sequence p =? i)) (SequenceGap i);
      check_sequence (i + 1) (Some (sequence p)) l
  end.

End validation.

(** ** The journal over a key/value adapter *)

Notation Storage := (gmap string Js.jsval).

Record LeaseJournal := mkJournal {
  entries : list JournalEntry;
  initialized : bool;
  storage : Storage;
  faults : list bool }.

Notation Journal := (M LeaseJournal JError).

(** [storage.get(k)] *)
Definition get_value (st : Storage) (k : string) : Js.jsval := default Js.JNull (st !! k).
(** [storage.keys()], in an order the journal does not rely on. *)
Definition storage_keys (st : Storage) : list string := (map_to_list st).*1.
Definition set_value (k : string) (v : Js.jsval) : Journal unit := λ j,
  if write_refused (faults j)
  then (Err JStorageRefused, mkJournal (entries j) (initialized j) (storage j) (tail (faults j)))
  else (Ok tt, mkJournal (entries j) (initialized j) (<[k := v]> (storage j)) (tail (faults j))).

Definition set_entries (es : list JournalEntry) : Journal unit :=
  mmodify (λ j, mkJournal es (initialized j) (storage j) (faults j)).

Section journal.
(** [bytesToHex(sha256(bytes))] of @noble/hashes. *)
Variable sha256_hex : string → string.

(** The committed members of an entry, as JSON text. *)
Definition entry_text (e : JournalEntry) : string :=
  Js.json_object
    [("t", Some (Js.json_string (treeId e)));
     ("b", Some (Js.json_string (branchId e)));
     ("i", Some (Js.dec (wotsIndex e)));
     ("s", Some (Js.json_string (status_name (status e))));
     ("r", Js.json_string <$> reservationId e);
     ("p", Js.json_string <$> previousHash e);
     ("ts", Some (Js.num_to_string (timestamp e)));
     ("d", Some (Js.json_string (deviceId e)))]%string.

Definition hashEntry (e : JournalEntry) : string := sha256_hex (Js.utf8 (entry_text e)).

(** The loop of [verifyChain] at position [i], after an entry whose hash is
    [prev] ([None] at the start). *)
Fixpoint verifyChain_from (source : string) (i : nat) (prev : option string) (l : list JournalEntry)
    : result JError unit :=
  match l with
  | [] => Ok tt
  | e :: l =>
      _ ← throw_if (match hash e with Some h => negb (is_hash h) | None => true end) (InvalidHash source i);
      _ ← throw_if (negb (bool_decide (hash e = Some (hashEntry e)))) (HashMismatch source i);
      _ ← match i with
          | O => throw_if (bool_decide (is_Some (previousHash e))) (FirstHasPrevious source)
          | S _ => throw_if (negb (bool_decide (previousHash e = prev))) (PreviousMismatch source i)
          end;
      verifyChain_from source (S i) (hash e) l
  end.
Definition verifyChain (l : list JournalEntry) (source : string) : result JError unit :=
  verifyChain_from source 0 None l.

Definition read_record (st : Storage) (d : ParsedRecordKey) : result JError JournalEntry :=
  let raw := get_value st (key d) in
  _ ← throw_if (match raw with Js.JNull => true | _ => false end) (MissingRecord (key d));
  record ← asObject raw (key d);
  _ ← throw_if (negb (Js.strict_eq (field record "formatVersion") (Js.JNum (Js.of_Z RECORD_VERSION))))
        (UnsupportedVersion (key d));
  _ ← throw_if (negb (Js.strict_eq (field record "sequence") (Js.JNum (Js.of_Z (sequence d)))))
        (SequenceKeyMismatch (key d));
  entry ← validateEntry (field record "entry") (key d +:+ ".entry");
  _ ← throw_if (negb (bool_decide (hash entry = Some (key_hash d)))) (HashKeyMismatch (key d));
  Ok entry.

Definition readPhysicalRecords (st : Storage) : result JError (list JournalEntry) :=
  parsed ← result_mapM parseRecordKey (List.filter (Js.starts_with ENTRY_PREFIX) (storage_keys st));
  let parsed := merge_sort key_le parsed in
  _ ← check_sequence 0 None parsed;
  es ← result_mapM (read_record st) parsed;
  _ ← verifyChain es ENTRY_PREFIX;
  Ok es.

Fixpoint validate_legacy (i : nat) (l : list Js.jsval) : result JError (list JournalEntry) :=
  match l with
  | [] => Ok []
  | v :: l =>
      e ← validateEntry v (LEGACY_STORAGE_KEY +:+ "[" +:+ Js.dec (Z.of_nat i) +:+ "]");
      es ← validate_legacy (S i) l;
      Ok (e :: es)
  end.

Definition readLegacyEntries (st : Storage) : result JError (option (list JournalEntry)) :=
  match get_value st LEGACY_STORAGE_KEY with
  | Js.JNull => Ok None
  | Js.JArr _ raw =>
      es ← validate_legacy 0 raw;
      _ ← verifyChain es LEGACY_STORAGE_KEY;
      Ok (Some es)
  | _ => Err LegacyNotArray
  end.

Definition record_value (n : Z) (e : JournalEntry) : Js.jsval :=
  Js.JObj 3 [("formatVersion", Js.JNum (Js.of_Z RECORD_VERSION));
             ("sequence", Js.JNum (Js.of_Z n));
             ("entry", cloneEntry e)]%string.

Definition writeRecord (n : Z) (e : JournalEntry) : Journal unit :=
  match hash e with
  | None => mthrow (NoHash n)
  | Some h => set_value (recordKey n h) (record_value n e)
  end.

(** The common prefix of the two layouts must agree. *)
Fixpoint check_legacy (i : nat) (physical legacy : list JournalEntry) : result JError unit :=
  match physical, legacy with
  | p :: physical, l :: legacy =>
      _ ← throw_if (negb (entriesEqual p l)) (LegacyDivergence i);
      check_legacy (S i) physical legacy
  | _, _ => Ok tt
  end.

Fixpoint write_records (i : Z) (l : list JournalEntry) : Journal unit :=
  match l with
  | [] => mret tt
  | e :: l => _ ← writeRecord i e; write_records (i + 1) l
  end.

Definition initializeOnce : Journal unit :=
  j ← mget;
  physical ← mlift (readPhysicalRecords (storage j));
  legacy ← mlift (readLegacyEntries (storage j));
  _ ← (match legacy with
       | Some legacy =>
           _ ← mlift (check_legacy 0 physical legacy);
           write_records (Z.of_nat (length physical)) (drop (length physical) legacy)
       | None => mret tt
       end : Journal unit);
  j' ← mget;
  replayed ← mlift (match legacy with
                    | Some legacy => if bool_decide (length physical < length legacy)%nat
                                     then readPhysicalRecords (storage j') else Ok physical
                    | None => Ok physical
                    end);
  mmodify (λ j, mkJournal replayed true (storage j) (faults j)).

Definition initialize : Journal unit :=
  j ← mget; if initialized j then mret tt else initializeOnce.

Definition same_slot (a b : JournalEntry) : bool :=
  String.eqb (treeId a) (treeId b) && (wotsIndex a =? wotsIndex b).

(** [[...entries].reverse().find(e => e.reservationId === id)] *)
Definition latest_of (id : string) (es : list JournalEntry) : option JournalEntry :=
  List.find (λ e, bool_decide (reservationId e = Some id)) (reverse es).

(** What the log says of appending [e]: [Some latest] is a repeat of a recorded
    outcome, [None] a new record. *)
Definition admit_entry (es : list JournalEntry) (e : JournalEntry) : result JError (option JournalEntry) :=
  _ ← throw_if (bool_decide (status e = Wm.reserved) && existsb (λ x, same_slot x e) es)
        (SlotRecorded (treeId e) (wotsIndex e));
  match reservationId e with
  | Some id =>
      if negb (bool_decide (status e = Wm.reserved)) && negb (String.eqb id "") then
        match latest_of id es with
        | Some latest =>
            if bool_decide (status latest = status e) then
              if negb (same_slot latest e)
                 || (bool_decide (status e = Wm.committed) && negb (bool_decide (txId latest = txId e)))
              then Err (ReservationOtherUse id)
              else Ok (Some latest)
            else if negb (bool_decide (status latest = Wm.reserved)) then Err (ReservationClosed id)
            else Ok None
        | None => Ok None
        end
      else Ok None
  | None => Ok None
  end.

(** [entry.previousHash = previous.hash; entry.hash = hashEntry(entry)] *)
Definition with_links (e : JournalEntry) (prev h : option string) : JournalEntry :=
  mkEntry (treeId e) (branchId e) (wotsIndex e) (indices e) (status e) (reservationId e)
    (payloadHash e) (txId e) (timestamp e) (deviceId e) prev h.
Definition link_entry (es : list JournalEntry) (e : JournalEntry) : JournalEntry :=
  let prev := last es ≫= hash in
  with_links e prev (Some (hashEntry (with_links e prev (hash e)))).

(** Returns [input] as the call leaves it (its two hash members are set). *)
Definition appendOne (input : JournalEntry) : Journal JournalEntry :=
  _ ← initialize;
  j ← mget;
  es ← mlift (readPhysicalRecords (storage j));
  _ ← set_entries es;
  entry ← mlift (validateEntry (cloneEntry input) "append");
  repeated ← mlift (admit_entry es entry);
  match repeated with
  | Some latest => mret (with_links input (previousHash latest) (hash latest))
  | None =>
      let entry := link_entry es entry in
      let n := Z.of_nat (length es) in
      _ ← mthrow_if (existsb (Js.starts_with (ENTRY_PREFIX +:+ sequenceText n +:+ ":")) (storage_keys (storage j)))
            (SequenceExists n);
      _ ← writeRecord n entry;
      _ ← set_entries (es ++ [entry]);
      mret (with_links input (previousHash entry) (hash entry))
  end.

Definition ensureInitialized : Journal unit :=
  j ← mget; mthrow_if (negb (initialized j)) JNotInitialized.

Definition getAll : Journal (list JournalEntry) :=
  _ ← ensureInitialized; j ← mget; mret (entries j).

Definition getByTree (t : string) : Journal (list JournalEntry) :=
  _ ← ensureInitialized; j ← mget;
  mret (List.filter (λ e, String.eqb (treeId e) t) (entries j)).

Definition getByReservation (id : string) : Journal (option JournalEntry) :=
  _ ← ensureInitialized; j ← mget; mret (latest_of id (entries j)).

Definition clear : Journal unit := mthrow AppendOnly.

End journal.

End Jr.
