(* ===== verification/JournalSpec.v ===== *)
(** * What the lease journal promises

    Validation accepts exactly well-formed entries and reads back what was
    written; appending extends the log by one linked record or changes nothing;
    a slot is reserved at most once whatever the instances over one adapter do; and two verified
    logs with the same last hash agree on every committed member. *)

From Stdlib Require Import ZArith Lia QArith Ascii String.
From stdpp Require Import base gmap list strings sorting.
From S2P Require Import Prelude JsBase JsText Watermark Journal.

Module JrSpec.
Import Js JsText Jr.

(** ** Entries *)

Definition wf_entry (e : JournalEntry) : Prop :=
  Wm.valid (indices e) ∧ wotsIndex e = Wm.flat (indices e) ∧
  treeId e ≠ "" ∧ branchId e ≠ "" ∧ deviceId e ≠ "" ∧
  ∃ q, timestamp e = NFin q ∧ num_lt (NFin q) (of_Z 0) = false.

Lemma requiredString_Ok o f k s : requiredString o f k = Ok s → field o f = JStr s ∧ s ≠ "".
Proof.
  unfold requiredString. destruct (field o f); try done.
  destruct (String.eqb_spec s0 ""); [done|]. by intros [= ->].
Qed.

Lemma requiredInteger_Ok o f k z : requiredInteger o f k = Ok z → 0 <= z <= MAX_SAFE_INTEGER.
Proof.
  unfold requiredInteger. destruct (field o f); try done. destruct (num_integer n); [|done].
  unfold is_safe_integer. destruct (_ && _) eqn:E; [intros [= <-]; lia|done].
Qed.

Lemma requiredTimestamp_Ok o k n :
  requiredTimestamp o k = Ok n → ∃ q, n = NFin q ∧ num_lt (NFin q) (of_Z 0) = false.
Proof.
  unfold requiredTimestamp. destruct (field _ _); try done. destruct n0; try done.
  destruct (num_lt _ _) eqn:E; [done|]. intros [= <-]. eauto.
Qed.

Lemma validateEntry_wf v k e : validateEntry v k = Ok e → wf_entry e.
Proof.
  unfold validateEntry. intros H. inv_M.
  repeat match goal with
  | H : requiredString _ _ _ = Ok _ |- _ => apply requiredString_Ok in H as [_ H]
  | H : requiredInteger _ _ _ = Ok _ |- _ => apply requiredInteger_Ok in H
  | H : requiredTimestamp _ _ = Ok _ |- _ => apply requiredTimestamp_Ok in H
  end.
  unfold wf_entry, Wm.valid, Wm.flat, MAX_INDEX_COMPONENT, Wm.MAX_L in *; simpl.
  split_and!; try done; lia.
Qed.

Lemma requiredInteger_field o f k z :
  field o f = JNum (of_Z z) → 0 <= z <= MAX_SAFE_INTEGER → requiredInteger o f k = Ok z.
Proof.
  intros Hf Hz. unfold requiredInteger. rewrite Hf, num_integer_of_Z.
  unfold is_safe_integer, MAX_SAFE_INTEGER in *. by replace (_ && _) with true by lia.
Qed.

Lemma requiredString_field o f k s : field o f = JStr s → s ≠ "" → requiredString o f k = Ok s.
Proof.
  intros Hf Hs. unfold requiredString. rewrite Hf. by destruct (String.eqb_spec s "").
Qed.

Lemma optionalString_field o f k v :
  field o f = match v with Some s => JStr s | None => JUndef end → optionalString o f k = Ok v.
Proof. intros Hf. unfold optionalString. rewrite Hf. by destruct v. Qed.

Lemma status_of_status_name s : status_of_name (status_name s) = Some s.
Proof. by destruct s. Qed.
Lemma status_name_nonempty s : status_name s ≠ "".
Proof. by destruct s. Qed.
Lemma status_name_inj a b : status_name a = status_name b → a = b.
Proof.
  intros H. apply (f_equal status_of_name) in H. rewrite !status_of_status_name in H. congruence.
Qed.

(** The members of a cloned entry, as property accesses find them. *)
Definition js_opt (v : option string) : jsval := match v with Some s => JStr s | None => JUndef end.
Lemma clone_fields_spec e :
  let o := clone_fields e in
  field o "treeId" = JStr (treeId e) ∧ field o "branchId" = JStr (branchId e) ∧
  field o "wotsIndex" = JNum (of_Z (wotsIndex e)) ∧
  field o "indices" = JObj 2 (clone_indices (indices e)) ∧
  field o "status" = JStr (status_name (status e)) ∧
  field o "reservationId" = js_opt (reservationId e) ∧
  field o "payloadHash" = js_opt (payloadHash e) ∧ field o "txId" = js_opt (txId e) ∧
  field o "timestamp" = JNum (timestamp e) ∧ field o "deviceId" = JStr (deviceId e) ∧
  field o "previousHash" = js_opt (previousHash e) ∧ field o "hash" = js_opt (hash e).
Proof. destruct e as [? ? ? ? ? [] [] [] ? ? [] []]; by split_and!. Qed.

Lemma Ok_bind {E A B} (m : result E A) (f : A → result E B) a r :
  m = Ok a → f a = r → m ≫= f = r.
Proof. by intros -> <-. Qed.

Lemma validateEntry_cloneEntry e k : wf_entry e → validateEntry (cloneEntry e) k = Ok e.
Proof.
  intros (Hv & Hwi & Ht & Hb & Hd & q & Hts & Hq).
  destruct (clone_fields_spec e) as (Ftree & Fbranch & Fwi & Fix & Fst & Fr & Fph & Ftx & Fts & Fdev & Fprev & Fh).
  unfold Wm.valid, Wm.flat, Wm.MAX_L in *.
  unfold validateEntry, cloneEntry. eapply Ok_bind; [done|].
  rewrite Fix. eapply Ok_bind; [done|].
  eapply Ok_bind; [apply requiredString_field; [exact Fst|apply status_name_nonempty]|].
  rewrite status_of_status_name. eapply Ok_bind; [done|].
  eapply Ok_bind; [unfold requiredTimestamp; by rewrite Fts, Hts, Hq|].
  do 2 (eapply Ok_bind; [apply requiredString_field; eassumption|]).
  eapply Ok_bind; [apply requiredInteger_field; [eassumption|unfold MAX_SAFE_INTEGER; lia]|].
  do 3 (eapply Ok_bind; [apply requiredInteger_field; [reflexivity|unfold MAX_SAFE_INTEGER; lia]|]).
  do 3 (eapply Ok_bind; [apply optionalString_field; eassumption|]).
  eapply Ok_bind; [apply requiredString_field; eassumption|].
  do 2 (eapply Ok_bind; [apply optionalString_field; eassumption|]).
  unfold MAX_INDEX_COMPONENT. destruct (indices e) as [a b c] eqn:Ei. simpl in *.
  replace ((a >? 63) || (b >? 63) || (c >? 63)) with false by lia.
  rewrite Hwi, Z.eqb_refl. simpl. by rewrite <- Hwi, <- Ei, <- Hts; destruct e.
Qed.

(** ** Record keys *)

Lemma parseRecordKey_key k p : parseRecordKey k = Ok p → key p = k ∧ is_hash (key_hash p) = true.
Proof.
  unfold parseRecordKey. destruct (drop_str 16 _) as [|colon h]; [done|].
  destruct (_ && _ && _ && _) eqn:E; [|done]. destruct (is_safe_integer _); [|done].
  intros [= <-]. simpl. split; [done|]. by apply andb_true_iff in E as [_ ?].
Qed.

Lemma sequenceText_spec n :
  0 <= n <= MAX_SAFE_INTEGER →
  String.length (sequenceText n) = 16%nat ∧ str_forallb is_digit (sequenceText n) = true ∧
  radix_digits 10 0 (sequenceText n) = Some n.
Proof. intros H. apply (padded_spec n 16); [unfold MAX_SAFE_INTEGER in *; simpl; lia|lia]. Qed.

Lemma parseRecordKey_recordKey n h :
  0 <= n <= MAX_SAFE_INTEGER → is_hash h = true →
  parseRecordKey (recordKey n h) = Ok (mkKey (recordKey n h) n h).
Proof.
  intros Hn Hh. destruct (sequenceText_spec n Hn) as (Hl & Hd & Hr).
  assert (∀ r, take_str 16 (sequenceText n +:+ r) = sequenceText n) as Htake
    by (intros r; rewrite <- Hl; apply take_app_str).
  assert (∀ r, drop_str 16 (sequenceText n +:+ r) = r) as Hdrop
    by (intros r; rewrite <- Hl; apply drop_app_str).
  assert (drop_str (String.length ENTRY_PREFIX) (recordKey n h) = sequenceText n +:+ ":" +:+ h)
    as Hrel by apply drop_app_str.
  unfold parseRecordKey. rewrite Hrel, Htake, Hdrop, Hl, Hd, Hr.
  change (":" +:+ h) with (String ":" h). cbv iota. rewrite Hh. simpl.
  unfold is_safe_integer. by replace (Z.abs n <=? MAX_SAFE_INTEGER) with true by lia.
Qed.

Lemma recordKey_prefix n h : starts_with ENTRY_PREFIX (recordKey n h) = true.
Proof. apply starts_with_app. Qed.
Lemma recordKey_sequence_prefix n h :
  starts_with (ENTRY_PREFIX +:+ sequenceText n +:+ ":") (recordKey n h) = true.
Proof. unfold recordKey. rewrite <- !app_assoc_str. apply starts_with_app. Qed.

(** ** Sorted record keys *)

Lemma result_mapM_Permutation {E A B} (f : A → result E B) l l' ks :
  l ≡ₚ l' → result_mapM f l = Ok ks → ∃ ks', result_mapM f l' = Ok ks' ∧ ks ≡ₚ ks'.
Proof.
  setoid_rewrite result_mapM_Ok.
  intros Hp; revert ks; induction Hp as [|x l l' Hp IH|x y l|l l' l'' Hp1 IH1 Hp2 IH2]; intros ks H.
  - eauto.
  - apply Forall2_cons_inv_l in H as (k & ks' & ? & (ks2 & ? & ?)%IH & ->).
    exists (k :: ks2). split; [by constructor|by constructor].
  - apply Forall2_cons_inv_l in H as (k & ks1 & ? & (k' & ks2 & ? & ? & ->)%Forall2_cons_inv_l & ->).
    exists (k' :: k :: ks2). split; [by repeat constructor|by constructor].
  - destruct (IH1 _ H) as (ks1 & H1 & ?). destruct (IH2 _ H1) as (ks2 & ? & ?). exists ks2.
    split; [done|]. by transitivity ks1.
Qed.

Lemma result_mapM_app {E A B} (f : A → result E B) l l' k k' :
  result_mapM f l = Ok k → result_mapM f l' = Ok k' → result_mapM f (l ++ l') = Ok (k ++ k').
Proof.
  intros H H'. apply result_mapM_Ok in H, H'. apply result_mapM_Ok. by apply Forall2_app.
Qed.

(** The keys are numbered from [i] on. *)
Definition numbered (i : Z) (l : list ParsedRecordKey) : Prop :=
  ∀ j p, l !! j = Some p → sequence p = i + Z.of_nat j.

Lemma check_sequence_Ok i prev l :
  (prev ≠ Some i) → check_sequence i prev l = Ok tt ↔ numbered i l.
Proof.
  revert i prev; induction l as [|p l IH]; intros i prev Hp; simpl; [by split|]. split.
  - intros H. inv_M. assert (sequence p = i) as Hi by lia. rewrite Hi in *.
    apply IH in H; [|intros [= ?]; lia]. intros [|j] q; simpl; [intros [= <-]; lia|].
    intros Hq. rewrite (H j q Hq). lia.
  - intros H. pose proof (H 0%nat p eq_refl) as H0. replace (i + Z.of_nat 0) with i in H0 by lia.
    rewrite H0. rewrite bool_decide_eq_false_2 by done. simpl. rewrite Z.eqb_refl. simpl.
    apply IH; [intros [= ?]; lia|]. intros j q Hq. rewrite (H (S j) q Hq). lia.
Qed.

Lemma numbered_app i l p :
  numbered i l → sequence p = i + Z.of_nat (length l) → numbered i (l ++ [p]).
Proof.
  intros H Hp j q Hq. destruct (decide (j < length l)%nat) as [Hj|Hj].
  - rewrite lookup_app_l in Hq by done. by apply H.
  - rewrite lookup_app_r in Hq by lia. destruct (j - length l)%nat eqn:E; [|done].
    simpl in Hq. simplify_eq. rewrite Hp. lia.
Qed.

Lemma numbered_key_le i l j k p q :
  numbered i l → l !! j = Some p → l !! k = Some q → (j < k)%nat → key_le p q.
Proof. intros H Hp Hq Hjk. left. rewrite (H _ _ Hp), (H _ _ Hq). lia. Qed.

Lemma numbered_sorted i l : numbered i l → StronglySorted key_le l.
Proof.
  revert i; induction l as [|p l IH]; intros i H; [constructor|]. constructor.
  - apply (IH (i + 1)). intros j q Hq. rewrite (H (S j) q Hq). lia.
  - apply Forall_lookup. intros j q Hq. apply (numbered_key_le i (p :: l) 0 (S j)); [done..|lia].
Qed.

#[global] Instance key_le_trans : Transitive key_le.
Proof.
  intros a b c [?|[? Hab]] [?|[? Hbc]]; unfold key_le; try (left; lia).
  right. split; [lia|]. apply Is_true_true. apply Is_true_true in Hab, Hbc.
  change (String.le (key a) (key c)). by transitivity (key b).
Qed.
#[global] Instance key_le_total : Total key_le.
Proof.
  intros a b. unfold key_le.
  destruct (Z.lt_trichotomy (sequence a) (sequence b)) as [?|[?|?]]; [tauto| |tauto].
  destruct (String.leb_total (key a) (key b)); naive_solver.
Qed.

(** Sorting finds the one numbered arrangement. *)
Lemma merge_sort_numbered l l' i : l ≡ₚ l' → numbered i l' → merge_sort key_le l = l'.
Proof.
  intros Hp Hn. apply (StronglySorted_unique_strong key_le).
  - intros p q Hin1 Hin2 Hpq Hqp.
    assert (p ∈ l') as Hp' by (by rewrite <- Hp, <- (merge_sort_Permutation key_le l)).
    apply list_elem_of_lookup in Hp' as [j Hj]. apply list_elem_of_lookup in Hin2 as [k Hk].
    pose proof (Hn _ _ Hj) as Hsj. pose proof (Hn _ _ Hk) as Hsk.
    assert (j = k) as -> by (destruct Hpq as [?|[? _]], Hqp as [?|[? _]]; lia). congruence.
  - apply StronglySorted_merge_sort; apply _.
  - by eapply numbered_sorted.
  - by rewrite merge_sort_Permutation.
Qed.

(** ** The log of a medium *)

Section log.
Context (sha256_hex : string → string).
(** SHA-256 in lower-case hexadecimal. *)
Context (sha256_hex_format : ∀ b, is_hash (sha256_hex b) = true).

Notation hashEntry := (hashEntry sha256_hex).
Notation readPhysicalRecords := (readPhysicalRecords sha256_hex).
Notation appendOne := (appendOne sha256_hex).

(** [l] continues a chain whose last hash is [prev]. *)
Fixpoint chained (prev : option string) (l : list JournalEntry) : Prop :=
  match l with
  | [] => True
  | e :: l => previousHash e = prev ∧ hash e = Some (hashEntry e) ∧ chained (hash e) l
  end.

Lemma hashEntry_format e : is_hash (hashEntry e) = true.
Proof. apply sha256_hex_format. Qed.

Lemma verifyChain_from_Ok src i prev l :
  (i = 0%nat → prev = None) →
  verifyChain_from sha256_hex src i prev l = Ok tt ↔ chained prev l.
Proof.
  revert i prev; induction l as [|e l IH]; intros i prev Hi; simpl; [by split|]. split.
  - intros H. inv_M.
    match goal with H : negb (bool_decide _) = false |- _ =>
      apply negb_false_iff, bool_decide_eq_true in H; rename H into Hh end.
    split; [|split; [done|by apply (IH (S i) (hash e))]].
    destruct i; inv_M.
    + rewrite Hi by done. by destruct (previousHash e).
    + match goal with H : negb (bool_decide (previousHash e = _)) = false |- _ =>
        by apply negb_false_iff, bool_decide_eq_true in H end.
  - intros (Hp & Hh & Hl). rewrite Hh at 1. rewrite hashEntry_format. simpl.
    rewrite (bool_decide_eq_true_2 (hash e = _)) by done. simpl.
    assert ((match i with
             | 0%nat => throw_if (bool_decide (is_Some (previousHash e))) (FirstHasPrevious src)
             | S _ => throw_if (negb (bool_decide (previousHash e = prev))) (PreviousMismatch src i)
             end : result JError unit) = Ok tt) as ->.
    { destruct i.
      - rewrite Hp, (Hi eq_refl). by rewrite bool_decide_eq_false_2 by (by intros [? ?]).
      - by rewrite bool_decide_eq_true_2. }
    simpl. by apply IH.
Qed.

Lemma verifyChain_Ok src l : verifyChain sha256_hex l src = Ok tt ↔ chained None l.
Proof. by apply verifyChain_from_Ok. Qed.

Lemma chained_snoc prev l e :
  chained prev (l ++ [e]) ↔
  chained prev l ∧ previousHash e = default prev (hash <$> last l) ∧ hash e = Some (hashEntry e).
Proof.
  revert prev; induction l as [|x l IH]; intros prev; simpl; [tauto|].
  rewrite IH. destruct l as [|y l]; [simpl; tauto|]. rewrite last_cons_cons.
  destruct (last (y :: l)) eqn:E; [simpl; tauto|by apply last_None in E].
Qed.

Lemma chained_last_None l : chained None l → default None (hash <$> last l) = last l ≫= hash.
Proof. by destruct (last l). Qed.

(** The record descriptors of a medium that reads as [es]. *)
Record reads (st : Storage) (es : list JournalEntry) (ds : list ParsedRecordKey) : Prop := {
  reads_keys : ∃ ps, result_mapM parseRecordKey
                       (List.filter (starts_with ENTRY_PREFIX) (storage_keys st)) = Ok ps ∧ ps ≡ₚ ds;
  reads_numbered : numbered 0 ds;
  reads_records : result_mapM (read_record st) ds = Ok es;
  reads_chained : chained None es }.

Lemma readPhysicalRecords_Ok st es : readPhysicalRecords st = Ok es ↔ ∃ ds, reads st es ds.
Proof.
  unfold Jr.readPhysicalRecords. split.
  - intros H. inv_M. exists (merge_sort key_le x). destruct x0, x2. split.
    + exists x. split; [done|]. by rewrite merge_sort_Permutation.
    + by apply (check_sequence_Ok 0 None).
    + done.
    + by eapply verifyChain_Ok.
  - intros (ds & [(ps & Hps & Hp) Hn Hr Hc]). rewrite Hps. simpl.
    rewrite (merge_sort_numbered ps ds 0) by done.
    rewrite (proj2 (check_sequence_Ok 0 None ds ltac:(done)) Hn). simpl.
    rewrite Hr. simpl. rewrite (proj2 (verifyChain_Ok _ _) Hc). done.
Qed.

Lemma reads_length st es ds : reads st es ds → length ds = length es.
Proof. intros [_ _ Hr _]. apply result_mapM_Ok in Hr. by eapply Forall2_length. Qed.

Lemma reads_key_lookup st es ds d : reads st es ds → d ∈ ds → is_Some (st !! key d).
Proof.
  intros [(ps & Hps & Hp) _ _ _] Hd. rewrite <- Hp in Hd.
  apply result_mapM_Ok in Hps. apply list_elem_of_lookup in Hd as [i Hi].
  destruct (Forall2_lookup_r _ _ _ _ _ Hps Hi) as (k & Hk & Hparse).
  apply parseRecordKey_key in Hparse as [-> _].
  apply list_elem_of_lookup_2, list_elem_of_In, filter_In in Hk as [Hk _].
  apply list_elem_of_In in Hk. unfold storage_keys in Hk.
  apply list_elem_of_fmap in Hk as ([k' v] & -> & Hk). apply elem_of_map_to_list in Hk. by eexists.
Qed.

Lemma storage_keys_insert st k v :
  st !! k = None → storage_keys (<[k := v]> st) ≡ₚ k :: storage_keys st.
Proof. intros H. unfold storage_keys. by rewrite map_to_list_insert. Qed.

Lemma filter_Permutation_bool {A} (f : A → bool) l l' :
  l ≡ₚ l' → List.filter f l ≡ₚ List.filter f l'.
Proof.
  induction 1 as [|x l l' H IH|x y l|]; simpl; [done| | |by etransitivity].
  - by destruct (f x); rewrite IH.
  - destruct (f x), (f y); done || constructor.
Qed.

Lemma read_record_ext st st' d :
  st !! key d = st' !! key d → read_record st d = read_record st' d.
Proof. intros H. unfold read_record, get_value. by rewrite H. Qed.

Lemma read_record_written st n e h :
  0 <= n → wf_entry e → hash e = Some h →
  read_record (<[recordKey n h := record_value n e]> st) (mkKey (recordKey n h) n h) = Ok e.
Proof.
  intros Hn He Hh. unfold read_record, get_value. cbn [key]. rewrite lookup_insert_eq.
  unfold record_value. simpl. rewrite Qeq_bool_refl. simpl.
  change (field _ "entry") with (cloneEntry e). rewrite validateEntry_cloneEntry by done. simpl.
  by rewrite bool_decide_eq_true_2.
Qed.

(** Writing the next linked record under its key extends the log by it. *)
Lemma reads_extend st es ds e h :
  reads st es ds → Z.of_nat (length es) <= MAX_SAFE_INTEGER →
  st !! recordKey (Z.of_nat (length es)) h = None →
  wf_entry e → hash e = Some h → hash e = Some (hashEntry e) → previousHash e = last es ≫= hash →
  readPhysicalRecords (<[recordKey (Z.of_nat (length es)) h := record_value (Z.of_nat (length es)) e]> st)
  = Ok (es ++ [e]).
Proof.
  intros Hreads Hlen Hfresh He Hh Hhash Hprev. set (n := Z.of_nat (length es)) in *.
  assert (Hish : is_hash h = true) by (replace h with (hashEntry e) by congruence; apply sha256_hex_format).
  pose proof (reads_length _ _ _ Hreads) as Hdl.
  apply readPhysicalRecords_Ok. exists (ds ++ [mkKey (recordKey n h) n h]).
  pose proof Hreads as [(ps & Hps & Hp) Hn Hr Hc]. split.
  - destruct (result_mapM_Permutation parseRecordKey
      (recordKey n h :: List.filter (starts_with ENTRY_PREFIX) (storage_keys st))
      (List.filter (starts_with ENTRY_PREFIX) (storage_keys (<[recordKey n h := record_value n e]> st)))
      (mkKey (recordKey n h) n h :: ps)) as (ps' & Hps' & Hp').
    + rewrite (filter_Permutation_bool _ _ _ (storage_keys_insert st _ (record_value n e) Hfresh)).
      cbn [List.filter]. by rewrite recordKey_prefix.
    + cbn [result_mapM]. rewrite parseRecordKey_recordKey by (done || lia).
      eapply Ok_bind; [done|]. by rewrite Hps.
    + exists ps'. split; [done|]. rewrite <- Hp', Hp. by rewrite Permutation_cons_append.
  - apply numbered_app; [done|]. simpl. rewrite Hdl. lia.
  - apply result_mapM_app.
    + rewrite <- Hr. clear -Hreads Hfresh. 
      assert (∀ d, d ∈ ds → read_record (<[recordKey n h := record_value n e]> st) d = read_record st d) as Hext.
      { intros d Hd. apply read_record_ext. apply lookup_insert_ne. intros Heq.
        destruct (reads_key_lookup _ _ _ _ Hreads Hd) as [v Hv]. congruence. }
      clear -Hext. induction ds as [|d ds IH]; simpl; [done|].
      rewrite Hext by set_solver. rewrite IH by set_solver. done.
    + cbn [result_mapM]. rewrite read_record_written by (done || lia). done.
  - apply chained_snoc. split; [done|]. split; [|done]. by rewrite chained_last_None.
Qed.

(** ** What a hash commits to *)

(** The committed members; [payloadHash], [txId] and [indices] are not among them. *)
Definition committed_members (e : JournalEntry) :=
  (treeId e, branchId e, wotsIndex e, status e, reservationId e, previousHash e, timestamp e, deviceId e).

(** [Date.now()] values and leaf numbers. *)
Definition plain_numbers (e : JournalEntry) : Prop :=
  0 <= wotsIndex e ∧ ∃ z, timestamp e = of_Z z ∧ 0 <= z <= MAX_SAFE_INTEGER.

Definition member (k : string) : string := String "," (json_string k +:+ ":").
Definition opt_member (k : string) (v : option string) (rest : string) : string :=
  match v with Some s => member k +:+ (json_string s +:+ rest) | None => rest end.

Lemma entry_text_eq e :
  entry_text e =
  "{" +:+ (json_string "t" +:+ (":" +:+ (json_string (treeId e) +:+ (member "b" +:+ (json_string (branchId e) +:+
  (member "i" +:+ (dec (wotsIndex e) +:+ (member "s" +:+ (json_string (status_name (status e)) +:+
  opt_member "r" (reservationId e) (opt_member "p" (previousHash e)
  (member "ts" +:+ (num_to_string (timestamp e) +:+ (member "d" +:+ (json_string (deviceId e) +:+ "}")))))))))))))).
Proof.
  unfold entry_text, json_object, join_comma, member, opt_member.
  destruct (reservationId e), (previousHash e); cbn [omap list_omap json_member fmap option_fmap option_map
    fst snd String.concat]; repeat rewrite app_assoc_str; reflexivity.
Qed.

Lemma dec_member_inj m n k r r' :
  0 <= m → 0 <= n → dec m +:+ (member k +:+ r) = dec n +:+ (member k +:+ r') → m = n ∧ r = r'.
Proof.
  intros Hm Hn E. apply (delimited_inj is_digit) in E as [E1 E2]; [|by apply dec_digits..|done|done].
  split; [by apply dec_inj|]. by apply app_inj_head in E2.
Qed.

Lemma opt_member_inj k v v' r r' :
  (∀ x, member k +:+ x ≠ r) → (∀ x, member k +:+ x ≠ r') →
  opt_member k v r = opt_member k v' r' → v = v' ∧ r = r'.
Proof.
  intros Hk Hk'. destruct v as [s|], v' as [s'|]; simpl; intros E; [| |symmetry in E|done].
  - apply app_inj_head, json_string_inj in E as [-> E]. done.
  - by apply Hk' in E.
  - by apply Hk in E.
Qed.

Lemma entry_text_inj e e' :
  plain_numbers e → plain_numbers e' → entry_text e = entry_text e' →
  committed_members e = committed_members e'.
Proof.
  intros (Hi & z & Hz & Hzb) (Hi' & z' & Hz' & Hzb'). rewrite !entry_text_eq. intros E.
  do 3 apply app_inj_head in E. apply json_string_inj in E as [Ht E].
  apply app_inj_head, json_string_inj in E as [Hb E].
  apply app_inj_head, dec_member_inj in E as [Hw E]; [|done..].
  apply json_string_inj in E as [Hs%status_name_inj E].
  rewrite Hz, Hz', !num_to_string_of_Z in E by done.
  apply opt_member_inj in E as [Hr E]; [|by destruct (previousHash e)|by destruct (previousHash e')].
  apply opt_member_inj in E as [Hp E]; [|done..]. apply app_inj_head in E.
  apply dec_member_inj in E as [Hzz E]; [|lia..].
  apply json_string_inj in E as [Hd _].
  unfold committed_members. by rewrite Ht, Hb, Hw, Hs, Hr, Hp, Hz, Hz', Hzz, Hd.
Qed.

(** The text that the hash of an entry is taken of. *)
Definition entry_input (e : JournalEntry) : string := utf8 (entry_text e).
Lemma hashEntry_inj e e' :
  plain_numbers e → plain_numbers e' → hashEntry e = hashEntry e' →
  committed_members e = committed_members e' ∨ collision_in sha256_hex [entry_input e; entry_input e'].
Proof.
  intros He He' E. apply (same_or_collision sha256_hex [entry_input e; entry_input e']) in E as [Eq|]; [left|by right|set_solver..].
  apply utf8_inj in Eq. by apply entry_text_inj.
Qed.

Lemma chains_agree l : ∀ l',
  chained None l → chained None l' → Forall plain_numbers l → Forall plain_numbers l' →
  (last l ≫= hash) = (last l' ≫= hash) →
  committed_members <$> l = committed_members <$> l' ∨ collision_in sha256_hex (entry_input <$> l ++ l').
Proof.
  induction l as [|e l IH] using rev_ind; intros l' Hc Hc' Hp Hp' Hlast.
  - destruct l' as [|e' l' _] using rev_ind; [by left|].
    apply chained_snoc in Hc' as (_ & _ & Hh). rewrite last_snoc in Hlast. simpl in Hlast. congruence.
  - apply chained_snoc in Hc as (Hc & Hprev & Hh). rewrite last_snoc in Hlast. simpl in Hlast.
    destruct l' as [|e' l' _] using rev_ind; [simpl in Hlast; congruence|].
    apply chained_snoc in Hc' as (Hc' & Hprev' & Hh'). rewrite last_snoc in Hlast. simpl in Hlast.
    rewrite chained_last_None in Hprev, Hprev' by done.
    apply Forall_app in Hp as [Hp [He _]%Forall_cons], Hp' as [Hp' [He' _]%Forall_cons].
    destruct (hashEntry_inj e e') as [Eq|Hcol]; [done|done|congruence| |].
    2:{ right. revert Hcol. apply collision_weaken. rewrite !fmap_app. set_solver. }
    assert (previousHash e = previousHash e') as Hpe by (unfold committed_members in Eq; congruence).
    destruct (IH l' Hc Hc' Hp Hp') as [Eql|Hcol]; [congruence|left; rewrite !fmap_app, Eql; simpl; by rewrite Eq|].
    right. revert Hcol. apply collision_weaken. rewrite !fmap_app. set_solver.
Qed.

(** ** Appending *)

Lemma fresh_record_key st n h :
  existsb (starts_with (ENTRY_PREFIX +:+ sequenceText n +:+ ":")) (storage_keys st) = false →
  st !! recordKey n h = None.
Proof.
  intros H. destruct (st !! recordKey n h) as [v|] eqn:E; [|done].
  assert (existsb (starts_with (ENTRY_PREFIX +:+ sequenceText n +:+ ":")) (storage_keys st) = true)
    as H'; [|congruence].
  apply existsb_exists. exists (recordKey n h). split; [|apply recordKey_sequence_prefix].
  apply list_elem_of_In. unfold storage_keys. apply list_elem_of_fmap.
  exists (recordKey n h, v). split; [done|]. by apply elem_of_map_to_list.
Qed.

Lemma link_entry_spec es v :
  wf_entry v →
  let e := link_entry sha256_hex es v in
  wf_entry e ∧ hash e = Some (hashEntry e) ∧ previousHash e = last es ≫= hash.
Proof. by destruct v. Qed.

(** A validated input is the input. *)
Lemma requiredInteger_of_Z o f k z z' :
  field o f = JNum (of_Z z) → requiredInteger o f k = Ok z' → z' = z.
Proof.
  intros Hf. unfold requiredInteger. rewrite Hf, num_integer_of_Z. destruct (_ && _); congruence.
Qed.
Lemma optionalString_js_opt o f k v v' :
  field o f = js_opt v → optionalString o f k = Ok v' → v' = v.
Proof. intros Hf. unfold optionalString. rewrite Hf. destruct v; simpl; congruence. Qed.
Lemma requiredString_JStr o f k s s' :
  field o f = JStr s → requiredString o f k = Ok s' → s' = s.
Proof. intros Hf [H _]%requiredString_Ok. congruence. Qed.
Lemma requiredTimestamp_JNum o k n n' :
  field o "timestamp" = JNum n → requiredTimestamp o k = Ok n' → n' = n.
Proof.
  intros Hf. unfold requiredTimestamp. rewrite Hf. destruct n; try done.
  destruct (num_lt _ _); congruence.
Qed.

Lemma validated_input input k v : validateEntry (cloneEntry input) k = Ok v → v = input.
Proof.
  destruct (clone_fields_spec input) as
    (Ftree & Fbranch & Fwi & Fix & Fst & Fr & Fph & Ftx & Fts & Fdev & Fprev & Fh).
  unfold validateEntry, cloneEntry. intros H. inv_M. simpl in *. simplify_eq.
  repeat match goal with
  | H : requiredString _ _ _ = Ok _ |- _ => eapply requiredString_JStr in H; [|eassumption]
  | H : requiredInteger (clone_fields _) _ _ = Ok _ |- _ => eapply requiredInteger_of_Z in H; [|eassumption]
  | H : requiredInteger _ _ _ = Ok _ |- _ => eapply requiredInteger_of_Z in H; [|reflexivity]
  | H : optionalString _ _ _ = Ok _ |- _ => eapply optionalString_js_opt in H; [|eassumption]
  | H : requiredTimestamp _ _ = Ok _ |- _ => eapply requiredTimestamp_JNum in H; [|eassumption]
  end.
  subst.
  match goal with H : of_option _ (status_of_name _) = Ok _ |- _ =>
    rewrite status_of_status_name in H; simpl in H; injection H as <- end.
  destruct input as [? ? ? [] ? ? ? ? ? ? ? ?]; reflexivity.
Qed.

Lemma latest_of_elem id es x : latest_of id es = Some x → x ∈ es.
Proof.
  intros H. apply find_some in H as [H _]. apply list_elem_of_In in H. by rewrite elem_of_reverse in H.
Qed.

Lemma admit_entry_repeat es v latest :
  admit_entry es v = Ok (Some latest) →
  latest ∈ es ∧ status latest = status v ∧ treeId latest = treeId v ∧ wotsIndex latest = wotsIndex v.
Proof.
  unfold admit_entry. intros H. inv_M. revert H. destruct (reservationId v) as [id|]; [|done].
  destruct (negb _ && _); [|done]. destruct (latest_of id es) as [x|] eqn:Hl; [|done].
  destruct (bool_decide (status x = status v)) eqn:Hs; [apply bool_decide_eq_true in Hs|by destruct (negb _)].
  destruct (same_slot x v) eqn:Hss; cbn [negb orb]; [|done]. destruct (_ && negb _); [done|].
  intros H. injection H as <-. apply latest_of_elem in Hl. unfold same_slot in Hss.
  apply andb_true_iff in Hss as [?%String.eqb_eq ?%Z.eqb_eq]. done.
Qed.

Lemma admit_entry_latest es v latest :
  admit_entry es v = Ok (Some latest) →
  (∀ id, reservationId v = Some id → latest_of id es = Some latest) ∧
  status latest = status v ∧ (status v = Wm.committed → txId latest = txId v).
Proof.
  unfold admit_entry. intros H. inv_M. revert H. destruct (reservationId v) as [id|]; [|done].
  destruct (negb _ && _); [|done]. destruct (latest_of id es) as [x|] eqn:Hl; [|done].
  destruct (bool_decide (status x = status v)) eqn:Hs; [apply bool_decide_eq_true in Hs|by destruct (negb _)].
  destruct (same_slot x v); cbn [negb orb]; [|done]. destruct (_ && negb _) eqn:Htx; [done|].
  intros H. injection H as <-. split_and!; [by intros ? [= <-]|done|].
  intros Hc. rewrite (bool_decide_eq_true_2 _ Hc) in Htx. simpl in Htx.
  by apply negb_false_iff, bool_decide_eq_true in Htx.
Qed.

(** A new reservation is admitted only as a new record of a slot never recorded. *)
Lemma admit_reserved es v o :
  admit_entry es v = Ok o → status v = Wm.reserved →
  o = None ∧ ∀ e, e ∈ es → treeId e = treeId v → wotsIndex e = wotsIndex v → False.
Proof.
  unfold admit_entry. intros H Hs. rewrite (bool_decide_eq_true_2 (status v = _)) in H by done.
  destruct (existsb _ _) eqn:Hex; [done|]. simpl in H. split.
  - destruct (reservationId v); simpl in H; congruence.
  - intros e He Ht Hw.
    assert (existsb (λ z, same_slot z v) es = true) as Hex'; [|congruence].
    apply existsb_exists. exists e. split; [by apply list_elem_of_In|].
    unfold same_slot. by rewrite Ht, Hw, String.eqb_refl, Z.eqb_refl.
Qed.

(** What one call does to the medium, as a function of the log it reads. *)
Definition append_outcome (es : list JournalEntry) (input : JournalEntry) (j j' : LeaseJournal)
    (r : result JError JournalEntry) : Prop :=
  match r with
  | Err _ => storage j' = storage j
  | Ok out =>
      ∃ v, validateEntry (cloneEntry input) "append" = Ok v ∧
        ((∃ latest, admit_entry es v = Ok (Some latest) ∧ storage j' = storage j ∧
            entries j' = es ∧ hash out = hash latest) ∨
         (let e := link_entry sha256_hex es v in
          admit_entry es v = Ok None ∧ storage j ⊆ storage j' ∧
          readPhysicalRecords (storage j') = Ok (es ++ [e]) ∧
          entries j' = es ++ [e] ∧ hash out = hash e))
  end.

(** The call on an initialised instance, branch by branch. *)
Lemma appendOne_run j es input :
  initialized j = true → readPhysicalRecords (storage j) = Ok es →
  appendOne input j =
  let j1 := mkJournal es true (storage j) (faults j) in
  match validateEntry (cloneEntry input) "append" with
  | Err er => (Err er, j1)
  | Ok v =>
      match admit_entry es v with
      | Err er => (Err er, j1)
      | Ok (Some latest) => (Ok (with_links input (previousHash latest) (hash latest)), j1)
      | Ok None =>
          let e := link_entry sha256_hex es v in
          let n := Z.of_nat (length es) in
          if existsb (starts_with (ENTRY_PREFIX +:+ sequenceText n +:+ ":")) (storage_keys (storage j))
          then (Err (SequenceExists n), j1)
          else if write_refused (faults j)
          then (Err JStorageRefused, mkJournal es true (storage j) (tail (faults j)))
          else (Ok (with_links input (previousHash e) (hash e)),
                mkJournal (es ++ [e]) true (<[recordKey n (hashEntry e) := record_value n e]> (storage j))
                  (tail (faults j)))
      end
  end.
Proof.
  destruct j as [mem init st fl]. cbn [initialized storage faults]. intros -> Hr.
  unfold Jr.appendOne, initialize, set_entries, mthrow_if, mmodify.
  unfold mbind, M_bind, mret, M_ret, mget, mlift.
  cbn [initialized storage faults entries]. rewrite Hr. cbv beta iota zeta.
  destruct (validateEntry (cloneEntry input) "append") as [v|er]; [|done].
  destruct (admit_entry es v) as [[latest|]|er]; [done| |done].
  destruct (existsb _ _); [done|].
  assert (hash (link_entry sha256_hex es v) = Some (hashEntry (link_entry sha256_hex es v))) as Hh by done.
  unfold writeRecord. rewrite Hh. unfold set_value. cbn [throw_if faults].
  by destruct (write_refused fl).
Qed.

Lemma appendOne_outcome j es input :
  initialized j = true → readPhysicalRecords (storage j) = Ok es →
  Z.of_nat (length es) <= MAX_SAFE_INTEGER →
  append_outcome es input j (appendOne input j).2 (appendOne input j).1.
Proof.
  intros Hi Hr Hlen. rewrite (appendOne_run j es input Hi Hr). cbv zeta. unfold append_outcome.
  destruct (validateEntry (cloneEntry input) "append") as [v|er] eqn:Hv; [|done].
  destruct (admit_entry es v) as [[latest|]|er] eqn:Ha; [| |done].
  { exists v. split; [done|]. left. by exists latest. }
  destruct (existsb _ _) eqn:Hex; [done|]. destruct (write_refused (faults j)); [done|].
  set (e := link_entry sha256_hex es v). set (n := Z.of_nat (length es)) in *.
  destruct (link_entry_spec es v (validateEntry_wf _ _ _ Hv)) as (Hwf & Hh & Hp). fold e in Hwf, Hh, Hp.
  pose proof (fresh_record_key _ _ (hashEntry e) Hex) as Hfresh.
  exists v. split; [done|]. right. split; [done|]. split; [by apply insert_subseteq|].
  split; [|done]. apply readPhysicalRecords_Ok in Hr as (ds & Hds).
  by apply (reads_extend _ es ds e (hashEntry e)).
Qed.

Lemma appendOne_initialized j es input :
  initialized j = true → readPhysicalRecords (storage j) = Ok es →
  initialized (appendOne input j).2 = true.
Proof.
  intros Hi Hr. rewrite (appendOne_run j es input Hi Hr). cbv zeta.
  destruct (validateEntry _ _) as [v|er]; [|done].
  destruct (admit_entry es v) as [[latest|]|er]; [done| |done].
  destruct (existsb _ _); [done|]. by destruct (write_refused (faults j)).
Qed.

(** *** What the log admits *)

(** Every entry was admitted by the entries before it. *)
Definition admitted_log (es : list JournalEntry) : Prop :=
  ∀ i e, es !! i = Some e → admit_entry (take i es) e = Ok None.

Lemma admitted_log_snoc es e :
  admitted_log es → admit_entry es e = Ok None → admitted_log (es ++ [e]).
Proof.
  intros H He i x Hx. destruct (decide (i < length es)%nat) as [Hi|Hi].
  - rewrite lookup_app_l in Hx by done. rewrite take_app_le by lia. by apply H.
  - rewrite lookup_app_r in Hx by lia. destruct (i - length es)%nat eqn:E; [|done].
    simpl in Hx. simplify_eq. replace i with (length es) by lia. by rewrite take_app_length.
Qed.

Lemma admit_entry_links es e prev h : admit_entry es (with_links e prev h) = admit_entry es e.
Proof. done. Qed.

(** At most one reservation per slot, made before any other use of it. *)
Definition reserved_once (es : list JournalEntry) : Prop :=
  ∀ i j x y, es !! i = Some x → es !! j = Some y → status y = Wm.reserved →
    treeId x = treeId y → wotsIndex x = wotsIndex y → (j <= i)%nat.

(** Between two outcomes recorded for a reservation there is a new reservation. *)
Definition closed_once (es : list JournalEntry) : Prop :=
  ∀ i j x y id, es !! i = Some x → es !! j = Some y → (i < j)%nat →
    id ≠ ""%string → reservationId x = Some id → reservationId y = Some id →
    status x ≠ Wm.reserved → status y ≠ Wm.reserved →
    ∃ k z, (i < k < j)%nat ∧ es !! k = Some z ∧ reservationId z = Some id ∧ status z = Wm.reserved.

Lemma same_slot_true a b : same_slot a b = true ↔ treeId a = treeId b ∧ wotsIndex a = wotsIndex b.
Proof. unfold same_slot. rewrite andb_true_iff, String.eqb_eq, Z.eqb_eq. done. Qed.

Lemma admitted_reserved_once es : admitted_log es → reserved_once es.
Proof.
  intros H i j x y Hx Hy Hs Ht Hw. destruct (decide (j <= i)%nat) as [|Hij]; [done|]. exfalso.
  specialize (H j y Hy). unfold admit_entry in H. inv_M.
  rewrite Hs, bool_decide_eq_true_2 in * by done. simpl in *.
  match goal with H : existsb _ _ = false |- _ => rename H into Hex end.
  assert (existsb (λ z, same_slot z y) (take j es) = true) as H'; [|congruence].
  apply existsb_exists. exists x. split; [|by apply same_slot_true].
  apply list_elem_of_In, list_elem_of_lookup. exists i. rewrite lookup_take by lia.
  by rewrite decide_True by lia.
Qed.

Lemma latest_of_spec id es :
  match latest_of id es with
  | Some x => ∃ k, es !! k = Some x ∧ reservationId x = Some id ∧
                   ∀ i y, es !! i = Some y → reservationId y = Some id → (i <= k)%nat
  | None => ∀ i y, es !! i = Some y → reservationId y ≠ Some id
  end.
Proof.
  unfold latest_of. induction es as [|e es IH] using rev_ind; simpl; [done|].
  rewrite reverse_snoc. simpl. case_bool_decide as Hid.
  - exists (length es). split; [by rewrite lookup_app_r, Nat.sub_diag by lia|]. split; [done|].
    intros i y Hy _. apply lookup_lt_Some in Hy. rewrite length_app in Hy. simpl in Hy. lia.
  - assert (∀ i y, (es ++ [e]) !! i = Some y → reservationId y = Some id → es !! i = Some y) as Hback.
    { intros i y Hy Hr. apply lookup_snoc_Some in Hy as [[? ?]|[? ?]]; naive_solver. }
    destruct (List.find _ _) as [x|].
    + destruct IH as (k & Hk & Hr & Hmax). exists k. split; [by apply lookup_app_l_Some|].
      split; [done|]. intros i y Hy Hry. by eapply Hmax; [apply Hback|].
    + intros i y Hy Hr. by eapply IH; [apply Hback|].
Qed.

Lemma admitted_closed_once es : admitted_log es → closed_once es.
Proof.
  intros H i j x y id Hx Hy Hij Hid Hrx Hry Hsx Hsy. specialize (H j y Hy).
  unfold admit_entry in H. inv_M. rewrite Hry in *.
  rewrite (bool_decide_eq_false_2 (status y = Wm.reserved)) in * by done. simpl in *.
  destruct (String.eqb_spec id ""); [done|]. simpl in *.
  pose proof (latest_of_spec id (take j es)) as Hl.
  assert (take j es !! i = Some x) as Hx' by (rewrite lookup_take, decide_True; done || lia).
  destruct (latest_of id (take j es)) as [z|]; [|by apply Hl in Hx'].
  destruct Hl as (k & Hk & Hrz & Hmax).
  assert (k < j)%nat as Hkj.
  { apply lookup_lt_Some in Hk. rewrite length_take in Hk. lia. }
  rewrite lookup_take, decide_True in Hk by lia.
  assert (status z = Wm.reserved) as Hsz.
  { case_bool_decide; [split_guards|]. destruct (bool_decide (status z = Wm.reserved)) eqn:E; [|done].
    by apply bool_decide_eq_true in E. }
  assert (i <= k)%nat by (by eapply Hmax).
  assert (i ≠ k) by (intros ->; congruence).
  exists k, z. split_and!; [lia..|done|done|done].
Qed.

(** A call made by some instance over the adapter; [mem] is what it remembers. *)
Definition shared_append (call : list JournalEntry * JournalEntry) (m : Storage * list bool)
    : Storage * list bool :=
  let j := (appendOne call.2 (mkJournal call.1 true m.1 m.2)).2 in (storage j, faults j).

Definition run_appends (calls : list (list JournalEntry * JournalEntry)) (m : Storage * list bool)
    : Storage * list bool := fold_left (λ m c, shared_append c m) calls m.

Lemma shared_append_log c m es :
  readPhysicalRecords m.1 = Ok es → Z.of_nat (length es) <= MAX_SAFE_INTEGER →
  admitted_log es →
  ∃ es', readPhysicalRecords (shared_append c m).1 = Ok (es ++ es') ∧ admitted_log (es ++ es') ∧
         m.1 ⊆ (shared_append c m).1 ∧ (length es' <= 1)%nat.
Proof.
  intros Hr Hlen Ha. unfold shared_append.
  pose proof (appendOne_outcome (mkJournal c.1 true m.1 m.2) es c.2 eq_refl Hr Hlen) as Ho.
  destruct (appendOne c.2 _) as [[out|er] j']; simpl in *.
  - destruct Ho as (v & Hv & [(latest & _ & -> & _)|(Hadm & Hsub & Hread & _)]).
    + exists []. rewrite app_nil_r. split_and!; [done..|simpl; lia].
    + exists [link_entry sha256_hex es v]. split_and!; [done| |done|simpl; lia].
      apply admitted_log_snoc; [done|]. unfold link_entry. by rewrite admit_entry_links.
  - rewrite Ho. exists []. rewrite app_nil_r. split_and!; [done..|simpl; lia].
Qed.

Lemma run_appends_log calls : ∀ m es,
  readPhysicalRecords m.1 = Ok es →
  Z.of_nat (length es) + Z.of_nat (length calls) <= MAX_SAFE_INTEGER →
  admitted_log es →
  ∃ es', readPhysicalRecords (run_appends calls m).1 = Ok (es ++ es') ∧ admitted_log (es ++ es') ∧
         m.1 ⊆ (run_appends calls m).1.
Proof.
  induction calls as [|c calls IH]; intros m es Hr Hlen Ha; simpl.
  - exists []. by rewrite app_nil_r.
  - simpl in Hlen.
    destruct (shared_append_log c m es Hr ltac:(lia) Ha) as (es1 & Hr1 & Ha1 & Hs1 & Hl1).
    destruct (IH _ _ Hr1) as (es2 & Hr2 & Ha2 & Hs2); [rewrite length_app; lia|done|].
    exists (es1 ++ es2). rewrite (assoc_L (++)). split_and!; [done..|]. by etransitivity.
Qed.

End log.

(** A 64-digit checksum, standing for SHA-256 in the witnesses. *)
Fixpoint checksum (acc : Z) (s : string) : Z :=
  match s with EmptyString => acc | String c s => checksum ((acc * 257 + code c) mod 10 ^ 64) s end.
Definition toy_hash (b : string) : string := pad_start 64 "0" (dec (checksum 7 b)).

Lemma digit_is_hex s : str_forallb is_digit s = true → str_forallb is_lower_hex s = true.
Proof.
  induction s as [|c s IH]; simpl; [done|]. intros [Hc Hs]%andb_true_iff.
  unfold is_lower_hex. rewrite Hc. by apply IH.
Qed.

Lemma toy_hash_format b : is_hash (toy_hash b) = true.
Proof.
  assert (∀ s acc, 0 <= acc < 10 ^ 64 → 0 <= checksum acc s < 10 ^ Z.of_nat 64) as H.
  { induction s as [|c s IH]; intros acc Ha; [done|]. apply IH, Z.mod_pos_bound. done. }
  destruct (padded_spec (checksum 7 b) 64 (H b 7 ltac:(done)) ltac:(lia)) as (Hl & Hd & _).
  unfold is_hash, toy_hash. rewrite Hl. simpl. by apply digit_is_hex.
Qed.

Definition sample_entry (st : Wm.UnavailableReason) (tx : option string) : JournalEntry :=
  mkEntry "tree" "main" 4098 (Wm.mkIndices 1 0 2) st (Some "r1"%string) None tx
    (of_Z 1700000000000) "device" None None.
Definition sample_log : Storage :=
  (run_appends toy_hash [([], sample_entry Wm.reserved None)] (∅, [])).1.
Definition sample_first : JournalEntry := link_entry toy_hash [] (sample_entry Wm.reserved None).

Lemma sample_log_reads : readPhysicalRecords toy_hash sample_log = Ok [sample_first].
Proof. vm_compute. reflexivity. Qed.

(** ** Properties *)

(** Whatever value a record holds, validation lets through only a well-formed
    entry (indices in range and agreeing with the leaf number, non-empty names, a
    finite time), and an entry let through reads back unchanged from the object
    the journal writes for it. *)
Theorem entry_validation v k e :
  validateEntry v k = Ok e →
  wf_entry e ∧ ∀ k', validateEntry (cloneEntry e) k' = Ok e.
Proof. intros H%validateEntry_wf. split; [done|]. intros k'. by apply validateEntry_cloneEntry. Qed.

Lemma entry_validation_witness :
  validateEntry (cloneEntry sample_first) "x" = Ok sample_first ∧ wf_entry sample_first.
Proof.
  split; [vm_compute; reflexivity|].
  apply (entry_validation (cloneEntry sample_first) "x"). vm_compute. reflexivity.
Defined.

(** An append on a medium whose log is [es] leaves every record in place.  When
    it throws, the medium is unchanged.  When it returns, either the log is [es]
    and one entry that links to the last of [es] and commits to itself, or the
    call repeats an outcome already recorded, whose hash it reports. *)
Theorem append_extends_the_log sha256_hex j es input :
  (∀ b, is_hash (sha256_hex b) = true) →
  initialized j = true → readPhysicalRecords sha256_hex (storage j) = Ok es →
  Z.of_nat (length es) <= MAX_SAFE_INTEGER →
  let '(r, j') := appendOne sha256_hex input j in
  storage j ⊆ storage j' ∧
  match r with
  | Err _ => storage j' = storage j
  | Ok out =>
      (∃ e, readPhysicalRecords sha256_hex (storage j') = Ok (es ++ [e]) ∧
            previousHash e = (last es ≫= hash) ∧ hash e = Some (hashEntry sha256_hex e) ∧
            hash out = hash e ∧ treeId e = treeId input ∧ wotsIndex e = wotsIndex input) ∨
      (storage j' = storage j ∧ ∃ e, e ∈ es ∧ hash out = hash e ∧ status e = status input ∧
            treeId e = treeId input ∧ wotsIndex e = wotsIndex input)
  end.
Proof.
  intros Hf Hi Hr Hlen. pose proof (appendOne_outcome sha256_hex Hf j es input Hi Hr Hlen) as H.
  destruct (appendOne sha256_hex input j) as [[out|er] j']; simpl in H; [|by rewrite H].
  destruct H as (v & Hv & H). apply validated_input in Hv as ->.
  destruct H as [(latest & Hadm & Hs & _ & Ho)|(Hadm & Hsub & Hread & _ & Ho)].
  - split; [by rewrite Hs|]. right. split; [done|]. exists latest.
    apply admit_entry_repeat in Hadm as (Hin & Hsl & Hlt & Hlw). split_and!; congruence || done.
  - split; [done|]. left. exists (link_entry sha256_hex es input). split_and!; done.
Qed.

Definition sample_commit : JournalEntry := sample_entry Wm.committed (Some "tx"%string).
Definition sample_journal : LeaseJournal := mkJournal [] true sample_log [].

Lemma append_extends_the_log_witness :
  is_ok (appendOne toy_hash sample_commit sample_journal).1 = true ∧
  let '(r, j') := appendOne toy_hash sample_commit sample_journal in
  storage sample_journal ⊆ storage j' ∧
  match r with
  | Err _ => storage j' = storage sample_journal
  | Ok out =>
      (∃ e, readPhysicalRecords toy_hash (storage j') = Ok ([sample_first] ++ [e]) ∧
            previousHash e = (last [sample_first] ≫= hash) ∧ hash e = Some (hashEntry toy_hash e) ∧
            hash out = hash e ∧ treeId e = treeId sample_commit ∧ wotsIndex e = wotsIndex sample_commit) ∨
      (storage j' = storage sample_journal ∧ ∃ e, e ∈ [sample_first] ∧ hash out = hash e ∧
            status e = status sample_commit ∧ treeId e = treeId sample_commit ∧
            wotsIndex e = wotsIndex sample_commit)
  end.
Proof.
  split; [vm_compute; reflexivity|].
  apply (append_extends_the_log toy_hash sample_journal [sample_first] sample_commit toy_hash_format
    eq_refl sample_log_reads). vm_compute. discriminate.
Defined.

(** C36. Whatever instances share the adapter and whatever they remember, in any
    sequence of appends over a log that was built by appends: the log only grows,
    no slot is reserved after any other record of it, and two outcomes of one
    reservation are separated by a new reservation. *)
Theorem shared_log_reserves_once sha256_hex calls m es :
  (∀ b, is_hash (sha256_hex b) = true) →
  readPhysicalRecords sha256_hex m.1 = Ok es → admitted_log es →
  Z.of_nat (length es) + Z.of_nat (length calls) <= MAX_SAFE_INTEGER →
  ∃ es', readPhysicalRecords sha256_hex (run_appends sha256_hex calls m).1 = Ok (es ++ es') ∧
         reserved_once (es ++ es') ∧ closed_once (es ++ es').
Proof.
  intros Hf Hr Ha Hlen. destruct (run_appends_log sha256_hex Hf calls m es Hr Hlen Ha) as (es' & Hr' & Ha' & _).
  exists es'. split; [done|]. split; [by apply admitted_reserved_once|by apply admitted_closed_once].
Qed.

Lemma shared_log_reserves_once_witness :
  ∃ es', readPhysicalRecords toy_hash
           (run_appends toy_hash [([], sample_entry Wm.reserved None); ([], sample_entry Wm.reserved None);
                                  ([], sample_entry Wm.burned None)] (∅, [])).1 = Ok ([] ++ es') ∧
         reserved_once ([] ++ es') ∧ closed_once ([] ++ es').
Proof.
  apply (shared_log_reserves_once toy_hash _ (∅, []) []).
  - apply toy_hash_format.
  - vm_compute. reflexivity.
  - intros i e He. done.
  - vm_compute. discriminate.
Defined.

(** Two verified logs that end in the same hash record the same events in the
    same order, member by member (tree, branch, leaf, status, reservation, time,
    device, links), or two of their entries show a collision of the hash function. *)
Theorem equal_hashes_mean_equal_logs sha256_hex l l' src src' :
  (∀ b, is_hash (sha256_hex b) = true) →
  verifyChain sha256_hex l src = Ok tt → verifyChain sha256_hex l' src' = Ok tt →
  Forall plain_numbers l → Forall plain_numbers l' →
  (last l ≫= hash) = (last l' ≫= hash) →
  committed_members <$> l = committed_members <$> l' ∨ collision_in sha256_hex (entry_input <$> l ++ l').
Proof.
  intros Hf Hl%verifyChain_Ok Hl'%verifyChain_Ok; [|done..]. by apply chains_agree.
Qed.

Lemma equal_hashes_mean_equal_logs_witness :
  committed_members <$> [sample_first] = committed_members <$> [sample_first] ∨ collision_in toy_hash (entry_input <$> [sample_first] ++ [sample_first]).
Proof.
  apply (equal_hashes_mean_equal_logs toy_hash [sample_first] [sample_first] "a" "b" toy_hash_format);
    [vm_compute; reflexivity|vm_compute; reflexivity| | |reflexivity].
  all: constructor; [split; [done|exists 1700000000000; done]|constructor].
Defined.

End JrSpec.
