(* ===== verification/Lease.v ===== *)
(** * Lease store (packages/core/src/lease/LeaseStore.ts)

    The in-memory map of leases backed by one durable array.  Every mutator
    changes the map, writes the whole array, and undoes the change in memory when
    the write is refused.  Module [Ls] keeps the insertion order of the
    JavaScript Map, which iteration and the stored array depend on. *)

From Stdlib Require Import ZArith Lia QArith Qminmax.
From stdpp Require Import base list strings.
From S2P Require Import Prelude JsBase Watermark.

Module Ls.

Inductive LeaseStatus := pending | active | expired | finalized | cancelled.
#[global] Instance LeaseStatus_eq_dec : EqDecision LeaseStatus.
Proof. solve_decision. Defined.

Record StoredLease := mkLease {
  leaseId : string;
  leaseToken : string;
  treeId : option string;
  indices : Wm.SigningIndices;
  expiresAt : Z;
  status : LeaseStatus;
  createdAt : Z;
  txId : option string;
  leaseTTL : Z }.

Inductive LsError := LsStorageRefused.

Notation LeaseMap := (list (string * StoredLease)).
Notation map_get := Js.map_get.
Notation map_set := Js.map_set.
Notation map_delete := Js.map_delete.

Definition map_of_list (l : list StoredLease) : LeaseMap :=
  fold_left (λ m x, map_set (leaseId x) x m) l [].

Definition with_status (st : LeaseStatus) (l : StoredLease) : StoredLease :=
  mkLease (leaseId l) (leaseToken l) (treeId l) (indices l) (expiresAt l) st (createdAt l)
    (txId l) (leaseTTL l).

(** ** The store *)

Record LeaseStore := mkStore {
  leases : LeaseMap;
  initialized : bool;
  disk : option (list StoredLease);
  faults : list bool }.

Notation Store := (M LeaseStore LsError).

Definition set_leases (m : LeaseMap) (st : LeaseStore) : LeaseStore :=
  mkStore m (initialized st) (disk st) (faults st).

Definition load : Store unit :=
  mmodify (λ st, match disk st with Some arr => set_leases (map_of_list arr) st | None => st end).

Definition persist : Store unit := λ st,
  if write_refused (faults st)
  then (Err LsStorageRefused, mkStore (leases st) (initialized st) (disk st) (tail (faults st)))
  else (Ok tt, mkStore (leases st) (initialized st) (Some (leases st).*2) (tail (faults st))).

Definition saveUnlocked (lease : StoredLease) : Store unit :=
  st ← mget;
  let previous := map_get (leaseId lease) (leases st) in
  _ ← mmodify (λ st, set_leases (map_set (leaseId lease) lease (leases st)) st);
  mrollback persist (λ st,
    match previous with
    | Some p => set_leases (map_set (leaseId lease) p (leases st)) st
    | None => set_leases (map_delete (leaseId lease) (leases st)) st
    end).
Definition save := saveUnlocked.

Definition deleteUnlocked (id : string) : Store bool :=
  st ← mget;
  match map_get id (leases st) with
  | None => mret false
  | Some lease =>
      _ ← mmodify (λ st, set_leases (map_delete id (leases st)) st);
      _ ← mrollback persist (λ st, set_leases (map_set id lease (leases st)) st);
      mret true
  end.
Definition delete := deleteUnlocked.

Definition get (id : string) (st : LeaseStore) : option StoredLease := map_get id (leases st).
Definition getAll (st : LeaseStore) : list StoredLease := (leases st).*2.
Definition getByToken (token : string) (st : LeaseStore) : option StoredLease :=
  List.find (λ l, String.eqb (leaseToken l) token) (getAll st).
Definition getActive (now : Z) (st : LeaseStore) : list StoredLease :=
  List.filter (λ l, bool_decide (status l = active) && (expiresAt l >? now)) (getAll st).
Definition getExpiringSoon (now thresholdMs : Z) (st : LeaseStore) : list StoredLease :=
  List.filter (λ l, bool_decide (status l = active) && (expiresAt l >? now)
                    && (expiresAt l <=? now + thresholdMs)) (getAll st).

Definition deleteByToken (token : string) : Store bool :=
  st ← mget;
  match getByToken token st with Some lease => delete (leaseId lease) | None => mret false end.

Definition updateStatusUnlocked (id : string) (s : LeaseStatus) : Store unit :=
  st ← mget;
  match map_get id (leases st) with
  | None => mret tt
  | Some lease =>
      _ ← mmodify (λ st, set_leases (map_set id (with_status s lease) (leases st)) st);
      mrollback persist (λ st, set_leases (map_set id lease (leases st)) st)
  end.
Definition updateStatus := updateStatusUnlocked.

Definition due (now : Z) (l : StoredLease) : bool :=
  (expiresAt l <=? now) && (bool_decide (status l = active) || bool_decide (status l = pending)).

(** The roll-back restores the recorded statuses, which are those before. *)
Definition cleanupExpiredUnlocked (now : Z) : Store nat :=
  st ← mget;
  let before := leases st in
  let n := length (List.filter (λ kv, due now kv.2) before) in
  _ ← mmodify (λ st, set_leases (map (λ kv, (kv.1, if due now kv.2 then with_status expired kv.2 else kv.2))
                                    (leases st)) st);
  _ ← (if Nat.ltb 0 n then mrollback persist (set_leases before) else mret tt : Store unit);
  mret n.
Definition cleanupExpired := cleanupExpiredUnlocked.

Definition initialize (now : Z) : Store unit :=
  st ← mget;
  if initialized st then mret tt else
  _ ← load;
  _ ← cleanupExpired now;
  mmodify (λ st, mkStore (leases st) true (disk st) (faults st)).

Definition clear : Store unit :=
  st ← mget;
  let previous := leases st in
  _ ← mmodify (set_leases []);
  mrollback (λ st,
    if write_refused (faults st)
    then (Err LsStorageRefused, mkStore (leases st) (initialized st) (disk st) (tail (faults st)))
    else (Ok tt, mkStore (leases st) (initialized st) None (tail (faults st))))
    (set_leases previous).

Definition getMinimumTTL (now : Z) (st : LeaseStore) : option Z :=
  match getActive now st with
  | [] => None
  | l :: ls => Some (fold_left (λ m l, Z.min m (leaseTTL l)) ls (leaseTTL l))
  end.

Definition calculateMonitoringInterval (now : Z) (st : LeaseStore) : Q :=
  match getMinimumTTL now st with
  | None => 5000
  | Some ttl => Qmax (Qmin (ttl # 4) 5000) 1000
  end.

Definition flattenIndex (i : Wm.SigningIndices) : Z :=
  Wm.addressIndex i * 64 * 64 + Wm.l1 i * 64 + Wm.l2 i.

End Ls.
