(* ===== verification/LeaseSpec.v ===== *)
(** * What the lease store promises

    A mutator that throws leaves every lease and the medium as they were; one
    that returns leaves the medium holding exactly the leases of memory; and a
    restart finds them again, with the overdue ones expired. *)

From Stdlib Require Import ZArith Lia.
From stdpp Require Import base sets list strings.
From S2P Require Import Prelude JsBase JsMap Watermark Lease.

Module LsSpec.
Import JsMap Ls.

(** ** Keys of the map are the lease ids *)

Definition keyed (m : list (string * StoredLease)) : Prop :=
  NoDup m.*1 ∧ Forall (λ kv, kv.1 = leaseId kv.2) m.

Lemma keyed_set l m : keyed m → keyed (map_set (leaseId l) l m).
Proof.
  intros [Hnd Hall]. split; [by apply map_set_NoDup|]. clear Hnd.
  induction m as [|[k0 v0] m IH]; simpl; [by repeat constructor|].
  apply Forall_cons in Hall as [H0 Hall].
  destruct (String.eqb_spec k0 (leaseId l)) as [->|]; constructor; auto.
Qed.
Lemma keyed_delete k m : keyed m → keyed (map_delete k m).
Proof.
  intros [Hnd Hall]. split; [by apply map_delete_NoDup|]. clear Hnd.
  induction m as [|[k0 v0] m IH]; simpl; [done|]. apply Forall_cons in Hall as [H0 Hall].
  destruct (String.eqb_spec k0 k); [done|]. constructor; auto.
Qed.
Lemma keyed_get id m l : keyed m → map_get id m = Some l → leaseId l = id.
Proof.
  intros [_ Hall]. induction m as [|[k0 v0] m IH]; simpl; [done|].
  apply Forall_cons in Hall as [H0 Hall]. simpl in H0.
  destruct (String.eqb_spec k0 id) as [->|]; [by intros [= <-]|by apply IH].
Qed.
Lemma keyed_map (f : StoredLease → StoredLease) m :
  (∀ l, leaseId (f l) = leaseId l) → keyed m → keyed (map (λ kv, (kv.1, f kv.2)) m).
Proof.
  intros Hf [Hnd Hall]. split.
  - rewrite <- list_fmap_compose. by rewrite (list_fmap_ext _ fst).
  - clear Hnd. induction m as [|[k0 v0] m IH]; simpl; [done|].
    apply Forall_cons in Hall as [H0 Hall]. constructor; [by simpl in *; rewrite Hf|by apply IH].
Qed.

(** Reading back a written array gives the same map. *)
Lemma map_of_list_app m : ∀ acc,
  NoDup (acc.*1 ++ m.*1) → Forall (λ kv, kv.1 = leaseId kv.2) m →
  fold_left (λ m x, map_set (leaseId x) x m) m.*2 acc = acc ++ m.
Proof.
  induction m as [|[k l] m IH]; intros acc Hnd Hall; simpl; [by rewrite app_nil_r|].
  apply Forall_cons in Hall as [Hk Hall]. simpl in Hk. subst k.
  assert (map_set (leaseId l) l acc = acc ++ [(leaseId l, l)]) as ->.
  { apply NoDup_app in Hnd as (_ & Hdis & _).
    assert (leaseId l ∉ acc.*1) as Hni by (intros H; apply (Hdis _ H); set_solver).
    clear -Hni. induction acc as [|[k0 v0] acc IH]; simpl; [done|].
    destruct (String.eqb_spec k0 (leaseId l)) as [->|]; [set_solver|]. rewrite IH; [done|set_solver]. }
  rewrite IH; [by rewrite <- (assoc_L (++))| |done].
  rewrite fmap_app. simpl. by rewrite <- (assoc_L (++)).
Qed.
Lemma map_of_list_values m : keyed m → map_of_list m.*2 = m.
Proof. intros [Hnd Hall]. by apply (map_of_list_app m []). Qed.

(** ** Mutators *)

Inductive op :=
| OpSave (l : StoredLease)
| OpDelete (id : string)
| OpUpdateStatus (id : string) (s : LeaseStatus)
| OpCleanupExpired (now : Z).

Definition run_op (o : op) : Store unit :=
  match o with
  | OpSave l => save l
  | OpDelete id => _ ← delete id; mret tt
  | OpUpdateStatus id s => updateStatus id s
  | OpCleanupExpired now => _ ← cleanupExpired now; mret tt
  end.

(** What a mutator may leave: on a throw, every lease and the medium as they
    were; on a return, the medium in step with memory. *)
Definition atomic_step (st : LeaseStore) (r : result LsError unit) (st' : LeaseStore) : Prop :=
  keyed (leases st') ∧
  match r with
  | Err _ => (∀ id, get id st' = get id st) ∧ disk st' = disk st
  | Ok _ => disk st' = Some (getAll st') ∨ (leases st' = leases st ∧ disk st' = disk st)
  end.

#[local] Arguments atomic_step : simpl never.

(** Change the map, write, and undo with [h] when the write is refused. *)
Lemma write_through st m (h : LeaseStore → LeaseStore) :
  keyed m →
  (∀ d f, keyed (leases (h (mkStore m (initialized st) d f))) ∧
          (∀ id, get id (h (mkStore m (initialized st) d f)) = get id st) ∧
          disk (h (mkStore m (initialized st) d f)) = d) →
  let r := mrollback persist h (set_leases m st) in atomic_step st r.1 r.2.
Proof.
  intros Hk Hh. unfold mrollback, persist, atomic_step. simpl.
  destruct (write_refused (faults st)); simpl; [|by split; [|left]].
  destruct (Hh (disk st) (tail (faults st))) as (? & ? & ?). done.
Qed.

Lemma atomic_then {A} st (m : Store A) :
  (let r := m st in
   atomic_step st (match r.1 with Ok _ => Ok tt | Err e => Err e end) r.2) →
  let r := (_ ← m; mret tt : Store unit) st in atomic_step st r.1 r.2.
Proof. unfold mbind, M_bind. by destruct (m st) as [[a|e] st']. Qed.

Lemma run_op_atomic o st :
  keyed (leases st) → let r := run_op o st in atomic_step st r.1 r.2.
Proof.
  intros Hk. destruct o as [l|id|id s|now]; simpl.
  - unfold save, saveUnlocked, mbind, M_bind, mget, mmodify.
    apply write_through; [by apply keyed_set|]. intros d f.
    destruct (map_get (leaseId l) (leases st)) as [p|] eqn:Hp; simpl; split_and!; try done.
    + rewrite <- (keyed_get _ _ _ Hk Hp) at 1. apply keyed_set. by apply keyed_set.
    + intros id. unfold get; simpl. by apply map_set_back.
    + by apply keyed_delete, keyed_set.
    + intros id. unfold get; simpl. destruct (decide (leaseId l = id)) as [<-|Hne].
      * rewrite map_get_delete_eq, Hp; [done|]. apply map_set_NoDup, Hk.
      * by rewrite map_get_delete_ne, map_get_set_ne.
  - apply atomic_then. unfold delete, deleteUnlocked, mbind, M_bind, mget, mmodify. cbv beta iota zeta.
    destruct (map_get id (leases st)) as [l|] eqn:Hl; simpl; [|by split; [|right]].
    set (h := λ st, set_leases (map_set id l (leases st)) st).
    assert (let r := mrollback persist h (set_leases (map_delete id (leases st)) st) in
            atomic_step st r.1 r.2) as H.
    { apply write_through; [by apply keyed_delete|]. intros d f. simpl.
      split_and!; [|intros id'; unfold get; simpl|done].
      - pose proof (keyed_get _ _ _ Hk Hl) as Hid. rewrite <- Hid. by apply keyed_set, keyed_delete.
      - destruct (decide (id = id')) as [<-|Hne]; [by rewrite map_get_set_eq|].
        by rewrite map_get_set_ne, map_get_delete_ne. }
    simpl in *. by destruct (mrollback _ _ _) as [[u|e] st'].
  - unfold updateStatus, updateStatusUnlocked, mbind, M_bind, mget, mmodify. cbv beta iota zeta.
    destruct (map_get id (leases st)) as [l|] eqn:Hl; simpl; [|by split; [|right]].
    pose proof (keyed_get _ _ _ Hk Hl) as Hid.
    apply write_through.
    + rewrite <- Hid. change (leaseId l) with (leaseId (with_status s l)). by apply keyed_set.
    + intros d f. simpl. split_and!; [|intros id'; by apply map_set_back|done].
      rewrite <- Hid. apply keyed_set. change (leaseId l) with (leaseId (with_status s l)). by apply keyed_set.
  - apply atomic_then. unfold cleanupExpired, cleanupExpiredUnlocked, mbind, M_bind, mget, mmodify. cbv beta iota zeta.
    set (m := map _ (leases st)).
    assert (keyed m) as Hm.
    { apply (keyed_map (λ l, if due now l then with_status expired l else l)); [|done].
      intros l. by destruct (due now l). }
    destruct (Nat.ltb_spec 0 (length (List.filter (λ kv, due now kv.2) (leases st)))) as [Hpos|Hnone].
    + assert (let r := mrollback persist (set_leases (leases st)) (set_leases m st) in
              atomic_step st r.1 r.2) as H by (apply write_through; [done|]; intros d f; by split_and!).
      fold m. simpl in *. by destruct (mrollback _ _ _) as [[u|e] st'].
    + fold m. simpl. split; [done|]. right. split; [|done].
      assert (List.filter (λ kv, due now kv.2) (leases st) = []) as Hnil
        by (destruct (List.filter _ _); simpl in *; [done|lia]).
      subst m. clear -Hnil. induction (leases st) as [|[k l] ls IH]; simpl in *; [done|].
      destruct (due now l) eqn:Hd; [done|]. by rewrite IH.
Qed.

Lemma initialize_after_crash now ls fl :
  keyed ls →
  let crashed := mkStore [] false (Some ls.*2) fl in
  match initialize now crashed with
  | (Ok _, st') => getAll st' = map (λ l, if due now l then with_status expired l else l) ls.*2
  | (Err _, st') => disk st' = Some ls.*2
  end.
Proof.
  intros Hk. unfold initialize, load, mbind, M_bind, mget, mmodify. simpl.
  rewrite map_of_list_values by done.
  unfold cleanupExpired, cleanupExpiredUnlocked, mbind, M_bind, mget, mmodify, mrollback, persist. simpl.
  destruct (Nat.ltb _ _); simpl; [destruct (write_refused fl); simpl; [done|]|];
    unfold getAll; simpl; rewrite <- !list_fmap_compose; by apply list_fmap_ext.
Qed.

Definition sample_lease (id : string) (s : LeaseStatus) (at_ : Z) : StoredLease :=
  mkLease id id (Some "t"%string) (Wm.mkIndices 0 0 1) at_ s 0 None 1000.
Definition sample_store : LeaseStore :=
  mkStore [("a"%string, sample_lease "a" active 10); ("b"%string, sample_lease "b" active 90)] true None [true].

Lemma sample_store_keyed : keyed (leases sample_store).
Proof.
  split; [|by repeat constructor]. simpl. repeat constructor; set_solver.
Qed.

(** ** Properties *)

(** Saving, deleting, changing the status and expiring leases are atomic with
    respect to a refused write: when the call throws, every lease reads as before
    and the medium is untouched; when it returns, the medium holds exactly the
    leases of memory (or nothing had to change). *)
Theorem lease_mutators_are_atomic o st :
  keyed (leases st) →
  let '(r, st') := run_op o st in
  keyed (leases st') ∧
  match r with
  | Err _ => (∀ id, get id st' = get id st) ∧ disk st' = disk st
  | Ok _ => disk st' = Some (getAll st') ∨ (leases st' = leases st ∧ disk st' = disk st)
  end.
Proof. intros Hk. pose proof (run_op_atomic o st Hk) as H. by destruct (run_op o st). Qed.

Lemma lease_mutators_are_atomic_witness :
  (run_op (OpCleanupExpired 50) sample_store).1 = Err LsStorageRefused ∧
  let '(r, st') := run_op (OpCleanupExpired 50) sample_store in
  keyed (leases st') ∧
  match r with
  | Err _ => (∀ id, get id st' = get id sample_store) ∧ disk st' = disk sample_store
  | Ok _ => disk st' = Some (getAll st') ∨ (leases st' = leases sample_store ∧ disk st' = disk sample_store)
  end.
Proof.
  split; [vm_compute; reflexivity|].
  apply (lease_mutators_are_atomic (OpCleanupExpired 50) sample_store sample_store_keyed).
Defined.

(** A process that starts on what a mutator wrote finds the same leases in the
    same order, the overdue active and pending ones marked expired; if that cannot
    be written back, the medium still holds what was written. *)
Theorem leases_survive_a_restart now ls fl :
  keyed ls →
  match initialize now (mkStore [] false (Some ls.*2) fl) with
  | (Ok _, st') => getAll st' = map (λ l, if due now l then with_status expired l else l) ls.*2
  | (Err _, st') => disk st' = Some ls.*2
  end.
Proof. apply initialize_after_crash. Qed.

Lemma leases_survive_a_restart_witness :
  match initialize 50 (mkStore [] false (Some (leases sample_store).*2) []) with
  | (Ok _, st') => getAll st' = [sample_lease "a" expired 10; sample_lease "b" active 90]
  | (Err _, st') => False
  end.
Proof.
  pose proof (leases_survive_a_restart 50 (leases sample_store) [] sample_store_keyed) as H.
  apply H.
Defined.

End LsSpec.
