(* ===== verification/Local.v ===== *)
(** * Local lease provider (packages/wots-lease/src/local.ts)

    The single-device ledger: allocation from the watermark store, a write-ahead
    record in the journal, the lease map, and the recovery that brings the three
    together at start-up.  [withMutationLock] serialises the mutating calls of one
    provider, so each is one step of that provider; what other providers over the
    medium do meanwhile is the subject of [LocalSpec].  [Date.now()]
    is read once per call and [randomId()] is an argument. *)

From Stdlib Require Import ZArith Lia QArith Ascii String.
From stdpp Require Import base gmap list strings.
From S2P Require Import Prelude JsBase Watermark Journal Lease.

Module Lp.

(** A slot claim written through the adapter's compare-and-set. *)
Record SlotClaim := mkClaim { cl_reservationId : string; cl_deviceId : option string; cl_claimedAt : Z }.

(** The claims of a medium with compare-and-set, and its fault schedule. *)
Record CasStore := mkCas { claims : gmap string SlotClaim; cas_faults : list bool }.

Record LocalLeaseProvider := mkProvider {
  watermark : Wm.WotsWatermarkStore;
  leaseStore : Ls.LeaseStore;
  journal : Jr.LeaseJournal;
  initialized : bool;
  deviceId : string;
  cas : option CasStore }.

Inductive LpError :=
| WmError (e : Wm.Error)
| JrError (e : Jr.JError)
| LsError (e : Ls.LsError)
| CasRefused
| LeaseNotFoundError (id : string)
| InvalidLeaseTransitionError (id : string) (from_journal : option Wm.UnavailableReason)
    (from_lease : Ls.LeaseStatus) (to : Wm.UnavailableReason)
| DeviceRangeViolationError (addressIndex start last : Z)
| IndicesUnavailableError (tree : string) (i : Wm.SigningIndices).

Notation Provider := (M LocalLeaseProvider LpError).

Definition set_watermark (w : Wm.WotsWatermarkStore) (p : LocalLeaseProvider) : LocalLeaseProvider :=
  mkProvider w (leaseStore p) (journal p) (initialized p) (deviceId p) (cas p).
Definition set_leaseStore (l : Ls.LeaseStore) (p : LocalLeaseProvider) : LocalLeaseProvider :=
  mkProvider (watermark p) l (journal p) (initialized p) (deviceId p) (cas p).
Definition set_journal (j : Jr.LeaseJournal) (p : LocalLeaseProvider) : LocalLeaseProvider :=
  mkProvider (watermark p) (leaseStore p) j (initialized p) (deviceId p) (cas p).

Definition wm {A} (m : Wm.Store A) : Provider A := zoom watermark set_watermark WmError m.
Definition ls {A} (m : Ls.Store A) : Provider A := zoom leaseStore set_leaseStore LsError m.
Definition jr {A} (m : Jr.Journal A) : Provider A := zoom journal set_journal JrError m.

Definition wm_lift {A} (r : result Wm.Error A) : Provider A :=
  mlift (match r with Ok a => Ok a | Err e => Err (WmError e) end).

(** [for (const a of l) ...] over a snapshot of a collection. *)
Definition each {A} (l : list A) (f : A → Provider unit) : Provider unit := mfor f l.

Definition default_tree (t : option string) : string := default "default"%string t.

Section provider.
Variable sha256_hex : string → string.

(** [await this.journal.append({...})] with the members every caller writes. *)
Definition append_use (tree branch : string) (i : Wm.SigningIndices) (st : Wm.UnavailableReason)
    (reservation : string) (payloadHash txId : option string) (timestamp : Z) (device : string)
    : Provider unit :=
  f ← wm_lift (Wm.flatIndex i);
  _ ← jr (Jr.appendOne sha256_hex
            (Jr.mkEntry tree branch f i st (Some reservation) payloadHash txId (Js.of_Z timestamp)
               device None None));
  mret tt.

Definition getByReservation (id : string) : Provider (option Jr.JournalEntry) :=
  jr (Jr.getByReservation id).

(** ** Recovery *)

(** The journal status a lease stands for. *)
Definition lease_reason (s : Ls.LeaseStatus) : Wm.UnavailableReason :=
  match s with
  | Ls.finalized => Wm.committed
  | Ls.cancelled => Wm.burned
  | Ls.expired => Wm.reserved_expired
  | _ => Wm.reserved
  end.

Definition slot_key (e : Jr.JournalEntry) : string :=
  Jr.treeId e +:+ ":" +:+ Js.dec (Jr.wotsIndex e).
Definition latestBySlot (es : list Jr.JournalEntry) : list (string * Jr.JournalEntry) :=
  fold_left (λ m e, Js.map_set (slot_key e) e m) es [].
(** A reservation id that is absent or empty is skipped. *)
Definition latestByReservation (es : list Jr.JournalEntry) : list (string * Jr.JournalEntry) :=
  fold_left (λ m e, match Jr.reservationId e with
                    | Some id => if String.eqb id "" then m else Js.map_set id e m
                    | None => m
                    end) es [].

Definition reconcile_slot (e : Jr.JournalEntry) : Provider unit :=
  wm (Wm.markUnavailable (Jr.treeId e) (Jr.indices e) (Jr.status e)).

(** [{ ...entry, status: 'burned', timestamp: Date.now() }] *)
Definition burned_copy (now : Z) (e : Jr.JournalEntry) : Jr.JournalEntry :=
  Jr.mkEntry (Jr.treeId e) (Jr.branchId e) (Jr.wotsIndex e) (Jr.indices e) Wm.burned
    (Jr.reservationId e) (Jr.payloadHash e) (Jr.txId e) (Js.of_Z now) (Jr.deviceId e)
    (Jr.previousHash e) (Jr.hash e).

(** A reservation whose lease was never saved is burned. *)
Definition reconcile_reservation (now : Z) (leaseIds : list string) (kv : string * Jr.JournalEntry)
    : Provider unit :=
  let '(id, e) := kv in
  if negb (bool_decide (Jr.status e = Wm.reserved)) || bool_decide (id ∈ leaseIds) then mret tt
  else
    _ ← jr (Jr.appendOne sha256_hex (burned_copy now e));
    wm (Wm.markUnavailable (Jr.treeId e) (Jr.indices e) Wm.burned).

Definition reconcile_lease (now : Z) (lease : Ls.StoredLease) : Provider unit :=
  let tree := default_tree (Ls.treeId lease) in
  let i := Ls.indices lease in
  let id := Ls.leaseId lease in
  p ← mget;
  latest ← getByReservation id;
  match latest with
  | None =>
      let st := lease_reason (Ls.status lease) in
      _ ← append_use tree "default" i st id None (Ls.txId lease) (Ls.createdAt lease) (deviceId p);
      wm (Wm.markUnavailable tree i st)
  | Some e =>
      if bool_decide (Jr.status e = Wm.committed) && negb (bool_decide (Ls.status lease = Ls.finalized))
      then ls (Ls.updateStatus id Ls.finalized)
      else if bool_decide (Jr.status e = Wm.burned) && negb (bool_decide (Ls.status lease = Ls.cancelled))
      then ls (Ls.updateStatus id Ls.cancelled)
      else if bool_decide (Jr.status e = Wm.reserved_expired) && negb (bool_decide (Ls.status lease = Ls.expired))
      then ls (Ls.updateStatus id Ls.expired)
      else if bool_decide (Jr.status e = Wm.reserved) && bool_decide (Ls.status lease = Ls.finalized)
      then _ ← append_use tree "default" i Wm.committed id None (Ls.txId lease) now (deviceId p);
           wm (Wm.markUnavailable tree i Wm.committed)
      else if bool_decide (Jr.status e = Wm.reserved) && bool_decide (Ls.status lease = Ls.cancelled)
      then _ ← append_use tree "default" i Wm.burned id None None now (deviceId p);
           wm (Wm.markUnavailable tree i Wm.burned)
      else mret tt
  end.

Definition reconcileDurableSafetyState (now : Z) : Provider unit :=
  es ← jr Jr.getAll;
  _ ← each (latestBySlot es).*2 reconcile_slot;
  p ← mget;
  let leases := Ls.getAll (leaseStore p) in
  _ ← each (latestByReservation es) (reconcile_reservation now (map Ls.leaseId leases));
  each leases (reconcile_lease now).

Definition recover_lease (now : Z) (lease : Ls.StoredLease) : Provider unit :=
  if bool_decide (Ls.status lease = Ls.expired)
     || (bool_decide (Ls.status lease = Ls.active) && (Ls.expiresAt lease <? now))
  then
    let tree := default_tree (Ls.treeId lease) in
    p ← mget;
    latest ← getByReservation (Ls.leaseId lease);
    _ ← (if negb (bool_decide (Jr.status <$> latest = Some Wm.reserved_expired))
         then append_use tree "default" (Ls.indices lease) Wm.reserved_expired (Ls.leaseId lease)
                None None now (deviceId p)
         else mret tt : Provider unit);
    _ ← wm (Wm.markUnavailable tree (Ls.indices lease) Wm.reserved_expired);
    if negb (bool_decide (Ls.status lease = Ls.expired))
    then ls (Ls.updateStatus (Ls.leaseId lease) Ls.expired) else mret tt
  else mret tt.

Definition recoverExpiredReservations (now : Z) : Provider unit :=
  p ← mget; each (Ls.getAll (leaseStore p)) (recover_lease now).

(** [!lease.treeId]: absent or empty. *)
Definition no_tree (lease : Ls.StoredLease) : bool := String.eqb (default ""%string (Ls.treeId lease)) "".

Definition burn_lease (now : Z) (lease : Ls.StoredLease) : Provider unit :=
  if bool_decide (Ls.status lease = Ls.active) && (Ls.expiresAt lease >=? now) && no_tree lease
  then
    p ← mget;
    latest ← getByReservation (Ls.leaseId lease);
    _ ← (if negb (bool_decide (Jr.status <$> latest = Some Wm.burned))
         then append_use "default" "default" (Ls.indices lease) Wm.burned (Ls.leaseId lease)
                None None now (deviceId p)
         else mret tt : Provider unit);
    _ ← wm (Wm.markUnavailable "default" (Ls.indices lease) Wm.burned);
    ls (Ls.updateStatus (Ls.leaseId lease) Ls.cancelled)
  else mret tt.

Definition burnUnresolvedReservations (now : Z) : Provider unit :=
  p ← mget; each (Ls.getAll (leaseStore p)) (burn_lease now).

Definition initializeOnce (now : Z) : Provider unit :=
  _ ← jr (Jr.initialize sha256_hex);
  _ ← wm Wm.initialize;
  _ ← ls (Ls.initialize now);
  _ ← reconcileDurableSafetyState now;
  _ ← recoverExpiredReservations now;
  _ ← burnUnresolvedReservations now;
  mmodify (λ p, mkProvider (watermark p) (leaseStore p) (journal p) true (deviceId p) (cas p)).

Definition initialize (now : Z) : Provider unit :=
  p ← mget; if initialized p then mret tt else initializeOnce now.

(** ** Reservations *)

Record ReserveParams := mkParams {
  rp_treeId : string;
  rp_branchId : option string;
  rp_deviceId : option string;
  rp_ttlMs : option Z;
  rp_payloadHash : option string }.

Record LeaseReservation := mkReservation {
  reservationId : string; r_indices : Wm.SigningIndices; r_expiresAt : Z }.

(** [/^device-?(\d+)$/i] and [parseInt]. *)
Definition lower (c : ascii) : ascii :=
  if Js.in_range 65 90 c then ascii_of_N (Z.to_N (Js.code c + 32)) else c.
Fixpoint lower_str (s : string) : string :=
  match s with EmptyString => "" | String c s => String (lower c) (lower_str s) end.
Definition getDeviceRange (device : string) : option (Z * Z) :=
  if String.eqb (lower_str (Js.take_str 6 device)) "device" then
    let rest := Js.drop_str 6 device in
    let digits := match rest with
                  | String c r => if Ascii.eqb c "-" then r else rest
                  | EmptyString => EmptyString
                  end in
    if Js.all_digits digits then
      slot ← Js.radix_digits 10 0 digits; Some (slot * 8, slot * 8 + 7)
    else None
  else None.

Definition claim_key (tree : string) (f : Z) : string :=
  "totem_wots_claim:" +:+ tree +:+ ":" +:+ Js.dec f.

(** The compare-and-set: [true] when the claim was applied. *)
Definition conditional_claim (k : string) (c : SlotClaim) : Provider bool := λ p,
  match cas p with
  | None => (Ok true, p)
  | Some st =>
      let put st := mkProvider (watermark p) (leaseStore p) (journal p) (initialized p) (deviceId p) (Some st) in
      match claims st !! k with
      | Some _ => (Ok false, p)
      | None =>
          if write_refused (cas_faults st)
          then (Err CasRefused, put (mkCas (claims st) (tail (cas_faults st))))
          else (Ok true, put (mkCas (<[k := c]> (claims st)) (tail (cas_faults st))))
      end
  end.

Definition reserveSpecificKeyUseUnlocked (now : Z) (rid : string) (params : ReserveParams)
    (i : Wm.SigningIndices) : Provider LeaseReservation :=
  _ ← initialize now;
  let tree := rp_treeId params in
  let ttlMs := default 120000 (rp_ttlMs params) in
  taken ← wm (Wm.isUnavailable tree i);
  _ ← mthrow_if taken (IndicesUnavailableError tree i);
  _ ← mlift (match rp_deviceId params with
             | Some d =>
                 match (if String.eqb d "" then None else getDeviceRange d) with
                 | Some (lo, hi) =>
                     throw_if ((Wm.addressIndex i <? lo) || (Wm.addressIndex i >? hi))
                       (DeviceRangeViolationError (Wm.addressIndex i) lo hi)
                 | None => Ok tt
                 end
             | None => Ok tt
             end);
  f ← wm_lift (Wm.flatIndex i);
  applied ← conditional_claim (claim_key tree f) (mkClaim rid (rp_deviceId params) now);
  _ ← mthrow_if (negb applied) (IndicesUnavailableError tree i);
  p ← mget;
  _ ← append_use tree (default "default"%string (rp_branchId params)) i Wm.reserved rid
        (rp_payloadHash params) None now (default (deviceId p) (rp_deviceId params));
  _ ← wm (Wm.markUnavailable tree i Wm.reserved);
  _ ← ls (Ls.save (Ls.mkLease rid rid (Some tree) i (now + ttlMs) Ls.active now None ttlMs));
  mret (mkReservation rid i (now + ttlMs)).

Definition reserveKeyUse (now : Z) (rid : string) (params : ReserveParams) : Provider LeaseReservation :=
  _ ← initialize now;
  _ ← wm Wm.refresh;
  i ← wm (Wm.getNextIndices (rp_treeId params));
  reserveSpecificKeyUseUnlocked now rid params i.

Definition reserveSpecificKeyUse (now : Z) (rid : string) (params : ReserveParams)
    (i : Wm.SigningIndices) : Provider LeaseReservation :=
  _ ← initialize now;
  _ ← wm Wm.refresh;
  reserveSpecificKeyUseUnlocked now rid params i.

Definition find_lease (id : string) : Provider Ls.StoredLease :=
  p ← mget; mlift (of_option (LeaseNotFoundError id) (Ls.get id (leaseStore p))).

Definition commitKeyUse (now : Z) (id tx : string) : Provider unit :=
  _ ← initialize now;
  _ ← wm Wm.refresh;
  lease ← find_lease id;
  let tree := default_tree (Ls.treeId lease) in
  let i := Ls.indices lease in
  latest ← getByReservation id;
  p ← mget;
  let st := Jr.status <$> latest in
  if bool_decide (st = Some Wm.committed) then
    _ ← mthrow_if (negb (bool_decide (latest ≫= Jr.txId = Some tx)))
          (InvalidLeaseTransitionError id st (Ls.status lease) Wm.committed);
    _ ← wm (Wm.markUnavailable tree i Wm.committed);
    if negb (bool_decide (Ls.status lease = Ls.finalized))
    then ls (Ls.updateStatus id Ls.finalized) else mret tt
  else
    _ ← mthrow_if (bool_decide (st = Some Wm.burned) || bool_decide (st = Some Wm.reserved_expired)
                   || bool_decide (Ls.status lease = Ls.cancelled)
                   || bool_decide (Ls.status lease = Ls.expired))
          (InvalidLeaseTransitionError id st (Ls.status lease) Wm.committed);
    _ ← append_use tree "default" i Wm.committed id None (Some tx) now (deviceId p);
    _ ← wm (Wm.markUnavailable tree i Wm.committed);
    ls (Ls.updateStatus id Ls.finalized).

Definition burnReservation (now : Z) (id : string) : Provider unit :=
  _ ← initialize now;
  _ ← wm Wm.refresh;
  lease ← find_lease id;
  let tree := default_tree (Ls.treeId lease) in
  let i := Ls.indices lease in
  latest ← getByReservation id;
  p ← mget;
  let st := Jr.status <$> latest in
  if bool_decide (st = Some Wm.burned) then
    _ ← wm (Wm.markUnavailable tree i Wm.burned);
    if negb (bool_decide (Ls.status lease = Ls.cancelled))
    then ls (Ls.updateStatus id Ls.cancelled) else mret tt
  else
    _ ← mthrow_if (bool_decide (st = Some Wm.committed) || bool_decide (st = Some Wm.reserved_expired)
                   || bool_decide (Ls.status lease = Ls.finalized)
                   || bool_decide (Ls.status lease = Ls.expired))
          (InvalidLeaseTransitionError id st (Ls.status lease) Wm.burned);
    _ ← append_use tree "default" i Wm.burned id None None now (deviceId p);
    _ ← wm (Wm.markUnavailable tree i Wm.burned);
    ls (Ls.updateStatus id Ls.cancelled).

(** ** Watermark access *)

Definition getLocalWatermark (now : Z) (tree : string) : Provider Wm.LocalWatermark :=
  _ ← initialize now; wm (Wm.getLocalWatermark tree).

Definition exportWatermark (now : Z) (tree : string) : Provider Wm.WatermarkSeed :=
  _ ← initialize now; wm (Wm.exportSeed tree).

Definition seedWatermark (now : Z) (sd : Wm.WatermarkSeed) (allowRegression : bool) : Provider unit :=
  _ ← initialize now; _ ← wm Wm.refresh; wm (Wm.seed sd allowRegression now).

Definition listTrees : Provider (list string) :=
  s ← wm Wm.getRawState; mret (map_to_list s).*1.

Definition advanceToRemoteWatermark (now : Z) (tree : string) (remote : Wm.SigningIndices) : Provider bool :=
  _ ← initialize now;
  local ← wm (Wm.getLocalWatermark tree);
  localFlat ← wm_lift (Wm.flatIndex (Wm.mkIndices (Wm.lw_addressCursor local) (Wm.lw_l1Cursor local)
                                       (Wm.lw_l2Cursor local)));
  remoteFlat ← wm_lift (Wm.flatIndex remote);
  if remoteFlat <=? localFlat then mret false else
  _ ← wm (Wm.save tree (Wm.mkPatch None None (Some (Wm.addressIndex remote)) (Some (Wm.l1 remote))
                          (Some (Wm.l2 remote)) None (Some now)));
  mret true.

(** [verifyLeaseCertificate]: this layer issues none. *)
Definition verifyLeaseCertificate {C} (cert : option C) : bool :=
  match cert with None => true | Some _ => false end.

End provider.

End Lp.
