(* ===== verification/LocalSpec.v ===== *)
(** * What the local lease provider promises

    Over one adapter object shared by any number of providers, and over distinct objects
    on a medium with compare-and-set, no two successful reservations return the same
    leaf of a tree; recovery makes every journalled
    leaf unavailable; an initialised provider over a willing medium does return
    the least free leaf; and a commit is final. *)

From Stdlib Require Import ZArith Lia QArith Ascii String.
From stdpp Require Import base gmap list strings sorting.
From S2P Require Import Prelude JsBase JsText JsMap Watermark WatermarkSpec Journal JournalSpec Lease Local.

Module LpSpec.
Import JsMap Lp.

(** ** Frames: what a step of one store leaves alone *)

Lemma zoom_run {S T E E' A} (get : T → S) (put : S → T → T) (inj : E → E') (m : M S E A) t :
  zoom get put inj m t =
  (match (m (get t)).1 with Ok a => Ok a | Err e => Err (inj e) end, put (m (get t)).2 t).
Proof. unfold zoom. by destruct (m (get t)) as [[a|e] s]. Qed.

Lemma wm_Ok {A} (m : Wm.Store A) p a p' :
  wm m p = (Ok a, p') ↔ ∃ w, m (watermark p) = (Ok a, w) ∧ p' = set_watermark w p.
Proof. unfold wm, zoom. destruct (m (watermark p)) as [[x|e] w]; naive_solver. Qed.
Lemma ls_Ok {A} (m : Ls.Store A) p a p' :
  ls m p = (Ok a, p') ↔ ∃ l, m (leaseStore p) = (Ok a, l) ∧ p' = set_leaseStore l p.
Proof. unfold ls, zoom. destruct (m (leaseStore p)) as [[x|e] l]; naive_solver. Qed.
Lemma jr_Ok {A} (m : Jr.Journal A) p a p' :
  jr m p = (Ok a, p') ↔ ∃ j, m (journal p) = (Ok a, j) ∧ p' = set_journal j p.
Proof. unfold jr, zoom. destruct (m (journal p)) as [[x|e] j]; naive_solver. Qed.
Lemma wm_lift_Ok {A} (r : result Wm.Error A) p a p' :
  wm_lift r p = (Ok a, p') ↔ r = Ok a ∧ p' = p.
Proof. unfold wm_lift, mlift. destruct r; naive_solver. Qed.
Lemma conditional_claim_Ok k c p b p' :
  conditional_claim k c p = (Ok b, p') →
  watermark p' = watermark p ∧ leaseStore p' = leaseStore p ∧ journal p' = journal p ∧
  initialized p' = initialized p ∧ deviceId p' = deviceId p.
Proof.
  unfold conditional_claim. destruct (cas p) as [st|]; [|naive_solver].
  destruct (claims st !! k); [naive_solver|]. destruct (write_refused _); naive_solver.
Qed.

(** Read off a returning provider step. *)
Ltac inv_P :=
  repeat match goal with
  | H : (_ ≫= _) _ = (Ok _, _) |- _ => apply mbind_Ok in H as (? & ? & ? & H)
  | H : wm _ _ = (Ok _, _) |- _ => apply wm_Ok in H as (? & H & ?)
  | H : ls _ _ = (Ok _, _) |- _ => apply ls_Ok in H as (? & H & ?)
  | H : jr _ _ = (Ok _, _) |- _ => apply jr_Ok in H as (? & H & ?)
  | H : wm_lift _ _ = (Ok _, _) |- _ => apply wm_lift_Ok in H as [H ?]
  | H : mthrow_if _ _ _ = (Ok _, _) |- _ => apply mthrow_if_Ok in H as [H ?]
  | H : mlift _ _ = (Ok _, _) |- _ => apply mlift_Ok in H as [H ?]
  | H : mret _ _ = (Ok _, _) |- _ => injection H as H ?
  | H : mget _ = (Ok _, _) |- _ => injection H as H ?
  end; subst; simpl in *.

Section provider.
Context (sha256_hex : string → string).
Context (sha256_hex_format : ∀ b, Jr.is_hash (sha256_hex b) = true).
Notation readPhysicalRecords := (Jr.readPhysicalRecords sha256_hex).
Notation reads_log p es := (readPhysicalRecords (Jr.storage (journal p)) = Ok es).

Lemma initialize_done now p : initialized p = true → initialize sha256_hex now p = (Ok tt, p).
Proof. intros H. unfold initialize, mbind, M_bind, mget. by rewrite H. Qed.

(** ** The journal along a call *)

(** The entry a call appends. *)
Definition use_entry (tree branch : string) (i : Wm.SigningIndices) (st : Wm.UnavailableReason)
    (rid : string) (ph tx : option string) (ts : Z) (dev : string) : Jr.JournalEntry :=
  Jr.mkEntry tree branch (Wm.flat i) i st (Some rid) ph tx (Js.of_Z ts) dev None None.

Definition log_is (es : list Jr.JournalEntry) (j : Jr.LeaseJournal) : Prop :=
  Jr.initialized j = true ∧ readPhysicalRecords (Jr.storage j) = Ok es.
Definition log_grew (es : list Jr.JournalEntry) (j : Jr.LeaseJournal) : Prop :=
  ∃ es', log_is (es ++ es') j ∧ (length es' <= 1)%nat.

Lemma log_is_grew es j : log_is es j → log_grew es j.
Proof. intros H. exists []. rewrite app_nil_r. split; [done|simpl; lia]. Qed.

Lemma appendOne_grows j es input :
  log_is es j → Z.of_nat (length es) <= Js.MAX_SAFE_INTEGER →
  log_grew es (Jr.appendOne sha256_hex input j).2.
Proof.
  intros [Hi Hr] Hlen.
  pose proof (JrSpec.appendOne_outcome sha256_hex sha256_hex_format j es input Hi Hr Hlen) as Ho.
  pose proof (JrSpec.appendOne_initialized sha256_hex j es input Hi Hr) as Hi'.
  destruct (Jr.appendOne sha256_hex input j) as [[out|er] j']; simpl in *.
  - destruct Ho as (v & _ & [(latest & _ & Hs & _)|(_ & _ & Hread & _)]).
    + apply log_is_grew. split; [done|]. by rewrite Hs.
    + eexists. split; [split; [done|exact Hread]|simpl; lia].
  - apply log_is_grew. split; [done|]. by rewrite Ho.
Qed.

(** From an initialised provider whose journal satisfies [P], [m] ends with one
    that satisfies [Q], whether it returns or throws. *)
Definition jens {A} (P : Jr.LeaseJournal → Prop) (m : Provider A) (Q : Jr.LeaseJournal → Prop) : Prop :=
  ∀ p, initialized p = true → P (journal p) →
       initialized (m p).2 = true ∧ Q (journal (m p).2).
(** [m] does not touch the journal. *)
Definition quiet {A} (m : Provider A) : Prop :=
  ∀ p, journal (m p).2 = journal p ∧ initialized (m p).2 = initialized p.

Lemma quiet_wm {A} (m : Wm.Store A) : quiet (wm m).
Proof. intros p. unfold wm. by rewrite zoom_run. Qed.
Lemma quiet_ls {A} (m : Ls.Store A) : quiet (ls m).
Proof. intros p. unfold ls. by rewrite zoom_run. Qed.
Lemma quiet_lift {A} (r : result LpError A) : quiet (mlift r).
Proof. by intros p. Qed.
Lemma quiet_wm_lift {A} (r : result Wm.Error A) : quiet (wm_lift r).
Proof. by intros p. Qed.
Lemma quiet_get : quiet (mget : Provider _).
Proof. by intros p. Qed.
Lemma quiet_ret {A} (a : A) : quiet (mret a).
Proof. by intros p. Qed.
Lemma quiet_claim k c : quiet (conditional_claim k c).
Proof.
  intros p. unfold conditional_claim. destruct (cas p) as [st|]; [|done].
  destruct (claims st !! k); [done|]. by destruct (write_refused _).
Qed.

Lemma jens_quiet {A} (P Q : Jr.LeaseJournal → Prop) (m : Provider A) :
  quiet m → (∀ j, P j → Q j) → jens P m Q.
Proof. intros Hm HPQ p Hi HP. destruct (Hm p) as [-> ->]. auto. Qed.
Lemma jens_bind {A B} (P R Q : Jr.LeaseJournal → Prop) (m : Provider A) (f : A → Provider B) :
  jens P m R → (∀ j, R j → Q j) → (∀ a, jens R (f a) Q) → jens P (m ≫= f) Q.
Proof.
  intros Hm HRQ Hf p Hi HP. destruct (Hm p Hi HP) as [Hi1 HR]. unfold mbind, M_bind.
  destruct (m p) as [[a|e] p1]; simpl in *; [by apply Hf|auto].
Qed.
Lemma jens_step {A B} (P Q : Jr.LeaseJournal → Prop) (m : Provider A) (f : A → Provider B) :
  quiet m → (∀ j, P j → Q j) → (∀ a, jens P (f a) Q) → jens P (m ≫= f) Q.
Proof. intros Hm HPQ Hf. apply (jens_bind P P); [by apply jens_quiet|done|done]. Qed.

Create HintDb provider.
Hint Resolve quiet_wm quiet_ls quiet_lift quiet_wm_lift quiet_get quiet_ret quiet_claim : provider.

Lemma jens_initialize (P : Jr.LeaseJournal → Prop) now : jens P (initialize sha256_hex now) P.
Proof. intros p Hi HP. by rewrite (initialize_done now p Hi). Qed.

Lemma jens_append_use es tree branch i st rid ph tx ts dev :
  Z.of_nat (length es) <= Js.MAX_SAFE_INTEGER →
  jens (log_is es) (append_use sha256_hex tree branch i st rid ph tx ts dev) (log_grew es).
Proof.
  intros Hlen. apply jens_step; [auto with provider|apply log_is_grew|]. intros f.
  apply (jens_bind _ (log_grew es)); [|done|].
  - intros p Hi Hl. unfold jr. rewrite zoom_run. split; [done|]. by apply appendOne_grows.
  - intros _. apply jens_quiet; [auto with provider|done].
Qed.

Lemma jens_reserve es now rid params i :
  Z.of_nat (length es) <= Js.MAX_SAFE_INTEGER →
  jens (log_is es) (reserveSpecificKeyUseUnlocked sha256_hex now rid params i) (log_grew es).
Proof.
  intros Hlen. pose proof (log_is_grew es) as Hg.
  apply (jens_bind _ (log_is es)); [apply jens_initialize|done|]. intros _. simpl.
  do 7 (apply jens_step; [auto with provider|done|]; intros ?).
  apply (jens_bind _ (log_grew es)); [by apply jens_append_use|done|]. intros _.
  do 2 (apply jens_step; [auto with provider|done|]; intros ?).
  apply jens_quiet; [auto with provider|done].
Qed.

(** A journalled use that returned: the log gains its entry, or had it. *)
Lemma append_use_Ok tree branch i st rid ph tx ts dev p p' es :
  append_use sha256_hex tree branch i st rid ph tx ts dev p = (Ok tt, p') →
  log_is es (journal p) → Z.of_nat (length es) <= Js.MAX_SAFE_INTEGER →
  let v := use_entry tree branch i st rid ph tx ts dev in
  ∃ j, Wm.valid i ∧ p' = set_journal j p ∧ Jr.initialized j = true ∧
    ((∃ latest, Jr.admit_entry es v = Ok (Some latest) ∧ log_is es j ∧ Jr.entries j = es) ∨
     (let e := Jr.link_entry sha256_hex es v in
      Jr.admit_entry es v = Ok None ∧ log_is (es ++ [e]) j ∧ Jr.entries j = es ++ [e])).
Proof.
  intros H [Hi Hr] Hlen v. unfold append_use in H.
  apply mbind_Ok in H as (f & p1 & Hf & H). apply wm_lift_Ok in Hf as [Hf ->].
  apply Wm.flatIndex_Ok in Hf as [Hv ->].
  apply mbind_Ok in H as (out & p2 & Happ & H). apply jr_Ok in Happ as (j & Happ & ->).
  injection H as <-.
  change (Jr.mkEntry tree branch (Wm.flat i) i st (Some rid) ph tx (Js.of_Z ts) dev None None)
    with v in Happ. clearbody v.
  pose proof (JrSpec.appendOne_outcome sha256_hex sha256_hex_format _ es v Hi Hr Hlen) as Ho.
  pose proof (JrSpec.appendOne_initialized sha256_hex _ es v Hi Hr) as Hi'.
  rewrite Happ in Ho, Hi'. simpl in Ho, Hi'. destruct Ho as (v' & Hval & Ho).
  apply JrSpec.validated_input in Hval as ->.
  exists j. split_and!; [done..|]. destruct Ho as [(latest & ? & Hs & ? & _)|(? & _ & ? & ? & _)].
  - left. exists latest. split_and!; [done| |done]. split; [done|]. by rewrite Hs.
  - by right.
Qed.

(** ** Many providers over one medium *)

Definition slot_in (es : list Jr.JournalEntry) (s : string * Z) : Prop :=
  ∃ e, e ∈ es ∧ Jr.treeId e = s.1 ∧ Jr.wotsIndex e = s.2.

Lemma reserve_Ok es now rid params i p r p' :
  initialized p = true → log_is es (journal p) → Z.of_nat (length es) <= Js.MAX_SAFE_INTEGER →
  reserveSpecificKeyUseUnlocked sha256_hex now rid params i p = (Ok r, p') →
  ¬ slot_in es (rp_treeId params, Wm.flat (r_indices r)) ∧ r_indices r = i ∧
  ∃ e, log_is (es ++ [e]) (journal p') ∧ Jr.treeId e = rp_treeId params ∧
       Jr.wotsIndex e = Wm.flat (r_indices r).
Proof.
  intros Hi Hl Hlen H. unfold reserveSpecificKeyUseUnlocked in H.
  apply mbind_Ok in H as (u & p0 & Hinit & H). rewrite (initialize_done now p Hi) in Hinit.
  injection Hinit as <- <-.
  apply mbind_Ok in H as (taken & p1 & Ht & H). apply wm_Ok in Ht as (w & _ & ->).
  apply mbind_Ok in H as (u1 & p2 & Ht & H). apply mthrow_if_Ok in Ht as [_ ->].
  apply mbind_Ok in H as (u2 & p2 & Ht & H). apply mlift_Ok in Ht as [_ ->].
  apply mbind_Ok in H as (f & p2 & Ht & H). apply wm_lift_Ok in Ht as [_ ->].
  apply mbind_Ok in H as (b & p2 & Ht & H). apply conditional_claim_Ok in Ht as (_ & _ & Hj & _).
  apply mbind_Ok in H as (u3 & p3 & Ht & H). apply mthrow_if_Ok in Ht as [_ ->].
  apply mbind_Ok in H as (p3 & p4 & Ht & H). injection Ht as <- <-.
  apply mbind_Ok in H as (u4 & p3 & Ht & H). destruct u4.
  eapply append_use_Ok in Ht as (j & Hv & -> & _ & Ho); [|by rewrite Hj|done].
  apply mbind_Ok in H as (u5 & p5 & Ht & H). apply wm_Ok in Ht as (w1 & _ & ->).
  apply mbind_Ok in H as (u6 & p5 & Ht & H). apply ls_Ok in Ht as (l1 & _ & ->).
  injection H as <- <-. simpl. destruct Ho as [(latest & Hadm & _)|(Hadm & Hlog & _)].
  - by apply JrSpec.admit_reserved in Hadm as [Hn _].
  - split; [|split; [done|by eexists]]. apply JrSpec.admit_reserved in Hadm as [_ Hno]; [|done].
    intros (e & Hin & Ht & Hw). simpl in *. by apply (Hno e Hin).
Qed.

(** A call of some provider over the journal of one adapter object, or an append made on
    its behalf by recovery, commit or burn; [p] is any memory, stale or fresh.  A call
    touches the medium of the journal once, in the append that the object's lock serialises. *)
Inductive event :=
| EvReserve (p : LocalLeaseProvider) (now : Z) (rid : string) (params : ReserveParams)
| EvReserveSpecific (p : LocalLeaseProvider) (now : Z) (rid : string) (params : ReserveParams)
    (i : Wm.SigningIndices)
| EvAppend (mem : list Jr.JournalEntry) (input : Jr.JournalEntry).

Definition attach (p : LocalLeaseProvider) (m : Jr.Storage * list bool) : LocalLeaseProvider :=
  mkProvider (watermark p) (leaseStore p) (Jr.mkJournal (Jr.entries (journal p)) true m.1 m.2) true
    (deviceId p) (cas p).

Definition outcome (params : ReserveParams) (r : result LpError LeaseReservation * LocalLeaseProvider)
    : option (string * Z) * (Jr.Storage * list bool) :=
  (match r.1 with
   | Ok res => Some (rp_treeId params, Wm.flat (r_indices res))
   | Err _ => None
   end, (Jr.storage (journal r.2), Jr.faults (journal r.2))).

(** The leaf returned, if any, and the medium after the event. *)
Definition run_event (ev : event) (m : Jr.Storage * list bool)
    : option (string * Z) * (Jr.Storage * list bool) :=
  match ev with
  | EvReserve p now rid params => outcome params (reserveKeyUse sha256_hex now rid params (attach p m))
  | EvReserveSpecific p now rid params i =>
      outcome params (reserveSpecificKeyUse sha256_hex now rid params i (attach p m))
  | EvAppend mem input => (None, JrSpec.shared_append sha256_hex (mem, input) m)
  end.

(** The leaves returned along a history, in order. *)
Fixpoint run_events (evs : list event) (m : Jr.Storage * list bool) : list (string * Z) :=
  match evs with
  | [] => []
  | ev :: evs =>
      let '(o, m') := run_event ev m in
      match o with Some s => s :: run_events evs m' | None => run_events evs m' end
  end.

Lemma jens_reserveKeyUse es now rid params :
  Z.of_nat (length es) <= Js.MAX_SAFE_INTEGER →
  jens (log_is es) (reserveKeyUse sha256_hex now rid params) (log_grew es).
Proof.
  intros Hlen. apply (jens_bind _ (log_is es)); [apply jens_initialize|apply log_is_grew|].
  intros _. do 2 (apply jens_step; [auto with provider|apply log_is_grew|]; intros ?).
  by apply jens_reserve.
Qed.
Lemma jens_reserveSpecificKeyUse es now rid params i :
  Z.of_nat (length es) <= Js.MAX_SAFE_INTEGER →
  jens (log_is es) (reserveSpecificKeyUse sha256_hex now rid params i) (log_grew es).
Proof.
  intros Hlen. apply (jens_bind _ (log_is es)); [apply jens_initialize|apply log_is_grew|].
  intros _. apply jens_step; [auto with provider|apply log_is_grew|]; intros ?.
  by apply jens_reserve.
Qed.

Lemma run_event_log ev m es :
  readPhysicalRecords m.1 = Ok es → Z.of_nat (length es) <= Js.MAX_SAFE_INTEGER →
  let '(o, m') := run_event ev m in
  ∃ es', readPhysicalRecords m'.1 = Ok (es ++ es') ∧ (length es' <= 1)%nat ∧
         match o with Some s => ¬ slot_in es s ∧ slot_in (es ++ es') s | None => True end.
Proof.
  intros Hr Hlen. destruct ev as [p now rid params|p now rid params i|mem input]; simpl.
  3: { pose proof (appendOne_grows (Jr.mkJournal mem true m.1 m.2) es input) as Hg.
       destruct Hg as (es' & [_ Hr'] & Hl'); [by split|done|]. by exists es'. }
  all: assert (log_is es (journal (attach p m))) as Hl by (by split).
  - unfold outcome. set (run := reserveKeyUse _ _ _ _ _).
    assert (log_grew es (journal run.2)) as (es' & [_ Hr'] & Hl').
    { by apply jens_reserveKeyUse. }
    exists es'. split_and!; [done..|]. destruct run as [[r|e] p'] eqn:E; [|done]. simpl in *. subst run.
    unfold reserveKeyUse in E. apply mbind_Ok in E as (u & p0 & Hinit & E).
    rewrite initialize_done in Hinit by done. injection Hinit as <- <-.
    apply mbind_Ok in E as (u1 & p1 & Ht & E). apply wm_Ok in Ht as (w & _ & ->).
    apply mbind_Ok in E as (i & p1 & Ht & E). apply wm_Ok in Ht as (w1 & _ & ->).
    eapply (reserve_Ok es) in E as (Hno & _ & e & [_ Hr2] & ? & ?); [|done..].
    split; [done|]. rewrite Hr' in Hr2. injection Hr2 as ->. exists e. split; [set_solver|done].
  - unfold outcome. set (run := reserveSpecificKeyUse _ _ _ _ _ _).
    assert (log_grew es (journal run.2)) as (es' & [_ Hr'] & Hl').
    { by apply jens_reserveSpecificKeyUse. }
    exists es'. split_and!; [done..|]. destruct run as [[r|e] p'] eqn:E; [|done]. simpl in *. subst run.
    unfold reserveSpecificKeyUse in E. apply mbind_Ok in E as (u & p0 & Hinit & E).
    rewrite initialize_done in Hinit by done. injection Hinit as <- <-.
    apply mbind_Ok in E as (u1 & p1 & Ht & E). apply wm_Ok in Ht as (w & _ & ->).
    eapply (reserve_Ok es) in E as (Hno & _ & e & [_ Hr2] & ? & ?); [|done..].
    split; [done|]. rewrite Hr' in Hr2. injection Hr2 as ->. exists e. split; [set_solver|done].
Qed.

Lemma run_events_fresh evs : ∀ m es,
  readPhysicalRecords m.1 = Ok es →
  Z.of_nat (length es) + Z.of_nat (length evs) <= Js.MAX_SAFE_INTEGER →
  NoDup (run_events evs m) ∧ Forall (λ s, ¬ slot_in es s) (run_events evs m).
Proof.
  induction evs as [|ev evs IH]; intros m es Hr Hlen; simpl; [split; constructor|].
  simpl in Hlen. pose proof (run_event_log ev m es Hr ltac:(lia)) as H.
  destruct (run_event ev m) as [o m']. destruct H as (es' & Hr' & Hl' & Ho).
  destruct (IH m' (es ++ es') Hr') as [Hnd Hall]; [rewrite length_app; lia|].
  rewrite Forall_forall in Hall.
  assert (∀ s, s ∈ run_events evs m' → ¬ slot_in es s) as Hall'.
  { intros s Hs (e & He & ?). apply (Hall s Hs). exists e. split; [set_solver|done]. }
  destruct o as [s|]; [|split; [done|by apply Forall_forall]].
  destruct Ho as [Hno Hin]. split.
  - constructor; [|done]. intros Hs. by apply (Hall s Hs).
  - constructor; [done|]. by apply Forall_forall.
Qed.

(** ** Recovery *)

(** The watermark is in memory, well formed, and has consumed at least [s0]. *)
Definition keeps (s0 : gmap string Wm.TreeWatermark) (p : LocalLeaseProvider) : Prop :=
  ∃ s, Wm.state (watermark p) = Some s ∧ Wm.wf_store (watermark p) ∧ Wm.used_le s0 s.

Lemma keeps_wm {A} s0 (m : Wm.Store A) : WmSpec.good m → preserves (keeps s0) (wm m).
Proof.
  intros Hg p (s & Hs & Hw & Hle). unfold wm. rewrite zoom_run. simpl.
  destruct (Hg (watermark p) s Hs Hw) as (s' & Hs' & Hw' & Hle' & _).
  exists s'. split_and!; [done..|]. by transitivity s.
Qed.
Lemma keeps_ls {A} s0 (m : Ls.Store A) : preserves (keeps s0) (ls m).
Proof. intros p H. unfold ls. by rewrite zoom_run. Qed.
Lemma keeps_jr {A} s0 (m : Jr.Journal A) : preserves (keeps s0) (jr m).
Proof. intros p H. unfold jr. by rewrite zoom_run. Qed.
Lemma keeps_wm_lift {A} s0 (r : result Wm.Error A) : preserves (keeps s0) (wm_lift r).
Proof. by intros p H. Qed.
Hint Resolve keeps_wm keeps_ls keeps_jr keeps_wm_lift WmSpec.good_markUnavailable : provider.

Ltac keep :=
  repeat first
    [ apply preserves_bind; [|intros ?]
    | apply preserves_for; intros ? _
    | apply preserves_ret | apply preserves_get
    | solve [auto with provider]
    | case_match ].

Lemma keeps_append_use s0 tree branch i st rid ph tx ts dev :
  preserves (keeps s0) (append_use sha256_hex tree branch i st rid ph tx ts dev).
Proof. unfold append_use. keep. Qed.
Hint Resolve keeps_append_use : provider.

Lemma keeps_reconcile_slot s0 e : preserves (keeps s0) (reconcile_slot e).
Proof. unfold reconcile_slot. keep. Qed.
Lemma keeps_reconcile_reservation s0 now ids kv :
  preserves (keeps s0) (reconcile_reservation sha256_hex now ids kv).
Proof. destruct kv as [id e]. unfold reconcile_reservation. keep. Qed.
Lemma keeps_reconcile_lease s0 now l : preserves (keeps s0) (reconcile_lease sha256_hex now l).
Proof. unfold reconcile_lease, getByReservation. keep. Qed.
Lemma keeps_recover s0 now : preserves (keeps s0) (recoverExpiredReservations sha256_hex now).
Proof. unfold recoverExpiredReservations, each, recover_lease, getByReservation. keep. Qed.
Lemma keeps_burn s0 now : preserves (keeps s0) (burnUnresolvedReservations sha256_hex now).
Proof. unfold burnUnresolvedReservations, each, burn_lease, getByReservation. keep. Qed.
Hint Resolve keeps_reconcile_slot keeps_reconcile_reservation keeps_reconcile_lease keeps_recover
  keeps_burn : provider.

Lemma preserves_Ok {A} (I : LocalLeaseProvider → Prop) (m : Provider A) p r p' :
  preserves I m → m p = (r, p') → I p → I p'.
Proof. intros Hm E HI. specialize (Hm p HI). by rewrite E in Hm. Qed.

(** The slot loop makes each of its slots unavailable, for the rest of the call. *)
Lemma reconcile_slots_used l : ∀ p p' s0,
  each l reconcile_slot p = (Ok tt, p') → keeps s0 p →
  ∃ s, keeps s p' ∧ Wm.used_le s0 s ∧ ∀ e, e ∈ l → Wm.used s (Jr.treeId e) (Wm.flat (Jr.indices e)).
Proof.
  induction l as [|e l IH]; intros p p' s0 H Hk; unfold each in H; simpl in H.
  { injection H as <-. exists s0. split_and!; [done..|]. set_solver. }
  apply mbind_Ok in H as ([] & p1 & He & H). unfold reconcile_slot in He.
  apply wm_Ok in He as (w & He & ->). destruct Hk as (s1 & Hs1 & Hw1 & Hle1).
  destruct (WmSpec.markUnavailable_Ok _ _ _ _ _ s1 Hs1 Hw1 He) as (Hv & Hw & Hu & _).
  pose proof (WmSpec.good_markUnavailable (Jr.treeId e) (Jr.indices e) (Jr.status e) _ s1 Hs1 Hw1)
    as (s2 & Hs2 & Hw2 & Hle2 & _). rewrite He in Hs2, Hw2. simpl in *.
  destruct (IH (set_watermark w p) p' s2) as (s & Hks & Hle & Hall); [done|by exists s2|].
  exists s. split; [done|]. split; [by transitivity s1; [|transitivity s2]|].
  intros e' [->|Hin]%elem_of_cons; [|by apply Hall]. by apply Hle, Hu.
Qed.

(** Every journalled slot is represented by an entry of that slot. *)
Lemma latestBySlot_spec es :
  (∀ k e, (k, e) ∈ latestBySlot es → e ∈ es ∧ k = slot_key e) ∧
  (∀ e, e ∈ es → ∃ e', (slot_key e, e') ∈ latestBySlot es).
Proof.
  induction es as [|e es IH] using rev_ind; [set_solver|]. destruct IH as [IH1 IH2].
  unfold latestBySlot in *. rewrite fold_left_app. simpl. split.
  - intros k e' H. apply map_set_keeps in H as [[-> ->]|H]; [set_solver|].
    destruct (IH1 _ _ H). set_solver.
  - intros e' [H|H%list_elem_of_singleton]%elem_of_app; [|subst e'; eexists; apply map_set_has].
    destruct (IH2 _ H) as [e'' ?]. by eapply map_set_key.
Qed.

Lemma colon_split_inj a b d d' :
  Js.str_forallb Js.is_digit d = true → Js.str_forallb Js.is_digit d' = true →
  a +:+ (String ":" d) = b +:+ (String ":" d') → a = b ∧ d = d'.
Proof.
  intros Hd Hd'. revert b; induction a as [|c a IH]; intros [|c' b] E; simpl in E.
  - by injection E.
  - exfalso. injection E as <- ->. rewrite JsText.str_forallb_app in Hd. simpl in Hd.
    by rewrite andb_false_r in Hd.
  - exfalso. injection E as -> <-. rewrite JsText.str_forallb_app in Hd'. simpl in Hd'.
    by rewrite andb_false_r in Hd'.
  - injection E as -> E. destruct (IH b E) as [-> ->]. done.
Qed.

Lemma slot_key_inj e e' :
  0 <= Jr.wotsIndex e → 0 <= Jr.wotsIndex e' → slot_key e = slot_key e' →
  Jr.treeId e = Jr.treeId e' ∧ Jr.wotsIndex e = Jr.wotsIndex e'.
Proof.
  intros H H' E. apply colon_split_inj in E as [Ht Hd]; [|by apply JsText.dec_digits..].
  split; [done|]. by apply JsText.dec_inj.
Qed.

Lemma log_entries_wf st es :
  readPhysicalRecords st = Ok es → Forall JrSpec.wf_entry es.
Proof.
  intros (ds & [_ _ Hr _])%JrSpec.readPhysicalRecords_Ok; [|done].
  apply result_mapM_Ok in Hr. apply Forall_forall. intros e He.
  apply list_elem_of_lookup in He as [i Hi].
  destruct (Forall2_lookup_r _ _ _ _ _ Hr Hi) as (d & _ & Hd).
  unfold Jr.read_record in Hd. inv_M. by eapply JrSpec.validateEntry_wf.
Qed.

Lemma journal_initialize_fresh j j' es :
  Jr.initialized j = false → readPhysicalRecords (Jr.storage j) = Ok es →
  Jr.get_value (Jr.storage j) Jr.LEGACY_STORAGE_KEY = Js.JNull →
  Jr.initialize sha256_hex j = (Ok tt, j') → j' = Jr.mkJournal es true (Jr.storage j) (Jr.faults j).
Proof.
  intros Hi Hr Hl. unfold Jr.initialize, Jr.initializeOnce, Jr.readLegacyEntries.
  unfold mbind, M_bind, mget, mlift, mret, M_ret, mmodify. rewrite Hi, Hr, Hl. by intros [= <-].
Qed.

(** The watermark of a process that starts. *)
Definition restarted (w : Wm.WotsWatermarkStore) : Prop :=
  Wm.state w = None ∧ Wm.initialized w = false ∧ Wm.wf_raw (Wm.disk w).

Lemma watermark_initialize_fresh w w' :
  restarted w → Wm.initialize w = (Ok tt, w') → ∃ s, Wm.state w' = Some s ∧ Wm.wf_store w'.
Proof.
  intros (Hs & Hi & Hr). unfold Wm.initialize. rewrite Hi.
  destruct (Wm.migrateToV3 (Wm.disk w)) as [s|e] eqn:Hm; [|done].
  assert (Wm.wf_state s) as Hws by (by apply Hr).
  destruct (Wm.is_v3 (Wm.disk w)); [|unfold Wm.persist; simpl; destruct (write_refused _); [done|]];
    simpl; intros [= <-]; exists s; split; try done; (split; simpl; [by intros ? [= <-]|]); [done|].
  by intros ? [= <-].
Qed.

Lemma recovery_used now p p' es :
  initialized p = false → restarted (watermark p) →
  Jr.initialized (journal p) = false → reads_log p es →
  Jr.get_value (Jr.storage (journal p)) Jr.LEGACY_STORAGE_KEY = Js.JNull →
  initialize sha256_hex now p = (Ok tt, p') →
  ∃ s, Wm.state (watermark p') = Some s ∧ Wm.wf_store (watermark p') ∧
       ∀ e, e ∈ es → Wm.used s (Jr.treeId e) (Jr.wotsIndex e).
Proof.
  intros Hi Hw Hji Hr Hleg H. unfold initialize in H.
  apply mbind_Ok in H as (p0 & p1 & Hg & H). injection Hg as <- <-. rewrite Hi in H.
  unfold initializeOnce in H.
  apply mbind_Ok in H as ([] & p1 & Hj & H). apply jr_Ok in Hj as (j & Hj & ->).
  apply (journal_initialize_fresh _ _ es Hji Hr Hleg) in Hj as ->.
  apply mbind_Ok in H as ([] & p1 & Hwi & H). apply wm_Ok in Hwi as (w & Hwi & ->). simpl in Hwi.
  apply (watermark_initialize_fresh _ _ Hw) in Hwi as (s1 & Hs1 & Hw1).
  apply mbind_Ok in H as ([] & p1 & Hl & H). apply ls_Ok in Hl as (l & _ & ->).
  apply mbind_Ok in H as ([] & p1 & Hrec & H).
  apply mbind_Ok in H as ([] & p2 & Hexp & H). apply mbind_Ok in H as ([] & p3 & Hburn & H).
  injection H as <-.
  unfold reconcileDurableSafetyState in Hrec.
  apply mbind_Ok in Hrec as (es' & p4 & Hall & Hrec). apply jr_Ok in Hall as (j & Hall & ->).
  injection Hall as <- <-.
  apply mbind_Ok in Hrec as ([] & p4 & Hslots & Hrec).
  eapply (reconcile_slots_used _ _ _ s1) in Hslots as (s2 & Hk & _ & Hused); [|by exists s1].
  apply mbind_Ok in Hrec as (p5 & p6 & Hg & Hrec). injection Hg as <- <-.
  apply mbind_Ok in Hrec as ([] & p6 & Hres & Hrec).
  eapply preserves_Ok in Hk; [| |exact Hres]; [|apply preserves_for; auto with provider].
  eapply preserves_Ok in Hk; [| |exact Hrec]; [|apply preserves_for; auto with provider].
  eapply preserves_Ok in Hk; [| |exact Hexp]; [|auto with provider].
  eapply preserves_Ok in Hk; [| |exact Hburn]; [|auto with provider].
  destruct Hk as (s & Hs & Hws & Hle). exists s. split_and!; [done..|].
  intros e He. destruct (latestBySlot_spec es) as [Hsp1 Hsp2]. destruct (Hsp2 e He) as [e' He'].
  destruct (Hsp1 _ _ He') as [Hin Hkey].
  pose proof (log_entries_wf _ _ Hr) as Hwf. rewrite Forall_forall in Hwf.
  destruct (Hwf e He) as (Hv & Hwi & _), (Hwf e' Hin) as (Hv' & Hwi' & _).
  pose proof (Wm.flat_bounds _ Hv). pose proof (Wm.flat_bounds _ Hv').
  destruct (slot_key_inj e e') as [Ht Hi']; [lia..|done|].
  rewrite Ht, Hi', Hwi'. apply Hle, Hused. apply list_elem_of_fmap. by eexists (_, _).
Qed.

(** ** A willing medium *)

(** Between calls: memory and media agree, and no write will be refused. *)
Record ready (p : LocalLeaseProvider) (es : list Jr.JournalEntry)
    (s raw : gmap string Wm.TreeWatermark) : Prop := {
  ready_init : initialized p = true;
  ready_log : log_is es (journal p);
  ready_state : Wm.state (watermark p) = Some s;
  ready_wf : Wm.wf_store (watermark p);
  ready_disk : Wm.initialized (watermark p) = true ∧ Wm.migrateToV3 (Wm.disk (watermark p)) = Ok raw;
  ready_used : ∀ e, e ∈ es → Wm.used s (Jr.treeId e) (Jr.wotsIndex e);
  ready_faults : Wm.faults (watermark p) = [] ∧ Ls.faults (leaseStore p) = [] ∧ Jr.faults (journal p) = [];
  ready_cas : cas p = None;
  ready_device : deviceId p ≠ "" }.

(** No key of the medium is in the way of the next sequence number. *)
Lemma next_sequence_free st es n :
  readPhysicalRecords st = Ok es → n = Z.of_nat (length es) → n <= Js.MAX_SAFE_INTEGER →
  existsb (Js.starts_with (Jr.ENTRY_PREFIX +:+ Jr.sequenceText n +:+ ":")) (Jr.storage_keys st) = false.
Proof.
  intros Hr -> Hn. destruct (existsb _ _) eqn:Hex; [|done]. exfalso.
  apply existsb_exists in Hex as (k & Hk & Hp). apply JsText.starts_with_spec in Hp as [r ->].
  apply JrSpec.readPhysicalRecords_Ok in Hr as (ds & Hds); [|done].
  pose proof (JrSpec.reads_length _ _ _ _ Hds) as Hlen. destruct Hds as [(ps & Hps & Hperm) Hnum _ _].
  set (n := Z.of_nat (length es)) in *. set (k := (_ +:+ _) +:+ r) in *.
  assert (k = Jr.ENTRY_PREFIX +:+ (Jr.sequenceText n +:+ (String ":" r))) as Ek.
  { subst k. by rewrite !JsText.app_assoc_str. }
  assert (k ∈ List.filter (Js.starts_with Jr.ENTRY_PREFIX) (Jr.storage_keys st)) as Hin.
  { apply list_elem_of_In, filter_In. split; [done|]. rewrite Ek. apply JsText.starts_with_app. }
  apply result_mapM_Ok in Hps. apply list_elem_of_lookup in Hin as [i Hi].
  destruct (Forall2_lookup_l _ _ _ _ _ Hps Hi) as (d & Hd & Hparse).
  assert (Jr.sequence d = n) as Hseq.
  { destruct (JrSpec.sequenceText_spec n ltac:(lia)) as (Hl & Hdig & Hrad).
    unfold Jr.parseRecordKey in Hparse. rewrite Ek, JsText.drop_app_str in Hparse.
    rewrite <- Hl, JsText.take_app_str, JsText.drop_app_str in Hparse. rewrite Hrad in Hparse.
    destruct (_ && _ && _ && _) in Hparse; [|done]. simpl in Hparse.
    destruct (Js.is_safe_integer n); [|done]. injection Hparse as <-. done. }
  apply list_elem_of_lookup_2 in Hd. rewrite Hperm in Hd. apply list_elem_of_lookup in Hd as [j Hj].
  pose proof (Hnum j d Hj). apply lookup_lt_Some in Hj. lia.
Qed.

Lemma admit_fresh es v :
  Jr.status v = Wm.reserved → ¬ slot_in es (Jr.treeId v, Jr.wotsIndex v) →
  Jr.admit_entry es v = Ok None.
Proof.
  intros Hs Hno. unfold Jr.admit_entry. rewrite (bool_decide_eq_true_2 (Jr.status v = _)) by done.
  destruct (existsb _ _) eqn:Hex; simpl.
  - exfalso. apply existsb_exists in Hex as (e & He & Hsl). apply JrSpec.same_slot_true in Hsl as [? ?].
    apply Hno. exists e. by rewrite list_elem_of_In.
  - by destruct (Jr.reservationId v).
Qed.

(** An append of a new reservation over a willing medium succeeds. *)
Lemma append_use_succeeds es p tree branch i rid ph ts dev :
  log_is es (journal p) → Jr.faults (journal p) = [] → Z.of_nat (length es) <= Js.MAX_SAFE_INTEGER →
  Wm.valid i → tree ≠ "" → branch ≠ "" → dev ≠ "" → 0 <= ts →
  ¬ slot_in es (tree, Wm.flat i) →
  let e := Jr.link_entry sha256_hex es (use_entry tree branch i Wm.reserved rid ph None ts dev) in
  ∃ j, append_use sha256_hex tree branch i Wm.reserved rid ph None ts dev p = (Ok tt, set_journal j p) ∧
       log_is (es ++ [e]) j ∧ Jr.faults j = [].
Proof.
  intros Hl Hf Hlen Hv Ht Hb Hd Hts Hno e.
  set (v := use_entry tree branch i Wm.reserved rid ph None ts dev).
  assert (JrSpec.wf_entry v) as Hwf.
  { split_and!; [done..|]. exists (inject_Z ts). split; [done|]. unfold Js.num_lt, Js.of_Z.
    apply negb_false_iff, Qle_bool_iff. unfold Qle. simpl. lia. }
  pose proof (JrSpec.appendOne_run sha256_hex (journal p) es v (proj1 Hl) (proj2 Hl)) as Hrun.
  rewrite JrSpec.validateEntry_cloneEntry, admit_fresh in Hrun by done. cbv zeta in Hrun.
  rewrite (next_sequence_free _ es), Hf in Hrun by (done || apply (proj2 Hl)). change (write_refused []) with false in Hrun.
  cbv iota in Hrun.
  set (j := Jr.mkJournal _ _ _ _) in Hrun. exists j.
  assert (append_use sha256_hex tree branch i Wm.reserved rid ph None ts dev p = (Ok tt, set_journal j p)) as Happ.
  { unfold append_use, wm_lift, mbind, M_bind, mlift. rewrite Wm.flatIndex_valid by done.
    unfold jr, zoom. unfold v, use_entry in Hrun. by rewrite Hrun. }
  split; [done|]. destruct (append_use_Ok _ _ _ _ _ _ _ _ _ _ _ es Happ Hl Hlen) as (j' & _ & Ej & _ & Ho).
  assert (j' = j) as -> by (destruct p; unfold set_journal in Ej; simpl in Ej; congruence).
  fold v in Ho. destruct Ho as [(latest & Hadm & _)|(_ & Hlog & _)]; [|done].
  rewrite admit_fresh in Hadm by done. done.
Qed.

Lemma wm_run {A} (m : Wm.Store A) p r w :
  m (watermark p) = (r, w) →
  wm m p = (match r with Ok a => Ok a | Err e => Err (WmError e) end, set_watermark w p).
Proof. intros H. unfold wm. by rewrite zoom_run, H. Qed.

Lemma bind_run {S E A B} (m : M S E A) (f : A → M S E B) s a s' :
  m s = (Ok a, s') → (m ≫= f) s = f a s'.
Proof. intros H. unfold mbind, M_bind. by rewrite H. Qed.

Lemma bind_run_Err {S E A B} (m : M S E A) (f : A → M S E B) s e s' :
  m s = (Err e, s') → (m ≫= f) s = (Err e, s').
Proof. intros H. unfold mbind, M_bind. by rewrite H. Qed.

Lemma save_run lease (st : Ls.LeaseStore) :
  Ls.faults st = [] →
  ∃ l, Ls.save lease st = (Ok tt, l) ∧ Ls.faults l = [] ∧
       Ls.leases l = Js.map_set (Ls.leaseId lease) lease (Ls.leases st).
Proof.
  intros Hf. unfold Ls.save, Ls.saveUnlocked, mbind, M_bind, mget, mmodify, mrollback, Ls.persist.
  simpl. rewrite Hf. simpl. by eexists.
Qed.

Definition plain_params (params : ReserveParams) : Prop :=
  rp_treeId params ≠ "" ∧ rp_branchId params ≠ Some "" ∧ rp_deviceId params = None.

(** Reserving a free leaf chosen by the allocator, over a willing medium. *)
Lemma reserve_specific_succeeds now rid params i p es s raw :
  ready p es s raw → plain_params params → 0 <= now → Z.of_nat (length es) <= Js.MAX_SAFE_INTEGER →
  Wm.valid i → is_Some (s !! rp_treeId params) → ¬ Wm.used s (rp_treeId params) (Wm.flat i) →
  ∃ p' e s', reserveSpecificKeyUseUnlocked sha256_hex now rid params i p =
      (Ok (mkReservation rid i (now + default 120000 (rp_ttlMs params))), p') ∧
    ready p' (es ++ [e]) s' s' ∧ Wm.used_le s s' ∧ Wm.used s' (rp_treeId params) (Wm.flat i) ∧
    Ls.get rid (leaseStore p') = Some (Ls.mkLease rid rid (Some (rp_treeId params)) i
      (now + default 120000 (rp_ttlMs params)) Ls.active now None (default 120000 (rp_ttlMs params))).
Proof.
  intros [Hi Hl Hs Hw [Hwi Hd] Hu (Hf1 & Hf2 & Hf3) Hc Hdev] (Ht & Hb & Hp) Hnow Hlen Hv [t Htree] Hno.
  set (tree := rp_treeId params) in *. set (ttl := default 120000 (rp_ttlMs params)).
  assert (Hwt : Wm.wf_tree t) by (by eapply (proj1 Hw)).
  unfold reserveSpecificKeyUseUnlocked. fold tree ttl.
  rewrite (bind_run _ _ _ _ _ (initialize_done now p Hi)); cbv beta.
  (* the leaf is free *)
  assert (Wm.isUnavailable tree i (watermark p) = (Ok false, watermark p)) as Hfree.
  { unfold Wm.isUnavailable, Wm.ensureInit, mbind, M_bind. rewrite Hs. rewrite Htree. simpl.
    rewrite (Wm.flatIndex_valid i Hv), (Wm.flatIndex_valid _ (proj1 Hwt)). simpl.
    unfold mlift. f_equal. f_equal. unfold Wm.used, Wm.used_tree in Hno. rewrite Htree in Hno.
    apply orb_false_iff. rewrite bool_decide_eq_false. split; [|tauto]. apply Z.ltb_ge.
    destruct (Z.lt_ge_cases (Wm.flat i) (Wm.flat (Wm.cursor t))); [tauto|done]. }
  rewrite (bind_run _ _ _ _ _ (wm_run _ p _ _ Hfree)); cbv beta.
  replace (set_watermark (watermark p) p) with p by (by destruct p).
  rewrite (bind_run _ _ p tt p) by done; cbv beta. rewrite Hp.
  rewrite (bind_run _ _ p tt p) by done; cbv beta.
  assert (wm_lift (Wm.flatIndex i) p = (Ok (Wm.flat i), p)) as Hfl
    by (unfold wm_lift; by rewrite (Wm.flatIndex_valid i Hv)).
  rewrite (bind_run _ _ _ _ _ Hfl); cbv beta.
  rewrite (bind_run _ _ p true p) by (unfold conditional_claim; by rewrite Hc).
  rewrite (bind_run _ _ p tt p) by done; cbv beta. rewrite (bind_run _ _ p p p) by done.
  destruct (append_use_succeeds es p tree (default "default"%string (rp_branchId params)) i rid
    (rp_payloadHash params) now (deviceId p)) as (j & Happ & Hlog & Hjf); try done.
  { destruct (rp_branchId params); [simpl; congruence|done]. }
  { intros (e & He & Het & Hew). simpl in Het, Hew. apply Hno. rewrite <- Hew, <- Het. by apply Hu. }
  set (e := Jr.link_entry _ _ _) in Hlog. simpl.
  rewrite (bind_run _ _ _ _ _ Happ); cbv beta.
  destruct (WmSpec.markUnavailable_run tree i Wm.reserved (watermark p) s Hs) as (t' & Hm & Hwt' & Hut & Hle);
    [by apply (proj1 Hw)|done|by rewrite Hf1|].
  rewrite (bind_run _ _ _ _ _ (wm_run _ (set_journal j p) _ _ Hm)); cbv beta.
  set (lease := Ls.mkLease _ _ _ _ _ _ _ _ _).
  destruct (save_run lease (leaseStore p)) as (l & Hsv & Hlf & Hll); [done|].
  rewrite (bind_run _ _ _ tt (set_leaseStore l (set_watermark _ (set_journal j p))))
    by (unfold ls; rewrite zoom_run; simpl; by rewrite Hsv).
  eexists _, e, (<[tree := t']> s). split; [reflexivity|].
  assert (Wm.used_le s (<[tree := t']> s)) as Hle2.
  { apply WmSpec.used_le_insert. intros f Hf. apply Hle. by apply WmSpec.used_default. }
  assert (Wm.used (<[tree := t']> s) tree (Wm.flat i)) as Hu2 by (apply WmSpec.used_insert; by left).
  split; [|split_and!; [done..|]].
  2: { simpl. unfold Ls.get. rewrite Hll. simpl. apply map_get_set_eq. }
  split; simpl; try done.
  - assert (Wm.wf_state (<[tree := t']> s)).
    { apply map_Forall_insert_2; [done|]. by apply (proj1 Hw). }
    split; simpl; [by intros ? [= <-]|]. by intros ? [= <-].
  - intros e' [Hin|Hin%list_elem_of_singleton]%elem_of_app; [by apply Hle2, Hu|]. subst e'. done.
  - by rewrite Hf1.
Qed.

(** The whole call: reconcile with the medium, choose, reserve. *)
Lemma reserve_key_use_run now rid params p es s raw :
  ready p es s raw → plain_params params → 0 <= now → Z.of_nat (length es) <= Js.MAX_SAFE_INTEGER →
  let tree := rp_treeId params in
  match reserveKeyUse sha256_hex now rid params p with
  | (Ok r, p') =>
      Wm.valid (r_indices r) ∧ ¬ Wm.used s tree (Wm.flat (r_indices r)) ∧
      ¬ Wm.used raw tree (Wm.flat (r_indices r)) ∧
      (∀ f, 0 <= f < Wm.flat (r_indices r) → Wm.used s tree f ∨ Wm.used raw tree f) ∧
      ∃ e s', ready p' (es ++ [e]) s' s' ∧ Wm.used_le s s' ∧ Wm.used s' tree (Wm.flat (r_indices r)) ∧
        Ls.get rid (leaseStore p') = Some (Ls.mkLease rid rid (Some tree) (r_indices r)
          (r_expiresAt r) Ls.active now None (default 120000 (rp_ttlMs params)))
  | (Err e, _) =>
      e = WmError (Wm.WatermarkExhaustedError tree) ∧
      ∀ f, 0 <= f < Wm.CAPACITY_PER_TREE → Wm.used s tree f ∨ Wm.used raw tree f
  end.
Proof.
  intros Hrdy Hpp Hnow Hlen tree.
  pose proof Hrdy as [Hi Hl Hs Hw [Hwi Hd] Hu (Hf1 & Hf2 & Hf3) Hc Hdev].
  unfold reserveKeyUse. rewrite (bind_run _ _ _ _ _ (initialize_done now p Hi)).
  destruct (WmSpec.refresh_run (watermark p) s raw Hwi Hs Hw Hd) as (s2 & Hrf & Hws2 & Hus2).
  rewrite (bind_run _ _ _ _ _ (wm_run _ p _ _ Hrf)); cbv beta.
  set (w2 := Wm.set_state s2 (watermark p)) in *. set (p2 := set_watermark w2 p).
  assert (Hs2 : Wm.state w2 = Some s2) by done.
  assert (Hw2 : Wm.wf_store w2) by (split; [by intros ? [= <-]|apply Hw]).
  pose proof (WmSpec.getNextIndices_run tree w2 s2 Hs2) as Hrun. cbv zeta in Hrun. fold tree.
  pose proof (WmSpec.getNextIndices_spec tree w2 s2 Hs2 Hw2) as Hspec. cbv zeta in Hspec.
  set (t := default (Wm.emptyTree tree) (s2 !! tree)) in *.
  assert (Hunion : ∀ f, 0 <= f → Wm.used_tree t f → Wm.used s tree f ∨ Wm.used raw tree f).
  { intros f Hf0 Hf. apply Hus2. unfold Wm.used. subst t. destruct (s2 !! tree) as [t2|]; [done|].
    apply WmSpec.used_emptyTree in Hf. lia. }
  destruct (Wm.getNextIndices tree w2).1 as [i|e] eqn:Hres.
  - destruct Hspec as (Hv & Hge & Hun & Hbelow).
    rewrite (bind_run _ _ _ _ _ (wm_run _ p2 _ _ Hrun)); cbv beta.
    set (s3 := <[tree := t]> s2). set (p3 := set_watermark _ p2).
    assert (Hnt : ¬ Wm.used_tree t (Wm.flat i)).
    { intros [?|[r Hr]]; [lia|congruence]. }
    assert (Hle23 : Wm.used_le s2 s3).
    { apply WmSpec.used_le_insert. intros f. apply WmSpec.used_default. }
    assert (Hrdy3 : ready p3 es s3 raw).
    { split; simpl; try done.
      - split; [|apply Hw]. intros s4 [= <-]. apply map_Forall_insert_2; [|done].
        by apply WmSpec.wf_default.
      - intros e He. apply Hle23, Hus2. left. by apply Hu. }
    destruct (reserve_specific_succeeds now rid params i p3 es s3 raw Hrdy3 Hpp Hnow Hlen Hv)
      as (p' & e & s' & -> & Hrdy' & Hle & Hused & Hget).
    + exists t. apply lookup_insert_eq.
    + intros Hu3. apply WmSpec.used_insert in Hu3 as [[_ ?]|[? _]]; done.
    + assert (Hnu : ¬ Wm.used s2 tree (Wm.flat i)) by (intros H%WmSpec.used_default; done).
      simpl. split; [done|]. rewrite Hus2 in Hnu. split; [tauto|]. split; [tauto|]. split.
      * intros f Hf. apply Hunion; [lia|]. unfold Wm.used_tree.
        destruct (decide (f < Wm.flat (Wm.cursor t))); [by left|]. right. apply Hbelow. lia.
      * exists e, s'. split_and!; [done| |done|done].
        transitivity s3; [|done]. transitivity s2; [|done]. intros id f Hf. apply Hus2. by left.
  - rewrite (bind_run_Err _ _ _ _ _ (wm_run _ p2 _ _ Hrun)). destruct Hspec as [-> Hall].
    split; [done|]. intros f Hf. apply Hunion; [lia|]. unfold Wm.used_tree.
    destruct (decide (f < Wm.flat (Wm.cursor t))); [by left|]. right. apply Hall. lia.
Qed.

(** ** Outcomes are final *)

(** [m] throws at [p] and leaves the journal as it is. *)
Definition refused {A} (m : Provider A) (p : LocalLeaseProvider) : Prop :=
  (∃ e, (m p).1 = Err e) ∧ journal (m p).2 = journal p.

Lemma refused_bind {A B} (m : Provider A) (f : A → Provider B) p :
  quiet m → (∀ a p', m p = (Ok a, p') → journal p' = journal p → initialized p' = initialized p →
                     refused (f a) p') →
  refused (m ≫= f) p.
Proof.
  intros Hq Hf. destruct (Hq p) as [Hj Hi]. unfold refused, mbind, M_bind.
  destruct (m p) as [[a|e] p'] eqn:E; simpl in *; [|by split; [eexists|]].
  destruct (Hf a p' eq_refl Hj Hi) as [[e He] Hj']. rewrite He, Hj', Hj. by split; [eexists|].
Qed.

Lemma refused_run {A B} (m : Provider A) (f : A → Provider B) p a p' :
  m p = (Ok a, p') → journal p' = journal p → refused (f a) p' → refused (m ≫= f) p.
Proof. intros Hm Hj [He Hj']. unfold refused. rewrite (bind_run _ _ _ _ _ Hm). by rewrite Hj', Hj. Qed.

Lemma refused_throw {B} b (e : LpError) (f : unit → Provider B) p :
  b = true → refused (mthrow_if b e ≫= f) p.
Proof. intros ->. by split; [eexists|]. Qed.

Lemma getByReservation_run id p :
  Jr.initialized (journal p) = true →
  getByReservation id p = (Ok (Jr.latest_of id (Jr.entries (journal p))), p).
Proof.
  intros Hi. unfold getByReservation, jr. rewrite zoom_run.
  unfold Jr.getByReservation, Jr.ensureInitialized, mbind, M_bind, mget, mthrow_if, mlift.
  rewrite Hi. simpl. by destruct p.
Qed.

Lemma quiet_find_lease id : quiet (find_lease id).
Proof. intros p. done. Qed.
Hint Resolve quiet_find_lease : provider.

(** The common start of commit and burn. *)
Lemma refused_settle {B} now id
    (k : Ls.StoredLease → option Jr.JournalEntry → LocalLeaseProvider → Provider B) p :
  initialized p = true → Jr.initialized (journal p) = true →
  (∀ lease q p', refused (k lease (Jr.latest_of id (Jr.entries (journal p))) q) p') →
  refused (_ ← initialize sha256_hex now; _ ← wm Wm.refresh; lease ← find_lease id;
           latest ← getByReservation id; q ← mget; k lease latest q) p.
Proof.
  intros Hi Hji Hk. apply (refused_run _ _ _ _ _ (initialize_done now p Hi)); [done|].
  apply refused_bind; [auto with provider|]. intros _ p1 _ Hj _.
  apply refused_bind; [auto with provider|]. intros lease p2 _ Hj2 _.
  eapply refused_run; [apply getByReservation_run; congruence|done|]. rewrite Hj2, Hj.
  eapply refused_run; [done|done|]. apply Hk.
Qed.

Lemma burn_refused now id p e :
  initialized p = true → Jr.initialized (journal p) = true →
  Jr.latest_of id (Jr.entries (journal p)) = Some e → Jr.status e = Wm.committed →
  refused (burnReservation sha256_hex now id) p.
Proof.
  intros Hi Hji Hl Hs. unfold burnReservation. apply (refused_settle now id); [done..|].
  intros lease q p'. rewrite Hl. simpl. rewrite Hs. rewrite bool_decide_eq_false_2 by done.
  apply refused_throw. done.
Qed.

Lemma commit_refused now id tx p e :
  initialized p = true → Jr.initialized (journal p) = true →
  Jr.latest_of id (Jr.entries (journal p)) = Some e →
  (Jr.status e = Wm.committed ∧ Jr.txId e ≠ Some tx) ∨ Jr.status e = Wm.burned →
  refused (commitKeyUse sha256_hex now id tx) p.
Proof.
  intros Hi Hji Hl Hs. unfold commitKeyUse. apply (refused_settle now id); [done..|].
  intros lease q p'. rewrite Hl. simpl. destruct Hs as [[Hs Htx]|Hs]; rewrite Hs.
  - rewrite bool_decide_eq_true_2 by done. apply refused_throw. apply negb_true_iff.
    by apply bool_decide_eq_false.
  - rewrite bool_decide_eq_false_2 by done. by apply refused_throw.
Qed.

(** The entry a settling append leaves as the latest of its reservation. *)
Lemma append_use_latest tree branch i st id ph tx ts dev p p' es :
  append_use sha256_hex tree branch i st id ph tx ts dev p = (Ok tt, p') →
  log_is es (journal p) → Z.of_nat (length es) <= Js.MAX_SAFE_INTEGER → st ≠ Wm.reserved →
  ∃ j e, p' = set_journal j p ∧ Jr.initialized j = true ∧
    Jr.latest_of id (Jr.entries j) = Some e ∧ Jr.status e = st ∧
    (st = Wm.committed → Jr.txId e = tx).
Proof.
  intros H Hl Hlen Hst. eapply append_use_Ok in H as (j & _ & -> & Hi & Ho); [|done..].
  exists j. destruct Ho as [(latest & Hadm & _ & Hes)|(_ & _ & Hes)].
  - exists latest. rewrite Hes. apply JrSpec.admit_entry_latest in Hadm as (Hlat & Hs & Htx).
    simpl in *. split_and!; try done. by apply Hlat.
  - exists (Jr.link_entry sha256_hex es (use_entry tree branch i st id ph tx ts dev)).
    split_and!; [done|done| |done|done]. rewrite Hes. unfold Jr.latest_of. rewrite reverse_snoc. simpl.
    by rewrite bool_decide_eq_true_2.
Qed.

Lemma commit_Ok now id tx p p' es :
  initialized p = true → log_is es (journal p) → Z.of_nat (length es) <= Js.MAX_SAFE_INTEGER →
  commitKeyUse sha256_hex now id tx p = (Ok tt, p') →
  initialized p' = true ∧ Jr.initialized (journal p') = true ∧
  ∃ e, Jr.latest_of id (Jr.entries (journal p')) = Some e ∧ Jr.status e = Wm.committed ∧
       Jr.txId e = Some tx.
Proof.
  intros Hi [Hji Hr] Hlen H. unfold commitKeyUse in H. rewrite (bind_run _ _ _ _ _ (initialize_done now p Hi)) in H.
  apply mbind_Ok in H as (u & p1 & Hw & H). apply wm_Ok in Hw as (w & _ & ->).
  apply mbind_Ok in H as (lease & p1 & Hfl & H). injection Hfl as _ <-.
  rewrite (bind_run _ _ _ _ _ (getByReservation_run id (set_watermark w p) Hji)) in H. simpl in H.
  apply mbind_Ok in H as (q & p1 & Hg & H). injection Hg as <- <-.
  set (latest := Jr.latest_of id (Jr.entries (journal p))) in *.
  case_bool_decide as Hst.
  - destruct latest as [e|] eqn:Hl; simpl in Hst; [|done].
    apply mbind_Ok in H as (u1 & p1 & Ht & H). apply mthrow_if_Ok in Ht as [Htx ->].
    apply negb_false_iff, bool_decide_eq_true in Htx. simpl in Htx.
    apply mbind_Ok in H as (u2 & p1 & Ht & H). apply wm_Ok in Ht as (w1 & _ & ->).
    assert (journal p' = journal p ∧ initialized p' = initialized p) as [Hj Hi'].
    { destruct (negb _); [apply ls_Ok in H as (l & _ & ->); done|by injection H as <-]. }
    rewrite Hj, Hi'. split_and!; [done..|]. exists e. split_and!; [done|congruence|done].
  - apply mbind_Ok in H as (u1 & p1 & Ht & H). apply mthrow_if_Ok in Ht as [_ ->].
    apply mbind_Ok in H as ([] & p1 & Ha & H).
    eapply (append_use_latest _ _ _ _ _ _ _ _ _ _ _ es) in Ha as (j & e & -> & Hij & Hle & Hse & Htx);
      [|by split|done|done].
    apply mbind_Ok in H as (u2 & p1 & Ht & H). apply wm_Ok in Ht as (w1 & _ & ->).
    apply ls_Ok in H as (l & _ & ->). simpl. split_and!; [done..|].
    exists e. split_and!; [done..|by apply Htx].
Qed.

Lemma burn_Ok now id p p' es :
  initialized p = true → log_is es (journal p) → Z.of_nat (length es) <= Js.MAX_SAFE_INTEGER →
  burnReservation sha256_hex now id p = (Ok tt, p') →
  initialized p' = true ∧ Jr.initialized (journal p') = true ∧
  ∃ e, Jr.latest_of id (Jr.entries (journal p')) = Some e ∧ Jr.status e = Wm.burned.
Proof.
  intros Hi [Hji Hr] Hlen H. unfold burnReservation in H. rewrite (bind_run _ _ _ _ _ (initialize_done now p Hi)) in H.
  apply mbind_Ok in H as (u & p1 & Hw & H). apply wm_Ok in Hw as (w & _ & ->).
  apply mbind_Ok in H as (lease & p1 & Hfl & H). injection Hfl as _ <-.
  rewrite (bind_run _ _ _ _ _ (getByReservation_run id (set_watermark w p) Hji)) in H. simpl in H.
  apply mbind_Ok in H as (q & p1 & Hg & H). injection Hg as <- <-.
  set (latest := Jr.latest_of id (Jr.entries (journal p))) in *.
  case_bool_decide as Hst.
  - destruct latest as [e|] eqn:Hl; simpl in Hst; [|done].
    apply mbind_Ok in H as (u2 & p1 & Ht & H). apply wm_Ok in Ht as (w1 & _ & ->).
    assert (journal p' = journal p ∧ initialized p' = initialized p) as [Hj Hi'].
    { destruct (negb _); [apply ls_Ok in H as (l & _ & ->); done|by injection H as <-]. }
    rewrite Hj, Hi'. split_and!; [done..|]. exists e. split; [done|congruence].
  - apply mbind_Ok in H as (u1 & p1 & Ht & H). apply mthrow_if_Ok in Ht as [_ ->].
    apply mbind_Ok in H as ([] & p1 & Ha & H).
    eapply (append_use_latest _ _ _ _ _ _ _ _ _ _ _ es) in Ha as (j & e & -> & Hij & Hle & Hse & Htx);
      [|by split|done|done].
    apply mbind_Ok in H as (u2 & p1 & Ht & H). apply wm_Ok in Ht as (w1 & _ & ->).
    apply ls_Ok in H as (l & _ & ->). simpl. split_and!; [done..|]. by exists e.
Qed.

(** ** Providers over distinct adapter objects *)

(** The lock of the journal belongs to one adapter object.  Providers over different
    objects interleave; what they share for sure is the compare-and-set. *)
Definition claim_leaf (now : Z) (rid : string) (params : ReserveParams) (i : Wm.SigningIndices) : Provider Z :=
  _ ← initialize sha256_hex now;
  let tree := rp_treeId params in
  taken ← wm (Wm.isUnavailable tree i);
  _ ← mthrow_if taken (IndicesUnavailableError tree i);
  _ ← mlift (match rp_deviceId params with
             | Some d =>
                 match (if String.eqb d "" then None else getDeviceRange d) with
                 | Some (lo, hi) =>
                     throw_if ((Wm.addressIndex i <? lo) || (Wm.addressIndex i >? hi))
                       (DeviceRangeViolationError (Wm.addressIndex i) lo hi)
                 | None => Ok tt
                 end
             | None => Ok tt
             end);
  f ← wm_lift (Wm.flatIndex i);
  applied ← conditional_claim (claim_key tree f) (mkClaim rid (rp_deviceId params) now);
  _ ← mthrow_if (negb applied) (IndicesUnavailableError tree i);
  mret f.
Definition record_leaf (now : Z) (rid : string) (params : ReserveParams) (i : Wm.SigningIndices)
    : Provider LeaseReservation :=
  let tree := rp_treeId params in
  let ttlMs := default 120000 (rp_ttlMs params) in
  p ← mget;
  _ ← append_use sha256_hex tree (default "default"%string (rp_branchId params)) i Wm.reserved rid
        (rp_payloadHash params) None now (default (deviceId p) (rp_deviceId params));
  _ ← wm (Wm.markUnavailable tree i Wm.reserved);
  _ ← ls (Ls.save (Ls.mkLease rid rid (Some tree) i (now + ttlMs) Ls.active now None ttlMs));
  mret (mkReservation rid i (now + ttlMs)).

(** A reservation that returned has claimed its leaf before it recorded it. *)
Lemma reserve_claims now rid params i p r p' :
  reserveSpecificKeyUseUnlocked sha256_hex now rid params i p = (Ok r, p') →
  r_indices r = i ∧ ∃ p1, claim_leaf now rid params i p = (Ok (Wm.flat i), p1) ∧ record_leaf now rid params i p1 = (Ok r, p').
Proof.
  intros H. unfold reserveSpecificKeyUseUnlocked in H. unfold claim_leaf.
  do 4 (let E := fresh in apply mbind_Ok in H as (? & ? & E & H); rewrite (bind_run _ _ _ _ _ E)).
  apply mbind_Ok in H as (f & p1 & Hf & H). rewrite (bind_run _ _ _ _ _ Hf).
  apply wm_lift_Ok in Hf as [[_ ->]%Wm.flatIndex_Ok _].
  do 2 (let E := fresh in apply mbind_Ok in H as (? & ? & E & H); rewrite (bind_run _ _ _ _ _ E)).
  split; [|by eexists].
  do 4 (apply mbind_Ok in H as (? & ? & _ & H)). by injection H as <- _.
Qed.

(** What leaves the claims alone. *)
Definition unclaiming {A} (m : Provider A) : Prop := ∀ p, cas (m p).2 = cas p.
Lemma unclaiming_wm {A} (m : Wm.Store A) : unclaiming (wm m).
Proof. intros p. unfold wm. by rewrite zoom_run. Qed.
Lemma unclaiming_ls {A} (m : Ls.Store A) : unclaiming (ls m).
Proof. intros p. unfold ls. by rewrite zoom_run. Qed.
Lemma unclaiming_jr {A} (m : Jr.Journal A) : unclaiming (jr m).
Proof. intros p. unfold jr. by rewrite zoom_run. Qed.
Lemma unclaiming_lift {A} (r : result LpError A) : unclaiming (mlift r).
Proof. done. Qed.
Lemma unclaiming_wm_lift {A} (r : result Wm.Error A) : unclaiming (wm_lift r).
Proof. done. Qed.
Lemma unclaiming_get : unclaiming (mget : Provider _).
Proof. done. Qed.
Lemma unclaiming_ret {A} (a : A) : unclaiming (mret a).
Proof. done. Qed.
Lemma unclaiming_bind {A B} (m : Provider A) (f : A → Provider B) :
  unclaiming m → (∀ a, unclaiming (f a)) → unclaiming (m ≫= f).
Proof.
  intros Hm Hf p. specialize (Hm p). unfold mbind, M_bind. destruct (m p) as [[a|e] p1]; simpl in *; [|done].
  by rewrite Hf.
Qed.
Lemma unclaiming_each {A} (l : list A) f : (∀ a, unclaiming (f a)) → unclaiming (each l f).
Proof. intros Hf. induction l as [|a l IH]; [done|]. by apply unclaiming_bind. Qed.
Hint Resolve unclaiming_wm unclaiming_ls unclaiming_jr unclaiming_lift unclaiming_wm_lift unclaiming_get unclaiming_ret : provider.
Ltac unclaims :=
  repeat first
    [ progress intros
    | solve [eauto with provider]
    | lazymatch goal with
      | |- unclaiming (_ ≫= _) => apply unclaiming_bind
      | |- unclaiming (each _ _) => apply unclaiming_each
      | |- unclaiming (if ?b then _ else _) => destruct b
      | |- unclaiming match ?x with _ => _ end => destruct x
      end ].
Lemma unclaiming_append_use tree branch i st rid ph tx ts dev :
  unclaiming (append_use sha256_hex tree branch i st rid ph tx ts dev).
Proof. unfold append_use. unclaims. Qed.
Lemma unclaiming_latest id : unclaiming (getByReservation id).
Proof. apply unclaiming_jr. Qed.
Hint Resolve unclaiming_append_use unclaiming_latest : provider.
Lemma unclaiming_initialize now : unclaiming (initialize sha256_hex now).
Proof.
  unfold initialize, initializeOnce, reconcileDurableSafetyState, recoverExpiredReservations, burnUnresolvedReservations,
    reconcile_slot, reconcile_reservation, reconcile_lease, recover_lease, burn_lease. unclaims.
Qed.
Hint Resolve unclaiming_initialize : provider.

(** From the claims [st], a leaf that is returned was free and is claimed; no claim is lost. *)
Definition claims_leaf (tree : string) (st : CasStore) (run : result LpError Z * LocalLeaseProvider) : Prop :=
  ∃ st', cas run.2 = Some st' ∧ claims st ⊆ claims st' ∧
    match run.1 with
    | Ok f => 0 <= f ∧ claims st !! claim_key tree f = None ∧ is_Some (claims st' !! claim_key tree f)
    | Err _ => True
    end.
Lemma claims_step {A} tree st (m : Provider A) f p :
  unclaiming m → cas p = Some st →
  (∀ a p1, cas p1 = Some st → m p = (Ok a, p1) → claims_leaf tree st (f a p1)) → claims_leaf tree st ((m ≫= f) p).
Proof.
  intros Hm Hp Hf. specialize (Hm p). unfold mbind, M_bind. destruct (m p) as [[a|e] p1]; simpl in Hm.
  - apply Hf; [congruence|done].
  - exists st. split; [simpl; congruence|by split].
Qed.
Lemma claim_leaf_claims now rid params i p st :
  cas p = Some st → claims_leaf (rp_treeId params) st (claim_leaf now rid params i p).
Proof.
  intros Hp. unfold claim_leaf. do 4 (apply claims_step; [unclaims|done|]; intros ? ? ? _; clear dependent p; rename select LocalLeaseProvider into p).
  apply claims_step; [unclaims|done|]. intros f p1 Hp1 [[Hv ->]%Wm.flatIndex_Ok _]%wm_lift_Ok.
  unfold mbind at 1, M_bind at 1. unfold conditional_claim. rewrite Hp1. set (k := claim_key _ _).
  destruct (claims st !! k) as [c|] eqn:Ek; [by exists st|].
  destruct (write_refused (cas_faults st)); simpl; [by eexists|]. eexists. split; [done|]. simpl. split; [by apply insert_subseteq|].
  split; [by apply Wm.flat_bounds|]. split; [done|]. by rewrite lookup_insert_eq.
Qed.

(** Claims of calls of any providers, each with any memory and any view of the journal,
    in the order in which the medium takes them; a call that claims may still throw. *)
Record claim_call := mkCall {
  cc_provider : LocalLeaseProvider; cc_now : Z; cc_rid : string; cc_params : ReserveParams; cc_indices : Wm.SigningIndices }.
Definition share_claims (st : CasStore) (p : LocalLeaseProvider) : LocalLeaseProvider :=
  mkProvider (watermark p) (leaseStore p) (journal p) (initialized p) (deviceId p) (Some st).
Fixpoint run_claims (cs : list claim_call) (st : CasStore) : list (string * Z) :=
  match cs with
  | [] => []
  | c :: cs =>
      let '(r, p) := claim_leaf (cc_now c) (cc_rid c) (cc_params c) (cc_indices c) (share_claims st (cc_provider c)) in
      let rest := run_claims cs (default st (cas p)) in
      match r with Ok f => (rp_treeId (cc_params c), f) :: rest | Err _ => rest end
  end.

Lemma claim_key_inj t f t' f' : 0 <= f → 0 <= f' → claim_key t f = claim_key t' f' → t = t' ∧ f = f'.
Proof.
  intros Hf Hf' E. unfold claim_key in E. apply JsText.app_inj_head in E.
  apply colon_split_inj in E as [Ht Hd]; [|by apply JsText.dec_digits..]. split; [done|]. by apply JsText.dec_inj.
Qed.
Lemma run_claims_fresh cs : ∀ st,
  NoDup (run_claims cs st) ∧ Forall (λ s, 0 <= s.2 ∧ claims st !! claim_key s.1 s.2 = None) (run_claims cs st).
Proof.
  induction cs as [|c cs IH]; intros st; simpl; [by split; constructor|].
  pose proof (claim_leaf_claims (cc_now c) (cc_rid c) (cc_params c) (cc_indices c) (share_claims st (cc_provider c)) st eq_refl) as H.
  destruct (claim_leaf _ _ _ _ _) as [r p]. destruct H as (st' & Ep & Hle & Hr). simpl in Ep, Hr. rewrite Ep. simpl.
  destruct (IH st') as [Hn Hall].
  assert (Forall (λ s, 0 <= s.2 ∧ claims st !! claim_key s.1 s.2 = None) (run_claims cs st')) as Hall'.
  { eapply Forall_impl; [exact Hall|]. intros s [Hs Hno]. split; [done|]. by eapply lookup_weaken_None. }
  destruct r as [f|e]; [|done]. destruct Hr as (Hf & Hno & Hin). split; [|by constructor].
  constructor; [|done]. intros Hx. rewrite Forall_forall in Hall. destruct (Hall _ Hx) as [_ Hx']. simpl in Hx'.
  rewrite Hx' in Hin. by destruct Hin.
Qed.

(** A call that returned a leaf claimed it, from the claims it found. *)
Lemma returned_is_claimed now rid params p r p' :
  (reserveKeyUse sha256_hex now rid params p = (Ok r, p')
   ∨ ∃ i, reserveSpecificKeyUse sha256_hex now rid params i p = (Ok r, p')) →
  ∃ p1 p2, cas p1 = cas p ∧ claim_leaf now rid params (r_indices r) p1 = (Ok (Wm.flat (r_indices r)), p2) ∧
    record_leaf now rid params (r_indices r) p2 = (Ok r, p').
Proof.
  assert (∀ A (m : Provider A) q a q', unclaiming m → m q = (Ok a, q') → cas q' = cas q) as Hk.
  { intros A m q a q' Hm E. specialize (Hm q). by rewrite E in Hm. }
  intros [H|[i H]].
  - apply mbind_Ok in H as (u & q & E & H). apply Hk in E; [|unclaims].
    apply mbind_Ok in H as (v & q1 & E1 & H). apply Hk in E1; [|unclaims].
    apply mbind_Ok in H as (i & q2 & E2 & H). apply Hk in E2; [|unclaims].
    apply reserve_claims in H as [-> (q3 & H1 & H2)]. exists q2, q3. split; [congruence|done].
  - apply mbind_Ok in H as (u & q & E & H). apply Hk in E; [|unclaims].
    apply mbind_Ok in H as (v & q1 & E1 & H). apply Hk in E1; [|unclaims].
    apply reserve_claims in H as [-> (q3 & H1 & H2)]. exists q1, q3. split; [congruence|done].
Qed.

End provider.

(** A provider over an empty medium that refuses nothing. *)
Definition sample_provider : LocalLeaseProvider :=
  mkProvider (Wm.mkStore (Some ∅) true (Wm.RawV3 ∅) []) (Ls.mkStore [] true None [])
    (Jr.mkJournal [] true ∅ []) true "dev" None.
Definition sample_params : ReserveParams := mkParams "tree" None None None None.

Lemma sample_provider_ready : ready JrSpec.toy_hash sample_provider [] ∅ ∅.
Proof.
  split; try done; [|set_solver].
  split; intros s [= <-]; apply map_Forall_empty.
Qed.

Lemma sample_params_plain : plain_params sample_params.
Proof. by split_and!. Qed.

(** The medium after one reservation, and a process that restarts on it without
    having written the watermark. *)
Definition sample_after : LocalLeaseProvider :=
  (reserveKeyUse JrSpec.toy_hash 1000 "r1" sample_params sample_provider).2.
Definition sample_restart : LocalLeaseProvider :=
  mkProvider (Wm.mkStore None false (Wm.RawV3 ∅) []) (Ls.mkStore [] false None [])
    (Jr.mkJournal [] false (Jr.storage (journal sample_after)) []) false "dev" None.

Lemma sample_after_initialized : initialized sample_after = true.
Proof. vm_compute. reflexivity. Qed.
Lemma sample_after_log : log_is JrSpec.toy_hash (Jr.entries (journal sample_after)) (journal sample_after).
Proof. split; vm_compute; reflexivity. Qed.
Lemma sample_after_bounded :
  Z.of_nat (length (Jr.entries (journal sample_after))) <= Js.MAX_SAFE_INTEGER.
Proof. vm_compute. discriminate. Qed.

Definition sample_committed : LocalLeaseProvider :=
  (commitKeyUse JrSpec.toy_hash 1500 "r1" "tx" sample_after).2.
Lemma sample_commit_run :
  commitKeyUse JrSpec.toy_hash 1500 "r1" "tx" sample_after = (Ok tt, sample_committed).
Proof. vm_compute. reflexivity. Qed.

(** ** Properties *)

(** C30. No two reservations return the same leaf of a tree where the code keeps them
    apart.  Over one adapter object shared by any number of providers, each with any
    memory (stale, or lost in a crash), and with any other appends in between, the journal's
    lock keeps the leaves apart, and apart from the leaves journalled before.  Over
    distinct adapter objects on a medium with compare-and-set, whatever each provider
    remembers and reads, and however the calls interleave around their claims, no two
    calls claim one leaf, nor one claimed before, and a call that returns a leaf has
    claimed it.  Distinct adapter objects without compare-and-set are kept apart by
    nothing but the refresh of the watermark, and are not covered. *)
Theorem no_leaf_is_reserved_twice sha256_hex :
  (∀ b, Jr.is_hash (sha256_hex b) = true) →
  (∀ evs m es,
     Jr.readPhysicalRecords sha256_hex m.1 = Ok es →
     Z.of_nat (length es) + Z.of_nat (length evs) <= Js.MAX_SAFE_INTEGER →
     NoDup (run_events sha256_hex evs m) ∧
     ∀ tree f, (tree, f) ∈ run_events sha256_hex evs m →
       ∀ e, e ∈ es → Jr.treeId e = tree → Jr.wotsIndex e ≠ f) ∧
  (∀ cs st,
     NoDup (run_claims sha256_hex cs st) ∧
     ∀ tree f, (tree, f) ∈ run_claims sha256_hex cs st → claims st !! claim_key tree f = None) ∧
  (∀ now rid params p r p',
     (reserveKeyUse sha256_hex now rid params p = (Ok r, p')
      ∨ ∃ i, reserveSpecificKeyUse sha256_hex now rid params i p = (Ok r, p')) →
     ∃ p1 p2, cas p1 = cas p ∧
       claim_leaf sha256_hex now rid params (r_indices r) p1 = (Ok (Wm.flat (r_indices r)), p2) ∧
       record_leaf sha256_hex now rid params (r_indices r) p2 = (Ok r, p')).
Proof.
  intros Hf. split; [|split].
  - intros evs m es Hr Hlen. destruct (run_events_fresh sha256_hex Hf evs m es Hr Hlen) as [Hnd Hall].
    split; [done|]. rewrite Forall_forall in Hall. intros tree f Hin e He Ht Hw. apply (Hall _ Hin). by exists e.
  - intros cs st. destruct (run_claims_fresh sha256_hex cs st) as [Hnd Hall]. split; [done|].
    rewrite Forall_forall in Hall. intros tree f Hin. by destruct (Hall _ Hin).
  - intros now rid params p r p'. apply returned_is_claimed.
Qed.

(** Three providers over one object; two over distinct objects that both choose leaf 0. *)
Definition toy_claims : list claim_call :=
  let call rid n := mkCall sample_provider 1000 rid sample_params (Wm.mkIndices 0 0 n) in
  [call "r1"%string 0; call "r2"%string 0; call "r2"%string 1].
Lemma no_leaf_is_reserved_twice_witness :
  let evs := [EvReserve sample_provider 1000 "r1" sample_params; EvReserve sample_provider 1001 "r2" sample_params;
              EvReserve sample_after 1002 "r3" sample_params] in
  run_events JrSpec.toy_hash evs (∅, []) = [("tree"%string, 0); ("tree"%string, 1)] ∧
  NoDup (run_events JrSpec.toy_hash evs (∅, [])) ∧
  run_claims JrSpec.toy_hash toy_claims (mkCas ∅ []) = [("tree"%string, 0); ("tree"%string, 1)] ∧
  NoDup (run_claims JrSpec.toy_hash toy_claims (mkCas ∅ [])).
Proof.
  intros evs. destruct (no_leaf_is_reserved_twice JrSpec.toy_hash JrSpec.toy_hash_format) as (H1 & H2 & _).
  split; [vm_compute; reflexivity|]. split; [|split; [vm_compute; reflexivity|apply H2]].
  by apply (H1 evs (∅, []) []); [vm_compute; reflexivity|vm_compute].
Defined.

(** Write-ahead recovery: when a process that lost its memory initialises
    over a medium, every leaf the journal names is unavailable in its watermark,
    whatever the stored watermark and leases say, and the allocator does not
    return it. *)
Theorem recovery_covers_the_journal sha256_hex now p p' es :
  initialized p = false → restarted (watermark p) → Jr.initialized (journal p) = false →
  Jr.readPhysicalRecords sha256_hex (Jr.storage (journal p)) = Ok es →
  Jr.get_value (Jr.storage (journal p)) Jr.LEGACY_STORAGE_KEY = Js.JNull →
  (∀ b, Jr.is_hash (sha256_hex b) = true) →
  initialize sha256_hex now p = (Ok tt, p') →
  ∃ s, Wm.state (watermark p') = Some s ∧
    ∀ e, e ∈ es → Wm.used s (Jr.treeId e) (Jr.wotsIndex e) ∧
      ∀ i, (Wm.getNextIndices (Jr.treeId e) (watermark p')).1 = Ok i → Wm.flat i ≠ Jr.wotsIndex e.
Proof.
  intros Hi Hw Hji Hr Hl Hf H.
  destruct (recovery_used sha256_hex Hf now p p' es Hi Hw Hji Hr Hl H) as (s & Hs & Hws & Hu).
  exists s. split; [done|]. intros e He. split; [by apply Hu|]. intros i Hnext Heq.
  pose proof (WmSpec.getNextIndices_spec (Jr.treeId e) _ s Hs Hws) as Hspec. rewrite Hnext in Hspec.
  destruct Hspec as (_ & Hge & Hno & _). specialize (Hu e He). apply WmSpec.used_default in Hu.
  rewrite <- Heq in Hu. destruct Hu as [?|[x Hx]]; [lia|congruence].
Qed.

Lemma recovery_covers_the_journal_witness :
  let p' := (initialize JrSpec.toy_hash 2000 sample_restart).2 in
  ∃ s, Wm.state (watermark p') = Some s ∧
    ∀ e, e ∈ Jr.entries (journal sample_after) → Wm.used s (Jr.treeId e) (Jr.wotsIndex e) ∧
      ∀ i, (Wm.getNextIndices (Jr.treeId e) (watermark p')).1 = Ok i → Wm.flat i ≠ Jr.wotsIndex e.
Proof.
  apply (recovery_covers_the_journal JrSpec.toy_hash 2000 sample_restart);
    [reflexivity| |reflexivity|vm_compute; reflexivity|vm_compute; reflexivity
    |apply JrSpec.toy_hash_format|vm_compute; reflexivity].
  split_and!; [reflexivity|reflexivity|]. intros s [= <-]. apply map_Forall_empty.
Defined.

(** Between calls over a medium that refuses no write, a reservation returns
    the least leaf consumed neither in memory nor on the medium, records it in the
    journal, the watermark and the lease map, and leaves the provider ready for the
    next call; it throws only when the tree is exhausted. *)
Theorem reserve_returns_the_least_free_leaf sha256_hex now rid params p es s raw :
  (∀ b, Jr.is_hash (sha256_hex b) = true) →
  ready sha256_hex p es s raw → plain_params params → 0 <= now →
  Z.of_nat (length es) <= Js.MAX_SAFE_INTEGER →
  let tree := rp_treeId params in
  match reserveKeyUse sha256_hex now rid params p with
  | (Ok r, p') =>
      let f := Wm.flat (r_indices r) in
      ¬ Wm.used s tree f ∧ ¬ Wm.used raw tree f ∧
      (∀ g, 0 <= g < f → Wm.used s tree g ∨ Wm.used raw tree g) ∧
      ∃ e s', ready sha256_hex p' (es ++ [e]) s' s' ∧ Wm.used_le s s' ∧ Wm.used s' tree f ∧
        Ls.get rid (leaseStore p') = Some (Ls.mkLease rid rid (Some tree) (r_indices r)
          (r_expiresAt r) Ls.active now None (default 120000 (rp_ttlMs params)))
  | (Err e, _) =>
      e = WmError (Wm.WatermarkExhaustedError tree) ∧
      ∀ f, 0 <= f < Wm.CAPACITY_PER_TREE → Wm.used s tree f ∨ Wm.used raw tree f
  end.
Proof.
  intros Hf Hrdy Hpp Hnow Hlen tree.
  pose proof (reserve_key_use_run sha256_hex Hf now rid params p es s raw Hrdy Hpp Hnow Hlen) as H.
  cbv zeta in H. destruct (reserveKeyUse _ _ _ _ _) as [[r|e] p']; [|done]. by destruct H as [_ H].
Qed.

Lemma reserve_returns_the_least_free_leaf_witness :
  match reserveKeyUse JrSpec.toy_hash 1000 "r1" sample_params sample_provider with
  | (Ok r, p') => ¬ Wm.used ∅ "tree" (Wm.flat (r_indices r))
  | (Err e, _) => e = WmError (Wm.WatermarkExhaustedError "tree")
  end.
Proof.
  pose proof (reserve_returns_the_least_free_leaf JrSpec.toy_hash 1000 "r1" sample_params sample_provider
    [] ∅ ∅ JrSpec.toy_hash_format sample_provider_ready sample_params_plain ltac:(lia) ltac:(vm_compute; discriminate)) as H.
  revert H. generalize (reserveKeyUse JrSpec.toy_hash 1000 "r1" sample_params sample_provider).
  intros [[r|e] p'] H; apply H.
Defined.

(** A settled reservation stays settled: after a commit returned, every later
    burn and every commit for another transaction throws and adds nothing to the
    journal; after a burn returned, so does every commit. *)
Theorem settled_reservation_is_final sha256_hex now id tx p es :
  (∀ b, Jr.is_hash (sha256_hex b) = true) →
  initialized p = true → log_is sha256_hex es (journal p) → Z.of_nat (length es) <= Js.MAX_SAFE_INTEGER →
  (∀ p', commitKeyUse sha256_hex now id tx p = (Ok tt, p') →
     ∀ now', refused (burnReservation sha256_hex now' id) p' ∧
             ∀ tx', tx' ≠ tx → refused (commitKeyUse sha256_hex now' id tx') p') ∧
  (∀ p', burnReservation sha256_hex now id p = (Ok tt, p') →
     ∀ now' tx', refused (commitKeyUse sha256_hex now' id tx') p').
Proof.
  intros Hf Hi Hl Hlen. split; intros p' H.
  - destruct (commit_Ok sha256_hex Hf now id tx p p' es Hi Hl Hlen H) as (Hi' & Hji' & e & He & Hs & Htx).
    intros now'. split; [by eapply burn_refused|]. intros tx' Hne. eapply commit_refused; [done..|].
    left. split; [done|]. congruence.
  - destruct (burn_Ok sha256_hex Hf now id p p' es Hi Hl Hlen H) as (Hi' & Hji' & e & He & Hs).
    intros now' tx'. eapply commit_refused; [done..|]. by right.
Qed.

Lemma settled_reservation_is_final_witness :
  commitKeyUse JrSpec.toy_hash 1500 "r1" "tx" sample_after = (Ok tt, sample_committed) ∧
  refused (burnReservation JrSpec.toy_hash 1600 "r1") sample_committed.
Proof.
  split; [exact sample_commit_run|].
  destruct (settled_reservation_is_final JrSpec.toy_hash 1500 "r1" "tx" sample_after
    (Jr.entries (journal sample_after)) JrSpec.toy_hash_format sample_after_initialized sample_after_log
    sample_after_bounded) as [H _].
  exact (proj1 (H sample_committed sample_commit_run 1600)).
Defined.

End LpSpec.
