(* ===== verification/Canonical.v ===== *)
(** * Canonical JSON (packages/proof/src/canonical.ts)

    The text that every identifier of the SDK hashes: JSON with the members of
    each object sorted by key. *)

From Stdlib Require Import ZArith Lia QArith Ascii String.
From stdpp Require Import base list strings sorting.
From S2P Require Import Prelude JsBase JsText.

Module Cj.
Import Js.

(** [JSON.stringify(v)] on a value that is not an object; [None] is [undefined]. *)
Definition stringify_leaf (v : jsval) : result js_error (option string) :=
  match v with
  | JUndef | JFun _ => Ok None
  | JNull => Ok (Some "null"%string)
  | JBool b => Ok (Some (if b then "true"%string else "false"%string))
  | JNum (NFin q) => Ok (Some (num_to_string (NFin q)))
  | JNum _ => Ok (Some "null"%string)
  | JBig _ => Err TypeError
  | JStr s => Ok (Some (json_string s))
  | _ => Ok None
  end.

(** Members in the order of their keys. *)
Definition key_le {A} (a b : string * A) : Prop := String.le a.1 b.1.
#[global] Instance key_le_dec {A} : RelDecision (@key_le A).
Proof. intros a b. unfold key_le, String.le. apply _. Defined.
#[global] Instance key_le_trans {A} : Transitive (@key_le A).
Proof. intros a b c Hab Hbc. unfold key_le in *. by transitivity (b.1). Qed.
#[global] Instance key_le_total {A} : Total (@key_le A).
Proof. intros a b. unfold key_le. apply (total String.le). Qed.

(** [[a, b].join(',')] prints an [undefined] element as nothing; a template
    literal prints an [undefined] member as the word. *)
Definition element_text (o : option string) : string := default ""%string o.
Definition member_text (o : option string) : string := default "undefined"%string o.

Definition object_text (pairs : list (string * string)) : string :=
  "{" +:+ join_with "," (map (λ kv, json_string kv.1 +:+ ":" +:+ kv.2) (merge_sort key_le pairs)) +:+ "}".

Fixpoint canonicalJson (v : jsval) : result js_error (option string) :=
  match v with
  | JArr _ l =>
      texts ← (fix go (l : list jsval) : result js_error (list string) :=
                 match l with
                 | [] => Ok []
                 | x :: l => t ← canonicalJson x; ts ← go l; Ok (element_text t :: ts)
                 end) l;
      Ok (Some ("[" +:+ join_with "," texts +:+ "]"))
  | JObj _ fields =>
      pairs ← (fix go (fs : list (string * jsval)) : result js_error (list (string * string)) :=
                 match fs with
                 | [] => Ok []
                 | (k, x) :: fs => t ← canonicalJson x; ts ← go fs; Ok ((k, member_text t) :: ts)
                 end) fields;
      Ok (Some (object_text pairs))
  | _ => stringify_leaf v
  end.

(** The text of a member list. *)
Definition member_pairs (fields : list (string * jsval)) : result js_error (list (string * string)) :=
  result_mapM (λ kv, t ← canonicalJson kv.2; Ok (kv.1, member_text t)) fields.

Lemma canonicalJson_obj i fields :
  canonicalJson (JObj i fields) = (pairs ← member_pairs fields; Ok (Some (object_text pairs))).
Proof.
  unfold member_pairs. simpl. f_equal. induction fields as [|[k x] fs IH]; [done|].
  simpl. destruct (canonicalJson x) as [t|e]; [|done]. simpl. by rewrite IH.
Qed.

(** Hashing with a domain prefix: [toHex(sha3_256(utf8(domain + canonicalJson(v))))];
    a top-level [undefined] is concatenated as the word. *)
Definition domainHash (sha3_hex : string → string) (domain : string) (v : jsval) : result js_error string :=
  t ← canonicalJson v; Ok (sha3_hex (utf8 (domain +:+ member_text t))).

End Cj.
