(* ===== verification/CanonicalSpec.v ===== *)
(** * What canonical JSON identifies

    The text of canonical JSON determines the value up to the order of the
    members of its objects: this is what lets its hash stand for the value. *)

From Stdlib Require Import ZArith Lia QArith Ascii String.
From stdpp Require Import base sets list strings sorting.
From S2P Require Import Prelude JsBase JsText Canonical.

Module CjSpec.
Import Js JsText Cj.
#[local] Arguments String.append : simpl nomatch.

(** ** Plain data and its equivalence *)

(** Values made of strings, booleans, [null], safe integers, arrays and objects
    with distinct keys. *)
Fixpoint plain (v : jsval) : Prop :=
  match v with
  | JNull | JBool _ | JStr _ => True
  | JNum n => ∃ z, n = of_Z z ∧ Z.abs z <= MAX_SAFE_INTEGER
  | JArr _ l => (fix all l := match l with [] => True | x :: l => plain x ∧ all l end) l
  | JObj _ fs =>
      NoDup fs.*1 ∧
      (fix all (fs : list (string * jsval)) := match fs with [] => True | kv :: fs => plain kv.2 ∧ all fs end) fs
  | _ => False
  end.

Lemma plain_arr i l : plain (JArr i l) ↔ Forall plain l.
Proof.
  induction l as [|x l IH]; [by simpl|]. rewrite Forall_cons, <- IH. done.
Qed.
Lemma plain_obj i fs : plain (JObj i fs) ↔ NoDup fs.*1 ∧ Forall (λ kv, plain kv.2) fs.
Proof.
  assert (H : ∀ fs, (fix all (fs : list (string * jsval)) :=
    match fs with [] => True | kv :: fs => plain kv.2 ∧ all fs end) fs ↔ Forall (λ kv, plain kv.2) fs).
  { clear. induction fs as [|x l IH]; [done|]. by rewrite Forall_cons, <- IH. }
  simpl. by rewrite H.
Qed.

(** The same value, whatever the order of members and the object identities. *)
Inductive json_equiv : jsval → jsval → Prop :=
| equiv_null : json_equiv JNull JNull
| equiv_bool b : json_equiv (JBool b) (JBool b)
| equiv_num n : json_equiv (JNum n) (JNum n)
| equiv_str s : json_equiv (JStr s) (JStr s)
| equiv_arr i j l l' : Forall2 json_equiv l l' → json_equiv (JArr i l) (JArr j l')
| equiv_obj i j fs fs' gs gs' :
    fs ≡ₚ gs → fs' ≡ₚ gs' →
    Forall2 (λ x y, x.1 = y.1 ∧ json_equiv x.2 y.2) gs gs' → json_equiv (JObj i fs) (JObj j fs').

(** Induction that reaches the elements and members. *)
Lemma jsval_nested_ind (P : jsval → Prop) :
  P JUndef → P JNull → (∀ b, P (JBool b)) → (∀ n, P (JNum n)) → (∀ z, P (JBig z)) → (∀ s, P (JStr s)) →
  (∀ n, P (JFun n)) → (∀ i l, Forall P l → P (JArr i l)) → (∀ i fs, Forall (λ kv, P kv.2) fs → P (JObj i fs)) →
  ∀ v, P v.
Proof.
  intros HU HN HB Hn Hz Hs Hf Ha Ho. fix IH 1. intros [].
  - exact HU.
  - exact HN.
  - apply HB.
  - apply Hn.
  - apply Hz.
  - apply Hs.
  - apply Hf.
  - apply Ha. induction l as [|x l IHl]; constructor; [apply IH | exact IHl].
  - apply Ho. induction fields as [|kv fs IHl]; constructor; [apply IH | exact IHl].
Qed.

(** ** The order of members *)

Lemma member_pairs_perm fs fs' ps :
  fs ≡ₚ fs' → member_pairs fs = Ok ps → ∃ ps', member_pairs fs' = Ok ps' ∧ ps ≡ₚ ps'.
Proof.
  unfold member_pairs. intros Hp. revert ps.
  induction Hp as [|x l l' Hp IH|x y l|l1 l2 l3 H1 IH1 H2 IH2]; simpl; intros ps H.
  - by exists ps.
  - apply result_bind_Ok in H as (t & Ht & H). apply result_bind_Ok in H as (ts & Hts & H). injection H as <-.
    destruct (IH _ Hts) as (ps' & -> & Hps). rewrite Ht. simpl. eexists. split; [done|]. by constructor.
  - apply result_bind_Ok in H as (t & Ht & H). apply result_bind_Ok in H as (ts & Hts & H).
    apply result_bind_Ok in Ht as (t' & Ht' & Ht). injection Ht as <-.
    apply result_bind_Ok in Hts as (u & Hu & Hts). apply result_bind_Ok in Hts as (us & Hus & Hts).
    apply result_bind_Ok in Hu as (u' & Hu' & Hu). injection Hu as <-. injection Hts as <-. injection H as <-.
    rewrite Hu', Ht', Hus. simpl. eexists. split; [done|]. constructor.
  - destruct (IH1 _ H) as (ps' & H' & Hp1). destruct (IH2 _ H') as (ps'' & H'' & Hp2).
    exists ps''. split; [done|]. by transitivity ps'.
Qed.

Lemma member_pairs_keys fs ps : member_pairs fs = Ok ps → ps.*1 = fs.*1.
Proof.
  unfold member_pairs. revert ps. induction fs as [|[k v] fs IH]; intros ps H; simpl in H.
  - by injection H as <-.
  - apply result_bind_Ok in H as (t & Ht & H). apply result_bind_Ok in H as (ts & Hts & H). injection H as <-.
    apply result_bind_Ok in Ht as (t' & _ & Ht). injection Ht as <-. simpl. f_equal. by apply IH.
Qed.

Lemma NoDup_fst_unique {A B} (l : list (A * B)) k v v' :
  NoDup l.*1 → (k, v) ∈ l → (k, v') ∈ l → v = v'.
Proof.
  intros Hnd H1 H2. apply list_elem_of_lookup in H1 as [i Hi]. apply list_elem_of_lookup in H2 as [j Hj].
  assert (i = j) as <-; [|congruence].
  apply (NoDup_lookup _ _ _ k Hnd); by rewrite list_lookup_fmap, ?Hi, ?Hj.
Qed.

(** The text of an object does not depend on the order of its members. *)
Lemma object_text_perm ps ps' : ps ≡ₚ ps' → NoDup ps.*1 → object_text ps = object_text ps'.
Proof.
  intros Hp Hnd. unfold object_text. do 4 f_equal.
  apply (StronglySorted_unique_strong (@key_le string)).
  - intros [k1 v1] [k2 v2] H1 H2 Hle Hge. rewrite merge_sort_Permutation in H1, H2. rewrite <- Hp in H2.
    assert (k1 = k2) as <- by (apply (anti_symm String.le); [exact Hle|exact Hge]).
    f_equal. by eapply NoDup_fst_unique.
  - apply (StronglySorted_merge_sort _).
  - apply (StronglySorted_merge_sort _).
  - by rewrite !merge_sort_Permutation.
Qed.

Lemma canonicalJson_perm i j fs fs' t :
  fs ≡ₚ fs' → NoDup fs.*1 → canonicalJson (JObj i fs) = Ok t → canonicalJson (JObj j fs') = Ok t.
Proof.
  intros Hp Hnd. rewrite !canonicalJson_obj. intros H.
  apply result_bind_Ok in H as (ps & Hps & H). injection H as <-.
  destruct (member_pairs_perm _ _ _ Hp Hps) as (ps' & -> & Hpp). simpl. do 2 f_equal. symmetry.
  apply object_text_perm; [done|]. by rewrite (member_pairs_keys _ _ Hps).
Qed.

(** ** The text of plain data *)

Definition text (v : jsval) : string :=
  match canonicalJson v with Ok (Some t) => t | _ => "" end.
Definition item (kv : string * jsval) : string := json_string kv.1 +:+ ":" +:+ text kv.2.

Lemma merge_sort_map {A B} (f : A → B) (R : relation A) (S : relation B)
    `{!RelDecision R, !RelDecision S} l :
  (∀ a b, R a b ↔ S (f a) (f b)) → merge_sort S (map f l) = map f (merge_sort R l).
Proof.
  intros HRS.
  assert (Hm : ∀ l1 l2, list_merge S (map f l1) (map f l2) = map f (list_merge R l1 l2)).
  { induction l1 as [|a l1 IH1]; induction l2 as [|b l2 IH2]; simpl; try done.
    destruct (decide (R a b)) as [H|H], (decide (S (f a) (f b))) as [H'|H']; simpl;
      try (by exfalso; apply HRS in H' || apply HRS in H; tauto).
    - by rewrite <- (IH1 (b :: l2)).
    - f_equal. exact IH2. }
  assert (Hs : ∀ st x, merge_list_to_stack S (map (fmap (map f)) st) (map f x)
                       = map (fmap (map f)) (merge_list_to_stack R st x)).
  { induction st as [|[y|] st IH]; intros x; simpl; [done| |done]. by rewrite Hm, IH. }
  assert (Hk : ∀ st, merge_stack S (map (fmap (map f)) st) = map f (merge_stack R st)).
  { induction st as [|[y|] st IH]; simpl; [done| |done]. by rewrite IH, Hm. }
  unfold merge_sort. change (@nil (option (list B))) with (map (fmap (map f)) (@nil (option (list A)))).
  generalize (@nil (option (list A))). induction l as [|x l IH]; intros st; simpl; [apply Hk|].
  rewrite <- IH. f_equal. exact (Hs st [x]).
Qed.

Lemma canonicalJson_arr i l :
  canonicalJson (JArr i l) =
  (ts ← result_mapM (λ x, t ← canonicalJson x; Ok (element_text t)) l; Ok (Some ("[" +:+ join_with "," ts +:+ "]"))).
Proof.
  simpl. f_equal. induction l as [|x l IH]; [done|]. simpl.
  destruct (canonicalJson x) as [t|]; simpl; [|done]. by rewrite IH.
Qed.

Definition array_of (l : list jsval) : string := "[" +:+ join_with "," (map text l) +:+ "]".
Definition object_of (fs : list (string * jsval)) : string :=
  "{" +:+ join_with "," (map item (merge_sort key_le fs)) +:+ "}".

Lemma mapM_texts {A B} (f : A → result js_error (option string)) (h : A → option string → B) (g : A → B) l :
  Forall (λ a, ∃ t, f a = Ok (Some t) ∧ h a (Some t) = g a) l →
  result_mapM (λ a, t ← f a; Ok (h a t)) l = Ok (map g l).
Proof.
  induction 1 as [|a l (t & Ht & Hg) _ IH]; [done|]. simpl. rewrite Ht. simpl. rewrite IH. simpl. by rewrite Hg.
Qed.

(** Plain data prints. *)
Lemma plain_prints v : plain v → canonicalJson v = Ok (Some (text v)).
Proof.
  induction v as [| |b|n|z|s|n|i l IH|i fs IH] using jsval_nested_ind; try done; intros Hp.
  - destruct Hp as (z & -> & _). done.
  - apply plain_arr in Hp. unfold text. rewrite canonicalJson_arr.
    rewrite (mapM_texts _ (λ _ o, element_text o) text); [done|].
    rewrite Forall_forall in *. intros x Hx. exists (text x). split; [|done]. apply IH; [done|]. by apply Hp.
  - apply plain_obj in Hp as [_ Hp]. unfold text. rewrite canonicalJson_obj. unfold member_pairs.
    rewrite (mapM_texts (λ kv, canonicalJson kv.2) (λ kv o, (kv.1, member_text o)) (λ kv, (kv.1, text kv.2))); [done|].
    rewrite Forall_forall in *. intros x Hx. exists (text x.2). split; [|done]. apply IH; [done|]. by apply Hp.
Qed.

Lemma text_arr i l : plain (JArr i l) → text (JArr i l) = array_of l.
Proof.
  intros Hp. pose proof (plain_prints _ Hp) as H. rewrite canonicalJson_arr in H.
  apply plain_arr in Hp. rewrite (mapM_texts _ (λ _ o, element_text o) text) in H.
  - simpl in H. by injection H as <-.
  - eapply Forall_impl; [exact Hp|]. intros x Hx. exists (text x). split; [by apply plain_prints|done].
Qed.

Lemma object_text_map fs :
  object_text (map (λ kv : string * jsval, (kv.1, text kv.2)) fs) = object_of fs.
Proof.
  unfold object_text, object_of. rewrite (merge_sort_map _ key_le key_le) by done. by rewrite map_map.
Qed.

Lemma text_obj i fs : plain (JObj i fs) → text (JObj i fs) = object_of fs.
Proof.
  intros Hp. pose proof (plain_prints _ Hp) as H. rewrite canonicalJson_obj in H. unfold member_pairs in H.
  apply plain_obj in Hp as [_ Hp].
  rewrite (mapM_texts (λ kv, canonicalJson kv.2) (λ kv o, (kv.1, member_text o)) (λ kv, (kv.1, text kv.2))) in H.
  - simpl in H. injection H as <-. apply object_text_map.
  - eapply Forall_impl; [exact Hp|]. intros x Hx. exists (text x.2). split; [by apply plain_prints|done].
Qed.

(** ** Numbers *)

Definition num_char (c : ascii) : bool := is_digit c || Ascii.eqb c "-".

Lemma num_to_string_big z : Z.abs z <= MAX_SAFE_INTEGER → num_to_string (of_Z z) = big_to_string z.
Proof.
  intros Hz. unfold big_to_string. destruct (Z.ltb_spec z 0).
  - unfold num_to_string, of_Z. destruct (Qeq_bool (inject_Z z) 0) eqn:E.
    { apply Qeq_bool_iff in E. unfold Qeq in E. simpl in E. lia. }
    simpl. replace (z <? 0) with true by lia. f_equal.
    rewrite <- (num_to_string_of_Z (- z)) by lia. unfold num_to_string, of_Z.
    destruct (Qeq_bool (inject_Z (- z)) 0) eqn:E'.
    { apply Qeq_bool_iff in E'. unfold Qeq in E'. simpl in E'. lia. }
    simpl. by replace (- z <? 0) with false by lia.
  - apply num_to_string_of_Z. lia.
Qed.

Lemma big_to_string_chars z : str_forallb num_char (big_to_string z) = true.
Proof.
  assert (H : ∀ n, 0 <= n → str_forallb num_char (dec n) = true).
  { intros n Hn. eapply str_forallb_impl; [|by apply dec_digits]. intros c Hc. unfold num_char. by rewrite Hc. }
  unfold big_to_string. destruct (Z.ltb_spec z 0); simpl; apply H; lia.
Qed.

Lemma dec_head n : 0 <= n → ∃ c s, dec n = String c s ∧ is_digit c = true.
Proof.
  intros Hn. pose proof (dec_digits n Hn) as H. destruct (dec n) as [|c s] eqn:E; [by apply dec_nonempty in E|].
  simpl in H. apply andb_true_iff in H as [H _]. by exists c, s.
Qed.

Lemma big_to_string_head z : ∃ c s, big_to_string z = String c s ∧ num_char c = true.
Proof.
  unfold big_to_string, num_char. destruct (Z.ltb_spec z 0).
  - exists "-"%char, (dec (- z)). done.
  - destruct (dec_head z) as (c & s & -> & Hc); [lia|]. exists c, s. by rewrite Hc.
Qed.

Lemma big_to_string_inj y z : big_to_string y = big_to_string z → y = z.
Proof.
  unfold big_to_string. destruct (Z.ltb_spec y 0), (Z.ltb_spec z 0); intros E.
  - injection E as E. apply dec_inj in E; lia.
  - destruct (dec_head z) as (c & s & Hc & Hd); [lia|]. rewrite Hc in E. injection E as <- _. done.
  - destruct (dec_head y) as (c & s & Hc & Hd); [lia|]. rewrite Hc in E. injection E as -> _. done.
  - apply dec_inj in E; lia.
Qed.

(** ** The text determines the value *)

(** What may follow a value: not a character of a number. *)
Definition ends (r : string) : Prop := match r with String c _ => num_char c = false | _ => True end.

Definition tail_text {A} (f : A → string) (close : ascii) (l : list A) (r : string) : string :=
  match l with [] => String close r | _ => String "," (join_with "," (map f l) +:+ String close r) end.

Lemma join_cons {A} (f : A → string) close a l r :
  join_with "," (map f (a :: l)) +:+ String close r = f a +:+ tail_text f close l r.
Proof.
  unfold join_with. destruct l as [|b l]; [done|].
  change (String.concat "," (map f (a :: b :: l))) with (f a +:+ ("," +:+ String.concat "," (map f (b :: l)))).
  by rewrite app_assoc_str.
Qed.

Section joined.
Context {A : Type} (f : A → string) (R : A → A → Prop) (P : A → Prop) (close : ascii).
Hypothesis close_ends : num_char close = false.
Hypothesis close_not_comma : close ≠ ","%char.
Hypothesis head_ok : ∀ a, P a → ∃ c s, f a = String c s ∧ c ≠ close.

Lemma tail_ends l r : ends (tail_text f close l r).
Proof using close_ends. by destruct l. Qed.

Lemma joined_inj l : ∀ l' r r',
  Forall (λ a, ∀ b r r', P b → ends r → ends r' → f a +:+ r = f b +:+ r' → R a b ∧ r = r') l →
  Forall P l → Forall P l' →
  join_with "," (map f l) +:+ String close r = join_with "," (map f l') +:+ String close r' →
  Forall2 R l l' ∧ r = r'.
Proof using Type*.
  induction l as [|a l IH]; intros [|b l'] r r' Hd Hl Hl' E.
  - injection E as ->. done.
  - exfalso. rewrite join_cons in E. apply Forall_cons in Hl' as [Hb _].
    destruct (head_ok _ Hb) as (c & s & Hc & Hne). rewrite Hc in E. simpl in E. injection E as E _. congruence.
  - exfalso. rewrite join_cons in E. apply Forall_cons in Hl as [Ha _].
    destruct (head_ok _ Ha) as (c & s & Hc & Hne). rewrite Hc in E. simpl in E. injection E as E _. congruence.
  - apply Forall_cons in Hl as [Ha Hl], Hl' as [Hb Hl'], Hd as [Hda Hd]. rewrite !join_cons in E.
    apply Hda in E as [HR E]; [|done|apply tail_ends..].
    destruct l as [|x l], l' as [|y l']; simpl in E.
    + injection E as ->. split; [by repeat constructor | done].
    + injection E as E _. congruence.
    + injection E as E _. congruence.
    + injection E as E. destruct (IH _ _ _ Hd Hl Hl' E) as [HF ->]. split; [by constructor | done].
Qed.
End joined.

Lemma text_str s : text (JStr s) = json_string s.
Proof. done. Qed.
Lemma text_num z : Z.abs z <= MAX_SAFE_INTEGER → text (JNum (of_Z z)) = big_to_string z.
Proof. intros Hz. rewrite <- num_to_string_big by done. done. Qed.

Lemma array_of_eq l r : array_of l +:+ r = String "[" (join_with "," (map text l) +:+ String "]" r).
Proof. unfold array_of. by rewrite !app_assoc_str. Qed.
Lemma object_of_eq fs r :
  object_of fs +:+ r = String "{" (join_with "," (map item (merge_sort key_le fs)) +:+ String "}" r).
Proof. unfold object_of. by rewrite !app_assoc_str. Qed.

(** The first character tells the kind of value. *)
Definition head_of (v : jsval) (c : ascii) : Prop :=
  match v with
  | JNull => c = "n"%char
  | JBool b => c = if b then "t"%char else "f"%char
  | JNum _ => num_char c = true
  | JStr _ => c = dquote
  | JArr _ _ => c = "["%char
  | JObj _ _ => c = "{"%char
  | _ => False
  end.

Lemma text_head v : plain v → ∃ c s, text v = String c s ∧ head_of v c.
Proof.
  destruct v as [| |b|n|z|s|n|i l|i fs]; intros Hp; try done.
  - by exists "n"%char, "ull".
  - destruct b; [by exists "t"%char, "rue" | by exists "f"%char, "alse"].
  - destruct Hp as (z & -> & Hz). rewrite text_num by done. apply big_to_string_head.
  - rewrite text_str. by eexists _, _.
  - rewrite text_arr by done. by eexists _, _.
  - rewrite text_obj by done. by eexists _, _.
Qed.

Lemma text_head_not v c : plain v → c ∈ ["]"; "}"; ","]%char → ∃ d s, text v = String d s ∧ d ≠ c.
Proof.
  intros Hp Hc. destruct (text_head v Hp) as (d & s & Ht & Hd). exists d, s. split; [done|]. intros ->.
  repeat (apply elem_of_cons in Hc as [-> | Hc]; [destruct v as [| |[]| | | | | |]; simpl in Hd; (done || (vm_compute in Hd; discriminate Hd))|]).
  by apply not_elem_of_nil in Hc.
Qed.

Definition kind (v : jsval) : nat :=
  match v with
  | JNull => 0 | JBool _ => 1 | JNum _ => 2 | JStr _ => 3 | JArr _ _ => 4 | JObj _ _ => 5 | _ => 6
  end%nat.

Lemma head_kind v w c : head_of v c → head_of w c → kind v = kind w.
Proof.
  destruct v as [| |[]| | | | | |], w as [| |[]| | | | | |]; simpl; intros H1 H2; try done;
    subst; vm_compute in *; discriminate.
Qed.

Lemma same_kind v w r r' : plain v → plain w → text v +:+ r = text w +:+ r' → kind v = kind w.
Proof.
  intros Hv Hw E. destruct (text_head v Hv) as (c & s & Hc & Hh), (text_head w Hw) as (d & t & Hd & Hh').
  rewrite Hc, Hd in E. simpl in E. injection E as <- _. by eapply head_kind.
Qed.

Lemma item_inj kv kv' r r' :
  plain kv.2 → plain kv'.2 →
  (∀ w r r', plain w → ends r → ends r' → text kv.2 +:+ r = text w +:+ r' → json_equiv kv.2 w ∧ r = r') →
  ends r → ends r' → item kv +:+ r = item kv' +:+ r' → (kv.1 = kv'.1 ∧ json_equiv kv.2 kv'.2) ∧ r = r'.
Proof.
  intros Hp Hp' IH Hr Hr' E. unfold item in E. rewrite !app_assoc_str in E.
  apply json_string_inj in E as [Hk E]. simpl in E. injection E as E.
  apply IH in E as [HE ->]; done.
Qed.

Lemma text_inj v : plain v → ∀ w r r',
  plain w → ends r → ends r' → text v +:+ r = text w +:+ r' → json_equiv v w ∧ r = r'.
Proof.
  induction v as [| |b|n|z|s|n|i l IH|i fs IH] using jsval_nested_ind; intros Hp w r r' Hw Hr Hr' E; try done;
    pose proof (same_kind _ _ _ _ Hp Hw E) as Hh; destruct w; try discriminate Hh; clear Hh.
  - apply app_inj_head in E as ->. split; [constructor | done].
  - assert (b = b0) as <- by (destruct b, b0; [done | discriminate E | discriminate E | done]).
    apply app_inj_head in E as ->. split; [constructor | done].
  - destruct Hp as (y & -> & Hy), Hw as (z & -> & Hz).
    rewrite !text_num in E by done.
    apply (delimited_inj num_char) in E as [E ->]; [|apply big_to_string_chars..|by destruct r|by destruct r'].
    apply big_to_string_inj in E as ->. split; [constructor | done].
  - rewrite !text_str in E. apply json_string_inj in E as [-> ->]. split; [constructor | done].
  - rewrite !text_arr, !array_of_eq in E by done. injection E as E.
    apply plain_arr in Hp, Hw.
    apply (joined_inj text json_equiv plain) in E as [HF ->]; try done.
    + split; [by constructor | done].
    + intros a Ha. apply text_head_not; [done | set_solver].
    + rewrite Forall_forall in *. intros x Hx. by apply IH, Hp.
  - rewrite !text_obj, !object_of_eq in E by done. injection E as E.
    apply plain_obj in Hp as [_ Hp]. apply plain_obj in Hw as [_ Hw].
    assert (HF : ∀ gs, Forall (λ kv, plain kv.2) gs → Forall (λ kv, plain kv.2) (merge_sort key_le gs)).
    { intros gs Hg. by rewrite merge_sort_Permutation. }
    apply (joined_inj item (λ x y, x.1 = y.1 ∧ json_equiv x.2 y.2) (λ kv, plain kv.2)) in E as [HF2 ->];
      [|done|done| | |by apply HF|by apply HF].
    + split; [|done]. eapply equiv_obj; [symmetry; apply (merge_sort_Permutation key_le)..|done].
    + intros a Ha. unfold item, json_string. simpl. eexists _, _. split; [done|]. done.
    + rewrite merge_sort_Permutation. rewrite Forall_forall in *. intros x Hx y q q' Hy Hq Hq' E'.
      apply (item_inj x y q q'); try done; [by apply Hp|]. apply IH; [done|]. by apply Hp.
Qed.

(** Equivalent plain values have the same text. *)
Lemma equiv_text v : plain v → ∀ w, plain w → json_equiv v w → text v = text w.
Proof.
  induction v as [| |b|n|z|s|n|i l IH|i fs IH] using jsval_nested_ind; intros Hp w Hw Hvw; inversion Hvw; subst; try done.
  - rewrite !text_arr by done. apply plain_arr in Hp, Hw. unfold array_of. do 3 f_equal.
    clear Hvw. revert IH Hp Hw. match goal with H : Forall2 _ _ _ |- _ => induction H as [|x y l1 l2 Hxy _ IHl] end; [done|].
    rewrite !Forall_cons. intros [] [] []. simpl. f_equal; auto.
  - rewrite !text_obj by done. apply plain_obj in Hp as [Hnd Hp], Hw as [Hnd' Hw].
    rewrite <- !object_text_map.
    assert (Hkeys : ∀ hs : list (string * jsval), (map (λ kv, (kv.1, text kv.2)) hs).*1 = hs.*1).
    { intros hs. unfold fmap. by rewrite map_map. }
    rewrite (object_text_perm _ (map (λ kv, (kv.1, text kv.2)) gs)); [|by apply Permutation_map|by rewrite Hkeys].
    rewrite (object_text_perm (map (λ kv, (kv.1, text kv.2)) fs') (map (λ kv, (kv.1, text kv.2)) gs')); [|by apply Permutation_map|by rewrite Hkeys].
    f_equal. match goal with H1 : fs ≡ₚ gs, H2 : _ ≡ₚ gs' |- _ => rewrite H1 in IH, Hp; rewrite H2 in Hw; clear H1 H2 end.
    clear Hvw.
    revert IH Hp Hw. match goal with H : Forall2 _ _ _ |- _ => induction H as [|x y l1 l2 [Hxy1 Hxy2] _ IHl] end; [done|].
    rewrite !Forall_cons. intros [] [] []. simpl. rewrite Hxy1. f_equal; [f_equal|]; auto.
Qed.

(** C34. Canonical JSON identifies values: two values of plain data have the same
    canonical text exactly when they are equal up to the order of members and
    object identity, so an identifier computed from the text separates every
    two different values but for a collision of the hash. *)
Theorem canonical_json_identifies_values v w :
  plain v → plain w → (canonicalJson v = canonicalJson w ↔ json_equiv v w).
Proof.
  intros Hv Hw. rewrite !plain_prints by done. split.
  - intros [= E]. apply (text_inj v Hv w "" ""); [done|done|done|]. by rewrite E.
  - intros H. by rewrite (equiv_text v Hv w Hw H).
Qed.

Definition pair_value (i : positive) (swap : bool) (b : Z) : jsval :=
  JObj i (if swap then [("b", JNum (of_Z b)); ("a", JArr 3 [JStr "x"; JNull])]
          else [("a", JArr 3 [JStr "x"; JNull]); ("b", JNum (of_Z b))])%string.

Lemma pair_value_plain i s b : 0 <= b <= 9 → plain (pair_value i s b).
Proof.
  intros Hb. apply plain_obj. unfold pair_value, MAX_SAFE_INTEGER. destruct s; simpl.
  all: split; [repeat constructor; set_solver|].
  all: repeat constructor; simpl; try done; exists b; split; [done | unfold MAX_SAFE_INTEGER; lia].
Qed.

Lemma canonical_json_identifies_values_witness :
  json_equiv (pair_value 1 false 7) (pair_value 2 true 7) ∧ ¬ json_equiv (pair_value 1 false 7) (pair_value 2 true 8).
Proof.
  split.
  - apply (canonical_json_identifies_values (pair_value 1 false 7) (pair_value 2 true 7));
      [apply pair_value_plain; lia | apply pair_value_plain; lia | vm_compute; reflexivity].
  - intros H. assert (E : canonicalJson (pair_value 1 false 7) = canonicalJson (pair_value 2 true 8));
      [|vm_compute in E; discriminate E].
    apply (canonical_json_identifies_values (pair_value 1 false 7) (pair_value 2 true 8));
      [apply pair_value_plain; lia | apply pair_value_plain; lia | exact H].
Defined.

End CjSpec.
