(* ===== verification/JsonSpec.v ===== *)
(** * JSON text reads back

    The reader's fuel never runs out, and the text of plain data reads back as the
    data, whatever follows it. *)

From Stdlib Require Import ZArith Lia QArith Ascii String.
From stdpp Require Import base list strings.
From S2P Require Import Prelude JsBase JsText JsMap NumSpec CanonicalSpec Json.

Module JsonSpec.
Import Js JsText JsMap JsNum CjSpec Json.
#[local] Arguments String.append : simpl nomatch.

(** ** What is left is shorter *)

Lemma skip_space_le s : (String.length (skip_space s) <= String.length s)%nat.
Proof. induction s as [|c s IH]; [done|]. simpl. destruct (json_space c); simpl; lia. Qed.
Lemma string_body_lt n : ∀ s t r, (String.length s <= n)%nat → string_body s = Some (t, r) → (String.length r < String.length s)%nat.
Proof.
  induction n as [|n IH]; intros [|c s] t r Hn E; try done; [simpl in Hn; lia|]. simpl in Hn. cbn [string_body] in E.
  destruct (Ascii.eqb c dquote); [injection E as <- <-; simpl; lia|].
  destruct (Ascii.eqb c "\").
  - destruct s as [|e s]; [done|]. simpl in Hn. destruct (Ascii.eqb e "u").
    + destruct s as [|a [|b [|g [|d s]]]]; try done. simpl in Hn. destruct (hex4 a b g d); [|done]. cbn [mbind option_bind] in E.
      destruct (string_body s) as [[t' r']|] eqn:Es; [|done]. injection E as <- <-. apply IH in Es; [simpl in *; lia|lia].
    + destruct (escaped e); [|done]. cbn [mbind option_bind] in E.
      destruct (string_body s) as [[t' r']|] eqn:Es; [|done]. injection E as <- <-. apply IH in Es; [simpl in *; lia|lia].
  - destruct (code c <? 32); [done|]. destruct (string_body s) as [[t' r']|] eqn:Es; [|done]. injection E as <- <-.
    apply IH in Es; [simpl; lia|lia].
Qed.
Lemma span_while_le p s : (String.length (span_while p s).2 <= String.length s)%nat.
Proof. induction s as [|c s IH]; [done|]. simpl. destruct (p c); [|done]. destruct (span_while p s) as [a b]. simpl in *. lia. Qed.
Lemma take_fraction_le s f r : take_fraction s = Some (f, r) → (String.length r <= String.length s)%nat.
Proof.
  destruct s as [|c s]; simpl; [by intros [= <- <-]|]. destruct (Ascii.eqb c "."); [|by intros [= <- <-]].
  pose proof (span_while_le is_digit s). destruct (span_while is_digit s) as [a b]. destruct (String.eqb a ""); [done|].
  intros [= <- <-]. simpl in *. lia.
Qed.
Lemma take_exponent_le s f r : take_exponent s = Some (f, r) → (String.length r <= String.length s)%nat.
Proof.
  destruct s as [|c s]; simpl; [by intros [= <- <-]|]. destruct (Ascii.eqb c "e" || Ascii.eqb c "E"); [|by intros [= <- <-]].
  set (x := match s with String x r' => _ | EmptyString => _ end).
  assert (String.length x.2 <= String.length s)%nat as Hx.
  { unfold x. destruct s as [|y s]; [done|]. destruct (Ascii.eqb y "+" || Ascii.eqb y "-"); simpl; lia. }
  destruct x as [sign y]. simpl in Hx. pose proof (span_while_le is_digit y).
  destruct (span_while is_digit y) as [a b]. destruct (String.eqb a ""); [done|]. intros [= <- <-]. simpl in *. lia.
Qed.
Lemma number_token_lt s t r : number_token s = Some (t, r) → (String.length r < String.length s)%nat.
Proof.
  unfold number_token. assert (String.length (take_sign s).2 <= String.length s)%nat as Hs.
  { destruct s as [|c s]; [done|]. simpl. destruct (Ascii.eqb c "-"); simpl; lia. }
  destruct (take_sign s) as [sign s1]. simpl in Hs.
  assert (String.length (span_while is_digit s1).1 + String.length (span_while is_digit s1).2 = String.length s1)%nat as Hp.
  { clear. induction s1 as [|c s IH]; [done|]. simpl. destruct (is_digit c); [|done]. destruct (span_while is_digit s). simpl in *. lia. }
  destruct (span_while is_digit s1) as [ip s2]. simpl in Hp. destruct ip as [|c ip]; [done|].
  destruct (int_ok (String c ip)); [|done]. destruct (take_fraction s2) as [[f s3]|] eqn:Ef; [|done].
  apply take_fraction_le in Ef. cbn [mbind option_bind fst snd]. destruct (take_exponent s3) as [[e s4]|] eqn:Ee; [|done].
  apply take_exponent_le in Ee. intros [= <- <-]. simpl in *. lia.
Qed.
Lemma drop_str_le n s : (String.length (drop_str n s) <= String.length s)%nat.
Proof. rewrite length_drop_str. lia. Qed.

Lemma next_lt c s r : next c s = Some r → (String.length r < String.length s)%nat.
Proof.
  unfold next. pose proof (skip_space_le s). destruct (skip_space s) as [|d t]; [done|]. destruct (Ascii.eqb d c); [|done].
  intros [= <-]. simpl in *. lia.
Qed.

Lemma some_pair {A B} (a c : A) (b d : B) : Some (a, b) = Some (c, d) → a = c ∧ b = d.
Proof. by intros [= -> ->]. Qed.
(** Case analysis on the parser's next step. *)
Ltac parser_step :=
  match goal with
  | E : None = Some _ |- _ => discriminate E
  | E : Some (_, _) = Some (_, _) |- _ => apply some_pair in E as [? ?]; subst
  | E : mbind _ ?o = Some _ |- _ => let F := fresh "F" in destruct o as [[? ?]|] eqn:F; cbn [mbind option_bind fst snd] in E
  | E : mbind _ ?o = Some _ |- _ => let F := fresh "F" in destruct o as [?|] eqn:F; cbn [mbind option_bind fst snd] in E
  | E : (if ?b then _ else _) = Some _ |- _ => destruct b eqn:?
  | E : match ?o with Some _ => _ | None => _ end = Some _ |- _ => let F := fresh "F" in destruct o as [?|] eqn:F
  end.

Ltac shorter_rest IHv IHe IHm :=
  repeat match goal with
    | F : next _ _ = Some _ |- _ => apply next_lt in F
    | F : parse_value _ _ = Some _ |- _ => apply IHv in F
    | F : parse_elements _ _ = Some _ |- _ => apply IHe in F
    | F : parse_members _ _ = Some _ |- _ => apply IHm in F
    | F : number_token _ = Some _ |- _ => apply number_token_lt in F
    | F : string_body ?s = Some _ |- _ => apply (string_body_lt (String.length s)) in F; [|done]
    | |- context [drop_str ?n (String ?c ?t)] =>
        change (drop_str n (String c t)) with (drop_str (n - 1) t); pose proof (drop_str_le (n - 1) t);
        generalize dependent (drop_str (n - 1) t); intros
    end; simpl in *; lia.

Lemma rest_shorter f :
  (∀ s v r, parse_value f s = Some (v, r) → (String.length r < String.length s)%nat)
  ∧ (∀ s v r, parse_elements f s = Some (v, r) → (String.length r < String.length s)%nat)
  ∧ (∀ s v r, parse_members f s = Some (v, r) → (String.length r < String.length s)%nat).
Proof.
  induction f as [|f (IHv & IHe & IHm)]; [done|]. split; [|split]; intros s v r E.
  - cbn [parse_value] in E. unfold read_value in E. pose proof (skip_space_le s). destruct (skip_space s) as [|c t] eqn:Es; [done|]. simpl in H.
    repeat parser_step; shorter_rest IHv IHe IHm.
  - cbn [parse_elements] in E. unfold read_elements in E. repeat parser_step; shorter_rest IHv IHe IHm.
  - cbn [parse_members] in E. unfold read_members in E. repeat parser_step; shorter_rest IHv IHe IHm.
Qed.
(** ** Fuel *)

(** Readers that agree on shorter texts. *)
Lemma read_value_ext e e' m m' s :
  (∀ r, (String.length r < String.length s)%nat → e r = e' r) → (∀ r, (String.length r < String.length s)%nat → m r = m' r) →
  read_value e m s = read_value e' m' s.
Proof.
  intros He Hm. unfold read_value. pose proof (skip_space_le s) as Hs. destruct (skip_space s) as [|c r]; [done|]. simpl in Hs.
  by rewrite He, Hm by lia.
Qed.
Lemma read_elements_ext v v' e e' s :
  v s = v' s → (∀ x r, v s = Some (x, r) → (String.length r < String.length s)%nat) →
  (∀ r, (S (String.length r) < String.length s)%nat → e r = e' r) → read_elements v e s = read_elements v' e' s.
Proof.
  intros Hv Hr He. unfold read_elements. rewrite <- Hv. destruct (v s) as [[x r]|]; [|done]. cbn [mbind option_bind fst snd].
  specialize (Hr x r eq_refl). destruct (next "," r) as [r'|] eqn:En; [|done]. apply next_lt in En. by rewrite He by lia.
Qed.
Lemma read_members_ext v v' m m' s :
  (∀ r, (S (String.length r) < String.length s)%nat → v r = v' r) → (∀ s x r, v s = Some (x, r) → (String.length r < String.length s)%nat) →
  (∀ r, (S (String.length r) < String.length s)%nat → m r = m' r) → read_members v m s = read_members v' m' s.
Proof.
  intros Hv Hr Hm. unfold read_members. destruct (next dquote s) as [a|] eqn:Ea; [|done]. cbn [mbind option_bind].
  destruct (string_body a) as [[k b]|] eqn:Eb; [|done]. cbn [mbind option_bind fst snd]. destruct (next ":" b) as [c|] eqn:Ec; [|done].
  apply next_lt in Ea, Ec. apply (string_body_lt (String.length a)) in Eb; [|done]. cbn [mbind option_bind]. rewrite <- Hv by lia.
  destruct (v c) as [[x r]|] eqn:Ev; [|done]. cbn [mbind option_bind fst snd]. apply Hr in Ev.
  destruct (next "," r) as [d|] eqn:Ed; [|done]. apply next_lt in Ed. by rewrite Hm by lia.
Qed.

Lemma enough_fuel f :
  (∀ s, (2 * String.length s + 1 <= f)%nat → parse_value (S f) s = parse_value f s)
  ∧ (∀ s, (2 * String.length s + 2 <= f)%nat → parse_elements (S f) s = parse_elements f s)
  ∧ (∀ s, (2 * String.length s + 2 <= f)%nat → parse_members (S f) s = parse_members f s).
Proof.
  induction f as [|f (IHv & IHe & IHm)]; [repeat split; intros; lia|]. split; [|split]; intros s Hs.
  - change (read_value (parse_elements (S f)) (parse_members (S f)) s = read_value (parse_elements f) (parse_members f) s).
    apply read_value_ext; intros r Hr; [apply IHe|apply IHm]; lia.
  - change (read_elements (parse_value (S f)) (parse_elements (S f)) s = read_elements (parse_value f) (parse_elements f) s).
    apply read_elements_ext; [apply IHv; lia|intros x r; apply rest_shorter|intros r Hr; apply IHe; lia].
  - change (read_members (parse_value (S f)) (parse_members (S f)) s = read_members (parse_value f) (parse_members f) s).
    apply read_members_ext; [intros r Hr; apply IHv; lia|intros x v r; apply rest_shorter|intros r Hr; apply IHm; lia].
Qed.
Lemma parse_fuel_any s f : (json_fuel s <= f)%nat → parse_value f s = parse_value (json_fuel s) s.
Proof.
  intros Hf. induction Hf as [|f Hf IH]; [done|]. rewrite <- IH. apply enough_fuel. unfold json_fuel in Hf. lia.
Qed.
Lemma one_more_fuel f :
  (∀ s x, parse_value f s = Some x → parse_value (S f) s = Some x)
  ∧ (∀ s x, parse_elements f s = Some x → parse_elements (S f) s = Some x)
  ∧ (∀ s x, parse_members f s = Some x → parse_members (S f) s = Some x).
Proof.
  induction f as [|f (IHv & IHe & IHm)]; [done|]. split; [|split]; intros s [v r] E.
  - change (read_value (parse_elements (S f)) (parse_members (S f)) s = Some (v, r)).
    change (read_value (parse_elements f) (parse_members f) s = Some (v, r)) in E. unfold read_value in *.
    destruct (skip_space s) as [|c t]; [done|]. repeat (parser_step; try done).
    + by rewrite (IHe _ _ F0).
    + by rewrite (IHm _ _ F0).
  - change (read_elements (parse_value (S f)) (parse_elements (S f)) s = Some (v, r)).
    change (read_elements (parse_value f) (parse_elements f) s = Some (v, r)) in E. unfold read_elements in *.
    parser_step; [|done]. rewrite (IHv _ _ F). cbn [mbind option_bind fst snd]. parser_step; [|done].
    parser_step; [|done]. by rewrite (IHe _ _ F1).
  - change (read_members (parse_value (S f)) (parse_members (S f)) s = Some (v, r)).
    change (read_members (parse_value f) (parse_members f) s = Some (v, r)) in E. unfold read_members in *.
    do 4 (parser_step; [cbn [mbind option_bind fst snd]|done]). rewrite (IHv _ _ F2). cbn [mbind option_bind fst snd].
    parser_step; [|done]. parser_step; [|done]. by rewrite (IHm _ _ F4).
Qed.
Lemma more_fuel f f' : (f <= f')%nat →
  (∀ s x, parse_value f s = Some x → parse_value f' s = Some x)
  ∧ (∀ s x, parse_elements f s = Some x → parse_elements f' s = Some x)
  ∧ (∀ s x, parse_members f s = Some x → parse_members f' s = Some x).
Proof.
  induction 1 as [|f' _ (IHv & IHe & IHm)]; [done|]. destruct (one_more_fuel f') as (Hv & He & Hm). naive_solver.
Qed.
Lemma parse_fuel_more s f x : parse_value f s = Some x → parse_value (json_fuel s) s = Some x.
Proof.
  intros E. rewrite <- (parse_fuel_any s (json_fuel s + f)) by lia. by eapply (more_fuel f); [lia|].
Qed.

(** ** The text of plain data *)

(** What may follow a value: the end, a comma or a closing bracket. *)
Definition closes (rest : string) : Prop :=
  match rest with EmptyString => True | String c _ => c = ","%char ∨ c = "]"%char ∨ c = "}"%char end.

(** A number whose text is read as the same number. *)
Definition num_survives (n : jsnum) : Prop :=
  (∃ q, n = NFin q) ∧ num_of_string (num_to_string n) = n
  ∧ ∀ rest, closes rest → number_token (num_to_string n +:+ rest) = Some (num_to_string n, rest).

Inductive json_plain : jsval → Prop :=
| plain_null : json_plain JNull
| plain_bool b : json_plain (JBool b)
| plain_num n : num_survives n → json_plain (JNum n)
| plain_str s : json_plain (JStr s)
| plain_arr l : Forall json_plain l → json_plain (JArr 1 l)
| plain_obj fs : NoDup fs.*1 → Forall (λ kv, json_plain kv.2) fs → json_plain (JObj 1 fs).

(** *** Strings *)

Lemma string_body_escape c s : string_body (json_escape c +:+ s) = p ← string_body s; Some (String c p.1, p.2).
Proof. destruct c as [[] [] [] [] [] [] [] []]; reflexivity. Qed.
Lemma string_body_chars s rest : string_body (json_chars s +:+ String dquote rest) = Some (s, rest).
Proof.
  induction s as [|c s IH]; [done|]. cbn [json_chars]. rewrite app_assoc_str, string_body_escape, IH. done.
Qed.

(** *** Whole numbers *)

Lemma digit_facts c : is_digit c = true →
  json_space c = false ∧ c ≠ dquote ∧ c ≠ "["%char ∧ c ≠ "{"%char ∧ c ≠ "-"%char ∧ c ≠ "."%char ∧ c ≠ "e"%char ∧ c ≠ "E"%char
  ∧ c ≠ "+"%char ∧ c ≠ "t"%char ∧ c ≠ "f"%char ∧ c ≠ "n"%char.
Proof. destruct c as [[] [] [] [] [] [] [] []]; vm_compute; try discriminate; intros _; repeat split; discriminate. Qed.
Lemma span_digits s rest : str_forallb is_digit s = true → closes rest → span_while is_digit (s +:+ rest) = (s, rest).
Proof.
  intros Hs Hr. induction s as [|c s IH].
  - destruct rest as [|c rest]; [done|]. cbn [String.append span_while]. destruct Hr as [->|[->| ->]]; done.
  - simpl in Hs. apply andb_true_iff in Hs as [Hc Hs]. cbn [String.append span_while]. by rewrite Hc, IH.
Qed.
Lemma dec_int_ok z : 0 <= z → int_ok (dec z) = true.
Proof.
  intros Hz. destruct (decide (z = 0)) as [->|Hne]; [done|].
  assert (∀ fuel n s, 0 < n < 2 ^ Z.of_nat fuel → ∃ d t, dec_acc fuel n s = String (digit_char d) t ∧ 0 < d < 10) as H.
  { clear. induction fuel as [|fuel IH]; intros n s Hn; [simpl in Hn; lia|]. cbn [dec_acc]. destruct (n <? 10) eqn:E.
    - eexists _, _. split; [done|lia].
    - apply IH. rewrite Nat2Z.inj_succ, Z.pow_succ_r in Hn by lia.
      split; [apply Z.div_str_pos; lia|apply Z.div_lt_upper_bound; lia]. }
  destruct (H (S (Z.to_nat (Z.log2 z))) z "") as (d & t & E & Hd).
  { split; [lia|]. apply dec_fuel. lia. }
  unfold dec. rewrite E. unfold int_ok.
  assert (digit_char d ≠ "0"%char) as Hn0; [|apply Ascii.eqb_neq in Hn0; by rewrite Hn0].
  intros Ed. apply (f_equal digit_val) in Ed. destruct (digit_char_spec d) as [Hv _]; [lia|]. rewrite Hv in Ed. change (digit_val "0") with (Some 0) in Ed. injection Ed as ->. lia.
Qed.
Lemma break_at_nowhere p s : str_forallb (λ c, negb (p c)) s = true → break_at p s = (s, None).
Proof.
  induction s as [|c s IH]; [done|]. cbn. intros [Hc Hs]%andb_true_iff. apply negb_true_iff in Hc. by rewrite Hc, IH.
Qed.
Lemma num_of_dec z : 0 <= z <= MAX_SAFE_INTEGER → num_of_string (dec z) = of_Z z.
Proof.
  intros Hz. pose proof (dec_digits z ltac:(lia)) as Hd. pose proof (dec_nonempty z) as Hne.
  pose proof (parse_radix_dec z ltac:(lia)) as Hr. unfold num_of_string. rewrite trim_digits by done.
  destruct (dec z) as [|c s] eqn:E; [done|]. simpl in Hd. apply andb_true_iff in Hd as [Hc Hs].
  assert (parse_prefixed (String c s) = None) as ->.
  { destruct s as [|k s]; [done|]. simpl in Hs. apply andb_true_iff in Hs as [Hk _]. cbn [parse_prefixed].
    destruct (Ascii.eqb c "0"); [|done]. clear -Hk. destruct k as [[] [] [] [] [] [] [] []]; vm_compute in *; done. }
  destruct (digit_facts c Hc) as (_ & _ & _ & _ & Hm & _ & _ & _ & Hp & _ & _ & _).
  apply Ascii.eqb_neq in Hm, Hp. rewrite Hm, Hp. rewrite <- E in *.
  assert (String.eqb (dec z) "Infinity" = false) as ->.
  { apply String.eqb_neq. intros Ei. rewrite E in Ei. injection Ei as -> _. done. }
  unfold parse_udecimal.
  assert (str_forallb is_digit (dec z) = true) as Hd by (apply dec_digits; lia).
  rewrite (break_at_nowhere (λ c, Ascii.eqb c "e" || Ascii.eqb c "E")); [|eapply str_forallb_impl; [|exact Hd]].
  2:{ intros x Hx. destruct (digit_facts x Hx) as (_ & _ & _ & _ & _ & _ & He & HE & _).
      apply Ascii.eqb_neq in He, HE. by rewrite He, HE. }
  rewrite (break_at_nowhere (Ascii.eqb ".")); [|eapply str_forallb_impl; [|exact Hd]].
  2:{ intros x Hx. destruct (digit_facts x Hx) as (_ & _ & _ & _ & _ & Hdot & _). apply negb_true_iff, Ascii.eqb_neq. congruence. }
  rewrite app_nil_r_str, Hr. change (Z.of_nat (String.length "")) with 0.
  unfold pow10_q. cbn [Z.sub Z.leb Z.compare Z.opp Z.add]. apply to_binary64_integer; [|lia]. by rewrite Z.mul_1_r.
Qed.
Lemma whole_survives z : 0 <= z <= MAX_SAFE_INTEGER → num_survives (of_Z z).
Proof.
  intros Hz. split; [by eexists|]. rewrite num_to_string_of_Z by done. split; [by apply num_of_dec|].
  intros rest Hr. pose proof (dec_digits z ltac:(lia)) as Hd. pose proof (dec_nonempty z) as Hne. pose proof (dec_int_ok z ltac:(lia)) as Hi.
  unfold number_token. assert (take_sign (dec z +:+ rest) = (""%string, dec z +:+ rest)) as ->.
  { destruct (dec z) as [|c s]; [done|]. simpl in Hd. apply andb_true_iff in Hd as [Hc _]. cbn [String.append take_sign].
    destruct (digit_facts c Hc) as (_ & _ & _ & _ & Hm & _). apply Ascii.eqb_neq in Hm. by rewrite Hm. }
  rewrite span_digits by done. rewrite Hi.
  assert (take_fraction rest = Some (""%string, rest)) as ->.
  { destruct rest as [|c rest]; [done|]. destruct Hr as [->|[->| ->]]; done. }
  cbn [mbind option_bind fst snd]. assert (take_exponent rest = Some (""%string, rest)) as ->.
  { destruct rest as [|c rest]; [done|]. destruct Hr as [->|[->| ->]]; done. }
  cbn [mbind option_bind fst snd String.append]. by rewrite app_nil_r_str.
Qed.

(** *** Values *)

Lemma next_skip c rest : json_space c = false → next c (String c rest) = Some rest.
Proof. intros Hc. unfold next. cbn [skip_space]. by rewrite Hc, Ascii.eqb_refl. Qed.
Lemma next_other c d rest : json_space d = false → d ≠ c → next c (String d rest) = None.
Proof. intros Hd Hne. unfold next. cbn [skip_space]. rewrite Hd. apply Ascii.eqb_neq in Hne. by rewrite Hne. Qed.

(** The first character of a value's text. *)
Lemma json_text_head v : json_plain v → ∃ c s, json_text v = String c s ∧ json_space c = false ∧ c ≠ "]"%char ∧ c ≠ "}"%char.
Proof.
  intros Hv. destruct Hv as [|[]|n ((q & ->) & _ & Hn)|s|l _|fs _ _]; try (eexists _, _; split; [done|repeat split; discriminate || done]).
  cbn [json_text]. specialize (Hn "" I). rewrite app_nil_r_str in Hn. destruct (num_to_string (NFin q)) as [|c s]; [done|].
  exists c, s. split; [done|]. unfold number_token in Hn. cbn [take_sign] in Hn. destruct (Ascii.eqb_spec c "-") as [->|Hm]; [done|].
  cbn [span_while] in Hn. destruct (is_digit c) eqn:Hc; [|done]. destruct (digit_facts c Hc) as (Hs & _).
  split; [done|]. split; intros ->; done.
Qed.

Lemma json_text_obj i fs : json_text (JObj i fs) = "{" +:+ join_comma (map (λ kv, json_string kv.1 +:+ ":" +:+ json_text kv.2) fs) +:+ "}".
Proof.
  cbn [json_text]. f_equal. f_equal. f_equal. induction fs as [|[k x] fs IH]; [done|]. cbn [map fst snd]. by rewrite IH.
Qed.

Lemma map_set_fresh {A} k (v : A) m : k ∉ m.*1 → map_set k v m = m ++ [(k, v)].
Proof.
  induction m as [|[k' v'] m IH]; [done|]. cbn. intros [Hk Hm]%not_elem_of_cons.
  destruct (String.eqb_spec k' k) as [->|_]; [done|]. by rewrite IH.
Qed.
Lemma object_of_NoDup fs : NoDup fs.*1 → object_of fs = fs.
Proof.
  intros Hn. unfold object_of. change fs with ([] ++ fs) in Hn. change fs with ([] ++ fs) at 2. revert Hn. generalize (@nil (string * jsval)).
  induction fs as [|[k v] fs IH]; intros acc Hn; [by rewrite app_nil_r|]. cbn [foldl fst snd].
  rewrite map_set_fresh.
  - rewrite IH; rewrite <- app_assoc; done.
  - rewrite fmap_app in Hn. apply NoDup_app in Hn as (_ & Hd & _). intros Hk. apply (Hd _ Hk). by left.
Qed.

Definition reads_back (v : jsval) : Prop := ∀ rest, closes rest → ∃ f, parse_value f (json_text v +:+ rest) = Some (v, rest).

Lemma join_comma_cons x y l : join_comma (x :: y :: l) = x +:+ "," +:+ join_comma (y :: l).
Proof. done. Qed.

Lemma elements_read l : l ≠ [] → Forall reads_back l → ∀ rest,
  ∃ f, parse_elements f (join_comma (map json_text l) +:+ String "]" rest) = Some (l, rest).
Proof.
  induction l as [|v l IH]; [done|]. intros _ Hl rest. apply Forall_cons in Hl as [Hv Hl]. destruct l as [|w l].
  - destruct (Hv (String "]" rest)) as [f E]; [right; by left|]. exists (S f).
    change (read_elements (parse_value f) (parse_elements f) (json_text v +:+ String "]" rest) = Some ([v], rest)).
    unfold read_elements. rewrite E. cbn [mbind option_bind fst snd]. by rewrite next_other, next_skip.
  - destruct (IH ltac:(done) Hl rest) as [f1 E1]. set (more := join_comma (map json_text (w :: l)) +:+ String "]" rest) in *.
    destruct (Hv (String "," more)) as [f2 E2]; [by left|]. exists (S (Nat.max f1 f2)).
    cbn [map]. rewrite join_comma_cons, !app_assoc_str. fold (map json_text (w :: l)).
    change (read_elements (parse_value (Nat.max f1 f2)) (parse_elements (Nat.max f1 f2)) (json_text v +:+ String "," more) = Some (v :: w :: l, rest)).
    unfold read_elements. rewrite (proj1 (more_fuel f2 (Nat.max f1 f2) ltac:(lia)) _ _ E2). cbn [mbind option_bind fst snd].
    rewrite next_skip by done. by rewrite (proj1 (proj2 (more_fuel f1 (Nat.max f1 f2) ltac:(lia))) _ _ E1).
Qed.

Lemma key_read k r : ∃ s, json_string k +:+ r = String dquote s ∧ string_body s = Some (k, r).
Proof.
  exists (json_chars k +:+ String dquote r). split; [|apply string_body_chars]. unfold json_string. cbn [String.append]. by rewrite app_assoc_str.
Qed.
Definition member_json (kv : string * jsval) : string := json_string kv.1 +:+ ":" +:+ json_text kv.2.
Lemma members_read fs : fs ≠ [] → Forall (λ kv, reads_back kv.2) fs → ∀ rest,
  ∃ f, parse_members f (join_comma (map member_json fs) +:+ String "}" rest) = Some (fs, rest).
Proof.
  induction fs as [|[k v] fs IH]; [done|]. intros _ Hl rest. apply Forall_cons in Hl as [Hv Hl]. cbn [snd] in Hv.
  assert (∀ f after x more, closes after → parse_value f (json_text v +:+ after) = Some (v, after) →
    (match next "," after with Some r => q ← parse_members f r; Some ((k, v) :: q.1, q.2) | None => r ← next "}" after; Some ([(k, v)], r) end
     = Some (x, more)) → parse_members (S f) (member_json (k, v) +:+ after) = Some (x, more)) as Hstep.
  { intros f after x more Ha Ev E. change (read_members (parse_value f) (parse_members f) (member_json (k, v) +:+ after) = Some (x, more)).
    unfold read_members, member_json. cbn [fst snd]. rewrite !app_assoc_str.
    destruct (key_read k (":" +:+ json_text v +:+ after)) as (s & -> & Hs). rewrite next_skip by done. cbn [mbind option_bind]. rewrite Hs.
    cbn [mbind option_bind fst snd String.append]. rewrite next_skip by done. cbn [mbind option_bind]. rewrite Ev. exact E. }
  destruct fs as [|w fs].
  - destruct (Hv (String "}" rest)) as [f E]; [right; by right|]. exists (S f). apply (Hstep f (String "}" rest)); [right; by right|done|].
    by rewrite next_other, next_skip.
  - destruct (IH ltac:(done) Hl rest) as [f1 E1]. set (more := join_comma (map member_json (w :: fs)) +:+ String "}" rest) in *.
    change (map member_json ((k, v) :: w :: fs)) with (member_json (k, v) :: member_json w :: map member_json fs).
    rewrite join_comma_cons, !app_assoc_str. change (member_json w :: map member_json fs) with (map member_json (w :: fs)).
    change ("," +:+ join_comma (map member_json (w :: fs)) +:+ String "}" rest) with (String "," more).
    destruct (Hv (String "," more)) as [f2 E2]; [by left|]. exists (S (Nat.max f1 f2)).
    apply (Hstep (Nat.max f1 f2) (String "," more)); [by left|by apply (more_fuel f2); [lia|]|].
    rewrite next_skip by done. by rewrite (proj2 (proj2 (more_fuel f1 (Nat.max f1 f2) ltac:(lia))) _ _ E1).
Qed.

Lemma number_head c s t r : number_token (String c s) = Some (t, r) → is_digit c = true ∨ c = "-"%char.
Proof.
  unfold number_token. cbn [take_sign]. destruct (Ascii.eqb_spec c "-") as [->|]; [by right|]. cbn [span_while].
  destruct (is_digit c); [by left|done].
Qed.
Lemma other_word d w c s : c ≠ d → starts_with (String d w) (String c s) = false.
Proof. intros Hne. apply not_true_iff_false. intros [r E]%starts_with_spec. by injection E. Qed.
Lemma read_quote e m r : read_value e m (String dquote r) = p ← string_body r; Some (JStr p.1, p.2).
Proof. done. Qed.
Lemma read_bracket e m r : next "]" r = None → read_value e m (String "[" r) = p ← e r; Some (JArr 1 p.1, p.2).
Proof. intros Hn. transitivity (match next "]" r with Some rest => Some (JArr 1 [], rest) | None => p ← e r; Some (JArr 1 p.1, p.2) end); [done|by rewrite Hn]. Qed.
Lemma read_brace e m r : next "}" r = None → read_value e m (String "{" r) = p ← m r; Some (JObj 1 (object_of p.1), p.2).
Proof. intros Hn. transitivity (match next "}" r with Some rest => Some (JObj 1 [], rest) | None => p ← m r; Some (JObj 1 (object_of p.1), p.2) end); [done|by rewrite Hn]. Qed.
(** A value that is neither a string, an array nor an object. *)
Lemma read_word e m c r : negb (json_space c) && negb (Ascii.eqb c dquote) && negb (Ascii.eqb c "[") && negb (Ascii.eqb c "{") = true →
  read_value e m (String c r) =
  (if starts_with "true" (String c r) then Some (JBool true, drop_str 4 (String c r))
   else if starts_with "false" (String c r) then Some (JBool false, drop_str 5 (String c r))
   else if starts_with "null" (String c r) then Some (JNull, drop_str 4 (String c r))
   else p ← number_token (String c r); Some (JNum (num_of_string p.1), p.2)).
Proof.
  intros [[[Hs Hq]%andb_true_iff Ha]%andb_true_iff Ho]%andb_true_iff. apply negb_true_iff in Hs, Hq, Ha, Ho.
  unfold read_value. cbn [skip_space]. by rewrite Hs, Hq, Ha, Ho.
Qed.
Lemma read_number e m c s t r : number_token (String c s) = Some (t, r) →
  read_value e m (String c s) = Some (JNum (num_of_string t), r).
Proof.
  intros E. assert (negb (json_space c) && negb (Ascii.eqb c dquote) && negb (Ascii.eqb c "[") && negb (Ascii.eqb c "{") = true
    ∧ c ≠ "t"%char ∧ c ≠ "f"%char ∧ c ≠ "n"%char) as (Hc & Ht & Hf & Hn).
  { destruct (number_head _ _ _ _ E) as [Hc| ->]; [|by repeat split]. clear E.
    destruct c as [[] [] [] [] [] [] [] []]; vm_compute in *; repeat split; discriminate || done. }
  by rewrite (read_word _ _ _ _ Hc), (other_word "t" "rue" c s Ht), (other_word "f" "alse" c s Hf), (other_word "n" "ull" c s Hn), E.
Qed.
Lemma reads_null : reads_back JNull.
Proof.
  intros rest _. exists 1%nat. change (read_value (parse_elements 0) (parse_members 0) (String "n" ("ull" +:+ rest)) = Some (JNull, rest)).
  rewrite read_word, (other_word "t" "rue"), (other_word "f" "alse") by done. change (String "n" ("ull" +:+ rest)) with ("null" +:+ rest).
  by rewrite starts_with_app.
Qed.
Lemma bool_reads b : reads_back (JBool b).
Proof.
  intros rest _. exists 1%nat. destruct b.
  - change (read_value (parse_elements 0) (parse_members 0) (String "t" ("rue" +:+ rest)) = Some (JBool true, rest)).
    rewrite read_word by done. change (String "t" ("rue" +:+ rest)) with ("true" +:+ rest). by rewrite starts_with_app.
  - change (read_value (parse_elements 0) (parse_members 0) (String "f" ("alse" +:+ rest)) = Some (JBool false, rest)).
    rewrite read_word, (other_word "t" "rue") by done. change (String "f" ("alse" +:+ rest)) with ("false" +:+ rest).
    by rewrite starts_with_app.
Qed.
Lemma num_reads n : num_survives n → reads_back (JNum n).
Proof.
  intros Hn rest Hr. destruct Hn as ((q & ->) & Hv & Ht). specialize (Ht rest Hr). exists 1%nat. cbn [json_text].
  change (read_value (parse_elements 0) (parse_members 0) (num_to_string (NFin q) +:+ rest) = Some (JNum (NFin q), rest)).
  rewrite <- Hv at 2. destruct (num_to_string (NFin q) +:+ rest) as [|c s]; [done|]. by apply read_number.
Qed.

Lemma text_reads_back v : json_plain v → reads_back v.
Proof.
  induction v as [| |b|n|z|s|n|i l IH|i fs IH] using jsval_nested_ind; intros Hp; inversion Hp; subst; clear Hp;
    try (by apply reads_null || apply bool_reads || apply num_reads); intros rest Hr.
  - exists 1%nat. cbn [json_text]. destruct (key_read s rest) as (t & -> & Ht).
    change (read_value (parse_elements 0) (parse_members 0) (String dquote t) = Some (JStr s, rest)). by rewrite read_quote, Ht.
  - assert (Forall reads_back l) as Hl by (rewrite Forall_forall in *; auto).
    destruct l as [|v l]; [by exists 1%nat|]. apply Forall_cons in H0 as [Hv _].
    destruct (elements_read (v :: l) ltac:(done) Hl rest) as [f E]. exists (S f). cbn [json_text].
    change (read_value (parse_elements f) (parse_members f) (("[" +:+ join_comma (map json_text (v :: l)) +:+ "]") +:+ rest) = Some (JArr 1 (v :: l), rest)).
    rewrite !app_assoc_str. change ("]" +:+ rest) with (String "]" rest). assert (next "]" (join_comma (map json_text (v :: l)) +:+ String "]" rest) = None) as Hn.
    { destruct (json_text_head v Hv) as (c & s & Ec & Hs & Hc & _). cbn [map]. destruct l as [|w l].
      - change (join_comma [json_text v]) with (json_text v). rewrite Ec. by apply next_other.
      - cbn [map]. rewrite join_comma_cons, Ec. by apply next_other. }
    cbn [String.append]. rewrite (read_bracket _ _ _ Hn), E. done.
  - assert (Forall (λ kv, reads_back kv.2) fs) as Hl by (rewrite Forall_forall in *; auto).
    destruct fs as [|kv fs]; [by exists 1%nat|].
    destruct (members_read (kv :: fs) ltac:(done) Hl rest) as [f E]. exists (S f). rewrite json_text_obj.
    change (read_value (parse_elements f) (parse_members f) (("{" +:+ join_comma (map member_json (kv :: fs)) +:+ "}") +:+ rest)
      = Some (JObj 1 (kv :: fs), rest)).
    rewrite !app_assoc_str. change ("}" +:+ rest) with (String "}" rest).
    assert (next "}" (join_comma (map member_json (kv :: fs)) +:+ String "}" rest) = None) as Hn.
    { assert (∃ t, join_comma (map member_json (kv :: fs)) +:+ String "}" rest = String dquote t) as [t ->]; [|done].
      cbn [map]. destruct fs as [|w fs].
      - change (join_comma [member_json kv]) with (member_json kv). unfold member_json, json_string. by eexists.
      - cbn [map]. rewrite join_comma_cons. unfold member_json at 1, json_string. by eexists. }
    cbn [String.append]. rewrite (read_brace _ _ _ Hn), E. cbn [mbind option_bind fst snd]. by rewrite object_of_NoDup.
Qed.

(** Plain data reads back from its text. *)
Lemma json_round_trip v : json_plain v → json_parse (json_text v) = Ok v.
Proof.
  intros Hv. destruct (text_reads_back v Hv "" I) as [f E]. rewrite app_nil_r_str in E. apply parse_fuel_more in E.
  unfold json_parse. by rewrite E.
Qed.
End JsonSpec.
