(* ===== verification/Authority.v ===== *)
(** * Authority engine (packages/authority/src)

    Whether an agent's action is covered by a signed mandate: scope matching,
    constraint matching on untyped values, usage limits over time windows, and
    the decision.  Module [Auth] is one definition per function of scope.ts,
    usage.ts, ids.ts, mandate.ts and evaluate.ts; the proof and identity packages
    enter through the interface [Verifier]. *)

From Stdlib Require Import ZArith Lia QArith Ascii String.
From stdpp Require Import base list strings sorting.
From S2P Require Import Prelude JsBase JsText Canonical.

Module Auth.
Import Js.

(** ** Data *)

Record ActionIntent := mkAction {
  action : string;
  principal : string;
  agent : string;
  target : option string;
  constraints : option (list (string * jsval));
  nonce : option string }.

Record MandateConstraint := mkConstraint { c_field : string; c_operator : string; c_value : jsval }.

Record UsageLimit := mkLimit { maxCount : option Z; maxTotal : option string; windowMs : option Z }.

Record MandateBody := mkMandate {
  grantor : string;
  grantee : string;
  m_principal : string;
  scope : string;
  m_constraints : option (list MandateConstraint);
  usageLimit : option UsageLimit;
  issuedAt : Z;
  expiresAt : option Z;
  revocationEpoch : option Z }.

Record AuthorityUsage := mkUsage {
  usageId : string;
  mandateProofId : string;
  u_intentId : string;
  usedAt : Z;
  countsToward : option (option Z * option string) }.

Record AuthorityUsageSnapshot := mkSnapshot {
  s_mandateProofId : string;
  totalCount : Z;
  totalAmount : option string;
  windowStart : option Z;
  windowEnd : option Z }.

Record UsageDelta := mkDelta { d_count : Z; d_amount : jsval }.

Inductive AuthError :=
| JsThrow (e : js_error)
| BadLimit (maxTotal : string)
| BadUsageAmount (amount : string).

Definition js {A} (r : result js_error A) : result AuthError A :=
  match r with Ok a => Ok a | Err e => Err (JsThrow e) end.

(** ** scope.ts *)

(** The loop of [matchScope] on the parts not yet consumed. *)
Fixpoint match_parts (s a : list string) : bool :=
  match s, a with
  | [], [] => true
  | [], _ :: _ => false
  | _ :: _, [] => false
  | x :: s', y :: a' =>
      if String.eqb x "*" then
        match s' with
        | [] => true
        | _ => if Nat.ltb (length a) (length s') then false
               else match_parts s' (drop (length a - length s') a)
        end
      else if negb (String.eqb y x) then false
      else match_parts s' a'
  end.

Definition matchScope (act scp : string) : bool :=
  if String.eqb scp "*" then true
  else if String.eqb act scp then true
  else match_parts (split_on ":" scp) (split_on ":" act).

Definition js_opt (o : option string) : jsval := match o with Some s => JStr s | None => JUndef end.

Fixpoint walk_path (current : jsval) (path : list string) : jsval :=
  match path with
  | [] => current
  | part :: path =>
      match current with
      | JArr _ _ | JObj _ _ => walk_path (get_prop current part) path
      | _ => JUndef
      end
  end.

Definition resolveActionField (a : ActionIntent) (f : string) : jsval :=
  if String.eqb f "action" then JStr (action a)
  else if String.eqb f "principal" then JStr (principal a)
  else if String.eqb f "agent" then JStr (agent a)
  else if String.eqb f "target" then js_opt (target a)
  else if String.eqb f "nonce" then js_opt (nonce a)
  else match constraints a with
       | None => JUndef
       | Some cs =>
           match get_own cs f with
           | Some v => v
           | None => if includes_char "." f then walk_path (JObj 1 cs) (split_on "." f) else JUndef
           end
       end.

Inductive operator := lt | lte | gt | gte.

Definition compare_big (op : operator) (a b : Z) : bool :=
  match op with lt => a <? b | lte => a <=? b | gt => a >? b | gte => a >=? b end.
Definition compare_num (op : operator) (a b : jsnum) : bool :=
  match op with lt => num_lt a b | lte => num_le a b | gt => num_lt b a | gte => num_le b a end.

(** A bigint, or a string or number converted to one; the SyntaxError of a string
    is caught, the RangeError of a fractional number is not. *)
Definition as_bigint (v : jsval) : result AuthError (option Z) :=
  match v with
  | JBig z => Ok (Some z)
  | JStr s => Ok (big_of_string s)
  | JNum n => z ← js (of_option RangeError (num_integer n)); Ok (Some z)
  | _ => Ok None
  end.

Definition compareNumeric (actual value : jsval) (op : operator) : result AuthError bool :=
  a ← as_bigint actual;
  b ← as_bigint value;
  match a, b with
  | Some a, Some b => Ok (compare_big op a b)
  | _, _ => Ok (compare_num op (to_number actual) (to_number value))
  end.

(** [value.includes(x)]: an array, a string (substring), or no such method. *)
Definition includes (value x : jsval) : result AuthError bool :=
  match value with
  | JArr _ l => Ok (existsb (λ y, same_value_zero y x) l)
  | JStr s => Ok (str_includes (to_string x) s)
  | _ => Err (JsThrow TypeError)
  end.

(** [actual.some((a) => arr.includes(a))], or [arr.includes(actual)]. *)
Fixpoint some_included (value : jsval) (l : list jsval) : result AuthError bool :=
  match l with
  | [] => Ok false
  | x :: l => b ← includes value x; if (b : bool) then Ok true else some_included value l
  end.
Definition included (value actual : jsval) : result AuthError bool :=
  match actual with JArr _ l => some_included value l | _ => includes value actual end.

Definition is_undefined (v : jsval) : bool := match v with JUndef => true | _ => false end.

Definition match_constraint (a : ActionIntent) (c : MandateConstraint) : result AuthError bool :=
  let actual := resolveActionField a (c_field c) in
  if is_undefined actual then Ok false
  else if String.eqb (c_operator c) "eq" then Ok (strict_eq actual (c_value c))
  else if String.eqb (c_operator c) "lt" then compareNumeric actual (c_value c) lt
  else if String.eqb (c_operator c) "lte" then compareNumeric actual (c_value c) lte
  else if String.eqb (c_operator c) "gt" then compareNumeric actual (c_value c) gt
  else if String.eqb (c_operator c) "gte" then compareNumeric actual (c_value c) gte
  else if String.eqb (c_operator c) "in" then included (c_value c) actual
  else if String.eqb (c_operator c) "not_in" then b ← included (c_value c) actual; Ok (negb b)
  else Ok false.

Fixpoint matchConstraints (a : ActionIntent) (cs : list MandateConstraint) : result AuthError bool :=
  match cs with
  | [] => Ok true
  | c :: cs => b ← match_constraint a c; if (b : bool) then matchConstraints a cs else Ok false
  end.

(** ** usage.ts *)

Definition isNonNegativeInteger (value : string) : bool := all_digits value.

(** The non-negative integer a digit string denotes. *)
Definition big_of_digits (s : string) : Z := default 0 (parse_radix 10 s).

Definition checkUsageLimit (snapshot : AuthorityUsageSnapshot) (limit : UsageLimit) (_now : Z)
    (proposed : option UsageDelta) : result AuthError bool :=
  let count_ok := match maxCount limit with
                  | Some m => negb (totalCount snapshot + default 0 (d_count <$> proposed) >? m)
                  | None => true
                  end in
  if negb count_ok then Ok false else
  match maxTotal limit with
  | None => Ok true
  | Some total =>
      _ ← throw_if (negb (isNonNegativeInteger total)) (BadLimit total);
      let current := match totalAmount snapshot with
                     | Some t => if isNonNegativeInteger t then big_of_digits t else 0
                     | None => 0
                     end in
      let amount := default JUndef (d_amount <$> proposed) in
      if negb (is_undefined amount) && negb (isNonNegativeInteger (to_string amount)) then Ok false else
      proposedAmount ← (if is_undefined amount then Ok 0 else js (to_bigint amount));
      Ok (negb (current + proposedAmount >? big_of_digits total))
  end.

Definition calculateUsageDelta (a : ActionIntent) : UsageDelta :=
  mkDelta 1 (match constraints a with Some cs => get_prop (JObj 1 cs) "amount" | None => JUndef end).

(** [Math.floor(now / w) * w]: exact, as both are safe integers. *)
Definition window_of (limit : option UsageLimit) (now : Z) : option (Z * Z) :=
  match limit ≫= windowMs with
  | Some w => if w >? 0 then Some (now / w * w, now / w * w + w) else None
  | None => None
  end.

Definition in_window (w : option (Z * Z)) (u : AuthorityUsage) : bool :=
  match w with
  | Some (lo, hi) => negb ((usedAt u <? lo) || (usedAt u >=? hi))
  | None => true
  end.

Definition usage_count (u : AuthorityUsage) : Z :=
  match countsToward u with Some (Some c, _) => c | _ => 1 end.
Definition usage_amount (u : AuthorityUsage) : option string :=
  match countsToward u with Some (_, a) => a | None => None end.

Fixpoint sum_usage (w : option (Z * Z)) (us : list AuthorityUsage) (acc : Z * option string)
    : result AuthError (Z * option string) :=
  match us with
  | [] => Ok acc
  | u :: us =>
      if negb (in_window w u) then sum_usage w us acc else
      let count := fst acc + usage_count u in
      match usage_amount u with
      | None => sum_usage w us (count, snd acc)
      | Some a =>
          if negb (isNonNegativeInteger a) then Err (BadUsageAmount a) else
          let current := match snd acc with Some t => big_of_digits t | None => 0 end in
          sum_usage w us (count, Some (big_to_string (current + big_of_digits a)))
      end
  end.

Definition snapshotFromUsage (usages : list AuthorityUsage) (now : Z) (limit : option UsageLimit)
    : result AuthError AuthorityUsageSnapshot :=
  let w := window_of limit now in
  r ← sum_usage w usages (0, None);
  Ok (mkSnapshot (match usages with u :: _ => mandateProofId u | [] => "" end)
        (fst r) (snd r) (fst <$> w) (snd <$> w)).

(** ** ids.ts *)

Definition opt_member (k : string) (v : option jsval) : list (string * jsval) :=
  match v with Some x => [(k, x)] | None => [] end.
Definition num (z : Z) : jsval := JNum (of_Z z).

Section ids.
Variable sha3_hex : string → string.

Definition domainHash (domain : string) (v : jsval) : result AuthError string :=
  js (Cj.domainHash sha3_hex domain v).

(** [const { nonce: _n, ...rest } = intent] *)
Definition intent_rest (a : ActionIntent) : jsval :=
  JObj 1 ([("action", JStr (action a)); ("principal", JStr (principal a)); ("agent", JStr (agent a))]%string
          ++ opt_member "target" (JStr <$> target a)
          ++ opt_member "constraints" (JObj 2 <$> constraints a)).
Definition computeActionIntentId (a : ActionIntent) : result AuthError string :=
  h ← domainHash "TOTEM_AUTHORITY_INTENT_V1" (intent_rest a); Ok ("totem:intent:" +:+ h).

Definition constraint_value (c : MandateConstraint) : jsval :=
  JObj 4 [("field", JStr (c_field c)); ("operator", JStr (c_operator c)); ("value", c_value c)]%string.
Definition limit_value (l : UsageLimit) : jsval :=
  JObj 5 (opt_member "maxCount" (num <$> maxCount l) ++ opt_member "maxTotal" (JStr <$> maxTotal l)
          ++ opt_member "windowMs" (num <$> windowMs l)).
Definition mandate_value (m : MandateBody) : jsval :=
  JObj 1 ([("grantor", JStr (grantor m)); ("grantee", JStr (grantee m));
           ("principal", JStr (m_principal m)); ("scope", JStr (scope m));
           ("issuedAt", num (issuedAt m))]%string
          ++ opt_member "constraints" (JArr 3 ∘ map constraint_value <$> m_constraints m)
          ++ opt_member "usageLimit" (limit_value <$> usageLimit m)
          ++ opt_member "expiresAt" (num <$> expiresAt m)
          ++ opt_member "revocationEpoch" (num <$> revocationEpoch m)).
Definition computeMandateId (m : MandateBody) : result AuthError string :=
  h ← domainHash "TOTEM_AUTHORITY_MANDATE_V1" (mandate_value m); Ok ("totem:mandate:" +:+ h).

Definition str_array (i : positive) (l : list string) : jsval := JArr i (map JStr l).
(** [[...l].sort()] *)
Definition sorted (l : list string) : list string := merge_sort String.le l.

Record DecisionBase := mkBase {
  b_intentId : string; b_mandateId : string; b_valid : bool; b_usageSnapshotHash : string;
  b_evidenceIds : list string; b_evaluatedAt : Z; b_policyVersion : string; b_finalStatus : string;
  b_matchedRules : list string; b_failedRules : list string }.

Definition computeAuthorityDecisionId (d : DecisionBase) : result AuthError string :=
  h ← domainHash "TOTEM_AUTHORITY_DECISION_V1"
        (JObj 1 [("intentId", JStr (b_intentId d)); ("mandateId", JStr (b_mandateId d));
                 ("mandateVerificationValid", JBool (b_valid d));
                 ("usageSnapshotHash", JStr (b_usageSnapshotHash d));
                 ("evidenceIds", str_array 2 (sorted (b_evidenceIds d)));
                 ("evaluatedAt", num (b_evaluatedAt d)); ("policyVersion", JStr (b_policyVersion d));
                 ("finalStatus", JStr (b_finalStatus d));
                 ("matchedRules", str_array 3 (sorted (b_matchedRules d)));
                 ("failedRules", str_array 4 (sorted (b_failedRules d)))]%string);
  Ok ("totem:decision:" +:+ h).

(** The members [snapshotFromUsage] leaves [undefined] are present. *)
Definition snapshot_value (s : AuthorityUsageSnapshot) : jsval :=
  JObj 1 [("mandateProofId", JStr (s_mandateProofId s)); ("totalCount", num (totalCount s));
          ("totalAmount", js_opt (totalAmount s));
          ("windowStart", match windowStart s with Some z => num z | None => JUndef end);
          ("windowEnd", match windowEnd s with Some z => num z | None => JUndef end)]%string.
Definition computeUsageSnapshotHash (s : AuthorityUsageSnapshot) : result AuthError string :=
  domainHash "TOTEM_AUTHORITY_USAGE_V1" (snapshot_value s).

(** [usageId]s compare by [localeCompare], here by code units. *)
Definition usage_le (a b : AuthorityUsage) : Prop := String.le (usageId a) (usageId b).
#[global] Instance usage_le_dec : RelDecision usage_le.
Proof. intros a b. unfold usage_le, String.le. apply _. Defined.
Definition computeUsageRoot (receipts : list AuthorityUsage) : result AuthError string :=
  domainHash "TOTEM_AUTHORITY_USAGE_ROOT_V1"
    (JArr 1 (map (λ r, JObj 2 [("usageId", JStr (usageId r)); ("mandateProofId", JStr (mandateProofId r));
                               ("intentId", JStr (u_intentId r)); ("usedAt", num (usedAt r));
                               ("count", num (usage_count r)); ("amount", js_opt (usage_amount r))]%string)
                 (merge_sort usage_le receipts))).

End ids.

(** ** mandate.ts *)

Record CreateAgentMandateParams := mkCreate {
  cp_grantor : string; cp_grantee : string; cp_principal : string; cp_scope : string;
  cp_constraints : option (list MandateConstraint); cp_usageLimit : option UsageLimit;
  cp_issuedAt : option Z; cp_expiresAt : option Z; cp_revocationEpoch : option Z }.

Definition createAgentMandate (p : CreateAgentMandateParams) (now : Z) : MandateBody :=
  mkMandate (cp_grantor p) (cp_grantee p) (cp_principal p) (cp_scope p) (cp_constraints p)
    (cp_usageLimit p) (default now (cp_issuedAt p)) (cp_expiresAt p) (cp_revocationEpoch p).

Definition MANDATE_SCHEMA : string := "totem:authority:mandate/v1".

(** What [createMandateProofDraft] hands to [createProof]. *)
Record ProofDraft := mkDraft {
  dr_kind : string; dr_subject : string * string; dr_issuer : string;
  dr_issuedAt : Z; dr_expiresAt : option Z; dr_payload : string * MandateBody }.
Definition createMandateProofDraft (m : MandateBody) : ProofDraft :=
  mkDraft "custom" (grantee m, "agent"%string) (grantor m) (issuedAt m) (expiresAt m) (MANDATE_SCHEMA, m).

Inductive IdentityStatus := active | rotated | revoked.
#[global] Instance IdentityStatus_eq_dec : EqDecision IdentityStatus.
Proof. solve_decision. Defined.

Record Delegate := mkDelegate { delegatedAddress : string; scopes : list string }.
Record ResolvedIdentity := mkResolved {
  status : IdentityStatus; rootAddress : string; controllerAddress : string; delegates : list Delegate }.
Record ProofVerifyResult := mkVerify {
  v_valid : bool; v_reason : option string; v_expired : option bool; signerAddress : option string }.

(** What the proof and identity packages provide to the engine. *)
Class Verifier := mkVerifier {
  SignedProof : Type;
  IdentityGraph : Type;
  proofId : SignedProof → string;
  payload_schema : SignedProof → option string;
  payload_mandate : SignedProof → option MandateBody;
  verifyProof : SignedProof → Z → Z → ProofVerifyResult;
  document_id : IdentityGraph → string;
  resolveIdentityGraph : IdentityGraph → option ResolvedIdentity }.

Record MandateStatusSnapshot := mkStatus {
  checkedAt : Z; currentEpoch : option Z; revocationEpochs : option (list (string * Z)) }.

Record MandateVerificationResult := mkVerification {
  valid : bool;
  reason : option string;
  mandateId : option string;
  grantorAddress : option string;
  granteeAddress : option string;
  principalId : option string;
  identityVerified : bool;
  r_scopeMatch : bool;
  r_usageExceeded : bool;
  expired : bool;
  identityRevoked : bool;
  mandateRevoked : bool }.

Definition status_name (s : IdentityStatus) : string :=
  match s with
  | active => "active" | rotated => "rotated" | revoked => "revoked"
  end.
Definition quoted (s : string) : string := "'" +:+ s +:+ "'".

Definition isGrantorAuthorized (address : string) (r : ResolvedIdentity) : bool :=
  if negb (bool_decide (status r = active)) then false
  else if String.eqb address (rootAddress r) then true
  else if String.eqb address (controllerAddress r) then true
  else existsb (λ d, String.eqb (delegatedAddress d) address
                     && (mem_string "*" (scopes d) || mem_string "authority:grant" (scopes d)))
         (delegates r).

Section engine.
Context `{V : Verifier}.
Variable sha3_hex : string → string.

(** [revocationEpochs?.[id] !== undefined] *)
Definition epoch_recorded (st : option MandateStatusSnapshot) (id : string) : bool :=
  match st ≫= revocationEpochs with
  | Some m => match List.find (λ kv, String.eqb (fst kv) id) m with Some _ => true | None => false end
              || mem_string id object_proto_keys
  | None => false
  end.

(** An early return: the members set so far, with the failure. *)
Definition failed (b : MandateBody) (id why : string) (expired identityRevoked mandateRevoked : bool)
    : MandateVerificationResult :=
  mkVerification false (Some why) (Some id) (Some (grantor b)) (Some (grantee b)) (Some (m_principal b))
    false false false expired identityRevoked mandateRevoked.

Definition verifyMandate (mandate : SignedProof) (resolve : string → option IdentityGraph) (now graceMs : Z)
    (st : option MandateStatusSnapshot) : result AuthError MandateVerificationResult :=
  if negb (bool_decide (payload_schema mandate = Some MANDATE_SCHEMA)) then
    Ok (mkVerification false
          (Some ("invalid payload schema: " +:+ default "undefined"%string (payload_schema mandate))) None None None None
          false false false false false false)
  else
  match payload_mandate mandate with
  | None => Ok (mkVerification false (Some "missing mandate body in payload"%string) None None None None
                  false false false false false false)
  | Some b =>
      id ← computeMandateId sha3_hex b;
      Ok (
        if epoch_recorded st id then failed b id "mandate has been revoked" false false true else
        let proofResult := verifyProof mandate graceMs now in
        if negb (v_valid proofResult) then
          failed b id (default "proof verification failed"%string (v_reason proofResult))
            (default false (v_expired proofResult)) false false
        else if negb (bool_decide (signerAddress proofResult = Some (grantor b))) then
          failed b id ("proof signer " +:+ quoted (default "undefined"%string (signerAddress proofResult))
            +:+ " does not match grantor " +:+ quoted (grantor b)) false false false
        else if (match expiresAt b with Some e => now >? e + graceMs | None => false end) then
          failed b id "mandate has expired" true false false
        else
        match resolve (m_principal b) with
        | None => failed b id ("identity not found for principal " +:+ quoted (m_principal b)) false false false
        | Some g =>
            if negb (String.eqb (document_id g) (m_principal b)) then
              failed b id ("resolved identity ID " +:+ quoted (document_id g) +:+ " does not match requested "
                +:+ quoted (m_principal b)) false false false
            else
            match resolveIdentityGraph g with
            | None => failed b id "identity graph could not be resolved" false false false
            | Some r =>
                if negb (bool_decide (status r = active)) then
                  failed b id ("principal identity status is " +:+ quoted (status_name (status r))) false (bool_decide (status r = revoked)) false
                else if negb (isGrantorAuthorized (grantor b) r) then
                  failed b id ("grantor " +:+ quoted (grantor b) +:+ " is not authorized to issue mandates")
                    false false false
                else mkVerification true None (Some id) (Some (grantor b)) (Some (grantee b))
                       (Some (m_principal b)) true true false false false false
            end
        end)
  end.

(** ** evaluate.ts *)

Record EvaluateAuthorityParams := mkParams {
  p_action : ActionIntent;
  p_mandate : SignedProof;
  p_resolve : string → option IdentityGraph;
  p_usageSnapshot : AuthorityUsageSnapshot;
  p_mandateStatus : option MandateStatusSnapshot;
  p_evidence : option (list SignedProof);
  p_now : Z;
  p_graceMs : option Z;
  p_policyVersion : option string }.

Record AuthorityDecision := mkDecision {
  allowed : bool;
  d_reason : option string;
  matchedRules : list string;
  failedRules : list string;
  d_intentId : string;
  d_mandateId : string;
  decisionId : string;
  evaluatedAt : Z;
  policyVersion : string;
  d_verification : MandateVerificationResult;
  usageSnapshotHash : string;
  evidenceIds : list string }.

(** A condition that was evaluated, with the rule it matches or fails. *)
Definition rule (b : bool) (yes no : string) : string + string := if b then inl yes else inr no.
Definition matched (l : list (string + string)) : list string :=
  omap (λ r, match r with inl s => Some s | inr _ => None end) l.
Definition failures (l : list (string + string)) : list string :=
  omap (λ r, match r with inr s => Some s | inl _ => None end) l.

Definition evaluateAuthority (p : EvaluateAuthorityParams)
    : result AuthError (AuthorityDecision * UsageDelta) :=
  let a := p_action p in
  intentId ← computeActionIntentId sha3_hex a;
  let usageDelta := calculateUsageDelta a in
  let body := payload_mandate (p_mandate p) in
  mv ← verifyMandate (p_mandate p) (p_resolve p) (p_now p) (default 0 (p_graceMs p)) (p_mandateStatus p);
  let verification_rules :=
    if valid mv
    then [inl "mandate:crypto:valid"; inl "mandate:signer:matches_grantor"; inl "mandate:identity:verified"]
    else [inr "mandate:verification:failed"] in
  bound ←
    match body, valid mv with
    | Some b, true =>
        let actorBound := String.eqb (agent a) (grantee b) in
        let principalBound := String.eqb (principal a) (m_principal b) in
        let scopeMatch := matchScope (action a) (scope b) in
        constraintsMatch ← match m_constraints b with
                           | None | Some [] => Ok true
                           | Some cs => matchConstraints a cs
                           end;
        Ok (actorBound, principalBound, scopeMatch, constraintsMatch,
            [rule actorBound "binding:grantee:match" "binding:grantee:mismatch";
             rule principalBound "binding:principal:match" "binding:principal:mismatch";
             rule scopeMatch "scope:match" "scope:mismatch";
             rule constraintsMatch "scope:constraints:passed" "scope:constraints:failed"])
    | _, _ => Ok (true, true, false, true, [])
    end;
  let '(actorBound, principalBound, scopeMatch, constraintsMatch, binding_rules) := bound in
  usage ←
    match body ≫= usageLimit, scopeMatch with
    | Some limit, true =>
        ok ← checkUsageLimit (p_usageSnapshot p) limit (p_now p) (Some usageDelta);
        Ok (negb ok, [rule ok "usage:within_limits" "usage:limit_exceeded"])
    | _, _ => Ok (false, [])
    end;
  let '(usageExceeded, usage_rules) := usage in
  let rules := (verification_rules ++ binding_rules ++ usage_rules)%list in
  let mandateId := default ""%string (mandateId mv) in
  snapshotHash ← computeUsageSnapshotHash sha3_hex (p_usageSnapshot p);
  let evidenceIds := sorted (map proofId (default [] (p_evidence p))) in
  let allowed := valid mv && actorBound && principalBound && scopeMatch && constraintsMatch && negb usageExceeded in
  let version := default "0.1.0"%string (p_policyVersion p) in
  decisionId ← computeAuthorityDecisionId sha3_hex
    (mkBase intentId mandateId (valid mv) snapshotHash evidenceIds (p_now p) version
       (if allowed then "allowed" else "denied") (matched rules) (failures rules));
  Ok (mkDecision allowed
        (if allowed then None
         else if Nat.ltb 0 (length (failures rules))
              then Some ("denied by rules: " +:+ join_with ", " (failures rules))
              else Some "authority evaluation failed"%string)
        (matched rules) (failures rules) intentId mandateId decisionId (p_now p) version mv snapshotHash
        evidenceIds, usageDelta).

End engine.

End Auth.
