(* ===== verification/AuthoritySpec.v ===== *)
(** * What the authority engine promises

    A scope's first wildcard stands for a run of segments and later ones for one each, and
    none crosses a literal; an action is allowed exactly when every check passes; usage
    limits hold in every window over every history of decisions; intent ids do not depend
    on the order of members; and the numeric operators throw on fractional operands. *)

From Stdlib Require Import ZArith Lia QArith Ascii String.
From stdpp Require Import base sets list strings sorting.
From S2P Require Import Prelude JsBase JsText Canonical CanonicalSpec Authority.

Module AuthSpec.
Import Js JsText CjSpec Auth.

(** ** Scopes *)

(** The action segments a scope stands for: a literal stands for itself, a
    wildcard for any run of segments, a final wildcard for a non-empty one. *)
Inductive expands : list string → list string → Prop :=
| expands_nil : expands [] []
| expands_lit x ss ys : x ≠ "*"%string → expands ss ys → expands (x :: ss) (x :: ys)
| expands_star ss pre ys :
    (ss = [] → pre ≠ []) → expands ss ys → expands ("*"%string :: ss) (pre ++ ys).

Lemma match_parts_sound s : ∀ a, match_parts s a = true → expands s a.
Proof.
  induction s as [|x s IH]; intros a H; simpl in H; [destruct a; [constructor|done]|].
  destruct a as [|y a]; [done|].
  destruct (String.eqb_spec x "*") as [->|Hx].
  - destruct s as [|x' s]; [|destruct (Nat.ltb _ _) eqn:Hlt; [done|]].
    + rewrite <- (app_nil_r (y :: a)). constructor; [done|constructor].
    + set (n := (length (y :: a) - length (x' :: s))%nat) in *.
      rewrite <- (take_drop n (y :: a)). constructor; [done|]. by apply IH.
  - destruct (String.eqb_spec y x) as [->|]; simpl in H; [|done]. constructor; [done|by apply IH].
Qed.

(** Without further wildcards a scope stands for runs of its own length. *)
Lemma expands_literal s a : Forall (λ x, x ≠ "*"%string) s → expands s a → a = s.
Proof.
  intros Hs H. induction H as [|x ss ys Hx H IH|ss pre ys Hp H IH]; [done| |].
  - apply Forall_cons in Hs as [_ Hs]. by rewrite IH.
  - apply Forall_cons in Hs as [Hs _]. done.
Qed.

Lemma match_parts_literal s : Forall (λ x, x ≠ "*"%string) s → match_parts s s = true.
Proof.
  induction s as [|x s IH]; intros Hs; [done|]. apply Forall_cons in Hs as [Hx Hs]. simpl.
  destruct (String.eqb_spec x "*"); [done|]. rewrite String.eqb_refl. simpl. by apply IH.
Qed.

Definition one_wildcard (s : list string) : Prop :=
  ∃ l r, s = l ++ "*"%string :: r ∧ Forall (λ x, x ≠ "*"%string) l ∧ Forall (λ x, x ≠ "*"%string) r.

Lemma match_parts_complete s a :
  Forall (λ x, x ≠ "*"%string) s ∨ one_wildcard s → expands s a → match_parts s a = true.
Proof.
  intros [Hs|(l & r & -> & Hl & Hr)] H.
  - apply (expands_literal _ _ Hs) in H as ->. by apply match_parts_literal.
  - revert a H. induction l as [|x l IH]; intros a H; simpl in H.
    + inversion H as [| |ss pre ys Hp Hys]; subst; [done|].
      apply (expands_literal _ _ Hr) in Hys as ->. simpl.
      destruct (pre ++ r) as [|y a] eqn:E.
      { apply app_eq_nil in E as [-> ->]. by destruct Hp. }
      destruct r as [|x r]; [done|]. rewrite <- E, length_app.
      destruct (Nat.ltb_spec (length pre + length (x :: r)) (length (x :: r))); [lia|].
      replace (length pre + length (x :: r) - length (x :: r))%nat with (length pre) by lia.
      rewrite drop_app_length. by apply match_parts_literal.
    + apply Forall_cons in Hl as [Hx Hl]. inversion H as [|x' ss ys Hx' Hys|]; subst; [|done].
      simpl. destruct (String.eqb_spec x "*"); [done|]. rewrite String.eqb_refl. simpl. by apply IH.
Qed.

Lemma split_on_inj sep a : ∀ b, split_on sep a = split_on sep b → a = b.
Proof.
  assert (Hne : ∀ s, ∃ w ws, split_on sep s = w :: ws).
  { induction s as [|c s (w & ws & IH)]; simpl; [by do 2 eexists|]. rewrite IH. destruct (Ascii.eqb c sep); by do 2 eexists. }
  induction a as [|c a IH]; intros [|d b]; simpl; try done.
  - destruct (Hne b) as (w & ws & ->). by destruct (Ascii.eqb d sep).
  - destruct (Hne a) as (w & ws & ->). by destruct (Ascii.eqb c sep).
  - specialize (IH b). destruct (Hne a) as (w & ws & Ha), (Hne b) as (w' & ws' & Hb). rewrite Ha, Hb in *.
    destruct (Ascii.eqb_spec c sep) as [->|], (Ascii.eqb_spec d sep) as [->|]; intros H; simplify_eq; try done;
      f_equal; by apply IH.
Qed.

(** *** Exactly which actions match *)

(** Segment by segment, a wildcard for one segment. *)
Notation aligned := (Forall2 (λ x y : string, x = "*"%string ∨ x = y)).
(** Literals up to the first wildcard stand for themselves.  That wildcard takes a run
    of segments as long as the rest of the scope allows, and not empty if it is the last part;
    each wildcard after it takes one segment. *)
Definition first_wildcard_runs (s a : list string) : Prop :=
  ∃ l r pre ys, s = l ++ "*"%string :: r ∧ Forall (λ x, x ≠ "*"%string) l
    ∧ a = l ++ pre ++ ys ∧ aligned r ys ∧ (r = [] → pre ≠ []).

Lemma match_parts_star x s y a :
  match_parts ("*"%string :: x :: s) (y :: a)
  = if Nat.ltb (length (y :: a)) (length (x :: s)) then false
    else match_parts (x :: s) (drop (length (y :: a) - length (x :: s)) (y :: a)).
Proof. done. Qed.
Lemma match_parts_lit x s y a :
  x ≠ "*"%string → match_parts (x :: s) (y :: a) = String.eqb y x && match_parts s a.
Proof. intros Hx. cbn [match_parts]. destruct (String.eqb_spec x "*"); [done|]. by destruct (String.eqb y x). Qed.

Lemma match_parts_aligned s : ∀ a, length s = length a → match_parts s a = true ↔ aligned s a.
Proof.
  induction s as [|x s IH]; intros [|y a] Hl; try done. injection Hl as Hl. rewrite Forall2_cons, <- IH by done.
  destruct (decide (x = "*"%string)) as [->|Hx].
  - destruct s as [|x s]; [destruct a; [naive_solver|done]|]. rewrite match_parts_star, Hl. cbn [length].
    replace (Nat.ltb (S (length a)) (length a)) with false by (symmetry; apply Nat.ltb_ge; lia).
    replace (S (length a) - length a)%nat with 1%nat by lia. cbn [drop]. naive_solver.
  - rewrite match_parts_lit, andb_true_iff, String.eqb_eq by done. naive_solver.
Qed.
Lemma match_parts_exact s : ∀ a,
  match_parts s a = true ↔ (a = s ∧ Forall (λ x, x ≠ "*"%string) s) ∨ first_wildcard_runs s a.
Proof.
  induction s as [|x s IH]; intros a.
  { destruct a; cbn [match_parts]; split; try done; [by left|..].
    all: intros [[? _]|(l & r & pre & ys & E & _)]; [done|by destruct l]. }
  destruct (decide (x = "*"%string)) as [->|Hx].
  - transitivity (∃ pre ys, a = pre ++ ys ∧ aligned s ys ∧ (s = [] → pre ≠ [])).
    + destruct a as [|y a].
      { split; [done|]. intros (pre & ys & E & Ha & Hp). symmetry in E. apply app_eq_nil in E as [-> ->].
        apply Forall2_nil_inv_r in Ha as ->. by destruct Hp. }
      destruct s as [|x s].
      { split; [|done]. intros _. exists (y :: a), []. rewrite app_nil_r. by repeat split. }
      rewrite match_parts_star. set (n := length (x :: s)). set (k := length (y :: a)).
      destruct (Nat.ltb_spec k n) as [Hlt|Hge].
      { split; [done|]. intros (pre & ys & E & Ha & _). apply Forall2_length in Ha. unfold k in Hlt. rewrite E, length_app in Hlt. lia. }
      rewrite match_parts_aligned by (rewrite length_drop; fold n k; lia). split.
      * intros Ha. exists (take (k - n) (y :: a)), (drop (k - n) (y :: a)). by rewrite take_drop.
      * intros (pre & ys & E & Ha & _). pose proof (Forall2_length _ _ _ Ha) as El. fold n in El.
        unfold k. rewrite E, length_app, <- El. replace (length pre + n - n)%nat with (length pre) by lia. by rewrite drop_app_length.
    + split.
      * intros (pre & ys & -> & Ha & Hp). right. by exists [], s, pre, ys.
      * intros [[_ Hl]|(l & r & pre & ys & E & Hl & -> & Ha & Hp)]; [by apply Forall_cons in Hl as [? _]|].
        destruct l as [|x l]; [injection E as ->; by exists pre, ys|]. injection E as <- ->. by apply Forall_cons in Hl as [? _].
  - destruct a as [|y a].
    { split; [done|]. intros [[? _]|(l & r & pre & ys & E & Hl & Ha & _)]; [done|].
      destruct l; [|done]. by injection E as ->. }
    rewrite match_parts_lit, andb_true_iff, String.eqb_eq, IH by done. split.
    + intros [-> [[-> Hl]|(l & r & pre & ys & -> & Hl & -> & Ha & Hp)]]; [left; split; [done|by constructor]|right].
      exists (x :: l), r, pre, ys. split; [done|]. split; [by constructor|done].
    + intros [[[= -> ->] [_ Hl]%Forall_cons]|(l & r & pre & ys & E & Hl & Ea & Ha & Hp)]; [split; [done|by left]|].
      destruct l as [|x' l]; [by injection E as ->|]. injection E as <- ->. injection Ea as -> ->. apply Forall_cons in Hl as [_ Hl].
      split; [done|right]. by exists l, r, pre, ys.
Qed.

(** ** Decisions *)

Lemma failures_app l k : failures (l ++ k) = failures l ++ failures k.
Proof. unfold failures. apply omap_app. Qed.

Section decisions.
Context `{V : Verifier}.
Variable sha3_hex : string → string.

(** The conditions under which a mandate verifies. *)
Definition mandate_valid (mandate : SignedProof) (resolve : string → option IdentityGraph) (now graceMs : Z)
    (st : option MandateStatusSnapshot) (b : MandateBody) : Prop :=
  payload_schema mandate = Some MANDATE_SCHEMA ∧
  (∃ id, computeMandateId sha3_hex b = Ok id ∧ epoch_recorded st id = false) ∧
  v_valid (verifyProof mandate graceMs now) = true ∧
  signerAddress (verifyProof mandate graceMs now) = Some (grantor b) ∧
  (∀ e, expiresAt b = Some e → now <= e + graceMs) ∧
  ∃ g r, resolve (m_principal b) = Some g ∧ document_id g = m_principal b ∧
         resolveIdentityGraph g = Some r ∧ status r = active ∧ isGrantorAuthorized (grantor b) r = true.

Lemma verifyMandate_valid mandate resolve now graceMs st r :
  verifyMandate sha3_hex mandate resolve now graceMs st = Ok r →
  (valid r = true ↔ ∃ b, payload_mandate mandate = Some b ∧ mandate_valid mandate resolve now graceMs st b).
Proof.
  unfold verifyMandate, mandate_valid. intros H.
  destruct (bool_decide (payload_schema mandate = Some MANDATE_SCHEMA)) eqn:Hs; simpl in H.
  2: { apply bool_decide_eq_false in Hs. injection H as <-. simpl. split; [done|]. naive_solver. }
  apply bool_decide_eq_true in Hs. destruct (payload_mandate mandate) as [b|]; [|injection H as <-; naive_solver].
  apply result_bind_Ok in H as (id & Hid & H). injection H as <-.
  (* a failed check contradicts validity *)
  assert (Hrefute : (mandate_valid mandate resolve now graceMs st b → False) →
    (false = true ↔ ∃ b', Some b = Some b' ∧ mandate_valid mandate resolve now graceMs st b')).
  { intros Hno. split; [done|]. intros (b' & [= <-] & Hv). by apply Hno in Hv. }
  unfold mandate_valid in *.
  destruct (epoch_recorded st id) eqn:Hep; [apply Hrefute; intros (_ & (id' & ? & ?) & _); congruence|].
  destruct (v_valid (verifyProof mandate graceMs now)) eqn:Hvp; simpl;
    [|apply Hrefute; intros (_ & _ & ? & _); congruence].
  destruct (bool_decide _) eqn:Hsig; simpl; [apply bool_decide_eq_true in Hsig
    |apply bool_decide_eq_false in Hsig; apply Hrefute; intros (_ & _ & _ & ? & _); congruence].
  assert (Hexp : (match expiresAt b with Some e => now >? e + graceMs | None => false end) = false ↔
                 (∀ e, expiresAt b = Some e → now <= e + graceMs)).
  { destruct (expiresAt b) as [e|]; [|naive_solver]. split; [intros H e' [= <-]; lia|].
    intros H. specialize (H e eq_refl). lia. }
  destruct (match expiresAt b with Some _ => _ | None => _ end).
  { apply Hrefute. intros (_ & _ & _ & _ & He & _). by apply Hexp in He. }
  destruct (resolve (m_principal b)) as [g|] eqn:Hres; simpl;
    [|apply Hrefute; intros (_ & _ & _ & _ & _ & g & r & ? & _); congruence].
  destruct (String.eqb_spec (document_id g) (m_principal b)) as [Hdoc|]; simpl;
    [|apply Hrefute; intros (_ & _ & _ & _ & _ & g' & r & ? & ? & _); congruence].
  destruct (resolveIdentityGraph g) as [rs|] eqn:Hg; simpl;
    [|apply Hrefute; intros (_ & _ & _ & _ & _ & g' & r & ? & _ & ? & _); congruence].
  destruct (bool_decide (status rs = active)) eqn:Hst; simpl; [apply bool_decide_eq_true in Hst
    |apply bool_decide_eq_false in Hst; apply Hrefute;
     intros (_ & _ & _ & _ & _ & g' & r & ? & _ & ? & ? & _); congruence].
  destruct (isGrantorAuthorized (grantor b) rs) eqn:Hga; simpl;
    [|apply Hrefute; intros (_ & _ & _ & _ & _ & g' & r & ? & _ & ? & _ & ?); congruence].
  split; [intros _|done]. exists b. split_and!; [done|done|by exists id|done|done|by apply Hexp|].
  by exists g, rs.
Qed.

(** The action is within what the mandate grants. *)
Definition covered (p : EvaluateAuthorityParams) (b : MandateBody) : Prop :=
  agent (p_action p) = grantee b ∧ principal (p_action p) = m_principal b ∧
  matchScope (action (p_action p)) (scope b) = true ∧
  matchConstraints (p_action p) (default [] (m_constraints b)) = Ok true ∧
  ∀ l, usageLimit b = Some l →
    checkUsageLimit (p_usageSnapshot p) l (p_now p) (Some (calculateUsageDelta (p_action p))) = Ok true.

Lemma evaluate_allowed p d delta :
  evaluateAuthority sha3_hex p = Ok (d, delta) →
  delta = calculateUsageDelta (p_action p) ∧
  (allowed d = true ↔
     ∃ b, payload_mandate (p_mandate p) = Some b ∧
          mandate_valid (p_mandate p) (p_resolve p) (p_now p) (default 0 (p_graceMs p)) (p_mandateStatus p) b ∧
          covered p b) ∧
  (allowed d = true ↔ failedRules d = []) ∧ (allowed d = true ↔ d_reason d = None).
Proof.
  unfold evaluateAuthority, covered. intros H.
  apply result_bind_Ok in H as (iid & _ & H). apply result_bind_Ok in H as (mv & Hmv & H).
  pose proof (verifyMandate_valid _ _ _ _ _ _ Hmv) as Hval.
  apply result_bind_Ok in H as ([[[[ab pb] sm] cm] brules] & Hb & H).
  apply result_bind_Ok in H as ([ue urules] & Hu & H).
  apply result_bind_Ok in H as (sh & _ & H). apply result_bind_Ok in H as (did & _ & H).
  injection H as <- <-. simpl. split; [done|].
  destruct (payload_mandate (p_mandate p)) as [b|] eqn:Hpm.
  2: { assert (valid mv = false) as Hv.
       { destruct (valid mv); [|done]. destruct (proj1 Hval eq_refl) as (b & ? & _). done. }
       rewrite Hv in *. injection Hb as <- <- <- <- <-. simpl in Hu. injection Hu as <- <-. simpl.
       split; [naive_solver|]. split; naive_solver. }
  destruct (valid mv) eqn:Hv.
  2: { injection Hb as <- <- <- <- <-. simpl in Hu.
       assert (ue = false ∧ urules = []) as [-> ->].
       { destruct (usageLimit b); by injection Hu as <- <-. }
       simpl. split; [|split; naive_solver]. split; [done|].
       intros (b' & [= <-] & Hmval & _). exfalso.
       assert (false = true) by (apply Hval; by exists b). done. }
  apply result_bind_Ok in Hb as (c & Hc & Hb). injection Hb as <- <- <- <- <-.
  destruct (proj1 Hval eq_refl) as (b' & [= <-] & Hmval).
  assert (Hcs : matchConstraints (p_action p) (default [] (m_constraints b)) = Ok c).
  { destruct (m_constraints b) as [[|c0 cs]|]; simpl in *; congruence. }
  simpl in Hu.
  assert (Huse : ue = false ↔ (matchScope (action (p_action p)) (scope b) = true →
      ∀ l, usageLimit b = Some l →
      checkUsageLimit (p_usageSnapshot p) l (p_now p) (Some (calculateUsageDelta (p_action p))) = Ok true)
      ).
  { destruct (usageLimit b) as [l|]; [|injection Hu as <- <-; naive_solver].
    destruct (matchScope _ _); [|injection Hu as <- <-; naive_solver].
    apply result_bind_Ok in Hu as (ok & Hok & Hu). injection Hu as <- <-.
    split; [intros Hn _ l' [= <-]; rewrite Hok; by destruct ok|].
    intros Hall. specialize (Hall eq_refl l eq_refl). rewrite Hok in Hall. by injection Hall as ->. }
  assert (Hur : ue = true → urules = [inr "usage:limit_exceeded"%string]).
  { destruct (usageLimit b) as [l|]; [|by injection Hu as <- <-].
    destruct (matchScope _ _); [|by injection Hu as <- <-].
    apply result_bind_Ok in Hu as (ok & Hok & Hu). injection Hu as <- <-. by destruct ok. }
  assert (Hur' : ue = false → failures urules = []).
  { destruct (usageLimit b) as [l|]; [|by injection Hu as _ <-].
    destruct (matchScope _ _); [|by injection Hu as _ <-].
    apply result_bind_Ok in Hu as (ok & Hok & Hu). injection Hu as <- <-. by destruct ok. }
  split.
  - rewrite !andb_true_iff, !String.eqb_eq, negb_true_iff, Huse. split.
    + intros (((([_ ?] & ?) & ?) & ->) & Hl). exists b. split_and!; try done. by apply Hl.
    + intros (b' & [= <-] & _ & ? & ? & ? & Hc' & Hl). rewrite Hcs in Hc'. injection Hc' as ->.
      by split_and!.
  - change (inl ?a :: inl ?b :: inl ?c :: ?l) with ([inl a; inl b; inl c] ++ l).
    rewrite !failures_app. clear Hcs Hc Huse Hu Hval.
    assert (failures urules = if ue then ["usage:limit_exceeded"%string] else []) as ->.
    { destruct ue; [by rewrite Hur|by apply Hur']. }
    unfold rule. by destruct (String.eqb (agent _) _), (String.eqb (principal _) _), (matchScope _ _), c, ue.
Qed.

End decisions.

(** ** Usage over a history of decisions *)

Definition amount_of (u : AuthorityUsage) : Z :=
  match usage_amount u with Some a => big_of_digits a | None => 0 end.
Definition count_in (w : option (Z * Z)) (us : list AuthorityUsage) : Z :=
  foldr Z.add 0 (map usage_count (List.filter (in_window w) us)).
Definition amount_in (w : option (Z * Z)) (us : list AuthorityUsage) : Z :=
  foldr Z.add 0 (map amount_of (List.filter (in_window w) us)).

Lemma big_of_digits_nonneg s : 0 <= big_of_digits s.
Proof.
  unfold big_of_digits. destruct (parse_radix 10 s) as [n|] eqn:E; simpl; [|lia].
  destruct s as [|c s]; [done|].
  assert (∀ t a m, 0 <= a → radix_digits 10 a t = Some m → 0 <= m) as Hgo.
  { induction t as [|d t IH]; intros a m Ha H; simpl in H; [congruence|].
    destruct (digit_val d) as [v|] eqn:Hv; [|done]. destruct (v <? 10); [|done].
    apply IH in H; [done|]. unfold digit_val, in_range in Hv. split_guards; lia. }
  by apply (Hgo (String c s) 0).
Qed.

Lemma big_to_string_digits n :
  0 <= n → isNonNegativeInteger (big_to_string n) = true ∧ big_of_digits (big_to_string n) = n.
Proof.
  intros H. unfold big_to_string. replace (n <? 0) with false by lia.
  split; [by apply all_digits_dec|]. unfold big_of_digits. by rewrite parse_radix_dec.
Qed.

Definition total_value (t : option string) : Z := match t with Some s => big_of_digits s | None => 0 end.

Lemma sum_usage_Ok w us : ∀ c t c' t',
  sum_usage w us (c, t) = Ok (c', t') → (∀ s, t = Some s → isNonNegativeInteger s = true) →
  c' = c + count_in w us ∧ total_value t' = total_value t + amount_in w us ∧
  (∀ s, t' = Some s → isNonNegativeInteger s = true).
Proof.
  induction us as [|u us IH]; intros c t c' t' H Ht; unfold count_in, amount_in in *; simpl in H |- *.
  { injection H as <- <-. split_and!; [lia|lia|done]. }
  destruct (in_window w u) eqn:Hw; simpl in H |- *; [|by apply IH].
  unfold amount_of at 1. destruct (usage_amount u) as [a|].
  - destruct (isNonNegativeInteger a) eqn:Ha; simpl in H; [|done].
    pose proof (big_of_digits_nonneg a).
    set (cur := match t with Some t => big_of_digits t | None => 0 end) in *.
    assert (0 <= cur) as Hcur by (subst cur; destruct t; [apply big_of_digits_nonneg|lia]).
    destruct (big_to_string_digits (cur + big_of_digits a)) as [Hd Hv]; [lia|].
    apply IH in H as (Hc & Ht' & Hs'); [|by intros s [= <-]].
    split_and!; [lia| |done]. rewrite Ht'. simpl. rewrite Hv. unfold total_value. subst cur. lia.
  - apply IH in H as (Hc & Ht' & Hs'); [|done]. split_and!; [lia|lia|done].
Qed.

(** The window of a time that lies in the window of another is the same one. *)
Lemma window_of_same l t u :
  in_window (window_of l t) u = true → window_of l t = window_of l (usedAt u).
Proof.
  unfold window_of. destruct (l ≫= windowMs) as [w|]; [|done].
  destruct (w >? 0) eqn:Hw; [|done]. simpl. intros H.
  assert (t / w = usedAt u / w) as ->; [|done]. apply Z.div_unique_pos with (usedAt u - t / w * w); lia.
Qed.

Lemma in_window_self l u : in_window (window_of l (usedAt u)) u = true.
Proof.
  unfold window_of. destruct (l ≫= windowMs) as [w|]; [|done].
  destruct (w >? 0) eqn:Hw; [|done]. simpl. assert (0 < w) by lia. Z.div_mod_to_equations; lia.
Qed.

Lemma in_window_time l t u u' :
  usedAt u = usedAt u' → in_window (window_of l t) u = in_window (window_of l t) u'.
Proof. unfold in_window. by intros ->. Qed.

(** The limit holds in the window of every time. *)
Definition within_limit (l : UsageLimit) (us : list AuthorityUsage) : Prop :=
  ∀ t, let w := window_of (Some l) t in
    (∀ m, maxCount l = Some m → count_in w us <= m) ∧
    (∀ s, maxTotal l = Some s → amount_in w us <= big_of_digits s).

Lemma count_in_snoc w us u :
  count_in w (us ++ [u]) = count_in w us + (if in_window w u then usage_count u else 0).
Proof.
  unfold count_in. rewrite List.filter_app, map_app. simpl.
  destruct (in_window w u); simpl; [|rewrite app_nil_r; lia].
  induction (map usage_count (List.filter (in_window w) us)); simpl; lia.
Qed.
Lemma amount_in_snoc w us u :
  amount_in w (us ++ [u]) = amount_in w us + (if in_window w u then amount_of u else 0).
Proof.
  unfold amount_in. rewrite List.filter_app, map_app. simpl.
  destruct (in_window w u); simpl; [|rewrite app_nil_r; lia].
  induction (map amount_of (List.filter (in_window w) us)); simpl; lia.
Qed.

(** The amount a delta proposes, when it is a string or absent. *)
Definition typed_amount (d : UsageDelta) : option (option string) :=
  match d_amount d with JUndef => Some None | JStr s => Some (Some s) | _ => None end.

(** A use within the limit, recorded at [now], keeps the limit in every window. *)
Lemma record_within_limit l us now snap d a u :
  within_limit l us →
  snapshotFromUsage us now (Some l) = Ok snap → typed_amount d = Some a →
  checkUsageLimit snap l now (Some d) = Ok true →
  usedAt u = now → usage_count u = d_count d → usage_amount u = a →
  within_limit l (us ++ [u]).
Proof.
  intros Hl Hs Ha Hc Hu Huc Hua t w. unfold snapshotFromUsage in Hs.
  apply result_bind_Ok in Hs as ([c tot] & Hsum & Hs). injection Hs as <-.
  apply sum_usage_Ok in Hsum as (Hcnt & Htot & Hdig); [|done]. simpl in Htot.
  destruct (Hl t) as [Hl1 Hl2]. fold w in Hl1, Hl2.
  destruct (in_window w u) eqn:Hin.
  2: { split; intros; rewrite ?count_in_snoc, ?amount_in_snoc, Hin; [specialize (Hl1 _ H)|specialize (Hl2 _ H)]; lia. }
  assert (w = window_of (Some l) now) as Hw by (rewrite <- Hu; by apply window_of_same).
  unfold checkUsageLimit in Hc. simpl in Hc.
  destruct (negb (match maxCount l with Some _ => _ | None => _ end)) eqn:Hcount; [done|].
  split.
  - intros m Hm. rewrite Hm in Hcount. rewrite count_in_snoc, Hin, Huc, Hw. lia.
  - intros s Hms. rewrite Hms in Hc. apply result_bind_Ok in Hc as ([] & Hbad & Hc).
    rewrite amount_in_snoc, Hin. unfold amount_of. rewrite Hua, Hw.
    assert (Hcur : match tot with Some t => if isNonNegativeInteger t then big_of_digits t else 0 | None => 0 end
                   = amount_in (window_of (Some l) now) us).
    { destruct tot as [ts|]; simpl in Htot; [by rewrite (Hdig ts eq_refl)|done]. }
    rewrite Hcur in Hc. unfold typed_amount in Ha. destruct (d_amount d) as [| | | | |as_| | |]; try done.
    + injection Ha as <-. injection Hc as Hc. lia.
    + injection Ha as <-. simpl in Hc. destruct (isNonNegativeInteger as_) eqn:Hn; simpl in Hc; [|done].
      rewrite big_of_string_digits in Hc by done.
      destruct (all_digits_radix as_ Hn) as (z & Hz & _). rewrite Hz in Hc. simpl in Hc. injection Hc as Hc.
      assert (big_of_digits as_ = z) as -> by (unfold big_of_digits; by rewrite Hz). lia.
Qed.

(** The uses a caller records under one usage limit: it evaluates with the
    snapshot of the uses so far and records each allowed one with its delta. *)
Section history.
Context `{V : Verifier}.
Variable sha3_hex : string → string.

Inductive history (l : UsageLimit) : list AuthorityUsage → Prop :=
| history_nil : history l []
| history_record us p b d delta a id pid :
    history l us →
    payload_mandate (p_mandate p) = Some b → usageLimit b = Some l →
    snapshotFromUsage us (p_now p) (Some l) = Ok (p_usageSnapshot p) →
    evaluateAuthority sha3_hex p = Ok (d, delta) → allowed d = true →
    typed_amount delta = Some a →
    history l (us ++ [mkUsage id pid (d_intentId d) (p_now p) (Some (Some (d_count delta), a))]).

End history.

(** ** A concrete verifier *)

(** Proofs that carry a mandate and whose signature check is a fixed answer;
    identities are single-address. *)
#[local] Instance toy_verifier : Verifier := {|
  SignedProof := MandateBody;
  IdentityGraph := string;
  proofId := λ m, ("proof:" +:+ grantor m);
  payload_schema := λ _, Some MANDATE_SCHEMA;
  payload_mandate := Some;
  verifyProof := λ m _ _, mkVerify true None None (Some (grantor m));
  document_id := λ g, g;
  resolveIdentityGraph := λ g, Some (mkResolved active g g []) |}.

Definition toy_limit : UsageLimit := mkLimit (Some 2) (Some "100"%string) (Some 1000).
Definition toy_mandate : MandateBody :=
  mkMandate "alice" "bot" "alice" "pay:*"
    (Some [mkConstraint "amount" "lte" (JStr "60")]) (Some toy_limit) 0 None None.
Definition toy_action (n : string) (amt : string) : ActionIntent :=
  mkAction "pay:invoice" "alice" "bot" (Some "shop"%string)
    (Some [("amount", JStr amt); ("memo", JStr "x")]%string) (Some n).
Definition toy_params (n amt : string) (us : list AuthorityUsage) (now : Z) : EvaluateAuthorityParams :=
  mkParams (toy_action n amt) toy_mandate Some
    (match snapshotFromUsage us now (Some toy_limit) with Ok s => s | Err _ => mkSnapshot "" 0 None None None end)
    None None now None None.
Definition sha_id (s : string) : string := s.

(** ** Properties *)

(** C39. A scope matches an action exactly when it is a bare wildcard, the action itself,
    or has a wildcard and covers the action as follows: the parts before the first
    wildcard are the action's first segments; that wildcard stands for a run of
    segments, not empty if it is the last part; and each part after it stands for one
    segment, a literal for itself and a further wildcard for any one.  Whatever
    matches also expands to the action's segments with every wildcard a run; the converse
    holds for a scope with at most one wildcard, and fails beyond: the second wildcard of
    *:b:* takes one segment only. *)
Theorem scope_matching act scp :
  (matchScope act scp = true ↔
     scp = "*"%string ∨ act = scp ∨ first_wildcard_runs (split_on ":" scp) (split_on ":" act)) ∧
  (matchScope act scp = true →
     scp = "*"%string ∨ act = scp ∨ expands (split_on ":" scp) (split_on ":" act)) ∧
  (Forall (λ x, x ≠ "*"%string) (split_on ":" scp) ∨ one_wildcard (split_on ":" scp) →
     expands (split_on ":" scp) (split_on ":" act) → matchScope act scp = true) ∧
  (expands (split_on ":" "*:b:*") (split_on ":" "x:y:b:z:w") ∧ matchScope "x:y:b:z:w" "*:b:*" = false).
Proof.
  split; [|split; [|split; [|split; [|done]]]].
  - unfold matchScope. destruct (String.eqb_spec scp "*") as [->|]; [by split; [left|]|].
    destruct (String.eqb_spec act scp) as [->|]; [by split; [right; left|]|]. rewrite match_parts_exact.
    split; [|naive_solver]. intros [[E _]|]; [by apply split_on_inj in E|by right; right].
  - unfold matchScope. destruct (String.eqb_spec scp "*") as [->|]; [by left|].
    destruct (String.eqb_spec act scp) as [->|]; [by right; left|]. intros H%match_parts_sound. by right; right.
  - intros Hs H. unfold matchScope. destruct (String.eqb scp "*"); [done|]. destruct (String.eqb act scp); [done|].
    by apply match_parts_complete.
  - change (expands ["*"; "b"; "*"]%string (["x"; "y"]%string ++ "b"%string :: ["z"; "w"]%string ++ [])).
    constructor; [done|]. constructor; [done|]. constructor; [done|constructor].
Qed.

Lemma scope_matching_witness :
  matchScope "pay:invoice:7" "pay:*" = true ∧ expands (split_on ":" "pay:*") (split_on ":" "pay:invoice:7").
Proof.
  assert (H : matchScope "pay:invoice:7" "pay:*" = true) by reflexivity. split; [exact H|].
  destruct (proj1 (proj2 (scope_matching "pay:invoice:7" "pay:*")) H) as [|[|]]; [discriminate|discriminate|assumption].
Defined.

(** C37. A decision allows the action exactly when the mandate verifies (schema,
    revocation, signature by the grantor, expiry, an active resolved principal that
    authorises the grantor) and covers it (grantee, principal, scope, constraints,
    usage limit); it allows exactly when no rule failed and no reason is given. *)
Theorem allowed_iff_verified_and_covered `{Verifier} sha3_hex p d delta :
  evaluateAuthority sha3_hex p = Ok (d, delta) →
  (allowed d = true ↔
     ∃ b, payload_mandate (p_mandate p) = Some b ∧
          mandate_valid sha3_hex (p_mandate p) (p_resolve p) (p_now p) (default 0 (p_graceMs p))
            (p_mandateStatus p) b ∧
          covered p b) ∧
  (allowed d = true ↔ failedRules d = []) ∧ (allowed d = true ↔ d_reason d = None).
Proof. intros Hev. exact (proj2 (evaluate_allowed sha3_hex p d delta Hev)). Qed.

Lemma toy_evaluation_run :
  (λ r, (allowed r.1, failedRules r.1)) <$> evaluateAuthority sha_id (toy_params "1" "40" [] 5) = Ok (true, []) ∧
  (λ r, (allowed r.1, failedRules r.1)) <$> evaluateAuthority sha_id (toy_params "1" "70" [] 5)
    = Ok (false, ["scope:constraints:failed"%string]).
Proof. split; vm_compute; reflexivity. Qed.

Lemma allowed_iff_verified_and_covered_witness :
  match evaluateAuthority sha_id (toy_params "1" "40" [] 5) with
  | Ok (d, _) => allowed d = true ∧ covered (toy_params "1" "40" [] 5) toy_mandate
  | Err _ => False
  end.
Proof.
  pose proof (proj1 toy_evaluation_run) as Hrun.
  pose proof (allowed_iff_verified_and_covered sha_id (toy_params "1" "40" [] 5)) as H. revert Hrun H.
  generalize (evaluateAuthority sha_id (toy_params "1" "40" [] 5)). intros [[d delta]|e] Hrun H; [|discriminate].
  injection Hrun as Ha _. split; [exact Ha|].
  destruct (proj1 (proj1 (H d delta eq_refl)) Ha) as (b & Hb & _ & Hc). injection Hb as <-. exact Hc.
Defined.

(** C38. When every allowed use is evaluated against a snapshot of the uses so far
    and then recorded, no window of the limit ever holds more uses than [maxCount]
    nor a larger total than [maxTotal]. *)
Theorem limits_hold_in_every_window `{Verifier} sha3_hex l us :
  (∀ m, maxCount l = Some m → 0 <= m) → history sha3_hex l us → within_limit l us.
Proof.
  intros Hm Hh. induction Hh as [|us p b d delta a id pid Hh IH Hpm Hul Hsnap Hev Hal Ha].
  - intros t w. split; [exact Hm|]. intros s _. apply big_of_digits_nonneg.
  - destruct (evaluate_allowed _ _ _ _ Hev) as (-> & Hiff & _).
    apply Hiff in Hal as (b' & Hpm' & _ & _ & _ & _ & _ & Hcheck).
    rewrite Hpm in Hpm'. injection Hpm' as <-. specialize (Hcheck l Hul).
    by eapply record_within_limit.
Qed.

Definition recorded (r : result AuthError (AuthorityDecision * UsageDelta)) (us : list AuthorityUsage)
    (id pid : string) (now : Z) : list AuthorityUsage :=
  match r with
  | Ok (d, delta) =>
      if allowed d then us ++ [mkUsage id pid (d_intentId d) now
                                 (Some (Some (d_count delta), default None (typed_amount delta)))] else us
  | Err _ => us
  end.

Lemma toy_history_step us n amt now id pid s :
  history sha_id toy_limit us → snapshotFromUsage us now (Some toy_limit) = Ok s →
  history sha_id toy_limit (recorded (evaluateAuthority sha_id (toy_params n amt us now)) us id pid now).
Proof.
  intros Hh Hs. destruct (evaluateAuthority _ _) as [[d delta]|e] eqn:E; [|done]. simpl.
  destruct (allowed d) eqn:Ha; [|done].
  pose proof (evaluate_allowed _ _ _ _ E) as (Hd & _).
  apply (history_record sha_id toy_limit us (toy_params n amt us now) toy_mandate d delta); try done.
  - simpl. by rewrite Hs.
  - by rewrite Hd.
Qed.

Definition toy_uses : list AuthorityUsage :=
  recorded (evaluateAuthority sha_id (toy_params "1" "60" [] 5)) [] "u1" "p" 5.

Lemma limits_hold_in_every_window_witness :
  let us := recorded (evaluateAuthority sha_id (toy_params "2" "60" toy_uses 6)) toy_uses "u2" "p" 6 in
  length toy_uses = 1%nat ∧ us = toy_uses ∧ within_limit toy_limit us.
Proof.
  split; [vm_compute; reflexivity|]. split; [vm_compute; reflexivity|].
  apply (limits_hold_in_every_window sha_id toy_limit);
    [intros m Hm; injection Hm as <-; discriminate|].
  eapply toy_history_step; [|vm_compute; reflexivity].
  eapply toy_history_step; [constructor|vm_compute; reflexivity].
Defined.

(** A numeric constraint on a fractional number, on either side, throws
    instead of comparing. *)
Theorem fractional_operands_throw n v op z :
  num_integer n = None → as_bigint v = Ok z →
  compareNumeric (JNum n) v op = Err (JsThrow RangeError) ∧
  compareNumeric v (JNum n) op = Err (JsThrow RangeError).
Proof. intros Hn Hv. unfold compareNumeric. rewrite Hv. simpl. by rewrite Hn. Qed.

Lemma fractional_operands_throw_witness :
  compareNumeric (JNum (NFin (5 # 2))) (JStr "10") lte = Err (JsThrow RangeError).
Proof. apply (fractional_operands_throw (NFin (5 # 2)) (JStr "10") lte (Some 10)); reflexivity. Defined.

(** The id of an intent depends neither on its nonce nor on the order in which
    its constraints were written. *)
Theorem intent_id_ignores_nonce_and_order sha3_hex act pr ag tg cs cs' n n' id :
  cs ≡ₚ cs' → NoDup cs.*1 →
  computeActionIntentId sha3_hex (mkAction act pr ag tg (Some cs) n) = Ok id →
  computeActionIntentId sha3_hex (mkAction act pr ag tg (Some cs') n') = Ok id.
Proof.
  intros Hp Hnd. unfold computeActionIntentId, domainHash, Cj.domainHash, intent_rest, constraints.
  pose proof (canonicalJson_perm 2 2 cs cs') as Hv. cbn [fmap option_fmap option_map].
  generalize dependent (JObj 2 cs). generalize dependent (JObj 2 cs'). intros v' v Hv.
  rewrite !Cj.canonicalJson_obj. unfold Cj.member_pairs.
  destruct (Cj.canonicalJson v) as [t|e] eqn:E; destruct tg as [tg|]; simpl; rewrite E; simpl; try done;
    by rewrite (Hv t Hp Hnd eq_refl).
Qed.

Lemma intent_id_ignores_nonce_and_order_witness :
  let a := toy_action "1" "40" in
  ∃ id, computeActionIntentId sha_id a = Ok id ∧
    computeActionIntentId sha_id
      (mkAction (action a) (principal a) (agent a) (target a)
         (Some [("memo", JStr "x"); ("amount", JStr "40")]%string) (Some "2"%string)) = Ok id.
Proof.
  simpl. eexists. split; [vm_compute; reflexivity|].
  eapply (intent_id_ignores_nonce_and_order sha_id "pay:invoice" "alice" "bot" (Some "shop"%string)
    [("amount", JStr "40"); ("memo", JStr "x")]%string [("memo", JStr "x"); ("amount", JStr "40")]%string
    (Some "1"%string) (Some "2"%string)).
  - constructor.
  - apply (bool_decide_unpack _). vm_compute. exact I.
  - vm_compute. reflexivity.
Defined.

End AuthSpec.
