(* ===== verification/Governance.v ===== *)
(** * Governance: members, proposals, delegations (packages/governance/src)

    The data model (types.ts), the identifiers (ids.ts), configuration (config.ts),
    frozen membership (snapshot.ts), the proposal life cycle (proposal.ts) and
    delegation (delegation.ts).  Weights, thresholds and credits are JavaScript
    numbers; times are integral milliseconds; [clock] is [Date.now()]. *)

From Stdlib Require Import ZArith Lia QArith Ascii String.
From stdpp Require Import base gmap list strings sorting.
From S2P Require Import Prelude JsBase JsText Canonical.

Module Gov.
Import Js.

(** ** types.ts *)

(** A returned [{ error }], an [Error] thrown, or an exception of the language. *)
Inductive GovError :=
| GovernanceError (error : string)
| Thrown (message : string)
| JsThrow (e : js_error).

Definition js {A} (r : result js_error A) : result GovError A :=
  match r with Ok a => Ok a | Err e => Err (JsThrow e) end.

Inductive ProposalStatus := draft | active | passed | failed | executed | cancelled | expired.
#[global] Instance ProposalStatus_eq_dec : EqDecision ProposalStatus.
Proof. solve_decision. Defined.
Definition status_name (s : ProposalStatus) : string :=
  match s with
  | draft => "draft" | active => "active" | passed => "passed" | failed => "failed"
  | executed => "executed" | cancelled => "cancelled" | expired => "expired"
  end.

Inductive ProposalActionType :=
  rotate_root | advance_epoch | treasury_spend | budget_allocate | member_add | member_remove | policy_update | custom.
Definition action_name (t : ProposalActionType) : string :=
  match t with
  | rotate_root => "rotate_root" | advance_epoch => "advance_epoch" | treasury_spend => "treasury_spend"
  | budget_allocate => "budget_allocate" | member_add => "member_add" | member_remove => "member_remove"
  | policy_update => "policy_update" | custom => "custom"
  end.

Record ProposalAction := mkAction {
  a_type : ProposalActionType;
  a_target : option string;
  payload : list (string * jsval);
  a_description : string }.

Inductive TallyAlgorithm := linear | quadratic | liquid.
#[global] Instance TallyAlgorithm_eq_dec : EqDecision TallyAlgorithm.
Proof. solve_decision. Defined.
Definition algorithm_name (a : TallyAlgorithm) : string :=
  match a with linear => "linear" | quadratic => "quadratic" | liquid => "liquid" end.

Record VoteTally := mkTally {
  t_proposalId : string;
  yes : jsnum; no : jsnum; abstain : jsnum;
  totalWeight : jsnum;
  quorumWeight : jsnum;
  quorumReached : bool;
  t_passed : bool;
  thresholdBps : jsnum;
  t_algorithm : TallyAlgorithm }.

Record Proposal := mkProposal {
  p_id : string;
  p_daoId : string;
  title : string;
  p_description : string;
  actions : list ProposalAction;
  proposer : string;
  status : ProposalStatus;
  createdAt : Z;
  votingStartsAt : Z;
  votingEndsAt : Z;
  executionDelay : Z;
  executedAt : option Z;
  executionTxId : option string;
  voteTally : option VoteTally;
  membershipSnapshotHash : string }.

Definition with_status (s : ProposalStatus) (p : Proposal) : Proposal :=
  mkProposal (p_id p) (p_daoId p) (title p) (p_description p) (actions p) (proposer p) s (createdAt p)
    (votingStartsAt p) (votingEndsAt p) (executionDelay p) (executedAt p) (executionTxId p) (voteTally p)
    (membershipSnapshotHash p).

Record Vote := mkVote {
  v_id : string;
  v_proposalId : string;
  voter : string;
  choice : string;
  v_weight : jsnum;
  quadraticCredits : option jsnum;
  delegationChain : option (list string);
  v_castAt : Z }.

Record Delegation := mkDelegation {
  d_id : string;
  d_daoId : string;
  delegator : string;
  delegate : string;
  d_weight : jsnum;
  d_scope : option string;
  d_expiresAt : option Z;
  d_castAt : Z;
  revokedAt : option Z;
  previousDelegationId : option string }.

Record QuadraticCredits := mkCredits { q_memberId : string; totalCredits : jsnum; spentCredits : jsnum }.

Record MembershipEntry := mkMember {
  memberId : string;
  role : string;
  weight : jsnum;
  addedAt : Z;
  addedBy : string;
  expiresAt : option Z }.

Record MembershipSnapshot := mkSnapshot {
  daoId : string;
  frozenAt : Z;
  entries : list (string * MembershipEntry);
  hash : string }.

Inductive CreditSource := from_weight | fixed.
#[global] Instance CreditSource_eq_dec : EqDecision CreditSource.
Proof. solve_decision. Defined.
Record QuadraticConfig := mkQuadratic {
  q_enabled : bool; creditSource : CreditSource; maxCreditsPerMember : option jsnum }.
Record DelegationConfig := mkDelegationConfig {
  dc_enabled : bool; maxChainDepth : Z; allowPartialDelegation : bool; allowScopeRestricted : bool;
  allowRecall : bool; recallThresholdBps : option jsnum }.
Record VotingConfig := mkVoting {
  algorithm : TallyAlgorithm;
  quorumBps : jsnum;
  passThresholdBps : jsnum;
  votingPeriodMs : Z;
  delayBeforeVotingMs : Z;
  executionDelayMs : Z;
  allowAbstain : bool;
  c_quadratic : option QuadraticConfig;
  c_delegation : option DelegationConfig }.
Record GovernanceConfig := mkConfig {
  c_daoId : string;
  c_name : string;
  voting : VotingConfig;
  defaultWeight : jsnum;
  minWeightToPropose : jsnum;
  authorityScope : string;
  authorityResolver : string }.

(** What the drafts hand to [createProof]. *)
Record ProofParams := mkProof {
  pf_kind : string; pf_subject : string * string; pf_issuer : string; pf_issuedAt : Z; pf_payload : jsval }.

Definition num (z : Z) : jsval := JNum (of_Z z).
Definition num0 : jsnum := of_Z 0.

(** ** config.ts *)

Record VotingParams := mkVotingParams {
  vp_algorithm : TallyAlgorithm; vp_quorumBps : jsnum; vp_passThresholdBps : jsnum; vp_votingPeriodMs : Z;
  vp_delayBeforeVotingMs : option Z; vp_executionDelayMs : option Z; vp_allowAbstain : option bool;
  vp_quadratic : option QuadraticConfig; vp_delegation : option DelegationConfig }.

Definition createGovernanceConfig (dao name : string) (v : VotingParams) (defaultWeight minWeightToPropose : option jsnum)
    (scope resolver : string) : GovernanceConfig :=
  mkConfig dao name
    (mkVoting (vp_algorithm v) (vp_quorumBps v) (vp_passThresholdBps v) (vp_votingPeriodMs v)
       (default 0 (vp_delayBeforeVotingMs v)) (default 0 (vp_executionDelayMs v)) (default true (vp_allowAbstain v))
       (vp_quadratic v) (vp_delegation v))
    (default (of_Z 1) defaultWeight) (default (of_Z 1) minWeightToPropose) scope resolver.

Definition err_if (b : bool) (e : string) : list string := if b then [e] else [].
Definition outside_bps (n : jsnum) : bool := num_lt n num0 || num_lt (of_Z 10000) n.

Definition validateGovernanceConfig (c : GovernanceConfig) : list string :=
  let v := voting c in
  err_if (String.eqb (c_daoId c) "") "daoId is required" ++
  err_if (String.eqb (c_name c) "") "name is required" ++
  err_if (outside_bps (quorumBps v)) "quorumBps must be between 0 and 10000" ++
  err_if (outside_bps (passThresholdBps v)) "passThresholdBps must be between 0 and 10000" ++
  err_if (votingPeriodMs v <=? 0) "votingPeriodMs must be positive" ++
  err_if (delayBeforeVotingMs v <? 0) "delayBeforeVotingMs must be non-negative" ++
  err_if (executionDelayMs v <? 0) "executionDelayMs must be non-negative" ++
  (if bool_decide (algorithm v = quadratic) then
     match c_quadratic v with
     | None => ["quadratic config required when algorithm is quadratic"%string]
     | Some q =>
         if bool_decide (creditSource q = fixed) then
           err_if (match maxCreditsPerMember q with None => true | Some m => num_falsy m || num_le m num0 end)
             "maxCreditsPerMember required and must be positive for fixed credit source"
         else []
     end
   else []) ++
  (if bool_decide (algorithm v = liquid) then
     match c_delegation v with
     | None => ["delegation config required when algorithm is liquid"%string]
     | Some d =>
         err_if (maxChainDepth d <? 1) "maxChainDepth must be at least 1" ++
         err_if (allowRecall d && match recallThresholdBps d with Some t => outside_bps t | None => false end)
           "recallThresholdBps must be between 0 and 10000"
     end
   else []) ++
  err_if (num_lt (defaultWeight c) (of_Z 1)) "defaultWeight must be at least 1" ++
  err_if (num_lt (minWeightToPropose c) (of_Z 1)) "minWeightToPropose must be at least 1" ++
  err_if (String.eqb (authorityScope c) "") "authorityScope is required" ++
  err_if (String.eqb (authorityResolver c) "") "authorityResolver is required".

(** ** ids.ts *)

Section governance.
(** The hash kernel, and the host's collation. *)
Variable sha3_hex : string → string.
Variable localeCompare : string → string → Z.

Definition hashCanonical (domain : string) (v : jsval) : result GovError string :=
  js (Cj.domainHash sha3_hex domain v).

Definition or_null (o : option jsval) : jsval := default JNull o.

Definition action_value (a : ProposalAction) : jsval :=
  JObj 2 [("type", JStr (action_name (a_type a))); ("target", or_null (JStr <$> a_target a));
          ("payload", JObj 3 (payload a)); ("description", JStr (a_description a))]%string.
Definition computeProposalId (dao proposer : string) (createdAt : Z) (acts : list ProposalAction)
    : result GovError string :=
  h ← hashCanonical "TOTEM_GOVERNANCE_PROPOSAL_V1"
        (JObj 1 [("daoId", JStr dao); ("proposer", JStr proposer); ("createdAt", num createdAt);
                 ("actions", JArr 4 (map action_value acts))]%string);
  Ok ("totem:gov:proposal:" +:+ h).

Definition computeVoteId (proposalId voter choice : string) (castAt : Z) : result GovError string :=
  h ← hashCanonical "TOTEM_GOVERNANCE_VOTE_V1"
        (JObj 1 [("proposalId", JStr proposalId); ("voter", JStr voter); ("choice", JStr choice);
                 ("castAt", num castAt)]%string);
  Ok ("totem:gov:vote:" +:+ h).

Definition computeTallyHash (t : VoteTally) : result GovError string :=
  hashCanonical "TOTEM_GOVERNANCE_TALLY_V1"
    (JObj 1 [("proposalId", JStr (t_proposalId t)); ("yes", JNum (yes t)); ("no", JNum (no t));
             ("abstain", JNum (abstain t)); ("totalWeight", JNum (totalWeight t));
             ("quorumWeight", JNum (quorumWeight t)); ("thresholdBps", JNum (thresholdBps t));
             ("algorithm", JStr (algorithm_name (t_algorithm t)))]%string).

Definition computeDelegationId (delegator delegate dao : string) (castAt : Z) : result GovError string :=
  h ← hashCanonical "TOTEM_GOVERNANCE_DELEGATION_V1"
        (JObj 1 [("delegator", JStr delegator); ("delegate", JStr delegate); ("daoId", JStr dao);
                 ("castAt", num castAt)]%string);
  Ok ("totem:gov:delegation:" +:+ h).

Definition entry_value (e : MembershipEntry) : jsval :=
  JObj 2 [("memberId", JStr (memberId e)); ("role", JStr (role e)); ("weight", JNum (weight e));
          ("addedAt", num (addedAt e)); ("addedBy", JStr (addedBy e));
          ("expiresAt", or_null (num <$> expiresAt e))]%string.
Definition member_le (a b : MembershipEntry) : Prop := localeCompare (memberId a) (memberId b) <= 0.
#[local] Instance member_le_dec : RelDecision member_le.
Proof. intros a b. unfold member_le. apply _. Defined.
Definition computeSnapshotHash (dao : string) (frozenAt : Z) (es : list MembershipEntry) : result GovError string :=
  hashCanonical "TOTEM_GOVERNANCE_SNAPSHOT_V1"
    (JObj 1 [("daoId", JStr dao); ("frozenAt", num frozenAt);
             ("entries", JArr 3 (map entry_value (merge_sort member_le es)))]%string).

Definition computeOutcomeId (proposalId tallyHash : string) (determinedAt : Z) : result GovError string :=
  h ← hashCanonical "TOTEM_GOVERNANCE_OUTCOME_V1"
        (JObj 1 [("proposalId", JStr proposalId); ("tallyHash", JStr tallyHash);
                 ("determinedAt", num determinedAt)]%string);
  Ok ("totem:gov:outcome:" +:+ h).

(** ** snapshot.ts *)

Definition freeze_step (at_ : Z) (m : list (string * MembershipEntry)) (e : MembershipEntry)
    : list (string * MembershipEntry) :=
  if String.eqb (memberId e) "" then m
  else if addedAt e >? at_ then m
  else match map_get (memberId e) m with
       | Some existing => if addedAt e >=? addedAt existing then map_set (memberId e) e m else m
       | None => map_set (memberId e) e m
       end.

Definition freezeMembershipSnapshot (dao : string) (es : list MembershipEntry) (frozenAt : option Z) (clock : Z)
    : result GovError MembershipSnapshot :=
  let at_ := default clock frozenAt in
  let m := foldl (freeze_step at_) [] es in
  h ← computeSnapshotHash dao at_ (map snd m);
  Ok (mkSnapshot dao at_ m h).

Definition verifyMembershipSnapshot (s : MembershipSnapshot) : result GovError bool :=
  h ← computeSnapshotHash (daoId s) (frozenAt s) (map snd (entries s));
  Ok (String.eqb h (hash s)).

Definition lapsed (e : MembershipEntry) (at_ : Z) : bool :=
  match expiresAt e with Some x => at_ >? x | None => false end.

Definition getMemberWeight (s : MembershipSnapshot) (member : string) (at_ : Z) : jsnum :=
  match map_get member (entries s) with
  | None => num0
  | Some e => if lapsed e at_ then num0 else weight e
  end.

Definition getTotalWeight (s : MembershipSnapshot) (at_ : Z) : jsnum :=
  foldl (λ total kv, if lapsed kv.2 at_ then total else num_add total (weight kv.2)) num0 (entries s).

(** ** proposal.ts *)

Definition createProposal (config : GovernanceConfig) (acts : list ProposalAction) (title description proposer : string)
    (s : MembershipSnapshot) (createdAt : option Z) (clock : Z) : result GovError Proposal :=
  let now := default clock createdAt in
  let w := getMemberWeight s proposer clock in
  _ ← throw_if (num_lt w (minWeightToPropose config))
        (GovernanceError ("proposer weight " +:+ num_to_string w +:+ " below minimum "
                          +:+ num_to_string (minWeightToPropose config)));
  _ ← throw_if (negb (map_has proposer (entries s))) (GovernanceError "proposer is not a member");
  id ← computeProposalId (c_daoId config) proposer now acts;
  let starts := now + delayBeforeVotingMs (voting config) in
  Ok (mkProposal id (c_daoId config) title description acts proposer draft now starts
        (starts + votingPeriodMs (voting config)) (executionDelayMs (voting config)) None None None (hash s)).

Definition createProposalProofDraft (p : Proposal) (issuer : string) : ProofParams :=
  mkProof "custom" (p_id p, "proposal"%string) issuer (createdAt p)
    (JObj 1 [("schema", JStr "totem:governance:proposal/v1");
             ("proposal", JObj 2
               [("id", JStr (p_id p)); ("daoId", JStr (p_daoId p)); ("title", JStr (title p));
                ("actionCount", num (Z.of_nat (length (actions p)))); ("proposer", JStr (proposer p));
                ("votingStartsAt", num (votingStartsAt p)); ("votingEndsAt", num (votingEndsAt p));
                ("membershipSnapshotHash", JStr (membershipSnapshotHash p))])]%string).

Definition in_status (s : ProposalStatus) : string := "in status '" +:+ status_name s +:+ "'".

Definition activateProposal (p : Proposal) (now : Z) : result GovError Proposal :=
  _ ← throw_if (negb (bool_decide (status p = draft)))
        (GovernanceError ("cannot activate proposal " +:+ in_status (status p)));
  _ ← throw_if (now <? votingStartsAt p)
        (GovernanceError ("voting has not started yet (starts at " +:+ num_to_string (of_Z (votingStartsAt p)) +:+ ")"));
  Ok (with_status active p).

Definition cancelProposal (p : Proposal) : result GovError Proposal :=
  _ ← throw_if (bool_decide (status p = executed) || bool_decide (status p = cancelled))
        (GovernanceError ("cannot cancel proposal " +:+ in_status (status p)));
  Ok (with_status cancelled p).

(** ** delegation.ts *)

Definition createDelegation (dao delegator delegate : string) (weight : option jsnum) (scope : option string)
    (expiresAt castAt : option Z) (previous : option string) (clock : Z) : result GovError Delegation :=
  let now := default clock castAt in
  id ← computeDelegationId delegator delegate dao now;
  Ok (mkDelegation id dao delegator delegate (default num0 weight) scope expiresAt now None previous).

Definition recallDelegation (d : Delegation) (revokedAt : option Z) (clock : Z) : Delegation :=
  mkDelegation (d_id d) (d_daoId d) (delegator d) (delegate d) (d_weight d) (d_scope d) (d_expiresAt d) (d_castAt d)
    (Some (default clock revokedAt)) (previousDelegationId d).

Definition is_active (dao : string) (t : Z) (d : Delegation) : bool :=
  String.eqb (d_daoId d) dao && negb (bool_decide (is_Some (revokedAt d)))
  && match d_expiresAt d with None => true | Some x => t <=? x end.
Definition getActiveDelegations (ds : list Delegation) (dao : string) (t : Z) : list Delegation :=
  List.filter (is_active dao t) ds.

Definition transferred (d : Delegation) (w : jsnum) : jsnum :=
  if num_lt num0 (d_weight d) then num_min (d_weight d) w else w.

Definition getWeightToDelegate (member : string) (s : MembershipSnapshot) (ds : list Delegation) (dao : string)
    (clock : Z) : jsnum :=
  match List.filter (λ d, String.eqb (delegator d) member) (getActiveDelegations ds dao clock) with
  | [] => num0
  | mine =>
      let total := getMemberWeight s member clock in
      num_min (foldl (λ away d, num_add away (if num_le (d_weight d) num0 then total else num_min (d_weight d) total))
                 num0 mine) total
  end.

(** [options?.proposalId && d.scope && d.scope !== 'all' && d.scope !== proposalId] is false. *)
Definition in_scope (proposalId : option string) (d : Delegation) : bool :=
  match proposalId, d_scope d with
  | Some p, Some s =>
      negb (negb (String.eqb p "") && negb (String.eqb s "") && negb (String.eqb s "all") && negb (String.eqb s p))
  | _, _ => true
  end.

(** The delegation followed from a member: the first in scope. *)
Definition next_hop (ds : list Delegation) (proposalId : option string) (current : string) : option Delegation :=
  head (List.filter (in_scope proposalId) (List.filter (λ d, String.eqb (delegator d) current) ds)).

Record DelegationResolution := mkResolution {
  finalVoter : string; r_weight : jsnum; chain : list string; depth : Z }.

(** The loop of [resolveDelegation]; [n] is [maxDepth - depth]. *)
Fixpoint follow (ds : list Delegation) (proposalId : option string) (n : nat) (visited : gset string)
    (current : string) : list string * string :=
  match n with
  | O => ([], current)
  | S n =>
      if bool_decide (current ∈ visited) then ([], current) else
      match next_hop ds proposalId current with
      | None => ([], current)
      | Some d => let '(c, final) := follow ds proposalId n ({[current]} ∪ visited) (delegate d) in (current :: c, final)
      end
  end.

Definition resolveDelegation (member dao : string) (s : MembershipSnapshot) (ds : list Delegation)
    (maxDepth : option Z) (proposalId : option string) (clock : Z) : DelegationResolution :=
  let '(c, final) := follow (getActiveDelegations ds dao clock) proposalId (Z.to_nat (default 5 maxDepth)) ∅ member in
  mkResolution final (getMemberWeight s member clock) c (Z.of_nat (length c)).

(** The loop of [resolveDelegationChain]: the delegates reached. *)
Fixpoint follow_to (ds : list Delegation) (proposalId stopAt : option string) (n : nat) (visited : gset string)
    (current : string) : list string :=
  match n with
  | O => []
  | S n =>
      if bool_decide (current ∈ visited) then [] else
      if (match stopAt with Some t => negb (String.eqb t "") && String.eqb current t | None => false end) then [] else
      match next_hop ds proposalId current with
      | None => []
      | Some d => delegate d :: follow_to ds proposalId stopAt n ({[current]} ∪ visited) (delegate d)
      end
  end.
Definition resolveDelegationChain (start : string) (ds : list Delegation) (maxDepth : Z)
    (proposalId stopAt : option string) : list string :=
  follow_to ds proposalId stopAt (Z.to_nat maxDepth) ∅ start.

Record DelegatedFrom := mkFrom { f_memberId : string; f_weight : jsnum; f_chain : list string }.

Definition delegated_from (member : string) (s : MembershipSnapshot) (ds : list Delegation) (maxDepth : Z)
    (proposalId : option string) (clock : Z) (d : Delegation) : option DelegatedFrom :=
  let w := getMemberWeight s (delegator d) clock in
  if num_le w num0 then None else
  let c := resolveDelegationChain (delegator d) ds maxDepth proposalId (Some member) in
  if String.eqb (List.last c (delegator d)) member then Some (mkFrom (delegator d) (transferred d w) c) else None.

Definition resolveVotingPower (member dao : string) (s : MembershipSnapshot) (ds : list Delegation)
    (maxDepth : option Z) (proposalId : option string) (clock : Z) : jsnum * list DelegatedFrom * jsnum :=
  let active := getActiveDelegations ds dao clock in
  let direct := getMemberWeight s member clock in
  let from := omap (delegated_from member s active (default 5 maxDepth) proposalId clock)
                (List.filter (λ d, String.eqb (delegate d) member) active) in
  (direct, from, num_add direct (foldl (λ sum f, num_add sum (f_weight f)) num0 from)).

End governance.

End Gov.
