(* ===== verification/Voting.v ===== *)
(** * Governance: ballots and tallies (packages/governance/src voting.ts, tally.ts)

    Casting plain, quadratic and delegated ballots, counting them, and closing a
    proposal.  The count is the loop of [tallyVotes], one [tally_vote] per ballot,
    over the sets and sums the source keeps. *)

From Stdlib Require Import ZArith Lia QArith Ascii String.
From stdpp Require Import base gmap list strings.
From S2P Require Import Prelude JsBase JsText Canonical Governance.

Module Vt.
Import Js Gov.

Section voting.
Variable sha3_hex : string → string.
Variable localeCompare : string → string → Z.
Notation verifyMembershipSnapshot := (verifyMembershipSnapshot sha3_hex localeCompare).
Notation computeVoteId := (computeVoteId sha3_hex).

Definition gov_err {A} (e : string) : result GovError A := Err (GovernanceError e).
Definition gov_guard (b : bool) (e : string) : result GovError unit := throw_if b (GovernanceError e).

(** ** voting.ts *)

Definition snapshot_mismatch (p : Proposal) (s : MembershipSnapshot) : bool :=
  negb (String.eqb (daoId s) (p_daoId p)) || negb (String.eqb (hash s) (membershipSnapshotHash p)).

Definition validateVotingSnapshot (p : Proposal) (s : MembershipSnapshot) : result GovError unit :=
  _ ← gov_guard (snapshot_mismatch p s) "membership snapshot does not match proposal";
  ok ← verifyMembershipSnapshot s;
  gov_guard (negb ok) "membership snapshot integrity check failed".

(** The guards the three kinds of ballot share. *)
Definition voting_open (p : Proposal) (s : MembershipSnapshot) (now : Z) : result GovError unit :=
  _ ← validateVotingSnapshot p s;
  _ ← gov_guard (negb (bool_decide (status p = active)))
        ("proposal is " +:+ in_status (status p) +:+ ", cannot vote");
  _ ← gov_guard (now <? votingStartsAt p) "voting has not started yet";
  gov_guard (now >? votingEndsAt p) "voting has ended".

Definition createVote (p : Proposal) (voter choice : string) (s : MembershipSnapshot)
    (ds : option (list Delegation)) (config : option GovernanceConfig) (castAt : option Z) (clock : Z)
    : result GovError Vote :=
  let now := default clock castAt in
  _ ← voting_open p s now;
  _ ← gov_guard (String.eqb choice "abstain"
                 && match config with Some c => negb (allowAbstain (Gov.voting c)) | None => false end)
        "abstain is not allowed";
  let w := getMemberWeight s voter (frozenAt s) in
  _ ← gov_guard (num_le w num0) "voter has no weight in membership snapshot";
  id ← computeVoteId (p_id p) voter choice now;
  let out := match ds with
             | Some l => List.filter (λ d, String.eqb (delegator d) voter) (getActiveDelegations l (p_daoId p) clock)
             | None => []
             end in
  Ok (mkVote id (p_id p) voter choice w None (match out with [] => None | _ => Some [voter] end) now).

(** The check of each allocation in turn; [choices] are those already seen. *)
Fixpoint check_allocations (choices : gset string) (l : list (string * jsnum)) : result GovError unit :=
  match l with
  | [] => Ok tt
  | (c, v) :: l =>
      _ ← gov_guard (bool_decide (c ∈ choices)) ("duplicate quadratic allocation for choice '" +:+ c +:+ "'");
      _ ← gov_guard (negb (num_is_safe_integer v) || num_le v num0)
            "quadratic allocation votes must be positive safe integers";
      check_allocations ({[c]} ∪ choices) l
  end.

Definition bad_credits (q : QuadraticCredits) : bool :=
  negb (num_is_safe_integer (totalCredits q)) || negb (num_is_safe_integer (spentCredits q))
  || num_lt (totalCredits q) num0 || num_lt (spentCredits q) num0 || num_lt (totalCredits q) (spentCredits q).

Definition credits_needed (l : list (string * jsnum)) : jsnum :=
  foldl (λ sum a, num_add sum (num_mul a.2 a.2)) num0 l.

Definition createQuadraticVote (p : Proposal) (voter : string) (allocations : list (string * jsnum))
    (s : MembershipSnapshot) (credits : option QuadraticCredits) (config : option GovernanceConfig)
    (castAt : option Z) (clock : Z) : result GovError (list Vote) :=
  let now := default clock castAt in
  _ ← voting_open p s now;
  let w := getMemberWeight s voter (frozenAt s) in
  _ ← gov_guard (num_le w num0) "voter has no weight in membership snapshot";
  _ ← gov_guard (bool_decide (allocations = [])) "quadratic vote must contain at least one allocation";
  _ ← check_allocations ∅ allocations;
  _ ← gov_guard (match credits with Some q => negb (String.eqb (q_memberId q) voter) | None => false end)
        "quadratic credit state does not belong to voter";
  _ ← gov_guard (match credits with Some q => bad_credits q | None => false end) "invalid quadratic credit state";
  let qc := config ≫= λ c, c_quadratic (Gov.voting c) in
  _ ← gov_guard (bool_decide (creditSource <$> qc = Some fixed) && bool_decide (credits = None))
        "fixed-credit quadratic voting requires credit state";
  let needed := credits_needed allocations in
  _ ← gov_guard (negb (num_is_safe_integer needed)) "quadratic vote exceeds safe credit limits";
  _ ← gov_guard (match qc ≫= maxCreditsPerMember with Some m => num_lt m needed | None => false end)
        "quadratic vote exceeds per-member credit limit";
  _ ← match credits with
      | Some q =>
          let available := num_sub (totalCredits q) (spentCredits q) in
          gov_guard (num_lt available needed)
            ("quadratic vote requires " +:+ num_to_string needed +:+ " credits but only "
             +:+ num_to_string available +:+ " available")
      | None => Ok tt
      end;
  _ ← gov_guard (bool_decide (creditSource <$> qc = Some from_weight) && num_lt w needed)
        ("quadratic vote requires " +:+ num_to_string needed +:+ " credits but weight is only " +:+ num_to_string w);
  result_mapM (λ a, id ← computeVoteId (p_id p) voter a.1 now;
                    Ok (mkVote id (p_id p) voter a.1 a.2 (Some (num_mul a.2 a.2)) None now)) allocations.

(** The loop over inbound delegations; a delegator counts once. *)
Fixpoint delegated_votes (p : Proposal) (s : MembershipSnapshot) (delegate choice : string) (now : Z)
    (processed : gset string) (l : list Delegation) : result GovError (list Vote) :=
  match l with
  | [] => Ok []
  | d :: l =>
      if bool_decide (delegator d ∈ processed) then delegated_votes p s delegate choice now processed l else
      let processed := {[delegator d]} ∪ processed in
      let w := getMemberWeight s (delegator d) (frozenAt s) in
      if num_le w num0 then delegated_votes p s delegate choice now processed l else
      id ← computeVoteId (p_id p) (delegator d) choice now;
      vs ← delegated_votes p s delegate choice now processed l;
      Ok (mkVote id (p_id p) (delegator d) choice (transferred d w) None (Some [delegator d; delegate]) now :: vs)
  end.

Definition createDelegatedVote (p : Proposal) (delegate_ : string) (ds : list Delegation) (s : MembershipSnapshot)
    (choice : string) (castAt : option Z) (clock : Z) : result GovError (list Vote) :=
  let now := default clock castAt in
  _ ← voting_open p s now;
  let inbound := List.filter (λ d, String.eqb (delegate d) delegate_) (getActiveDelegations ds (p_daoId p) clock) in
  _ ← gov_guard (bool_decide (length inbound = O)) ("no delegations found pointing to " +:+ delegate_);
  delegated_votes p s delegate_ choice now ∅ inbound.

Definition createVoteProofDraft (v : Vote) (issuer : string) : ProofParams :=
  mkProof "custom" (v_id v, "vote"%string) issuer (v_castAt v)
    (JObj 1 [("schema", JStr "totem:governance:vote/v1");
             ("vote", JObj 2 [("id", JStr (v_id v)); ("proposalId", JStr (v_proposalId v)); ("voter", JStr (voter v));
                              ("choice", JStr (choice v)); ("weight", JNum (v_weight v))])]%string).

(** ** tally.ts *)

Definition find_hop (active : list Delegation) (a b : option string) : option Delegation :=
  List.find (λ d, bool_decide (Some (delegator d) = a) && bool_decide (Some (delegate d) = b)) active.

(** The loop over the hops of a chain. *)
Fixpoint check_hops (active : list Delegation) (voteId : string) (chain : list string) : result GovError unit :=
  match chain with
  | [] => Ok tt
  | a :: rest =>
      match rest with
      | [] => Ok tt
      | b :: _ =>
          match find_hop active (Some a) (Some b) with
          | None => gov_err ("delegation " +:+ a +:+ " -> " +:+ b +:+ " in vote " +:+ voteId
                             +:+ " is not an active delegation record")
          | Some _ => check_hops active voteId rest
          end
      end
  end.

Definition validateDelegatedBallot (v : Vote) (chain : list string) (ds : list Delegation) (dao : string)
    (s : MembershipSnapshot) (now : Z) : result GovError unit :=
  _ ← gov_guard (negb (bool_decide (head chain = Some (voter v))))
        ("delegation chain for " +:+ voter v +:+ " does not start with the voter");
  let active := getActiveDelegations ds dao now in
  _ ← check_hops active (v_id v) chain;
  let w := getMemberWeight s (voter v) (frozenAt s) in
  let limit := match find_hop active (chain !! 0%nat) (chain !! 1%nat) with Some d => transferred d w | None => w end in
  gov_guard (num_lt limit (v_weight v)) ("delegated vote weight for " +:+ voter v +:+ " exceeds delegated weight").

Record TallyState := mkTallyState {
  seenVoteIds : gset string;
  seenBallots : gset string;
  seenVoters : gset string;
  spentCreditsByVoter : list (string * jsnum);
  yesWeight : jsnum;
  noWeight : jsnum;
  abstainWeight : jsnum }.

Definition start_tally : TallyState := mkTallyState ∅ ∅ ∅ [] num0 num0 num0.

Definition add_weight (v : Vote) (st : TallyState) (spent : list (string * jsnum)) : TallyState :=
  let sum := if String.eqb (choice v) "yes" then (num_add (yesWeight st) (v_weight v), noWeight st, abstainWeight st)
             else if String.eqb (choice v) "no" then (yesWeight st, num_add (noWeight st) (v_weight v), abstainWeight st)
             else (yesWeight st, noWeight st, num_add (abstainWeight st) (v_weight v)) in
  mkTallyState ({[v_id v]} ∪ seenVoteIds st) ({[voter v +:+ ":" +:+ choice v]} ∪ seenBallots st)
    ({[voter v]} ∪ seenVoters st) spent sum.1.1 sum.1.2 sum.2.

Record TallyParams := mkTallyParams {
  tp_proposal : Proposal;
  tp_votes : list Vote;
  tp_snapshot : MembershipSnapshot;
  tp_config : option GovernanceConfig;
  tp_delegations : option (list Delegation);
  tp_now : option Z }.

Definition tally_algorithm (t : TallyParams) : TallyAlgorithm :=
  if bool_decide ((algorithm ∘ Gov.voting <$> tp_config t) = Some quadratic) then quadratic else linear.
Definition quadratic_config (t : TallyParams) : option QuadraticConfig :=
  tp_config t ≫= λ c, c_quadratic (Gov.voting c).

Definition credit_budget (t : TallyParams) (w : jsnum) : jsnum :=
  match quadratic_config t with
  | Some q => if bool_decide (creditSource q = fixed) then default w (maxCreditsPerMember q) else w
  | None => w
  end.

(** One ballot of the loop. *)
Definition tally_vote (t : TallyParams) (now : Z) (st : TallyState) (v : Vote) : result GovError TallyState :=
  let p := tp_proposal t in
  let s := tp_snapshot t in
  _ ← gov_guard (negb (String.eqb (v_proposalId v) (p_id p))) ("vote " +:+ v_id v +:+ " belongs to a different proposal");
  _ ← gov_guard (bool_decide (v_id v ∈ seenVoteIds st)) ("duplicate vote ID: " +:+ v_id v);
  expected ← computeVoteId (v_proposalId v) (voter v) (choice v) (v_castAt v);
  _ ← gov_guard (negb (String.eqb (v_id v) expected)) ("vote ID " +:+ v_id v +:+ " does not match its ballot contents");
  _ ← gov_guard (bool_decide (voter v +:+ ":" +:+ choice v ∈ seenBallots st))
        ("duplicate ballot for " +:+ voter v +:+ " and " +:+ choice v);
  _ ← gov_guard (negb (bool_decide (tally_algorithm t = quadratic)) && bool_decide (voter v ∈ seenVoters st))
        ("duplicate ballot for voter " +:+ voter v);
  _ ← gov_guard (negb (mem_string (choice v) ["yes"; "no"; "abstain"]%string)) ("invalid vote choice for " +:+ voter v);
  _ ← gov_guard ((v_castAt v <? votingStartsAt p) || (v_castAt v >? votingEndsAt p))
        ("vote " +:+ v_id v +:+ " was cast outside the voting interval");
  let w := getMemberWeight s (voter v) (frozenAt s) in
  _ ← gov_guard (num_le w num0) ("voter " +:+ voter v +:+ " is not eligible in the membership snapshot");
  _ ← gov_guard (negb (num_is_finite (v_weight v)) || num_le (v_weight v) num0 || num_lt w (v_weight v))
        ("invalid vote weight for " +:+ voter v);
  _ ← match delegationChain v with
      | Some ((_ :: _) as chain) =>
          match tp_delegations t with
          | None => gov_err ("vote " +:+ v_id v +:+ " has a delegation chain but no delegation records were provided")
          | Some ds => validateDelegatedBallot v chain ds (p_daoId p) s now
          end
      | _ => gov_guard (negb (bool_decide (tally_algorithm t = quadratic)) && negb (num_eqb (v_weight v) w))
               ("vote weight for " +:+ voter v +:+ " does not match snapshot weight")
      end;
  spent ← (if bool_decide (tally_algorithm t = quadratic) then
             _ ← gov_guard (negb (num_is_safe_integer (v_weight v))
                            || negb (match quadraticCredits v with
                                     | Some c => num_eqb c (num_mul (v_weight v) (v_weight v))
                                     | None => false end))
                   ("invalid quadratic weight or credits for " +:+ voter v);
             let spent := num_add (default num0 (map_get (voter v) (spentCreditsByVoter st)))
                                  (default num0 (quadraticCredits v)) in
             let budget := credit_budget t w in
             _ ← gov_guard (num_lt budget spent)
                   ("aggregate quadratic credits for " +:+ voter v +:+ " (" +:+ num_to_string spent
                    +:+ ") exceed budget of " +:+ num_to_string budget);
             Ok (map_set (voter v) spent (spentCreditsByVoter st))
           else Ok (spentCreditsByVoter st));
  Ok (add_weight v st spent).

Fixpoint tally_loop (t : TallyParams) (now : Z) (st : TallyState) (vs : list Vote) : result GovError TallyState :=
  match vs with
  | [] => Ok st
  | v :: vs => st ← tally_vote t now st v; tally_loop t now st vs
  end.

(** [Math.floor(w * 1000) / 1000] *)
Definition milli_floor (w : jsnum) : jsnum := num_div (num_floor (num_mul w (of_Z 1000))) (of_Z 1000).

Definition threshold_met (yes decided threshold : jsnum) : bool :=
  num_lt num0 decided && num_le threshold (num_mul (num_div yes decided) (of_Z 10000)).

Definition close_tally (t : TallyParams) (st : TallyState) : VoteTally :=
  let total := getTotalWeight (tp_snapshot t) (frozenAt (tp_snapshot t)) in
  let totalCast := num_add (num_add (yesWeight st) (noWeight st)) (abstainWeight st) in
  let quorum := match tp_config t with
                | Some c => num_floor (num_div (num_mul total (quorumBps (Gov.voting c))) (of_Z 10000))
                | None => total
                end in
  let reached := num_le quorum totalCast in
  let threshold := default (of_Z 5000) (passThresholdBps ∘ Gov.voting <$> tp_config t) in
  let decided := num_add (yesWeight st) (noWeight st) in
  mkTally (p_id (tp_proposal t)) (milli_floor (yesWeight st)) (milli_floor (noWeight st))
    (milli_floor (abstainWeight st)) total quorum reached
    (reached && threshold_met (yesWeight st) decided threshold) threshold (tally_algorithm t).

Definition tallyVotes (t : TallyParams) (clock : Z) : result GovError VoteTally :=
  let p := tp_proposal t in
  _ ← gov_guard (bool_decide (length (tp_votes t) = O)) "no votes to tally";
  _ ← gov_guard (negb (bool_decide (status p = active)))
        ("proposal is " +:+ in_status (status p) +:+ ", cannot tally");
  _ ← validateVotingSnapshot p (tp_snapshot t);
  let now := default clock (tp_now t) in
  _ ← gov_guard (now <? votingEndsAt p) "voting has not ended yet";
  st ← tally_loop t now start_tally (tp_votes t);
  Ok (close_tally t st).

Definition finalizeProposal (p : Proposal) (t : VoteTally) : result GovError Proposal :=
  _ ← throw_if (negb (bool_decide (status p = active)))
        (Thrown ("cannot finalize proposal " +:+ in_status (status p)));
  _ ← throw_if (negb (String.eqb (t_proposalId t) (p_id p))) (Thrown "tally does not belong to proposal");
  Ok (mkProposal (p_id p) (p_daoId p) (title p) (p_description p) (actions p) (proposer p)
        (if t_passed t then passed else failed) (createdAt p) (votingStartsAt p) (votingEndsAt p) (executionDelay p)
        (executedAt p) (executionTxId p) (Some t) (membershipSnapshotHash p)).

End voting.

End Vt.
