(* ===== verification/Mandates.v ===== *)
(** * Governance: outcomes, governed mandates, their use (packages/governance/src outcome.ts, execution.ts, usage.ts)

    What a passed proposal turns into: one single-use authority mandate per
    action, and the store in which an executor reserves, commits and aborts the
    use of a mandate. *)

From Stdlib Require Import ZArith Lia QArith Ascii String.
From stdpp Require Import base list strings sorting.
From S2P Require Import Prelude JsBase JsText Canonical Authority Governance.

Module Md.
Import Js Gov.

Section mandates.
Variable sha3_hex : string → string.

(** ** outcome.ts *)

Record ProposalOutcome := mkOutcome {
  o_proposalId : string;
  o_status : ProposalStatus;
  o_tallyHash : string;
  o_passed : bool;
  determinedAt : Z;
  determinedBy : string;
  o_proofId : option string }.

(** [computeTallyProofHash] is [computeTallyHash]. *)
Definition createOutcome (p : Proposal) (t : VoteTally) (by_ : string) (at_ : option Z) (clock : Z)
    : result GovError ProposalOutcome :=
  h ← computeTallyHash sha3_hex t;
  Ok (mkOutcome (p_id p) (if t_passed t then passed else failed) h (t_passed t) (default clock at_) by_ None).

Definition createOutcomeProofDraft (o : ProposalOutcome) (issuer : string) : ProofParams :=
  mkProof "custom" (o_proposalId o, "proposal-outcome"%string) issuer (determinedAt o)
    (JObj 1 [("schema", JStr "totem:governance:outcome/v1");
             ("outcome", JObj 2 [("proposalId", JStr (o_proposalId o)); ("status", JStr (status_name (o_status o)));
                                 ("tallyHash", JStr (o_tallyHash o)); ("passed", JBool (o_passed o))])]%string).

Definition eq_constraint (field : string) (v : jsval) : Auth.MandateConstraint := Auth.mkConstraint field "eq" v.

(** [Object.keys(payload).sort()] with the values. *)
Definition payload_le (a b : string * jsval) : Prop := String.le a.1 b.1.
#[local] Instance payload_le_dec : RelDecision payload_le.
Proof. intros a b. unfold payload_le, String.le. apply _. Defined.

Record Binding := mkBinding { b_snapshotHash : string; b_tallyHash : string; b_outcomeProofId : string }.

Definition governed_constraints (o : ProposalOutcome) (a : ProposalAction) (index : Z) (b : Binding)
    : list Auth.MandateConstraint :=
  [eq_constraint "proposalId" (JStr (o_proposalId o));
   eq_constraint "actionIndex" (num index);
   eq_constraint "actionType" (JStr (action_name (a_type a)));
   eq_constraint "membershipSnapshotHash" (JStr (b_snapshotHash b));
   eq_constraint "voteTallyHash" (JStr (b_tallyHash b));
   eq_constraint "outcomeProofId" (JStr (b_outcomeProofId b))]
  ++ match a_target a with
     | Some t => if String.eqb t "" then [] else [eq_constraint "target" (JStr t)]
     | None => []
     end
  ++ map (λ kv, eq_constraint ("payload." +:+ kv.1) kv.2) (merge_sort payload_le (payload a)).

Definition createGovernedMandate (o : ProposalOutcome) (a : ProposalAction) (index : Z)
    (governanceIdentity executor principal : string) (b : Binding) : result GovError Auth.MandateBody :=
  _ ← throw_if (String.eqb principal "") (Thrown "createGovernedMandate: principalIdentityId is required");
  Ok (Auth.mkMandate governanceIdentity executor principal
        ("governance:" +:+ action_name (a_type a) +:+ ":execute")
        (Some (governed_constraints o a index b)) (Some (Auth.mkLimit (Some 1) None None))
        (determinedAt o) None None).

Definition finalizeProposalExecution (p : Proposal) (txId : string) (clock : Z) : Proposal :=
  mkProposal (p_id p) (p_daoId p) (title p) (p_description p) (actions p) (proposer p) executed (createdAt p)
    (votingStartsAt p) (votingEndsAt p) (executionDelay p) (Some clock) (Some txId) (voteTally p)
    (membershipSnapshotHash p).

(** ** execution.ts *)

Record ExecutableAction := mkExecutable {
  x_action : ProposalAction; x_actionIndex : Z; x_mandateBody : Auth.MandateBody }.

Fixpoint govern_actions (o : ProposalOutcome) (governanceIdentity executor principal : string) (b : Binding)
    (index : Z) (l : list ProposalAction) : result GovError (list ExecutableAction) :=
  match l with
  | [] => Ok []
  | a :: l =>
      m ← createGovernedMandate o a index governanceIdentity executor principal b;
      rest ← govern_actions o governanceIdentity executor principal b (index + 1) l;
      Ok (mkExecutable a index m :: rest)
  end.

Definition executeProposal (p : Proposal) (t : VoteTally) (outcomeProofId governanceIdentity executor principal : string)
    (now clock : Z) : result GovError (list ExecutableAction) :=
  if negb (bool_decide (status p = passed)) then Ok [] else
  same ← match voteTally p with
         | Some t' => h' ← computeTallyHash sha3_hex t'; h ← computeTallyHash sha3_hex t; Ok (String.eqb h' h)
         | None => Ok true
         end;
  if negb (same : bool) then Ok [] else
  if now <? votingEndsAt p + executionDelay p then Ok [] else
  _ ← throw_if (String.eqb principal "") (Thrown "executeProposal: principalIdentityId is required");
  o ← createOutcome p t governanceIdentity None clock;
  h ← computeTallyHash sha3_hex t;
  govern_actions o governanceIdentity executor principal (mkBinding (membershipSnapshotHash p) h outcomeProofId) 0
    (actions p).

Definition isExecutionReady (p : Proposal) (now : Z) : bool :=
  bool_decide (status p = passed) && (now >=? votingEndsAt p + executionDelay p).

End mandates.

(** ** usage.ts *)

Definition DEFAULT_RESERVATION_TTL_MS : Z := 60000.

Inductive ReservationStatus := reserved | committed | aborted.
#[global] Instance ReservationStatus_eq_dec : EqDecision ReservationStatus.
Proof. solve_decision. Defined.
Definition reservation_status_name (s : ReservationStatus) : string :=
  match s with reserved => "reserved" | committed => "committed" | aborted => "aborted" end.

Record UsageReservation := mkReservation {
  ur_id : string;
  ur_mandateProofId : string;
  ur_intentId : string;
  reservedAt : Z;
  ur_expiresAt : Z;
  ur_status : ReservationStatus }.

Record MandateReceipt := mkReceipt {
  mr_id : string;
  mr_mandateProofId : string;
  mr_intentId : string;
  mr_proposalId : string;
  mr_actionIndex : Z;
  mr_actionType : ProposalActionType;
  committedAt : Z;
  mr_proofId : option string }.

Record UsageStore := mkStore {
  reservations : list (string * UsageReservation);
  receipts : list (string * MandateReceipt) }.
Definition new_store : UsageStore := mkStore [] [].

Definition set_ur_status (s : ReservationStatus) (r : UsageReservation) : UsageReservation :=
  mkReservation (ur_id r) (ur_mandateProofId r) (ur_intentId r) (reservedAt r) (ur_expiresAt r) s.

Definition expire (now : Z) (r : UsageReservation) : UsageReservation :=
  if bool_decide (ur_status r = reserved) && (now >? ur_expiresAt r) then set_ur_status aborted r else r.
Definition cleanExpired (now : Z) (st : UsageStore) : UsageStore :=
  mkStore (map (λ kv, (kv.1, expire now kv.2)) (reservations st)) (receipts st).

Definition is_reservation_of (mandateProofId intentId : string) (r : UsageReservation) : bool :=
  String.eqb (ur_mandateProofId r) mandateProofId && String.eqb (ur_intentId r) intentId
  && bool_decide (ur_status r = reserved).

Definition reservation_id (mandateProofId intentId : string) (now : Z) : string :=
  "res:" +:+ take_str 8 mandateProofId +:+ ":" +:+ take_str 8 intentId +:+ ":" +:+ num_to_string (of_Z now).

Definition reserveMandateUse (mandateProofId intentId : string) (ttlMs : option Z) (now : Z) (st : UsageStore)
    : UsageReservation * UsageStore :=
  let st := cleanExpired now st in
  match List.find (is_reservation_of mandateProofId intentId) (map snd (reservations st)) with
  | Some existing => (existing, st)
  | None =>
      let id := reservation_id mandateProofId intentId now in
      let r := mkReservation id mandateProofId intentId now (now + default DEFAULT_RESERVATION_TTL_MS ttlMs) reserved in
      (r, mkStore (map_set id r (reservations st)) (receipts st))
  end.

Record ReceiptParams := mkReceiptParams {
  rp_proposalId : string; rp_actionIndex : Z; rp_actionType : ProposalActionType; rp_proofId : option string }.

Definition receipt_id (mandateProofId proposalId : string) (now : Z) : string :=
  "receipt:" +:+ take_str 8 mandateProofId +:+ ":" +:+ take_str 8 proposalId +:+ ":" +:+ num_to_string (of_Z now).

(** The receipt, or the string that says why there is none. *)
Definition commitMandateUse (reservationId : string) (rp : ReceiptParams) (now : Z) (st : UsageStore)
    : (MandateReceipt + string) * UsageStore :=
  match map_get reservationId (reservations st) with
  | None => (inr "reservation not found"%string, st)
  | Some res =>
      if negb (bool_decide (ur_status res = reserved)) then
        (inr ("reservation is in status '" +:+ reservation_status_name (ur_status res) +:+ "'"), st)
      else if now >? ur_expiresAt res then
        (inr "reservation has expired"%string,
         mkStore (map_set reservationId (set_ur_status aborted res) (reservations st)) (receipts st))
      else
        let id := receipt_id (ur_mandateProofId res) (rp_proposalId rp) now in
        let receipt := mkReceipt id (ur_mandateProofId res) (ur_intentId res) (rp_proposalId rp) (rp_actionIndex rp)
                         (rp_actionType rp) now (rp_proofId rp) in
        (inl receipt, mkStore (map_set reservationId (set_ur_status committed res) (reservations st))
                              (map_set id receipt (receipts st)))
  end.

Definition abortMandateUse (reservationId : string) (st : UsageStore) : bool * UsageStore :=
  match map_get reservationId (reservations st) with
  | None => (false, st)
  | Some res =>
      if negb (bool_decide (ur_status res = reserved)) then (false, st)
      else (true, mkStore (map_set reservationId (set_ur_status aborted res) (reservations st)) (receipts st))
  end.

Definition getReservation (id : string) (st : UsageStore) : option UsageReservation := map_get id (reservations st).
Definition getReceipt (id : string) (st : UsageStore) : option MandateReceipt := map_get id (receipts st).
Definition getReceiptsByMandate (mandateProofId : string) (st : UsageStore) : list MandateReceipt :=
  List.filter (λ r, String.eqb (mr_mandateProofId r) mandateProofId) (map snd (receipts st)).
Definition getReservationsByMandate (mandateProofId : string) (st : UsageStore) : list UsageReservation :=
  List.filter (λ r, String.eqb (ur_mandateProofId r) mandateProofId) (map snd (reservations st)).

End Md.
