(* ===== verification/VotingSpec.v ===== *)
(** * What the count of ballots promises

    A linear count takes one ballot per eligible member, at the member's weight or
    what was delegated of it, so the sum never exceeds the membership; the quorum is
    exact; rounding of the threshold test never passes a failing proposal (though it
    can fail a passing one); a quadratic count keeps every voter within its credits;
    and every ballot [createVote] issues is counted. *)

From Stdlib Require Import ZArith Lia QArith Ascii String.
From stdpp Require Import base gmap list strings.
From S2P Require Import Prelude JsBase JsText JsMap Canonical Governance Voting NumSpec.

Module VtSpec.
Import Js JsText JsNum Gov Vt.

(** ** The threshold and the quorum in floating point *)

(** The relative error of two roundings stays below the gap between integers. *)
Lemma threshold_sound y d t :
  0 <= y <= d → 10000 * d < 2 ^ 51 → threshold_met (of_Z y) (of_Z d) (of_Z t) = true → 0 < d ∧ t * d <= 10000 * y.
Proof.
  intros Hy Hd H. unfold threshold_met in H. unfold num0 in H. rewrite num_lt_Z in H.
  apply andb_true_iff in H as [Hd0%Z.ltb_lt H]. split; [done|].
  destruct d as [|d|d]; [lia| |lia]. destruct (Z.le_gt_cases t 0) as [Ht|Ht]; [nia|].
  rewrite num_div_pos in H.
  destruct (Z.eq_dec y 0) as [->|Hy0].
  { exfalso. rewrite (to_binary64_integer 0) in H; [|reflexivity|done].
    rewrite num_mul_Z, num_le_Z in H by done. lia. }
  destruct (to_binary64_error_Z y d) as (vn & vd & E & Hup & Hlo); [lia|lia|lia|]. rewrite E in H.
  assert (0 < vn) by nia.
  replace (num_mul _ _) with (to_binary64 (vn * 10000 # vd)) in H by (unfold num_mul, of_Z, Qmult; simpl; by rewrite Pos.mul_1_r).
  assert (Z.pos vd <= vn * 2 ^ 60).
  { apply Z.mul_le_mono_pos_r with (Z.pos d); [lia|]. change (2 ^ 53) with 9007199254740992 in *. nia. }
  destruct (to_binary64_error_Z (vn * 10000) vd) as (wn & wd & E2 & Hup2 & Hlo2); [lia|lia| |].
  { change (2 ^ 53) with 9007199254740992 in *. change (2 ^ 52) with 4503599627370496.
    apply Z.mul_lt_mono_pos_r with (Z.pos d); [lia|]. nia. }
  rewrite E2 in H. unfold num_le, of_Z in H. apply Qle_bool_imp_le in H. unfold Qle in H. simpl in H.
  rewrite Z.mul_1_r in H.
  (* t d 2^106 <= 10000 y (2^53 + 1)^2 *)
  assert (Hb1 : t * Z.pos vd * 2 ^ 53 <= 10000 * vn * (2 ^ 53 + 1)).
  { apply Z.mul_le_mono_pos_r with (Z.pos wd); [lia|]. nia. }
  assert (Hb2 : t * Z.pos d * 2 ^ 53 * 2 ^ 53 <= 10000 * y * (2 ^ 53 + 1) * (2 ^ 53 + 1)).
  { apply Z.mul_le_mono_pos_r with (Z.pos vd); [lia|]. nia. }
  change (2 ^ 53) with 9007199254740992 in *. change (2 ^ 51) with 2251799813685248 in *. lia.
Qed.

(** ** Sums over lists *)

Definition zsum {A} (f : A → Z) (l : list A) : Z := foldr (λ x acc, f x + acc) 0 l.

Lemma zsum_cons {A} (f : A → Z) x l : zsum f (x :: l) = f x + zsum f l.
Proof. done. Qed.
Lemma zsum_app {A} (f : A → Z) l k : zsum f (l ++ k) = zsum f l + zsum f k.
Proof. induction l as [|x l IH]; simpl; [done|]. rewrite IH. lia. Qed.
Lemma zsum_perm {A} (f : A → Z) l k : l ≡ₚ k → zsum f l = zsum f k.
Proof. induction 1; simpl; lia. Qed.
Lemma zsum_nonneg {A} (f : A → Z) l : (∀ x, x ∈ l → 0 <= f x) → 0 <= zsum f l.
Proof. induction l as [|x l IH]; intros H; simpl; [lia|]. pose proof (H x ltac:(set_solver)). assert (0 <= zsum f l) by (apply IH; set_solver). lia. Qed.
Lemma zsum_submseteq {A} (f : A → Z) l k : l ⊆+ k → (∀ x, x ∈ k → 0 <= f x) → zsum f l <= zsum f k.
Proof.
  intros [k' Hk]%submseteq_Permutation H. rewrite (zsum_perm _ _ _ Hk), zsum_app.
  assert (0 <= zsum f k'); [|lia]. apply zsum_nonneg. intros x Hx. apply H. rewrite Hk. set_solver.
Qed.
Lemma zsum_le {A} (f g : A → Z) l : (∀ x, x ∈ l → f x <= g x) → zsum f l <= zsum g l.
Proof. induction l as [|x l IH]; intros H; simpl; [done|]. pose proof (H x ltac:(set_solver)). assert (zsum f l <= zsum g l) by (apply IH; set_solver). lia. Qed.
Lemma zsum_ext {A} (f g : A → Z) l : (∀ x, x ∈ l → f x = g x) → zsum f l = zsum g l.
Proof. intros H. apply Z.le_antisymm; apply zsum_le; intros x Hx; rewrite H; done. Qed.
Lemma zsum_fmap {A B} (f : B → Z) (g : A → B) l : zsum f (g <$> l) = zsum (f ∘ g) l.
Proof. induction l as [|x l IH]; simpl; [done|]. f_equal. exact IH. Qed.

(** ** Members with integral weights *)

Definition zval (n : jsnum) : Z := default 0 (num_integer n).
Definition integral (n : jsnum) : Prop := ∃ z, n = of_Z z.
Lemma zval_Z z : zval (of_Z z) = z.
Proof. unfold zval. by rewrite num_integer_Z. Qed.
Lemma integral_zval n : integral n → n = of_Z (zval n).
Proof. intros [z ->]. by rewrite zval_Z. Qed.

Definition sound_members (s : MembershipSnapshot) : Prop :=
  NoDup (entries s).*1 ∧ Forall (λ kv, ∃ z, 0 <= z ∧ weight kv.2 = of_Z z) (entries s).

Definition member_z (s : MembershipSnapshot) (m : string) : Z := zval (getMemberWeight s m (frozenAt s)).
Definition entry_z (s : MembershipSnapshot) (kv : string * MembershipEntry) : Z :=
  if lapsed kv.2 (frozenAt s) then 0 else zval (weight kv.2).
Definition total_z (s : MembershipSnapshot) : Z := zsum (entry_z s) (entries s).

Lemma entry_z_nonneg s kv : sound_members s → kv ∈ entries s → 0 <= entry_z s kv.
Proof.
  intros [_ Hw] Hin. rewrite Forall_forall in Hw. destruct (Hw kv Hin) as (z & Hz & Hzw).
  unfold entry_z. rewrite Hzw, zval_Z. by destruct (lapsed _ _).
Qed.

Lemma member_z_entry s k e : sound_members s → (k, e) ∈ entries s → member_z s k = entry_z s (k, e).
Proof.
  intros [Hnd _] Hin. unfold member_z, getMemberWeight, entry_z.
  rewrite (JsMap.elem_map_get k e _ Hnd Hin). simpl. by destruct (lapsed e _).
Qed.

Lemma member_integral s m : sound_members s → ∃ z, 0 <= z ∧ getMemberWeight s m (frozenAt s) = of_Z z.
Proof.
  intros [_ Hw]. unfold getMemberWeight. destruct (map_get m (entries s)) as [e|] eqn:E; [|by exists 0].
  apply JsMap.map_get_elem in E. rewrite Forall_forall in Hw. destruct (lapsed e _); [by exists 0|]. by apply (Hw _ E).
Qed.

Lemma members_bound s l :
  sound_members s → NoDup l → (∀ m, m ∈ l → 0 < member_z s m) → zsum (member_z s) l <= total_z s.
Proof.
  intros Hs Hnd Hpos. transitivity (zsum (member_z s) (entries s).*1).
  - apply zsum_submseteq.
    + apply NoDup_submseteq; [done|]. intros m Hm. specialize (Hpos m Hm).
      destruct (decide (m ∈ (entries s).*1)) as [|Hni%JsMap.map_get_None]; [done|].
      exfalso. revert Hpos. unfold member_z, getMemberWeight. rewrite Hni. vm_compute. done.
    + intros m [[k e] [-> Hin]]%list_elem_of_fmap. simpl. rewrite (member_z_entry s k e Hs Hin). by apply entry_z_nonneg.
  - rewrite zsum_fmap. apply Z.eq_le_incl. apply zsum_ext. intros [k e] Hin. by apply member_z_entry.
Qed.

Lemma getTotalWeight_Z s :
  sound_members s → total_z s <= MAX_SAFE_INTEGER → getTotalWeight s (frozenAt s) = of_Z (total_z s).
Proof.
  intros Hs Hmax. unfold getTotalWeight, total_z in *.
  assert (Hgen : ∀ l acc, (∀ kv, kv ∈ l → kv ∈ entries s) → 0 <= acc → acc + zsum (entry_z s) l <= MAX_SAFE_INTEGER →
    foldl (λ total kv, if lapsed kv.2 (frozenAt s) then total else num_add total (weight kv.2)) (of_Z acc) l
    = of_Z (acc + zsum (entry_z s) l)).
  { induction l as [|kv l IH]; intros acc Hl Hacc Hb; [simpl; f_equal; lia|]. rewrite zsum_cons in *. cbn [foldl].
    assert (0 <= zsum (entry_z s) l) by (apply zsum_nonneg; intros; apply entry_z_nonneg; set_solver).
    assert (He : 0 <= entry_z s kv) by (apply entry_z_nonneg; set_solver).
    assert (Hin : kv ∈ entries s) by set_solver.
    assert (Hstep : (if lapsed kv.2 (frozenAt s) then of_Z acc else num_add (of_Z acc) (weight kv.2)) = of_Z (acc + entry_z s kv)).
    { destruct Hs as [_ Hw]. rewrite Forall_forall in Hw. destruct (Hw kv Hin) as (z & Hz & Hzw).
      unfold entry_z in *. destruct (lapsed _ _); [f_equal; lia|]. rewrite Hzw, zval_Z in *.
      rewrite num_add_Z by lia. done. }
    rewrite Hstep, IH; [f_equal; lia|set_solver|lia|lia]. }
  rewrite <- (Z.add_0_l (zsum _ _)). apply Hgen; [done|lia|lia].
Qed.

(** ** Accepted ballots *)

Ltac pass_guard H :=
  let Hg := fresh "Hg" in apply result_bind_Ok in H as ([] & Hg & H); apply throw_if_Ok in Hg.

Section tally.
Variable sha3_hex : string → string.
Variable localeCompare : string → string → Z.
Notation tally_vote := (tally_vote sha3_hex).
Notation tally_loop := (tally_loop sha3_hex).
Notation tallyVotes := (tallyVotes sha3_hex localeCompare).

Definition choices : list string := ["yes"; "no"; "abstain"]%string.
Definition ballot_key (v : Vote) : string := voter v +:+ ":" +:+ choice v.

(** What the loop has established about a ballot it lets through. *)
Record accepted (t : TallyParams) (st : TallyState) (v : Vote) : Prop := mkAccepted {
  ac_proposal : v_proposalId v = p_id (tp_proposal t);
  ac_ballot : ballot_key v ∉ seenBallots st;
  ac_voter : tally_algorithm t = quadratic ∨ voter v ∉ seenVoters st;
  ac_choice : choice v ∈ choices;
  ac_member : num_le (getMemberWeight (tp_snapshot t) (voter v) (frozenAt (tp_snapshot t))) num0 = false;
  ac_positive : num_le (v_weight v) num0 = false;
  ac_weight : num_lt (getMemberWeight (tp_snapshot t) (voter v) (frozenAt (tp_snapshot t))) (v_weight v) = false }.

Lemma tally_vote_Ok t now st v st' :
  tally_vote t now st v = Ok st' →
  accepted t st v ∧ ∃ spent, st' = add_weight v st spent ∧
    (tally_algorithm t = quadratic →
       num_is_safe_integer (v_weight v) = true ∧
       (∃ c, quadraticCredits v = Some c ∧ num_eqb c (num_mul (v_weight v) (v_weight v)) = true ∧
         let sp := num_add (default num0 (map_get (voter v) (spentCreditsByVoter st))) c in
         spent = map_set (voter v) sp (spentCreditsByVoter st) ∧
         num_lt (credit_budget t (getMemberWeight (tp_snapshot t) (voter v) (frozenAt (tp_snapshot t)))) sp = false)).
Proof.
  unfold Vt.tally_vote. intros H.
  pass_guard H. pass_guard H. apply result_bind_Ok in H as (expected & _ & H). do 7 pass_guard H.
  apply result_bind_Ok in H as ([] & _ & H). apply result_bind_Ok in H as (spent & Hsp & H). injection H as <-.
  repeat match goal with H : _ || _ = false |- _ => apply orb_false_iff in H as [? ?] end.
  split.
  - constructor; try done.
    + by destruct (String.eqb_spec (v_proposalId v) (p_id (tp_proposal t))).
    + select (bool_decide (_ ∈ seenBallots st) = false) (fun H => by apply bool_decide_eq_false in H).
    + destruct (decide (tally_algorithm t = quadratic)) as [|Hne]; [by left|right].
      rewrite (bool_decide_eq_false_2 _ Hne) in *. simpl in *.
      select (bool_decide (_ ∈ seenVoters st) = false) (fun H => by apply bool_decide_eq_false in H).
    + unfold mem_string in *. simpl in *.
      destruct (String.eqb_spec (choice v) "yes"), (String.eqb_spec (choice v) "no"), (String.eqb_spec (choice v) "abstain");
        simpl in *; try done; unfold choices; set_solver.
  - exists spent. split; [done|]. intros Hq. rewrite (bool_decide_eq_true_2 _ Hq) in Hsp.
    apply result_bind_Ok in Hsp as ([] & Hsc & Hsp). apply throw_if_Ok, orb_false_iff in Hsc as [Hsafe Hcr].
    rewrite negb_false_iff in Hsafe, Hcr.
    pass_guard Hsp. injection Hsp as <-. split; [done|].
    destruct (quadraticCredits v) as [c|]; [|done]. by exists c.
Qed.

(** ** Linear counts *)

Definition weight_for (c : string) (vs : list Vote) : Z :=
  zsum (λ v, zval (v_weight v)) (List.filter (λ v, String.eqb (choice v) c) vs).

Lemma weight_for_snoc c vs v :
  weight_for c (vs ++ [v]) = weight_for c vs + (if String.eqb (choice v) c then zval (v_weight v) else 0).
Proof.
  unfold weight_for. rewrite List.filter_app, zsum_app. simpl.
  destruct (String.eqb (choice v) c); simpl; lia.
Qed.

Definition cast_z (vs : list Vote) : Z := weight_for "yes" vs + weight_for "no" vs + weight_for "abstain" vs.

(** The state of the loop after the ballots [vs]. *)
Record counted (t : TallyParams) (vs : list Vote) (st : TallyState) : Prop := mkCounted {
  co_voters : seenVoters st = list_to_set (voter <$> vs);
  co_distinct : NoDup (voter <$> vs);
  co_weights : Forall (λ v, v_proposalId v = p_id (tp_proposal t) ∧ choice v ∈ choices ∧
                            0 < zval (v_weight v) <= member_z (tp_snapshot t) (voter v)) vs;
  co_yes : yesWeight st = of_Z (weight_for "yes" vs);
  co_no : noWeight st = of_Z (weight_for "no" vs);
  co_abstain : abstainWeight st = of_Z (weight_for "abstain" vs) }.

Lemma cast_z_sum vs : Forall (λ v, choice v ∈ choices) vs → cast_z vs = zsum (λ v, zval (v_weight v)) vs.
Proof.
  unfold cast_z. induction vs as [|v vs IH]; [done|]. intros [Hc Hvs]%Forall_cons. specialize (IH Hvs).
  rewrite zsum_cons. unfold weight_for in *. simpl. unfold choices in Hc.
  assert (choice v = "yes" ∨ choice v = "no" ∨ choice v = "abstain")%string as [E | [E | E] ] by set_solver; rewrite E; simpl; lia.
Qed.

Lemma weight_for_nonneg c vs : Forall (λ v, 0 < zval (v_weight v)) vs → 0 <= weight_for c vs.
Proof.
  intros H. apply zsum_nonneg. intros v Hv.
  rewrite Forall_forall in H. apply list_elem_of_In, List.filter_In in Hv as [Hv _]. apply list_elem_of_In in Hv.
  specialize (H v Hv). simpl in H. lia.
Qed.

Lemma counted_bound t vs st :
  sound_members (tp_snapshot t) → counted t vs st → cast_z vs <= total_z (tp_snapshot t) ∧
  0 <= weight_for "yes" vs ∧ 0 <= weight_for "no" vs ∧ 0 <= weight_for "abstain" vs.
Proof.
  intros Hs [_ Hnd Hw _ _ _]. rewrite Forall_forall in Hw. split.
  - rewrite cast_z_sum by (apply Forall_forall; intros v Hv; apply (Hw v Hv)).
    transitivity (zsum (member_z (tp_snapshot t)) (voter <$> vs)).
    + rewrite zsum_fmap. apply zsum_le. intros v Hv. apply (Hw v Hv).
    + apply members_bound; [done..|]. intros m [v [-> Hv]]%list_elem_of_fmap.
      destruct (Hw v Hv) as (_ & _ & ?). lia.
  - assert (Forall (λ v, 0 < zval (v_weight v)) vs) by (apply Forall_forall; intros v Hv; apply (Hw v Hv)).
    split_and!; by apply weight_for_nonneg.
Qed.

Lemma add_weight_counted t vs st v spent :
  sound_members (tp_snapshot t) → total_z (tp_snapshot t) <= MAX_SAFE_INTEGER → tally_algorithm t = linear →
  integral (v_weight v) → counted t vs st → accepted t st v → counted t (vs ++ [v]) (add_weight v st spent).
Proof.
  intros Hs Hmax Hlin Hint Hc [Hp Hkey [Hv|Hv] Hch Hm Hpos Hle]; [congruence|].
  destruct (member_integral (tp_snapshot t) (voter v) Hs) as (m & Hm0 & Hmw).
  pose proof (integral_zval _ Hint) as Hz. set (z := zval (v_weight v)) in *.
  rewrite Hmw, Hz in Hle. rewrite Hmw in Hm. rewrite Hz in Hpos. unfold num0 in *.
  rewrite num_le_Z in Hm, Hpos. rewrite num_lt_Z in Hle.
  assert (member_z (tp_snapshot t) (voter v) = m) as Hmz by (unfold member_z; rewrite Hmw; apply zval_Z).
  assert (Hnew : ∀ st', seenVoters st' = list_to_set (voter <$> (vs ++ [v])) →
    yesWeight st' = of_Z (weight_for "yes" (vs ++ [v])) → noWeight st' = of_Z (weight_for "no" (vs ++ [v])) →
    abstainWeight st' = of_Z (weight_for "abstain" (vs ++ [v])) → counted t (vs ++ [v]) st').
  { intros st' H1 H2 H3 H4. destruct Hc as [Hseen Hnd Hw _ _ _]. constructor; try done.
    - rewrite fmap_app. apply NoDup_app. split_and!; [done| |apply NoDup_singleton].
      intros x Hx Hx'. apply list_elem_of_singleton in Hx'. subst x. apply Hv. rewrite Hseen. by apply elem_of_list_to_set.
    - apply Forall_app. split; [done|]. constructor; [|done]. split_and!; [done|done|subst z; lia|subst z; lia]. }
  (* a state with the right sums bounds them *)
  assert (Hb : cast_z (vs ++ [v]) <= total_z (tp_snapshot t)).
  { apply (counted_bound t _ (mkTallyState ∅ ∅ (list_to_set (voter <$> (vs ++ [v]))) []
      (of_Z (weight_for "yes" (vs ++ [v]))) (of_Z (weight_for "no" (vs ++ [v])))
      (of_Z (weight_for "abstain" (vs ++ [v]))))); [done|]. by apply Hnew. }
  destruct (counted_bound t vs st Hs Hc) as (_ & Hy & Hn & Ha).
  destruct Hc as [Hseen Hnd Hw Hyes Hno Habs]. unfold cast_z in Hb. rewrite !weight_for_snoc in Hb.
  fold z in Hb. unfold choices in Hch.
  assert (choice v = "yes" ∨ choice v = "no" ∨ choice v = "abstain")%string as [E | [E | E] ] by set_solver;
    rewrite E in Hb; simpl in Hb;
    (apply Hnew; unfold add_weight; rewrite E; simpl;
     [rewrite Hseen, fmap_app, list_to_set_app_L; simpl; set_solver
     |rewrite weight_for_snoc, E; simpl; fold z; rewrite Hyes, ?Hz, ?Z.add_0_r, ?num_add_Z by lia; done
     |rewrite weight_for_snoc, E; simpl; fold z; rewrite Hno, ?Hz, ?Z.add_0_r, ?num_add_Z by lia; done
     |rewrite weight_for_snoc, E; simpl; fold z; rewrite Habs, ?Hz, ?Z.add_0_r, ?num_add_Z by lia; done]).
Qed.

Lemma tally_loop_counted t now rest : ∀ vs st st',
  sound_members (tp_snapshot t) → total_z (tp_snapshot t) <= MAX_SAFE_INTEGER → tally_algorithm t = linear →
  Forall (λ v, integral (v_weight v)) rest → counted t vs st → tally_loop t now st rest = Ok st' →
  counted t (vs ++ rest) st'.
Proof.
  induction rest as [|v rest IH]; intros vs st st' Hs Hmax Hlin Hint Hc H; simpl in H.
  - injection H as <-. by rewrite app_nil_r.
  - apply result_bind_Ok in H as (st1 & H1 & H). apply Forall_cons in Hint as [Hv Hint].
    apply tally_vote_Ok in H1 as (Hacc & spent & -> & _).
    rewrite (cons_middle v vs rest), app_assoc || rewrite cons_middle, app_assoc. eapply IH; [..|exact H]; try done.
    by apply add_weight_counted.
Qed.

Lemma milli_floor_Z w : 0 <= w → 1000 * w <= MAX_SAFE_INTEGER → milli_floor (of_Z w) = of_Z w.
Proof.
  intros Hw Hm. unfold milli_floor. rewrite num_mul_Z by lia. rewrite num_floor_Z. apply num_div_exact; lia.
Qed.

(** The quorum an exact count would require. *)
Definition quorum_z (t : TallyParams) : Z :=
  match tp_config t with
  | Some c => total_z (tp_snapshot t) * zval (quorumBps (Gov.voting c)) / 10000
  | None => total_z (tp_snapshot t)
  end.
Definition sound_quorum (t : TallyParams) : Prop :=
  ∀ c, tp_config t = Some c → ∃ q, quorumBps (Gov.voting c) = of_Z q ∧ 0 <= q <= 10000.

Lemma tallyVotes_Ok t clock r :
  tallyVotes t clock = Ok r →
  ∃ st, tally_loop t (default clock (tp_now t)) start_tally (tp_votes t) = Ok st ∧ r = close_tally t st.
Proof.
  unfold Vt.tallyVotes. intros H. do 2 pass_guard H. apply result_bind_Ok in H as ([] & _ & H).
  pass_guard H. apply result_bind_Ok in H as (st & Hst & H). injection H as <-. by exists st.
Qed.

Lemma linear_count t clock r :
  sound_members (tp_snapshot t) → 10000 * total_z (tp_snapshot t) < 2 ^ 51 → tally_algorithm t = linear →
  Forall (λ v, integral (v_weight v)) (tp_votes t) → tallyVotes t clock = Ok r →
  ∃ st, counted t (tp_votes t) st ∧ r = close_tally t st.
Proof.
  intros Hs Hmax Hlin Hint H. apply tallyVotes_Ok in H as (st & Hloop & ->). exists st. split; [|done].
  change (tp_votes t) with ([] ++ tp_votes t). eapply tally_loop_counted; [done| |done|done| |exact Hloop].
  - unfold MAX_SAFE_INTEGER. lia.
  - constructor; try done; constructor.
Qed.

Lemma quorum_exact t :
  sound_members (tp_snapshot t) → 10000 * total_z (tp_snapshot t) < 2 ^ 51 → sound_quorum t →
  match tp_config t with
  | Some c => num_floor (num_div (num_mul (getTotalWeight (tp_snapshot t) (frozenAt (tp_snapshot t)))
                                          (quorumBps (Gov.voting c))) (of_Z 10000))
  | None => getTotalWeight (tp_snapshot t) (frozenAt (tp_snapshot t))
  end = of_Z (quorum_z t).
Proof.
  intros Hs Hmax Hq. rewrite getTotalWeight_Z by (unfold MAX_SAFE_INTEGER; lia || done). unfold quorum_z.
  assert (0 <= total_z (tp_snapshot t)) by (apply zsum_nonneg; intros; by apply entry_z_nonneg).
  destruct (tp_config t) as [c|] eqn:E; [|done]. destruct (Hq c E) as (q & -> & Hq0). rewrite zval_Z.
  rewrite num_mul_Z by (unfold MAX_SAFE_INTEGER; nia). apply num_floor_div; nia.
Qed.

Lemma close_tally_exact t st :
  sound_members (tp_snapshot t) → 10000 * total_z (tp_snapshot t) < 2 ^ 51 → sound_quorum t →
  counted t (tp_votes t) st →
  let r := close_tally t st in
  yes r = of_Z (weight_for "yes" (tp_votes t)) ∧ no r = of_Z (weight_for "no" (tp_votes t)) ∧
  abstain r = of_Z (weight_for "abstain" (tp_votes t)) ∧
  cast_z (tp_votes t) <= total_z (tp_snapshot t) ∧ totalWeight r = of_Z (total_z (tp_snapshot t)) ∧
  quorumWeight r = of_Z (quorum_z t) ∧ quorumReached r = (quorum_z t <=? cast_z (tp_votes t)).
Proof.
  intros Hs Hmax Hq Hc r. destruct (counted_bound _ _ _ Hs Hc) as (Hb & Hy & Hn & Ha). unfold cast_z in *.
  pose proof (quorum_exact t Hs Hmax Hq) as Hqe. destruct Hc as [Hseen Hnd Hw Hyes Hno Habs].
  subst r. unfold close_tally. cbn [yes no abstain totalWeight quorumWeight quorumReached].
  rewrite Hqe, Hyes, Hno, Habs, !num_add_Z, num_le_Z by (unfold MAX_SAFE_INTEGER; lia).
  rewrite !milli_floor_Z by (unfold MAX_SAFE_INTEGER; lia). rewrite getTotalWeight_Z by (done || unfold MAX_SAFE_INTEGER; lia).
  by split_and!.
Qed.

(** ** Quadratic counts *)

Definition squares_of (m : string) (vs : list Vote) : Z :=
  zsum (λ v, zval (v_weight v) * zval (v_weight v)) (List.filter (λ v, String.eqb (voter v) m) vs).
Definition budget_of (t : TallyParams) (m : string) : jsnum :=
  credit_budget t (getMemberWeight (tp_snapshot t) m (frozenAt (tp_snapshot t))).

Lemma squares_of_snoc m vs v :
  squares_of m (vs ++ [v]) =
  squares_of m vs + (if String.eqb (voter v) m then zval (v_weight v) * zval (v_weight v) else 0).
Proof.
  unfold squares_of. rewrite List.filter_app, zsum_app. simpl. destruct (String.eqb (voter v) m); simpl; lia.
Qed.

(** What the loop knows of spent credits after the ballots [vs]. *)
Definition spent_is (t : TallyParams) (vs : list Vote) (st : TallyState) : Prop :=
  seenBallots st = list_to_set (ballot_key <$> vs) ∧ NoDup (ballot_key <$> vs) ∧
  ∀ m, default num0 (map_get m (spentCreditsByVoter st)) = of_Z (squares_of m vs) ∧
       (squares_of m vs = 0 ∨ 0 <= squares_of m vs <= zval (budget_of t m)).

Lemma num_eqb_Qeq c z : num_eqb c (of_Z z) = true → ∃ q, c = NFin q ∧ q == inject_Z z.
Proof. destruct c as [q| |]; [|done|done]. intros H. exists q. split; [done|]. by apply Qeq_bool_eq. Qed.

Lemma add_vote_spent t now vs st v st' :
  tally_algorithm t = quadratic → integral (v_weight v) → Z.abs (zval (v_weight v)) <= 2 ^ 26 →
  (∃ b, budget_of t (voter v) = of_Z b ∧ b < 2 ^ 52) →
  spent_is t vs st → tally_vote t now st v = Ok st' → spent_is t (vs ++ [v]) st'.
Proof.
  intros Hq Hint Hw (b & Hb & Hb52) (Hseen & Hnd & Hsp) H.
  apply tally_vote_Ok in H as (Hacc & spent & -> & Hquad).
  destruct (Hquad Hq) as (_ & c & Hc & Heq & -> & Hle). clear Hquad.
  split_and!; simpl.
  - rewrite Hseen, fmap_app, list_to_set_app_L. simpl. unfold ballot_key at 3. set_solver.
  - rewrite fmap_app. apply NoDup_app. split_and!; [done| |apply NoDup_singleton].
    intros x Hx Hx'. apply list_elem_of_singleton in Hx'. subst x. apply (ac_ballot _ _ _ Hacc). rewrite Hseen.
    by apply elem_of_list_to_set.
  - set (z := zval (v_weight v)) in *. pose proof (integral_zval _ Hint) as Hz. fold z in Hz. rewrite Hz in Heq.
    rewrite num_mul_Z in Heq by (unfold MAX_SAFE_INTEGER; nia). apply num_eqb_Qeq in Heq as (q & -> & Hqz).
    destruct (Hsp (voter v)) as [Hget Hbound]. rewrite Hb, zval_Z in Hbound. rewrite Hget in Hle |- *.
    assert (Hadd : num_add (of_Z (squares_of (voter v) vs)) (NFin q) = of_Z (squares_of (voter v) vs + z * z)).
    { unfold num_add, of_Z at 1. apply to_binary64_integer; [|assert (z * z <= 2 ^ 52) by nia; unfold MAX_SAFE_INTEGER; lia].
      rewrite Hqz. rewrite <- inject_Z_plus. reflexivity. }
    rewrite Hadd in Hle |- *. unfold budget_of in Hb. rewrite Hb, num_lt_Z in Hle.
    intros m. rewrite squares_of_snoc. fold z. destruct (String.eqb_spec (voter v) m) as [<-|Hne].
    + rewrite JsMap.map_get_set_eq. simpl. split; [done|]. right. unfold budget_of. rewrite Hb, zval_Z.
      destruct Hbound; nia.
    + rewrite JsMap.map_get_set_ne, Z.add_0_r by done. apply Hsp.
Qed.

Lemma quadratic_loop t now rest : ∀ vs st st',
  tally_algorithm t = quadratic →
  Forall (λ v, integral (v_weight v) ∧ Z.abs (zval (v_weight v)) <= 2 ^ 26 ∧
               ∃ b, budget_of t (voter v) = of_Z b ∧ b < 2 ^ 52) rest →
  spent_is t vs st → tally_loop t now st rest = Ok st' → spent_is t (vs ++ rest) st'.
Proof.
  induction rest as [|v rest IH]; intros vs st st' Hq Hall Hsp H; simpl in H.
  - injection H as <-. by rewrite app_nil_r.
  - apply result_bind_Ok in H as (st1 & H1 & H). apply Forall_cons in Hall as [(Hi & Hw & Hb) Hall].
    rewrite cons_middle, app_assoc. eapply IH; [done|done| |exact H]. by eapply add_vote_spent.
Qed.

(** ** Ballots that were cast are counted *)

Notation createVote := (createVote sha3_hex localeCompare).

Lemma key_inj a b c d :
  a +:+ ":" +:+ c = b +:+ ":" +:+ d → includes_char ":" c = false → includes_char ":" d = false → a = b ∧ c = d.
Proof.
  revert b. induction a as [|x a IH]; intros [|y b] H Hc Hd; simpl in H; simplify_eq; try done.
  - exfalso. change (c = b +:+ (":" +:+ d)) in H0. subst c. revert Hc. unfold includes_char. rewrite str_forallb_app. simpl. by rewrite andb_false_r.
  - exfalso. change (a +:+ (":" +:+ c) = d) in H0. subst d. revert Hd. unfold includes_char. rewrite str_forallb_app. simpl. by rewrite andb_false_r.
  - destruct (IH b) as [-> ->]; done.
Qed.

Lemma choices_plain c : c ∈ choices → includes_char ":" c = false.
Proof. unfold choices. intros H. assert (c = "yes" ∨ c = "no" ∨ c = "abstain")%string as [E | [E | E] ] by set_solver; by rewrite E. Qed.

(** A ballot [createVote] issued, before any delegation. *)
Definition cast (p : Proposal) (s : MembershipSnapshot) (config : option GovernanceConfig) (v : Vote) : Prop :=
  choice v ∈ choices ∧ ∃ clock, createVote p (voter v) (choice v) s None config (Some (v_castAt v)) clock = Ok v.

Lemma cast_Ok p s config v :
  cast p s config v →
  validateVotingSnapshot sha3_hex localeCompare p s = Ok tt ∧ status p = active ∧
  votingStartsAt p <= v_castAt v <= votingEndsAt p ∧
  num_le (getMemberWeight s (voter v) (frozenAt s)) num0 = false ∧
  computeVoteId sha3_hex (p_id p) (voter v) (choice v) (v_castAt v) = Ok (v_id v) ∧
  v_proposalId v = p_id p ∧ v_weight v = getMemberWeight s (voter v) (frozenAt s) ∧ delegationChain v = None.
Proof.
  intros (_ & clock & H). unfold Vt.createVote, voting_open in H.
  change (default clock (Some (v_castAt v))) with (v_castAt v) in H.
  apply result_bind_Ok in H as ([] & Ho & H). apply result_bind_Ok in Ho as ([] & Hsnap & Ho).
  pass_guard Ho. pass_guard Ho. apply throw_if_Ok in Ho.
  pass_guard H. pass_guard H. apply result_bind_Ok in H as (id & Hid & H).
  injection H as H. rewrite negb_false_iff, bool_decide_eq_true in Hg.
  assert (v_id v = id ∧ v_proposalId v = p_id p ∧ v_weight v = getMemberWeight s (voter v) (frozenAt s) ∧
          delegationChain v = None) as (-> & ? & ? & ?) by (rewrite <- H; done).
  split_and!; try done; try lia.
Qed.

Lemma guard_bind {A} b e (k : unit → result GovError A) : b = false → (gov_guard b e ≫= k) = k tt.
Proof. by intros ->. Qed.

Lemma tally_vote_cast t now st v :
  tally_algorithm t = linear → sound_members (tp_snapshot t) →
  cast (tp_proposal t) (tp_snapshot t) (tp_config t) v →
  v_id v ∉ seenVoteIds st → ballot_key v ∉ seenBallots st → voter v ∉ seenVoters st →
  tally_vote t now st v = Ok (add_weight v st (spentCreditsByVoter st)).
Proof.
  intros Hlin Hs Hcast Hid Hkey Hv. pose proof (proj1 Hcast) as Hch.
  destruct (cast_Ok _ _ _ _ Hcast) as (_ & _ & Htime & Hm & Hcomp & Hp & Hw & Hchain).
  destruct (member_integral (tp_snapshot t) (voter v) Hs) as (m & Hm0 & Hmw).
  unfold Vt.tally_vote. unfold ballot_key in Hkey.
  rewrite guard_bind by (by rewrite Hp, String.eqb_refl). rewrite guard_bind by (by apply bool_decide_eq_false).
  rewrite Hp, Hcomp. change (Ok (v_id v) ≫= ?f) with (f (v_id v)). cbv beta.
  rewrite guard_bind by (by rewrite String.eqb_refl). rewrite guard_bind by (by apply bool_decide_eq_false).
  rewrite Hlin. rewrite guard_bind by (by rewrite (bool_decide_eq_false_2 _ Hv)).
  rewrite guard_bind.
  2: { unfold choices in Hch.
       assert (choice v = "yes" ∨ choice v = "no" ∨ choice v = "abstain")%string as [E | [E | E] ] by set_solver; by rewrite E. }
  rewrite guard_bind by lia. rewrite guard_bind by done.
  rewrite Hmw in Hm. rewrite Hw, Hmw. rewrite guard_bind by (by rewrite Hm, num_lt_Z, Z.ltb_irrefl).
  rewrite Hchain. rewrite guard_bind by (by rewrite num_eqb_Z, Z.eqb_refl, andb_comm). done.
Qed.

Lemma tally_loop_cast t now rest : ∀ st,
  tally_algorithm t = linear → sound_members (tp_snapshot t) →
  Forall (cast (tp_proposal t) (tp_snapshot t) (tp_config t)) rest →
  NoDup (v_id <$> rest) → NoDup (voter <$> rest) →
  (∀ v, v ∈ rest → v_id v ∉ seenVoteIds st ∧ ballot_key v ∉ seenBallots st ∧ voter v ∉ seenVoters st) →
  ∃ st', tally_loop t now st rest = Ok st'.
Proof.
  induction rest as [|v rest IH]; intros st Hlin Hs Hall Hids Hvs Hfresh; simpl; [by eexists|].
  apply Forall_cons in Hall as [Hc Hall]. apply NoDup_cons in Hids as [Hid Hids]. apply NoDup_cons in Hvs as [Hv Hvs].
  destruct (Hfresh v ltac:(set_solver)) as (H1 & H2 & H3).
  rewrite (tally_vote_cast t now st v Hlin Hs Hc H1 H2 H3). simpl. apply IH; try done.
  intros w Hw. destruct (Hfresh w ltac:(set_solver)) as (Hw1 & Hw2 & Hw3). unfold add_weight. simpl.
  assert (v_id w ≠ v_id v) by (intros E; apply Hid; rewrite <- E; by apply list_elem_of_fmap_2).
  assert (Hne : voter w ≠ voter v) by (intros E; apply Hv; rewrite <- E; by apply list_elem_of_fmap_2).
  assert (ballot_key w ≠ ballot_key v).
  { intros E. apply Hne. rewrite Forall_forall in Hall.
    destruct (key_inj _ _ _ _ E) as [? _]; [apply choices_plain, (Hall w Hw)|apply choices_plain, Hc|done]. }
  unfold ballot_key in *. split_and!; set_solver.
Qed.

Definition member_votes (s : MembershipSnapshot) (c : string) (vs : list Vote) : Z :=
  zsum (λ v, member_z s (voter v)) (List.filter (λ v, String.eqb (choice v) c) vs).

Lemma cast_weight_for p s config c vs :
  Forall (cast p s config) vs → weight_for c vs = member_votes s c vs.
Proof.
  intros Hall. apply zsum_ext. intros v Hv. apply list_elem_of_In, List.filter_In in Hv as [Hv _].
  apply list_elem_of_In in Hv. rewrite Forall_forall in Hall.
  destruct (cast_Ok _ _ _ _ (Hall v Hv)) as (_ & _ & _ & _ & _ & _ & Hw & _). by rewrite Hw.
Qed.

Lemma tallyVotes_cast t clock :
  sound_members (tp_snapshot t) → tally_algorithm t = linear → tp_votes t ≠ [] →
  Forall (cast (tp_proposal t) (tp_snapshot t) (tp_config t)) (tp_votes t) →
  NoDup (v_id <$> tp_votes t) → NoDup (voter <$> tp_votes t) →
  votingEndsAt (tp_proposal t) <= default clock (tp_now t) →
  ∃ st, tallyVotes t clock = Ok (close_tally t st).
Proof.
  intros Hs Hlin Hne Hall Hids Hvs Hend.
  destruct (tally_loop_cast t (default clock (tp_now t)) (tp_votes t) start_tally Hlin Hs Hall Hids Hvs) as [st Hst].
  { intros v _. split_and!; apply not_elem_of_empty. }
  exists st. destruct (tp_votes t) as [|v vs] eqn:E; [done|].
  pose proof Hall as [Hc _]%Forall_cons. destruct (cast_Ok _ _ _ _ Hc) as (Hsnap & Hact & _).
  unfold Vt.tallyVotes. rewrite E. rewrite guard_bind by done.
  rewrite guard_bind by (by rewrite Hact). rewrite Hsnap. change (Ok tt ≫= ?f) with (f tt). cbv beta.
  rewrite guard_bind by lia. by rewrite Hst.
Qed.

End tally.

(** ** A concrete membership *)

Definition sha_id (s : string) : string := s.
Definition code_unit_order (a b : string) : Z :=
  match String.compare a b with Lt => -1 | Eq => 0 | Gt => 1 end.

Definition sample_entries : list MembershipEntry :=
  [mkMember "alice" "member" (of_Z 57) 1 "root" None; mkMember "bob" "member" (of_Z 43) 2 "root" None].
Definition sample_snapshot : MembershipSnapshot :=
  match freezeMembershipSnapshot sha_id code_unit_order "dao" sample_entries (Some 10) 10 with
  | Ok s => s
  | Err _ => mkSnapshot "" 0 [] ""
  end.
Definition sample_config (a : TallyAlgorithm) : GovernanceConfig :=
  createGovernanceConfig "dao" "DAO" (mkVotingParams a (of_Z 5000) (of_Z 5700) 100 None None None
    (Some (mkQuadratic true from_weight None)) None) None None "scope" "resolver".
Definition sample_proposal : Proposal :=
  mkProposal "p1" "dao" "t" "d" [] "alice" active 10 20 120 0 None None None (hash sample_snapshot).

Definition sample_vote (voter choice : string) (at_ : Z) : Vote :=
  match createVote sha_id code_unit_order sample_proposal voter choice sample_snapshot None
          (Some (sample_config linear)) (Some at_) at_ with
  | Ok v => v
  | Err _ => mkVote "" "" "" "" num0 None None 0
  end.
Definition sample_votes : list Vote := [sample_vote "alice" "yes" 30; sample_vote "bob" "no" 40].
Definition sample_params : TallyParams :=
  mkTallyParams sample_proposal sample_votes sample_snapshot (Some (sample_config linear)) None (Some 130).

Lemma sample_sound : sound_members sample_snapshot.
Proof.
  split.
  - apply (bool_decide_unpack _). vm_compute. exact I.
  - repeat constructor; [exists 57|exists 43]; by split.
Qed.
Lemma sample_integral : Forall (λ v, integral (v_weight v)) sample_votes.
Proof. repeat constructor; [exists 57|exists 43]; vm_compute; reflexivity. Qed.
Lemma sample_quorum : sound_quorum sample_params.
Proof. intros c [= <-]. exists 5000. split; [reflexivity|lia]. Qed.
Lemma sample_tally : tallyVotes sha_id code_unit_order sample_params 0 =
  Ok (mkTally "p1" (of_Z 57) (of_Z 43) (of_Z 0) (of_Z 100) (of_Z 50) true false (of_Z 5700) linear).
Proof. vm_compute. reflexivity. Qed.

(** ** Properties *)

(** A linear count accepts at most one ballot per voter, each from an eligible
    member and for no more than the member's weight; it reports the exact sums,
    which together never exceed the membership's total, and reaches quorum exactly
    when the sums reach the exact quorum. *)
Theorem linear_count_is_exact sha3_hex localeCompare t clock r :
  sound_members (tp_snapshot t) → 10000 * total_z (tp_snapshot t) < 2 ^ 51 → sound_quorum t →
  tally_algorithm t = linear → Forall (λ v, integral (v_weight v)) (tp_votes t) →
  tallyVotes sha3_hex localeCompare t clock = Ok r →
  NoDup (voter <$> tp_votes t) ∧
  Forall (λ v, 0 < zval (v_weight v) <= member_z (tp_snapshot t) (voter v)) (tp_votes t) ∧
  yes r = of_Z (weight_for "yes" (tp_votes t)) ∧ no r = of_Z (weight_for "no" (tp_votes t)) ∧
  abstain r = of_Z (weight_for "abstain" (tp_votes t)) ∧
  cast_z (tp_votes t) <= total_z (tp_snapshot t) ∧ totalWeight r = of_Z (total_z (tp_snapshot t)) ∧
  quorumWeight r = of_Z (quorum_z t) ∧ quorumReached r = (quorum_z t <=? cast_z (tp_votes t)).
Proof.
  intros Hs Hmax Hq Hlin Hint H. destruct (linear_count _ _ _ _ _ Hs Hmax Hlin Hint H) as (st & Hc & ->).
  split; [apply Hc|]. split; [|by apply close_tally_exact].
  eapply Forall_impl; [apply Hc|]. simpl. intuition.
Qed.

Lemma linear_count_is_exact_witness :
  cast_z sample_votes <= total_z sample_snapshot.
Proof.
  pose proof (linear_count_is_exact sha_id code_unit_order sample_params 0
    (mkTally "p1" (of_Z 57) (of_Z 43) (of_Z 0) (of_Z 100) (of_Z 50) true false (of_Z 5700) linear)
    sample_sound ltac:(vm_compute; reflexivity) sample_quorum ltac:(reflexivity) sample_integral sample_tally) as H.
  exact (proj1 (proj2 (proj2 (proj2 (proj2 (proj2 H)))))).
Defined.

(** Rounding never passes a failing proposal: when a linear tally reports
    [passed], the quorum was reached and the yes weight is at least the threshold's
    share of the decided weight, in exact arithmetic. *)
Theorem rounding_passes_no_failing_proposal sha3_hex localeCompare t clock r th :
  sound_members (tp_snapshot t) → 10000 * total_z (tp_snapshot t) < 2 ^ 51 → sound_quorum t →
  tally_algorithm t = linear → Forall (λ v, integral (v_weight v)) (tp_votes t) →
  tallyVotes sha3_hex localeCompare t clock = Ok r → thresholdBps r = of_Z th → t_passed r = true →
  let y := weight_for "yes" (tp_votes t) in
  let n := weight_for "no" (tp_votes t) in
  quorum_z t <= cast_z (tp_votes t) ∧ 0 < y + n ∧ th * (y + n) <= 10000 * y.
Proof.
  intros Hs Hmax Hq Hlin Hint H Hth Hp y n. destruct (linear_count _ _ _ _ _ Hs Hmax Hlin Hint H) as (st & Hc & ->).
  destruct (counted_bound _ _ _ Hs Hc) as (Hb & Hy & Hn & Ha). unfold cast_z in *.
  pose proof (quorum_exact t Hs Hmax Hq) as Hqe. destruct Hc as [Hseen Hnd Hw Hyes Hno Habs].
  unfold close_tally in Hth, Hp. cbn [thresholdBps t_passed] in Hth, Hp.
  rewrite Hth, Hqe, Hyes, Hno, Habs, !num_add_Z, num_le_Z in Hp by (unfold MAX_SAFE_INTEGER; lia).
  apply andb_true_iff in Hp as [Hr%Z.leb_le Hp]. subst y n. split; [lia|].
  apply threshold_sound; [lia|lia|done].
Qed.

Lemma sample_tally_passes :
  tallyVotes sha_id code_unit_order
    (mkTallyParams sample_proposal [sample_vote "alice" "yes" 30] sample_snapshot (Some (sample_config linear)) None (Some 130)) 0 =
  Ok (mkTally "p1" (of_Z 57) (of_Z 0) (of_Z 0) (of_Z 100) (of_Z 50) true true (of_Z 5700) linear).
Proof. vm_compute. reflexivity. Qed.

Lemma rounding_passes_no_failing_proposal_witness :
  let vs := [sample_vote "alice" "yes" 30] in
  5700 * (weight_for "yes" vs + weight_for "no" vs) <= 10000 * weight_for "yes" vs.
Proof.
  pose proof (rounding_passes_no_failing_proposal sha_id code_unit_order
    (mkTallyParams sample_proposal [sample_vote "alice" "yes" 30] sample_snapshot (Some (sample_config linear)) None (Some 130)) 0
    (mkTally "p1" (of_Z 57) (of_Z 0) (of_Z 0) (of_Z 100) (of_Z 50) true true (of_Z 5700) linear) 5700
    sample_sound ltac:(vm_compute; reflexivity) ltac:(intros c [= <-]; exists 5000; split; [reflexivity|lia])
    ltac:(reflexivity) ltac:(constructor; [exists 57; vm_compute; reflexivity|constructor])
    sample_tally_passes ltac:(reflexivity) ltac:(reflexivity)) as H.
  exact (proj2 (proj2 H)).
Defined.

(** Rounding does fail a passing proposal: 57 of 100 decided weights against a
    threshold of 5700 basis points is reported as not passed. *)
Theorem exact_majority_can_fail :
  tallyVotes sha_id code_unit_order sample_params 0 =
    Ok (mkTally "p1" (of_Z 57) (of_Z 43) (of_Z 0) (of_Z 100) (of_Z 50) true false (of_Z 5700) linear) ∧
  5700 * (57 + 43) <= 10000 * 57.
Proof. split; [vm_compute; reflexivity|lia]. Qed.

(** Every election runs to a count: when each ballot was issued by [createVote]
    for a distinct voter (and the ballot ids do not collide), the linear tally after
    the end of voting returns, and reports for each choice the exact sum of the
    weights of the members who chose it. *)
Theorem ballots_cast_are_counted sha3_hex localeCompare t clock :
  sound_members (tp_snapshot t) → 10000 * total_z (tp_snapshot t) < 2 ^ 51 → sound_quorum t →
  tally_algorithm t = linear → tp_votes t ≠ [] →
  Forall (cast sha3_hex localeCompare (tp_proposal t) (tp_snapshot t) (tp_config t)) (tp_votes t) →
  NoDup (v_id <$> tp_votes t) → NoDup (voter <$> tp_votes t) →
  votingEndsAt (tp_proposal t) <= default clock (tp_now t) →
  ∃ r, tallyVotes sha3_hex localeCompare t clock = Ok r ∧
    yes r = of_Z (member_votes (tp_snapshot t) "yes" (tp_votes t)) ∧
    no r = of_Z (member_votes (tp_snapshot t) "no" (tp_votes t)) ∧
    abstain r = of_Z (member_votes (tp_snapshot t) "abstain" (tp_votes t)).
Proof.
  intros Hs Hmax Hq Hlin Hne Hall Hids Hvs Hend.
  destruct (tallyVotes_cast _ _ t clock Hs Hlin Hne Hall Hids Hvs Hend) as [st0 H]. eexists. split; [exact H|].
  assert (Hint : Forall (λ v, integral (v_weight v)) (tp_votes t)).
  { eapply Forall_impl; [exact Hall|]. intros v Hv. destruct (cast_Ok _ _ _ _ _ _ Hv) as (_ & _ & _ & _ & _ & _ & -> & _).
    destruct (member_integral (tp_snapshot t) (voter v) Hs) as (z & _ & ->). by exists z. }
  destruct (linear_count _ _ _ _ _ Hs Hmax Hlin Hint H) as (st & Hc & ->).
  destruct (close_tally_exact t st Hs Hmax Hq Hc) as (Hy & Hn & Ha & _).
  rewrite Hy, Hn, Ha. by rewrite !(cast_weight_for _ _ _ _ _ _ _ Hall).
Qed.

Lemma sample_cast : Forall (cast sha_id code_unit_order sample_proposal sample_snapshot (Some (sample_config linear))) sample_votes.
Proof.
  unfold sample_votes. apply Forall_cons; split; [|apply Forall_cons; split; [|constructor]];
    (split; [apply (bool_decide_unpack _); vm_compute; exact I|]); [exists 30|exists 40]; vm_compute; reflexivity.
Qed.

Lemma ballots_cast_are_counted_witness :
  ∃ r, tallyVotes sha_id code_unit_order sample_params 0 = Ok r ∧
    yes r = of_Z (member_votes sample_snapshot "yes" sample_votes) ∧
    no r = of_Z (member_votes sample_snapshot "no" sample_votes) ∧
    abstain r = of_Z (member_votes sample_snapshot "abstain" sample_votes).
Proof.
  apply (ballots_cast_are_counted sha_id code_unit_order sample_params 0 sample_sound);
    [vm_compute; reflexivity|exact sample_quorum|reflexivity|discriminate|exact sample_cast| | |vm_compute; discriminate].
  - apply (bool_decide_unpack _). vm_compute. exact I.
  - apply (bool_decide_unpack _). vm_compute. exact I.
Defined.

(** In a quadratic count no two ballots share voter and choice, and the squares
    of a voter's weights sum to at most the voter's credit budget. *)
Theorem quadratic_ballots_stay_within_credits sha3_hex localeCompare t clock r :
  tally_algorithm t = quadratic →
  Forall (λ v, integral (v_weight v) ∧ Z.abs (zval (v_weight v)) <= 2 ^ 26 ∧
               ∃ b, budget_of t (voter v) = of_Z b ∧ b < 2 ^ 52) (tp_votes t) →
  tallyVotes sha3_hex localeCompare t clock = Ok r →
  NoDup (ballot_key <$> tp_votes t) ∧
  ∀ m, squares_of m (tp_votes t) = 0 ∨ squares_of m (tp_votes t) <= zval (budget_of t m).
Proof.
  intros Hq Hall H. apply tallyVotes_Ok in H as (st & Hloop & _).
  assert (Hs : spent_is t ([] ++ tp_votes t) st).
  { apply (quadratic_loop sha3_hex localeCompare t (default clock (tp_now t)) (tp_votes t) [] start_tally st Hq Hall); [|exact Hloop].
    split_and!; [done|constructor|]. intros m. by split; [|left]. }
  destruct Hs as (_ & Hnd & Hsp). split; [done|]. intros m. destruct (Hsp m) as [_ [?|?]]; [by left|right; simpl in *; lia].
Qed.

Definition quadratic_votes : list Vote :=
  match createQuadraticVote sha_id code_unit_order sample_proposal "alice" [("yes", of_Z 5); ("no", of_Z 4)]%string
          sample_snapshot None (Some (sample_config quadratic)) (Some 30) 30 with
  | Ok vs => vs
  | Err _ => []
  end.
Definition quadratic_params : TallyParams :=
  mkTallyParams sample_proposal quadratic_votes sample_snapshot (Some (sample_config quadratic)) None (Some 130).

Lemma quadratic_squares : squares_of "alice" (tp_votes quadratic_params) = 41.
Proof. vm_compute. reflexivity. Qed.
Lemma quadratic_run : ∃ r, tallyVotes sha_id code_unit_order quadratic_params 0 = Ok r.
Proof. eexists. vm_compute. reflexivity. Qed.
Definition quadratic_ids : string * string :=
  match quadratic_votes with [v; w] => (v_id v, v_id w) | _ => ("", "")%string end.
Lemma quadratic_votes_are :
  quadratic_votes = [mkVote quadratic_ids.1 "p1" "alice" "yes" (of_Z 5) (Some (of_Z 25)) None 30;
                     mkVote quadratic_ids.2 "p1" "alice" "no" (of_Z 4) (Some (of_Z 16)) None 30].
Proof. vm_compute. reflexivity. Qed.
Lemma quadratic_budget : budget_of quadratic_params "alice" = of_Z 57.
Proof. vm_compute. reflexivity. Qed.

Lemma quadratic_bounded :
  Forall (λ v, integral (v_weight v) ∧ Z.abs (zval (v_weight v)) <= 2 ^ 26 ∧
               ∃ b, budget_of quadratic_params (voter v) = of_Z b ∧ b < 2 ^ 52) (tp_votes quadratic_params).
Proof.
  pose proof quadratic_budget as Hb. generalize dependent (budget_of quadratic_params). intros budget Hb.
  cbn [tp_votes quadratic_params]. rewrite quadratic_votes_are. generalize quadratic_ids. intros [i j].
  apply Forall_cons; split; [|apply Forall_cons; split; [|constructor]]; cbn [v_weight voter].
  - split; [by exists 5|]. split; [discriminate|]. by exists 57.
  - split; [by exists 4|]. split; [discriminate|]. by exists 57.
Qed.

Lemma quadratic_ballots_stay_within_credits_witness :
  squares_of "alice" (tp_votes quadratic_params) <= zval (budget_of quadratic_params "alice").
Proof.
  destruct quadratic_run as [r Hrun].
  destruct (quadratic_ballots_stay_within_credits sha_id code_unit_order quadratic_params 0 r
    eq_refl quadratic_bounded Hrun) as [_ H].
  destruct (H "alice"%string) as [H0|H0]; [|exact H0]. rewrite quadratic_squares in H0. discriminate H0.
Defined.

End VtSpec.
