(* ===== verification/GovernanceSpec.v ===== *)
(** * What membership snapshots and delegation chains promise

    Freezing keeps, for each member, the latest entry not newer than the freeze, and
    the frozen snapshot verifies; resolving a delegation follows active delegations
    in scope, without repetition, to a voter who delegates no further, unless a cycle
    or the depth limit ends the walk. *)

From Stdlib Require Import ZArith Lia QArith Ascii String.
From stdpp Require Import base gmap sets list strings.
From S2P Require Import Prelude JsBase JsText JsMap Canonical Governance Voting.

Module GovSpec.
Import Js JsText JsMap Gov.

(** ** Freezing *)

(** Entries that count for a snapshot frozen at [at_]. *)
Definition eligible (at_ : Z) (e : MembershipEntry) : Prop := memberId e ≠ ""%string ∧ addedAt e <= at_.

(** [e] is the entry kept for [m] among [es]: eligible, none of the member's
    eligible entries newer, and none of the later ones as new. *)
Definition latest (at_ : Z) (m : string) (es : list MembershipEntry) (e : MembershipEntry) : Prop :=
  ∃ l r, es = l ++ e :: r ∧ memberId e = m ∧ eligible at_ e ∧
    (∀ x, x ∈ l → memberId x = m → eligible at_ x → addedAt x <= addedAt e) ∧
    (∀ x, x ∈ r → memberId x = m → eligible at_ x → addedAt x < addedAt e).

Definition frozen_as (at_ : Z) (es : list MembershipEntry) (m : list (string * MembershipEntry)) : Prop :=
  NoDup m.*1 ∧
  ∀ k, match map_get k m with
       | Some e => latest at_ k es e
       | None => ∀ x, x ∈ es → memberId x = k → ¬ eligible at_ x
       end.

Lemma latest_skip at_ k es e x :
  latest at_ k es e → (memberId x = k → eligible at_ x → addedAt x < addedAt e) → latest at_ k (es ++ [x]) e.
Proof.
  intros (l & r & -> & Hm & He & Hl & Hr) Hx. exists l, (r ++ [x]). rewrite <- app_assoc. split_and!; try done.
  intros y [Hy|Hy]%elem_of_app; [by apply Hr|]. apply list_elem_of_singleton in Hy as ->. done.
Qed.

Lemma latest_last at_ es e :
  eligible at_ e → (∀ x, x ∈ es → memberId x = memberId e → eligible at_ x → addedAt x <= addedAt e) →
  latest at_ (memberId e) (es ++ [e]) e.
Proof. intros He Hx. exists es, []. split_and!; try done. intros x Hin. by apply elem_of_nil in Hin. Qed.

Lemma freeze_step_frozen at_ es m e :
  frozen_as at_ es m → frozen_as at_ (es ++ [e]) (freeze_step at_ m e).
Proof.
  intros [Hnd Hm]. unfold freeze_step.
  assert (Hskip : (∀ k, memberId e = k → eligible at_ e → ∃ e', map_get k m = Some e' ∧ addedAt e < addedAt e') →
                  frozen_as at_ (es ++ [e]) m).
  { intros Hsk. split; [done|]. intros k. specialize (Hm k). destruct (map_get k m) as [e'|] eqn:E.
    - apply latest_skip; [done|]. intros Hk He. destruct (Hsk k Hk He) as (e'' & ? & ?). congruence.
    - intros x [Hx|Hx]%elem_of_app; [by apply Hm|]. apply list_elem_of_singleton in Hx as ->. intros Hk He.
      destruct (Hsk k Hk He) as (? & ? & _). congruence. }
  assert (Hset : eligible at_ e → (∀ x, x ∈ es → memberId x = memberId e → eligible at_ x → addedAt x <= addedAt e) →
                 frozen_as at_ (es ++ [e]) (map_set (memberId e) e m)).
  { intros He Hle. split; [by apply map_set_NoDup|]. intros k. destruct (decide (memberId e = k)) as [<-|Hne].
    - rewrite map_get_set_eq. by apply latest_last.
    - rewrite map_get_set_ne by done. specialize (Hm k). destruct (map_get k m) as [e'|].
      + apply latest_skip; [done|]. done.
      + intros x [Hx|Hx]%elem_of_app; [by apply Hm|]. apply list_elem_of_singleton in Hx as ->. done. }
  destruct (String.eqb_spec (memberId e) "") as [Hid|Hid].
  { apply Hskip. intros k _ [? _]. done. }
  destruct (addedAt e >? at_) eqn:Hat.
  { apply Hskip. intros k _ [_ ?]. lia. }
  assert (He : eligible at_ e) by (split; [done|lia]).
  pose proof (Hm (memberId e)) as Hk. destruct (map_get (memberId e) m) as [old|] eqn:Eold.
  - destruct (addedAt e >=? addedAt old) eqn:Hge.
    + apply Hset; [done|]. intros x Hx Hmx Hex. destruct Hk as (l & r & -> & _ & _ & Hl & Hr).
      apply elem_of_app in Hx as [Hx|[->|Hx]%elem_of_cons]; [specialize (Hl x Hx Hmx Hex); lia|lia|].
      specialize (Hr x Hx Hmx Hex). lia.
    + apply Hskip. intros k <- _. exists old. split; [done|lia].
  - apply Hset; [done|]. intros x Hx Hmx Hex. by apply (Hk x Hx Hmx) in Hex.
Qed.

Lemma freeze_frozen at_ es : frozen_as at_ es (foldl (freeze_step at_) [] es).
Proof.
  induction es as [|e es IH] using rev_ind.
  - split; [constructor|]. intros k. simpl. intros x Hx. by apply elem_of_nil in Hx.
  - rewrite foldl_app. simpl. by apply freeze_step_frozen.
Qed.

(** ** Delegation chains *)

(** Each member of the chain delegates to the next, the last one to [final]. *)
Inductive delegates_along (ds : list Delegation) (pid : option string) : string → list string → string → Prop :=
| along_end m : delegates_along ds pid m [] m
| along_hop m d c final :
    next_hop ds pid m = Some d → delegates_along ds pid (delegate d) c final →
    delegates_along ds pid m (m :: c) final.

Lemma follow_spec ds pid n : ∀ visited m c final,
  follow ds pid n visited m = (c, final) →
  delegates_along ds pid m c final ∧ NoDup c ∧ (∀ x, x ∈ c → x ∉ visited) ∧ (length c <= n)%nat ∧
  (next_hop ds pid final = None ∨ final ∈ visited ∨ final ∈ c ∨ length c = n).
Proof.
  induction n as [|n IH]; intros visited m c final H; simpl in H.
  { injection H as <- <-. split_and!; [constructor|constructor|set_solver|done|by right; right; right]. }
  case_bool_decide as Hv.
  { injection H as <- <-. split_and!; [constructor|constructor|set_solver|simpl; lia|by right; left]. }
  destruct (next_hop ds pid m) as [d|] eqn:Hn.
  2: { injection H as <- <-. split_and!; [constructor|constructor|set_solver|simpl; lia|by left]. }
  destruct (follow _ _ _ _ _) as [c' final'] eqn:Hf. injection H as <- <-.
  apply IH in Hf as (Ha & Hnd & Hni & Hlen & Hend). split_and!.
  - by econstructor.
  - constructor; [|done]. intros Hin. apply Hni in Hin. set_solver.
  - intros x [->|Hx]%elem_of_cons; [done|]. apply Hni in Hx. set_solver.
  - simpl. lia.
  - destruct Hend as [?|[Hin|[?|?]]]; [by left| |by right; right; left; apply elem_of_cons; right|right; right; right; simpl; lia].
    apply elem_of_union in Hin as [->%elem_of_singleton|?]; [right; right; left; set_solver|by right; left].
Qed.

Lemma next_hop_active l dao t pid m d :
  next_hop (getActiveDelegations l dao t) pid m = Some d →
  d ∈ l ∧ is_active dao t d = true ∧ delegator d = m ∧ in_scope pid d = true.
Proof.
  unfold next_hop, getActiveDelegations. intros H. apply head_Some in H as [rest H].
  assert (Hin : In d (d :: rest)) by (by left). rewrite <- H in Hin.
  apply List.filter_In in Hin as [Hin Hs]. apply List.filter_In in Hin as [Hin Hm].
  apply List.filter_In in Hin as [Hin Ha]. apply list_elem_of_In in Hin. apply String.eqb_eq in Hm. done.
Qed.

(** ** Properties *)

Definition sha_id (s : string) : string := s.
Definition no_order (_ _ : string) : Z := 0.

(** A frozen snapshot verifies, holds each member once, and gives each member
    the weight of the latest of its entries not newer than the freeze (the last one
    listed among equally recent ones), or none when there is no such entry or the
    entry has lapsed. *)
Theorem frozen_snapshot_is_latest sha3_hex localeCompare dao es at_ clock s :
  freezeMembershipSnapshot sha3_hex localeCompare dao es (Some at_) clock = Ok s →
  verifyMembershipSnapshot sha3_hex localeCompare s = Ok true ∧ NoDup (entries s).*1 ∧ frozenAt s = at_ ∧
  ∀ m, (∃ e, latest at_ m es e ∧
             getMemberWeight s m at_ = if lapsed e at_ then num0 else weight e) ∨
       ((∀ x, x ∈ es → memberId x = m → ¬ eligible at_ x) ∧ getMemberWeight s m at_ = num0).
Proof.
  unfold freezeMembershipSnapshot. simpl. intros H.
  apply result_bind_Ok in H as (h & Hh & H). injection H as <-.
  destruct (freeze_frozen at_ es) as [Hnd Hf]. split_and!; [|done|done|].
  - unfold verifyMembershipSnapshot. cbn [daoId frozenAt entries hash]. rewrite Hh. simpl. by rewrite String.eqb_refl.
  - intros m. unfold getMemberWeight. simpl. specialize (Hf m). destruct (map_get m _) as [e|]; [left|right].
    + by exists e.
    + done.
Qed.

Definition frozen_sample : list MembershipEntry :=
  [mkMember "alice" "m" (of_Z 3) 1 "root" None; mkMember "alice" "m" (of_Z 5) 4 "root" None;
   mkMember "alice" "m" (of_Z 9) 12 "root" None].
Lemma frozen_snapshot_is_latest_witness :
  ∃ s, freezeMembershipSnapshot sha_id no_order "dao" frozen_sample (Some 10) 0 = Ok s ∧
    getMemberWeight s "alice" 10 = of_Z 5 ∧ verifyMembershipSnapshot sha_id no_order s = Ok true.
Proof.
  destruct (freezeMembershipSnapshot sha_id no_order "dao" frozen_sample (Some 10) 0) as [s|] eqn:E;
    [|vm_compute in E; discriminate E].
  exists s. split; [reflexivity|]. split.
  - assert (H : (λ s, getMemberWeight s "alice" 10) <$> freezeMembershipSnapshot sha_id no_order "dao" frozen_sample (Some 10) 0
                = Ok (of_Z 5)) by (vm_compute; reflexivity). rewrite E in H. injection H as H. exact H.
  - exact (proj1 (frozen_snapshot_is_latest sha_id no_order "dao" frozen_sample 10 0 s E)).
Defined.

(** Resolving a delegation walks along active delegations in scope, never
    visits a member twice, makes at most [maxDepth] hops, and ends at a voter who
    delegates no further, unless it closed a cycle or used up the depth. *)
Theorem delegation_resolves member dao s ds maxDepth pid clock :
  0 <= maxDepth →
  let active := getActiveDelegations ds dao clock in
  let r := resolveDelegation member dao s ds (Some maxDepth) pid clock in
  delegates_along active pid member (chain r) (finalVoter r) ∧ NoDup (chain r) ∧
  depth r = Z.of_nat (length (chain r)) ∧ depth r <= maxDepth ∧
  r_weight r = getMemberWeight s member clock ∧
  (next_hop active pid (finalVoter r) = None ∨ finalVoter r ∈ chain r ∨ depth r = maxDepth) ∧
  (∀ m d, next_hop active pid m = Some d →
     d ∈ ds ∧ is_active dao clock d = true ∧ delegator d = m ∧ in_scope pid d = true).
Proof.
  intros Hd active r. unfold r, resolveDelegation. simpl.
  destruct (follow _ _ _ _ _) as [c final] eqn:Hf. simpl.
  apply follow_spec in Hf as (Ha & Hnd & _ & Hlen & Hend). split_and!; try done.
  - lia.
  - destruct Hend as [?|[?|[?|?]]]; [by left|set_solver|by right; left|right; right; lia].
  - intros m d Hn. by eapply next_hop_active.
Qed.

Definition sample_delegations : list Delegation :=
  [mkDelegation "d1" "dao" "alice" "bob" num0 None None 0 None None;
   mkDelegation "d2" "dao" "bob" "carol" num0 (Some "p2"%string) None 0 None None;
   mkDelegation "d3" "dao" "bob" "dave" num0 (Some "all"%string) None 0 None None].
Lemma delegation_resolves_witness :
  let s := mkSnapshot "dao" 0 [] "" in
  finalVoter (resolveDelegation "alice" "dao" s sample_delegations (Some 5) (Some "p1"%string) 9) = "dave"%string ∧
  NoDup (chain (resolveDelegation "alice" "dao" s sample_delegations (Some 5) (Some "p1"%string) 9)).
Proof.
  split; [vm_compute; reflexivity|].
  apply (delegation_resolves "alice" "dao" (mkSnapshot "dao" 0 [] "") sample_delegations 5 (Some "p1"%string) 9). lia.
Defined.

(** A delegation restricted to another proposal, which [resolveDelegation] does not
    follow, still yields a delegated ballot. *)
Lemma scoped_delegation_votes_elsewhere :
  match freezeMembershipSnapshot sha_id no_order "dao" [mkMember "bob" "m" (of_Z 7) 1 "root" None] (Some 10) 0 with
  | Ok s =>
      let p := mkProposal "p1" "dao" "t" "d" [] "bob" active 10 20 120 0 None None None (hash s) in
      chain (resolveDelegation "bob" "dao" s [mkDelegation "d2" "dao" "bob" "carol" num0 (Some "p2"%string) None 0 None None]
               None (Some "p1"%string) 30) = [] ∧
      map v_weight <$> Vt.createDelegatedVote sha_id no_order p "carol"
        [mkDelegation "d2" "dao" "bob" "carol" num0 (Some "p2"%string) None 0 None None] s "yes" (Some 30) 30 = Ok [of_Z 7]
  | Err _ => False
  end.
Proof. vm_compute. split; reflexivity. Qed.

End GovSpec.
