(* ===== verification/MandatesSpec.v ===== *)
(** * What governed mandates and their use promise

    A mandate issued for an action of a passed proposal authorises that action and
    nothing else; execution needs the committed tally and the elapsed delay; the
    use store settles a reservation once, within its time, while reservation ids
    made in the same millisecond collide. *)

From Stdlib Require Import ZArith Lia QArith Ascii String.
From stdpp Require Import base sets list strings sorting.
From S2P Require Import Prelude JsBase JsText JsMap Canonical Authority AuthoritySpec Governance Mandates.

Module MdSpec.
Import Js JsText JsMap Gov Md.

(** ** Scopes without wildcards *)

Lemma literal_scope act scp :
  Forall (λ x, x ≠ "*"%string) (split_on ":" scp) → Auth.matchScope act scp = true → act = scp.
Proof.
  intros Hl. unfold Auth.matchScope. destruct (String.eqb_spec scp "*") as [->|]; [by inversion Hl|].
  destruct (String.eqb_spec act scp); [done|]. intros H%AuthSpec.match_parts_sound.
  apply (AuthSpec.expands_literal _ _ Hl) in H. by apply AuthSpec.split_on_inj in H.
Qed.

(** ** Equality constraints *)

Lemma matchConstraints_all a cs c :
  Auth.matchConstraints a cs = Ok true → c ∈ cs → Auth.match_constraint a c = Ok true.
Proof.
  induction cs as [|c' cs IH]; intros H Hin; [by apply elem_of_nil in Hin|]. simpl in H.
  apply result_bind_Ok in H as (b & Hb & H). destruct b; [|done].
  apply elem_of_cons in Hin as [->|Hin]; [done|by apply IH].
Qed.

Lemma eq_constraint_holds a f v :
  Auth.match_constraint a (eq_constraint f v) = Ok true → strict_eq (Auth.resolveActionField a f) v = true.
Proof.
  unfold Auth.match_constraint, eq_constraint. cbn [Auth.c_field Auth.c_operator Auth.c_value].
  destruct (Auth.is_undefined _); [done|]. simpl. by intros [= ->].
Qed.

(** The fields an action resolves by itself. *)
Definition own_fields : list string := ["action"; "principal"; "agent"; "target"; "nonce"]%string.

Lemma eq_constraint_own a f v :
  mem_string f own_fields = false → includes_char "." f = false →
  Auth.match_constraint a (eq_constraint f v) = Ok true →
  ∃ cs x, Auth.constraints a = Some cs ∧ get_own cs f = Some x ∧ strict_eq x v = true.
Proof.
  intros Hf Hdot H. pose proof (eq_constraint_holds a f v H) as Heq. revert H Heq.
  unfold Auth.match_constraint, eq_constraint. cbn [Auth.c_field Auth.c_operator Auth.c_value].
  unfold Auth.resolveActionField. unfold mem_string, own_fields in Hf. simpl in Hf.
  rewrite !orb_false_iff in Hf. destruct Hf as (-> & -> & -> & -> & -> & _).
  destruct (Auth.constraints a) as [cs|]; [|done]. destruct (get_own cs f) as [x|] eqn:E.
  - intros _ Heq. by exists cs, x.
  - by rewrite Hdot.
Qed.

Lemma strict_eq_str x s : strict_eq x (JStr s) = true → x = JStr s.
Proof. destruct x; simpl; try done. by intros ->%String.eqb_eq. Qed.

(** Object members of a payload match only the very same object. *)
Lemma object_payload_needs_identity a f i j fs fs' :
  i ≠ j → Auth.resolveActionField a f = JObj i fs →
  Auth.match_constraint a (eq_constraint f (JObj j fs')) = Ok false.
Proof.
  intros Hij Hr. unfold Auth.match_constraint, eq_constraint. cbn [Auth.c_field Auth.c_operator Auth.c_value].
  rewrite Hr. simpl. by destruct (Pos.eqb_spec i j).
Qed.

(** What an action must be to satisfy the mandate governing action [index] of a
    proposal. *)
Record bound_to (o : ProposalOutcome) (a : ProposalAction) (index : Z) (b : Binding) (act : Auth.ActionIntent) : Prop :=
  mkBound {
    bd_action : Auth.action act = "governance:" +:+ action_name (a_type a) +:+ ":execute";
    bd_target : ∀ t, a_target a = Some t → t ≠ ""%string → Auth.target act = Some t;
    bd_fields : ∃ cs n, Auth.constraints act = Some cs ∧
      get_own cs "proposalId" = Some (JStr (o_proposalId o)) ∧
      get_own cs "actionIndex" = Some (JNum n) ∧ num_eqb n (of_Z index) = true ∧
      get_own cs "actionType" = Some (JStr (action_name (a_type a))) ∧
      get_own cs "membershipSnapshotHash" = Some (JStr (b_snapshotHash b)) ∧
      get_own cs "voteTallyHash" = Some (JStr (b_tallyHash b)) ∧
      get_own cs "outcomeProofId" = Some (JStr (b_outcomeProofId b));
    bd_payload : ∀ k v, (k, v) ∈ payload a →
      strict_eq (Auth.resolveActionField act ("payload." +:+ k)) v = true }.

Lemma governed_scope a act :
  Auth.matchScope act ("governance:" +:+ action_name (a_type a) +:+ ":execute") = true →
  act = "governance:" +:+ action_name (a_type a) +:+ ":execute".
Proof. apply literal_scope. destruct (a_type a); repeat constructor; discriminate. Qed.

Lemma governed_constraints_bind o a index b act :
  Auth.matchScope (Auth.action act) ("governance:" +:+ action_name (a_type a) +:+ ":execute") = true →
  Auth.matchConstraints act (governed_constraints o a index b) = Ok true → bound_to o a index b act.
Proof.
  intros Hscope H.
  assert (Hc : ∀ c, c ∈ governed_constraints o a index b → Auth.match_constraint act c = Ok true)
    by (intros c; by apply matchConstraints_all).
  assert (Hown : ∀ f v, eq_constraint f v ∈ governed_constraints o a index b → mem_string f own_fields = false →
    includes_char "." f = false → ∃ cs x, Auth.constraints act = Some cs ∧ get_own cs f = Some x ∧ strict_eq x v = true).
  { intros f v Hin Hf Hd. apply eq_constraint_own; [done|done|]. by apply Hc. }
  constructor.
  - by apply governed_scope.
  - intros t Ht Hne. assert (Hin : eq_constraint "target" (JStr t) ∈ governed_constraints o a index b).
    { unfold governed_constraints. rewrite Ht. destruct (String.eqb_spec t ""); [done|]. set_solver. }
    specialize (Hc _ Hin). apply eq_constraint_holds in Hc.
    change (strict_eq (Auth.js_opt (Auth.target act)) (JStr t) = true) in Hc.
    destruct (Auth.target act) as [t'|]; [by apply String.eqb_eq in Hc as ->|discriminate Hc].
  - unfold governed_constraints in Hown.
    destruct (Hown "proposalId"%string (JStr (o_proposalId o))) as (cs & x & Hcs & H1 & E1%strict_eq_str); [set_solver|done|done|].
    destruct (Hown "actionIndex"%string (num index)) as (? & n & Hcs2 & H2 & E2); [set_solver|done|done|].
    destruct (Hown "actionType"%string (JStr (action_name (a_type a)))) as (? & ? & Hcs3 & H3 & E3%strict_eq_str); [set_solver|done|done|].
    destruct (Hown "membershipSnapshotHash"%string (JStr (b_snapshotHash b))) as (? & ? & Hcs4 & H4 & E4%strict_eq_str); [set_solver|done|done|].
    destruct (Hown "voteTallyHash"%string (JStr (b_tallyHash b))) as (? & ? & Hcs5 & H5 & E5%strict_eq_str); [set_solver|done|done|].
    destruct (Hown "outcomeProofId"%string (JStr (b_outcomeProofId b))) as (? & ? & Hcs6 & H6 & E6%strict_eq_str); [set_solver|done|done|].
    destruct n as [| | |n| | | | |]; try done. simplify_eq. exists cs, n. by split_and!.
  - intros k v Hkv. apply eq_constraint_holds, Hc. unfold governed_constraints.
    apply elem_of_app. right. apply elem_of_app. right. apply list_elem_of_fmap.
    exists (k, v). split; [done|]. by rewrite merge_sort_Permutation.
Qed.

(** ** Execution *)

Section execution.
Variable sha3_hex : string → string.

Lemma computeTallyHash_returns t : ∃ h, computeTallyHash sha3_hex t = Ok h.
Proof.
  assert (Hnum : ∀ n, ∃ s, Cj.stringify_leaf (JNum n) = Ok (Some s)) by (intros [q| |]; by eexists).
  unfold computeTallyHash, hashCanonical, Cj.domainHash. rewrite Cj.canonicalJson_obj. unfold Cj.member_pairs.
  destruct (Hnum (yes t)) as [s1 H1], (Hnum (no t)) as [s2 H2], (Hnum (abstain t)) as [s3 H3],
    (Hnum (totalWeight t)) as [s4 H4], (Hnum (quorumWeight t)) as [s5 H5], (Hnum (thresholdBps t)) as [s6 H6].
  cbn [result_mapM fst snd Cj.canonicalJson].
  rewrite H1, H2, H3, H4, H5, H6. by eexists.
Qed.

(** The [i]-th executable governs the [i]-th action. *)
Definition governs (o : ProposalOutcome) (gi ex pr : string) (b : Binding) (index : Z) (l : list ProposalAction)
    (xs : list ExecutableAction) : Prop :=
  length xs = length l ∧
  ∀ (i : nat) a, l !! i = Some a →
    ∃ m, xs !! i = Some (mkExecutable a (index + Z.of_nat i) m) ∧
         createGovernedMandate o a (index + Z.of_nat i) gi ex pr b = Ok m.

Lemma govern_actions_spec o gi ex pr b l : ∀ index,
  pr ≠ ""%string → ∃ xs, govern_actions o gi ex pr b index l = Ok xs ∧ governs o gi ex pr b index l xs.
Proof.
  induction l as [|a l IH]; intros index Hpr; simpl; [by exists []|].
  unfold createGovernedMandate at 1. destruct (String.eqb_spec pr ""); [done|]. simpl.
  destruct (IH (index + 1) Hpr) as (xs & -> & Hlen & Hxs). simpl. eexists. split; [done|]. split; [simpl; lia|].
  intros [|i] a' Ha; simpl in Ha |- *.
  - injection Ha as <-. rewrite Z.add_0_r. eexists. split; [done|]. unfold createGovernedMandate.
    by destruct (String.eqb_spec pr "").
  - destruct (Hxs i a' Ha) as (m & Hm & Hc). replace (index + 1 + Z.of_nat i) with (index + Z.of_nat (S i)) in * by lia.
    by exists m.
Qed.

(** The proposal passed, with this tally, and its delay is over. *)
Definition executable (p : Proposal) (t : VoteTally) (now : Z) : Prop :=
  status p = passed ∧ (∀ t', voteTally p = Some t' → computeTallyHash sha3_hex t' = computeTallyHash sha3_hex t) ∧
  votingEndsAt p + executionDelay p <= now.

Lemma executeProposal_cases p t opid gi ex pr now clock :
  (executable p t now →
     if String.eqb pr "" then ∃ msg, executeProposal sha3_hex p t opid gi ex pr now clock = Err (Thrown msg)
     else ∃ o h xs, executeProposal sha3_hex p t opid gi ex pr now clock = Ok xs ∧
            createOutcome sha3_hex p t gi None clock = Ok o ∧ computeTallyHash sha3_hex t = Ok h ∧
            governs o gi ex pr (mkBinding (membershipSnapshotHash p) h opid) 0 (actions p) xs) ∧
  (¬ executable p t now → executeProposal sha3_hex p t opid gi ex pr now clock = Ok []).
Proof.
  unfold executable, executeProposal. destruct (computeTallyHash_returns t) as [h Hh].
  destruct (bool_decide (status p = passed)) eqn:Hst; simpl; [apply bool_decide_eq_true in Hst
    |apply bool_decide_eq_false in Hst; split; [by intros (? & _)|done]].
  assert (Hsame : ∃ same, (match voteTally p with
      | Some t' => h' ← computeTallyHash sha3_hex t'; h ← computeTallyHash sha3_hex t; Ok (String.eqb h' h)
      | None => Ok true end) = (Ok same : result GovError bool) ∧
      (same = true ↔ ∀ t', voteTally p = Some t' → computeTallyHash sha3_hex t' = computeTallyHash sha3_hex t)).
  { destruct (voteTally p) as [t'|]; [|exists true; split; [done|naive_solver]].
    destruct (computeTallyHash_returns t') as [h' Hh']. rewrite Hh', Hh. simpl. exists (String.eqb h' h). split; [done|].
    rewrite String.eqb_eq. split; [intros -> ? [= <-]; by rewrite Hh'|]. intros H. specialize (H t' eq_refl). congruence. }
  destruct Hsame as (same & -> & Hiff). cbn [mbind result_bind].
  destruct same; simpl; [|split; [intros (_ & Hx & _); by apply Hiff in Hx|done]].
  destruct (now <? votingEndsAt p + executionDelay p) eqn:Hnow; [split; [intros (_ & _ & ?); lia|done]|].
  split; [|intros Hn; exfalso; apply Hn; split_and!; [done|by apply Hiff|lia]]. intros _.
  destruct (String.eqb_spec pr "") as [|Hpr]; [by eexists|]. simpl.
  unfold createOutcome. rewrite Hh. simpl.
  destruct (govern_actions_spec (mkOutcome (p_id p) (if t_passed t then passed else failed) h (t_passed t) clock gi None)
    gi ex pr (mkBinding (membershipSnapshotHash p) h opid) (actions p) 0 Hpr) as (xs & Hxs & Hg).
  do 3 eexists. by split_and!.
Qed.

End execution.

(** ** The use store *)

Inductive use_event :=
| Reserve (mandateProofId intentId : string) (ttlMs : option Z) (now : Z)
| Commit (id : string) (rp : ReceiptParams) (now : Z)
| Abort_ (id : string).

Definition use_step (st : UsageStore) (e : use_event) : UsageStore :=
  match e with
  | Reserve m i ttl now => (reserveMandateUse m i ttl now st).2
  | Commit id rp now => (commitMandateUse id rp now st).2
  | Abort_ id => (abortMandateUse id st).2
  end.

(** A reservation is made under a new id. *)
Definition fresh_id (st : UsageStore) (e : use_event) : Prop :=
  match e with
  | Reserve m i _ now => getReservation (reservation_id m i now) st = None
  | _ => True
  end.

Fixpoint fresh_run (st : UsageStore) (es : list use_event) : Prop :=
  match es with
  | [] => True
  | e :: es => fresh_id st e ∧ fresh_run (use_step st e) es
  end.

Definition settled (id : string) (st : UsageStore) : Prop :=
  ∃ r, getReservation id st = Some r ∧ ur_status r ≠ reserved.

Lemma map_get_fmap {A B} (f : A → B) k (m : list (string * A)) :
  map_get k (map (λ kv, (kv.1, f kv.2)) m) = f <$> map_get k m.
Proof. induction m as [|[k' v] m IH]; simpl; [done|]. by destruct (String.eqb k' k). Qed.

Lemma expire_settled now r : ur_status r ≠ reserved → expire now r = r.
Proof. intros H. unfold expire. by rewrite bool_decide_eq_false_2. Qed.

Lemma use_step_settled id r st e :
  getReservation id st = Some r → ur_status r ≠ reserved → fresh_id st e → getReservation id (use_step st e) = Some r.
Proof.
  unfold getReservation. intros Hr Hs Hf. destruct e as [m i ttl now|id' rp now|id']; simpl in *.
  - unfold reserveMandateUse, getReservation in *.
    assert (Hclean : map_get id (reservations (cleanExpired now st)) = Some r).
    { simpl. rewrite map_get_fmap, Hr. simpl. by rewrite expire_settled. }
    destruct (List.find _ _); [done|]. simpl. rewrite map_get_set_ne; [done|]. congruence.
  - unfold commitMandateUse. destruct (map_get id' (reservations st)) as [r'|] eqn:E; [|done].
    destruct (decide (ur_status r' = reserved)) as [Hr'|Hr'].
    + rewrite (bool_decide_eq_true_2 _ Hr'). simpl. assert (id' ≠ id) by congruence.
      destruct (now >? ur_expiresAt r'); simpl; by rewrite map_get_set_ne.
    + by rewrite (bool_decide_eq_false_2 _ Hr').
  - unfold abortMandateUse. destruct (map_get id' (reservations st)) as [r'|] eqn:E; [|done].
    destruct (decide (ur_status r' = reserved)) as [Hr'|Hr'].
    + rewrite (bool_decide_eq_true_2 _ Hr'). simpl. rewrite map_get_set_ne; [done|]. congruence.
    + by rewrite (bool_decide_eq_false_2 _ Hr').
Qed.

Lemma use_run_settled id r es : ∀ st,
  getReservation id st = Some r → ur_status r ≠ reserved → fresh_run st es →
  getReservation id (foldl use_step st es) = Some r.
Proof.
  induction es as [|e es IH]; intros st Hr Hs Hf; simpl; [done|]. destruct Hf as [Hf Hrun].
  apply IH; [by apply use_step_settled|done|done].
Qed.

Lemma settled_refuses id r st rp now :
  getReservation id st = Some r → ur_status r ≠ reserved →
  (∃ why, commitMandateUse id rp now st = (inr why, st)) ∧ abortMandateUse id st = (false, st).
Proof.
  unfold getReservation, commitMandateUse, abortMandateUse. intros -> Hs. rewrite (bool_decide_eq_false_2 _ Hs). simpl.
  split; [by eexists|done].
Qed.

(** A first reservation from an empty store is stored under its id. *)
Lemma reserve_first m i ttl now :
  reserveMandateUse m i ttl now new_store =
  (let r := mkReservation (reservation_id m i now) m i now (now + default DEFAULT_RESERVATION_TTL_MS ttl) reserved in
   (r, mkStore [(reservation_id m i now, r)] [])).
Proof. done. Qed.

(** ** Concrete inputs *)

Definition sha_id (s : string) : string := s.

(** Proofs that carry their mandate and verify. *)
#[local] Instance sample_verifier : Auth.Verifier := {|
  Auth.SignedProof := Auth.MandateBody;
  Auth.IdentityGraph := string;
  Auth.proofId := Auth.grantor;
  Auth.payload_schema := λ _, Some Auth.MANDATE_SCHEMA;
  Auth.payload_mandate := Some;
  Auth.verifyProof := λ m _ _, Auth.mkVerify true None None (Some (Auth.grantor m));
  Auth.document_id := λ g, g;
  Auth.resolveIdentityGraph := λ g, Some (Auth.mkResolved Auth.active g g []) |}.

Definition sample_action : ProposalAction :=
  mkAction treasury_spend (Some "0xshop"%string) [("amount", JStr "40")]%string "pay the shop".
Definition sample_outcome : ProposalOutcome := mkOutcome "p1" passed "tally" true 100 "dao" None.
Definition sample_binding : Binding := mkBinding "snap" "tally" "outcome".
Definition sample_mandate : Auth.MandateBody :=
  Auth.mkMandate "dao" "bot" "dao" "governance:treasury_spend:execute"
    (Some (governed_constraints sample_outcome sample_action 0 sample_binding))
    (Some (Auth.mkLimit (Some 1) None None)) 100 None None.
Definition sample_intent : Auth.ActionIntent :=
  Auth.mkAction "governance:treasury_spend:execute" "dao" "bot" (Some "0xshop"%string)
    (Some [("proposalId", JStr "p1"); ("actionIndex", num 0); ("actionType", JStr "treasury_spend");
           ("membershipSnapshotHash", JStr "snap"); ("voteTallyHash", JStr "tally");
           ("outcomeProofId", JStr "outcome"); ("payload.amount", JStr "40")]%string) None.
Definition sample_request : Auth.EvaluateAuthorityParams :=
  Auth.mkParams sample_intent sample_mandate Some (Auth.mkSnapshot "" 0 None None None) None None 200 None None.

(** ** Properties *)

(** C40. Whatever the authority engine allows under a governed mandate is the
    governed action itself: its type in the action string, its executor, principal
    and target, its place in the proposal, the tally, snapshot and outcome that
    approved it, and every member of its payload. *)
Theorem governed_mandate_binds_the_action `{Auth.Verifier} sha3_hex p d delta o a index gi ex pr b m :
  createGovernedMandate o a index gi ex pr b = Ok m →
  Auth.payload_mandate (Auth.p_mandate p) = Some m →
  Auth.evaluateAuthority sha3_hex p = Ok (d, delta) → Auth.allowed d = true →
  bound_to o a index b (Auth.p_action p) ∧ Auth.agent (Auth.p_action p) = ex ∧
  Auth.principal (Auth.p_action p) = pr ∧
  Auth.totalCount (Auth.p_usageSnapshot p) + 1 <= 1.
Proof.
  intros Hm Hpm Hev Hal. destruct (AuthSpec.evaluate_allowed _ _ _ _ Hev) as (_ & Hiff & _).
  apply Hiff in Hal as (m' & Hpm' & _ & Ha & Hp & Hscope & Hcs & Hlim). rewrite Hpm in Hpm'. injection Hpm' as <-.
  unfold createGovernedMandate in Hm. apply result_bind_Ok in Hm as ([] & _ & Hm). injection Hm as <-.
  cbn [Auth.scope Auth.m_constraints Auth.grantee Auth.m_principal Auth.usageLimit default] in *.
  split_and!; [by apply governed_constraints_bind|done|done|].
  specialize (Hlim _ eq_refl). unfold Auth.checkUsageLimit in Hlim. cbn in Hlim.
  destruct (Auth.totalCount _ + 1 >? 1) eqn:E; [done|]. lia.
Qed.

Lemma sample_mandate_created :
  createGovernedMandate sample_outcome sample_action 0 "dao" "bot" "dao" sample_binding = Ok sample_mandate.
Proof. reflexivity. Qed.
Lemma sample_allowed : (Auth.allowed ∘ fst) <$> Auth.evaluateAuthority sha_id sample_request = Ok true.
Proof. vm_compute. reflexivity. Qed.

Lemma governed_mandate_binds_the_action_witness :
  bound_to sample_outcome sample_action 0 sample_binding (Auth.p_action sample_request).
Proof.
  pose proof sample_allowed as Hrun.
  pose proof (λ d delta, governed_mandate_binds_the_action sha_id sample_request d delta sample_outcome
    sample_action 0 "dao" "bot" "dao" sample_binding sample_mandate sample_mandate_created eq_refl) as H.
  revert Hrun H. generalize (Auth.evaluateAuthority sha_id sample_request).
  intros [[d delta]|e] Hrun H; [|discriminate Hrun]. injection Hrun as Ha.
  exact (proj1 (H d delta eq_refl Ha)).
Defined.

(** Executing a proposal yields mandates exactly when it passed, the tally is
    the one committed on it, and its delay is over: then one mandate per action, in
    order, each governing its action under the proposal's snapshot and tally hashes;
    otherwise none. *)
Theorem execution_needs_a_passed_proposal sha3_hex p t opid gi ex pr now clock :
  pr ≠ ""%string →
  (executable sha3_hex p t now →
     ∃ o h xs, executeProposal sha3_hex p t opid gi ex pr now clock = Ok xs ∧
       createOutcome sha3_hex p t gi None clock = Ok o ∧ computeTallyHash sha3_hex t = Ok h ∧
       governs o gi ex pr (mkBinding (membershipSnapshotHash p) h opid) 0 (actions p) xs) ∧
  (¬ executable sha3_hex p t now → executeProposal sha3_hex p t opid gi ex pr now clock = Ok []).
Proof.
  intros Hpr. destruct (executeProposal_cases sha3_hex p t opid gi ex pr now clock) as [Hyes Hno].
  split; [|exact Hno]. destruct (String.eqb_spec pr ""); [done|exact Hyes].
Qed.

Definition sample_tally : VoteTally :=
  mkTally "p1" (of_Z 1) (of_Z 0) (of_Z 0) (of_Z 1) (of_Z 1) true true (of_Z 5000) linear.
Definition sample_proposal : Proposal :=
  mkProposal "p1" "dao" "t" "d" [sample_action] "alice" passed 1 2 90 10 None None (Some sample_tally) "snap".
Lemma execution_needs_a_passed_proposal_witness :
  ∃ xs, executeProposal sha_id sample_proposal sample_tally "outcome" "dao" "bot" "dao" 100 100 = Ok xs ∧ length xs = 1%nat.
Proof.
  destruct (execution_needs_a_passed_proposal sha_id sample_proposal sample_tally "outcome" "dao" "bot" "dao" 100 100
    ltac:(discriminate)) as [H _].
  destruct H as (o & h & xs & Hx & _ & _ & Hlen & _).
  - split; [reflexivity|]. split; [intros t' Ht; injection Ht as <-; reflexivity|vm_compute; discriminate].
  - exists xs. split; [exact Hx|exact Hlen].
Defined.

(** A reservation settles once: as long as new reservations get new ids, one
    that was committed or aborted keeps its record whatever happens later, and every
    later commit or abort of it is refused without effect. *)
Theorem reservation_settles_once st id r es :
  getReservation id st = Some r → ur_status r ≠ reserved → fresh_run st es →
  let st' := foldl use_step st es in
  getReservation id st' = Some r ∧
  (∀ rp now, ∃ why, commitMandateUse id rp now st' = (inr why, st')) ∧ abortMandateUse id st' = (false, st').
Proof.
  intros Hr Hs Hf st'. pose proof (use_run_settled id r es st Hr Hs Hf) as Hr'. fold st' in Hr'.
  split; [done|]. split.
  - intros rp now. exact (proj1 (settled_refuses id r st' rp now Hr' Hs)).
  - exact (proj2 (settled_refuses id r st' (mkReceiptParams "" 0 custom None) 0 Hr' Hs)).
Qed.

Definition sample_use : UsageStore :=
  let '(r, st) := reserveMandateUse "m1" "i1" None 1000 new_store in
  (commitMandateUse (ur_id r) (mkReceiptParams "p1" 0 custom None) 1001 st).2.
Lemma reservation_settles_once_witness :
  ∃ r, getReservation (reservation_id "m1" "i1" 1000) sample_use = Some r ∧ ur_status r = committed ∧
    abortMandateUse (reservation_id "m1" "i1" 1000) (use_step sample_use (Reserve "m1" "i1" None 2000))
    = (false, use_step sample_use (Reserve "m1" "i1" None 2000)).
Proof.
  eexists. split; [vm_compute; reflexivity|]. split; [reflexivity|].
  eapply (reservation_settles_once sample_use (reservation_id "m1" "i1" 1000) _ [Reserve "m1" "i1" None 2000]);
    [vm_compute; reflexivity|discriminate|split; [vm_compute; reflexivity|exact I]].
Defined.

(** Reservation ids collide: two uses of different mandates or intents reserved
    in the same millisecond share an id, because ids keep only the constant prefix
    of proof and intent ids, and the second replaces the first in the store. *)
Theorem reservations_of_one_millisecond_collide x y x' y' now :
  (x, y) ≠ (x', y') →
  let m := "totem:proof:" +:+ x in
  let m' := "totem:proof:" +:+ x' in
  let i := "totem:intent:" +:+ y in
  let i' := "totem:intent:" +:+ y' in
  let '(r, st) := reserveMandateUse m i None now new_store in
  let '(r', st') := reserveMandateUse m' i' None now st in
  ur_id r = ur_id r' ∧ (ur_mandateProofId r, ur_intentId r) ≠ (ur_mandateProofId r', ur_intentId r') ∧
  reservations st' = [(ur_id r, r')].
Proof.
  intros Hne m m' i i'. rewrite reserve_first. cbv zeta.
  assert (Hid : reservation_id m' i' now = reservation_id m i now) by reflexivity.
  unfold reserveMandateUse. rewrite Hid.
  assert (Hdiff : (m, i) ≠ (m', i')).
  { intros [H1 H2]%pair_equal_spec. apply Hne. apply app_inj_head in H1, H2. by rewrite H1, H2. }
  assert (Hclean : cleanExpired now (mkStore [(reservation_id m i now, mkReservation (reservation_id m i now) m i now
      (now + default DEFAULT_RESERVATION_TTL_MS None) reserved)] [])
    = mkStore [(reservation_id m i now, mkReservation (reservation_id m i now) m i now
      (now + default DEFAULT_RESERVATION_TTL_MS None) reserved)] []).
  { unfold cleanExpired, expire, DEFAULT_RESERVATION_TTL_MS. cbn [map reservations receipts ur_status ur_expiresAt default from_option id fst snd].
    rewrite bool_decide_eq_true_2 by done. by replace (now >? now + 60000) with false by lia. }
  rewrite Hclean. cbn [map reservations List.find snd].
  assert (is_reservation_of m' i' (mkReservation (reservation_id m i now) m i now
    (now + default DEFAULT_RESERVATION_TTL_MS None) reserved) = false) as ->.
  { unfold is_reservation_of. cbn [ur_mandateProofId ur_intentId ur_status].
    destruct (String.eqb_spec m m') as [->|]; [|done]. destruct (String.eqb_spec i i') as [->|]; [|done]. by destruct Hdiff. }
  cbn [map_set reservations]. rewrite String.eqb_refl. by split_and!.
Qed.

Lemma reservations_of_one_millisecond_collide_witness :
  let '(r, st) := reserveMandateUse "totem:proof:aa" "totem:intent:bb" None 5 new_store in
  let '(r', st') := reserveMandateUse "totem:proof:cc" "totem:intent:dd" None 5 st in
  ur_id r = ur_id r' ∧ (ur_mandateProofId r, ur_intentId r) ≠ (ur_mandateProofId r', ur_intentId r') ∧
  reservations st' = [(ur_id r, r')].
Proof. apply (reservations_of_one_millisecond_collide "aa" "bb" "cc" "dd" 5). discriminate. Defined.

End MdSpec.
