(* ===== verification/Guards.v ===== *)
(** * Omnia: signing guards, capacity, confirmations (packages/omnia/src guards.ts, capacity.ts, chain-truth.ts)

    The process-wide memory that decides whether a channel update may be signed:
    the last accepted (sequence, payload) per channel, the sequences that have
    already produced a signature, and the bound on one-time keys. *)

From Stdlib Require Import ZArith Lia QArith Ascii String.
From stdpp Require Import base gmap list strings.
From S2P Require Import Prelude JsBase JsText.

Module Gd.
Import Js.

(** ** errors.ts *)

Inductive OmniaError :=
| ChannelCapacityError (used capacity : Z)
| DoubleSignError (sequence : Z)
| BalanceConservationError (expected got : Z)
| SequenceError (current proposed : Z)
| SigningIndexMonotonicityError (partyId : string) (flatIndex previousFlatIndex : Z)
| ChannelStatusError (expected actual : string)
| Plain (message : string)
| External (message : string).

(** ** capacity.ts *)

Definition WOTS_CAPACITY_TOTAL : Z := 4096.
(** [Math.floor(WOTS_CAPACITY_TOTAL * literal)] *)
Definition floor_share (literal : Q) : Z :=
  default 0 (num_integer (num_floor (num_mul (of_Z WOTS_CAPACITY_TOTAL) (to_binary64 literal)))).
Definition CAPACITY_WARNING_APPROACHING : Z := floor_share (75 # 100).
Definition CAPACITY_WARNING_CRITICAL : Z := floor_share (90 # 100).
Definition CAPACITY_NEAR_EXHAUSTION : Z := floor_share (95 # 100).

Inductive CapacityWarning := approaching | critical.

(** The warning and [nearExhaustion]. *)
Definition assessCapacity (used : Z) : result OmniaError (option CapacityWarning * bool) :=
  if used >=? WOTS_CAPACITY_TOTAL then Err (ChannelCapacityError used WOTS_CAPACITY_TOTAL)
  else if used >=? CAPACITY_NEAR_EXHAUSTION then Ok (Some critical, true)
  else if used >=? CAPACITY_WARNING_CRITICAL then Ok (Some critical, false)
  else if used >=? CAPACITY_WARNING_APPROACHING then Ok (Some approaching, false)
  else Ok (None, false).

Definition flatSigningIndex (l1 l2 : Z) : Z := l1 * 64 + l2.

(** ** guards.ts *)

Record Proposal := mkProposal { pr_sequence : Z; pr_payloadHash : string }.

Record Guards := mkGuards {
  channelWatermarks : list (string * Proposal);
  sealedWatermarks : gset string }.

Definition sealKey (channelId : string) (sequence : Z) : string :=
  channelId +:+ ":" +:+ num_to_string (of_Z sequence).

(** The two checks against a recorded proposal. *)
Definition check_against (w : option Proposal) (newSequence : Z) (payloadHash : string) : result OmniaError unit :=
  match w with
  | None => Ok tt
  | Some w =>
      _ ← throw_if (pr_sequence w >? newSequence) (SequenceError (pr_sequence w) newSequence);
      throw_if ((pr_sequence w =? newSequence) && negb (String.eqb (pr_payloadHash w) payloadHash))
        (DoubleSignError newSequence)
  end.

Notation Guarded := (M Guards OmniaError).

(** [true] is ['CAPACITY_NEAR_EXHAUSTION'], [false] is [null]. *)
Definition enforceUpdateGuards (channelId : string) (newSequence : Z) (payloadHash : string)
    (pendingProposal : option Proposal) : Guarded bool :=
  cap ← mlift (assessCapacity (newSequence * 2));
  g ← mget;
  _ ← mlift (check_against (map_get channelId (channelWatermarks g)) newSequence payloadHash);
  _ ← mlift (check_against pendingProposal newSequence payloadHash);
  if snd (cap : option CapacityWarning * bool) then mret true else
  _ ← mmodify (λ g, mkGuards (map_set channelId (mkProposal newSequence payloadHash) (channelWatermarks g))
                      (sealedWatermarks g));
  mret false.

Definition sealUpdateGuard (channelId : string) (sequence : Z) : Guarded unit :=
  mmodify (λ g, mkGuards (channelWatermarks g) ({[sealKey channelId sequence]} ∪ sealedWatermarks g)).

Definition releaseUpdateGuard (channelId : string) (sequence : Z) (payloadHash : string) : Guarded unit :=
  mmodify (λ g,
    if bool_decide (sealKey channelId sequence ∈ sealedWatermarks g) then g else
    match map_get channelId (channelWatermarks g) with
    | Some w => if (pr_sequence w =? sequence) && String.eqb (pr_payloadHash w) payloadHash
                then mkGuards (map_delete channelId (channelWatermarks g)) (sealedWatermarks g) else g
    | None => g
    end).

Definition resetChannelWatermarks : Guarded unit := mput (mkGuards [] ∅).

(** ** chain-truth.ts *)

(** The [created] member of a coin: absent, or a string or number. *)
Definition coinCreatedBlock (created : option jsval) : option Z :=
  match created with
  | None | Some JUndef | Some JNull => None
  | Some v =>
      match num_integer (to_number v) with
      | Some z => if is_safe_integer z && (0 <=? z) then Some z else None
      | None => None
      end
  end.

Definition confirmationsAt (created : option jsval) (tipBlock : Z) : option Z :=
  match coinCreatedBlock created with
  | None => None
  | Some c => if negb (is_safe_integer tipBlock) || (c >? tipBlock) then None else Some (tipBlock - c)
  end.

Definition ELTOO_CONTEST_DELAY_BLOCKS : Z := 256.
Definition channelContestDelay (contestDelayBlocks : option Z) : Z :=
  match contestDelayBlocks with
  | Some d => if is_safe_integer d && (0 <=? d) then d else ELTOO_CONTEST_DELAY_BLOCKS
  | None => ELTOO_CONTEST_DELAY_BLOCKS
  end.

End Gd.
