(* ===== verification/GuardsSpec.v ===== *)
(** * Omnia: what the signing guards promise

    Histories of guard calls over the process-wide maps of guards.ts: an accepted
    update fixes the payload of its sequence until its entry is released, and
    the release of a later sequence forgets the sealed ones before it. *)

From Stdlib Require Import ZArith Lia QArith Ascii String.
From stdpp Require Import base gmap list strings.
From S2P Require Import Prelude JsBase JsText JsMap Guards.

Module GdSpec.
Import Js JsText JsMap Gd.

#[export] Instance Proposal_eq_dec : EqDecision Proposal.
Proof. solve_decision. Defined.

(** ** Histories *)

Inductive call :=
| Enforce (channelId : string) (sequence : Z) (payload : string) (pending : option Proposal)
| Seal (channelId : string) (sequence : Z)
| Release (channelId : string) (sequence : Z) (payload : string).

Inductive event :=
| Accepted (channelId : string) (sequence : Z) (payload : string)
| Near_exhaustion
| Refused (e : OmniaError)
| Sealed (channelId : string) (sequence : Z)
| Released (channelId : string) (forgot : bool).

(** The watermark of the channel. *)
Definition mark (c : string) (g : Guards) : option Proposal := map_get c (channelWatermarks g).

Definition exec (k : call) (g : Guards) : event * Guards :=
  match k with
  | Enforce c n p w =>
      match enforceUpdateGuards c n p w g with
      | (Ok false, g') => (Accepted c n p, g')
      | (Ok true, g') => (Near_exhaustion, g')
      | (Err e, g') => (Refused e, g')
      end
  | Seal c n => (Sealed c n, (sealUpdateGuard c n g).2)
  | Release c n p =>
      let g' := (releaseUpdateGuard c n p g).2 in
      (Released c (bool_decide (mark c g ≠ mark c g')), g')
  end.

Fixpoint run (ks : list call) (g : Guards) : list event :=
  match ks with
  | [] => []
  | k :: ks => (exec k g).1 :: run ks (exec k g).2
  end.

Definition fresh : Guards := mkGuards [] ∅.

(** ** One call *)

Lemma check_against_Ok w n p :
  check_against w n p = Ok tt ↔
  match w with None => True | Some w => pr_sequence w <= n ∧ (pr_sequence w = n → pr_payloadHash w = p) end.
Proof.
  destruct w as [w|]; [|done]. unfold check_against, throw_if. simpl.
  destruct (pr_sequence w >? n) eqn:E1; simpl; [split; [done | lia]|].
  destruct (Z.eqb_spec (pr_sequence w) n), (String.eqb_spec (pr_payloadHash w) p); simpl;
    split; intros H; try done; try (split; [lia | done]); naive_solver.
Qed.

Lemma assessCapacity_Ok used a b :
  assessCapacity used = Ok (a, b) → used < 4096 ∧ (b = false → used < 3891).
Proof.
  unfold assessCapacity.
  replace CAPACITY_NEAR_EXHAUSTION with 3891 by (vm_compute; reflexivity).
  replace CAPACITY_WARNING_CRITICAL with 3686 by (vm_compute; reflexivity).
  replace CAPACITY_WARNING_APPROACHING with 3072 by (vm_compute; reflexivity).
  unfold WOTS_CAPACITY_TOTAL. intros H. split_guards; split; intros; try lia; done.
Qed.

(** What an accepted update says about the watermark, before and after. *)
Lemma enforce_accepted c n p w g g' :
  enforceUpdateGuards c n p w g = (Ok false, g') →
  2 * n < 3891 ∧
  check_against (mark c g) n p = Ok tt ∧ check_against w n p = Ok tt ∧
  g' = mkGuards (map_set c (mkProposal n p) (channelWatermarks g)) (sealedWatermarks g).
Proof.
  unfold enforceUpdateGuards, mlift, mget, mbind, M_bind, mret, M_ret, mmodify, mark.
  destruct (assessCapacity (n * 2)) as [[a b]|] eqn:Ea; [|done].
  destruct (check_against (map_get c (channelWatermarks g)) n p) as [[]|] eqn:E1; [|done].
  destruct (check_against w n p) as [[]|] eqn:E2; [|done].
  destruct b; simpl; [done|]. intros [= <-].
  apply assessCapacity_Ok in Ea. destruct Ea as [_ Ea]. specialize (Ea eq_refl).
  split; [lia | done].
Qed.

Lemma enforce_other c n p w g b g' :
  enforceUpdateGuards c n p w g = (b, g') → b ≠ Ok false → g' = g.
Proof.
  unfold enforceUpdateGuards, mlift, mget, mbind, M_bind, mret, M_ret, mmodify.
  destruct (assessCapacity (n * 2)) as [[a x]|]; [|intros; by simplify_eq].
  destruct (check_against (map_get c (channelWatermarks g)) n p); [|intros; by simplify_eq].
  destruct (check_against w n p); [|intros; by simplify_eq].
  destruct x; simpl; intros; by simplify_eq.
Qed.

(** ** The watermark along a history *)

(** [fixed n p w]: the watermark [w] still refuses another payload at [n]. *)
Definition fixed (n : Z) (p : string) (w : option Proposal) : Prop :=
  ∃ v, w = Some v ∧ n <= pr_sequence v ∧ (n = pr_sequence v → p = pr_payloadHash v).

Lemma exec_fixed k g c n p :
  fixed n p (mark c g) → (exec k g).1 ≠ Released c true → fixed n p (mark c (exec k g).2).
Proof.
  intros (v & Hv & Hn & Hp) Hk. destruct k as [c' m q w | c' m | c' m q]; simpl in *.
  - destruct (enforceUpdateGuards c' m q w g) as [[[]|e] g'] eqn:E; simpl;
      try (apply enforce_other in E as ->; [by exists v | done]).
    apply enforce_accepted in E as (_ & Hc & _ & ->). unfold mark in *; simpl.
    destruct (decide (c' = c)) as [->|Hne].
    + rewrite map_get_set_eq. rewrite Hv in Hc. apply check_against_Ok in Hc as [Hle Heq].
      exists (mkProposal m q). split; [done|]. simpl. split; [lia|]. intros ->.
      transitivity (pr_payloadHash v); [apply Hp; lia | apply Heq; lia].
    + rewrite map_get_set_ne by done. by exists v.
  - exists v. done.
  - unfold releaseUpdateGuard, mmodify, mark in *; simpl in *.
    destruct (bool_decide (sealKey c' m ∈ sealedWatermarks g)); [by exists v|].
    destruct (map_get c' (channelWatermarks g)) as [w|] eqn:Ew; [|by exists v].
    destruct ((pr_sequence w =? m) && String.eqb (pr_payloadHash w) q) eqn:Eq; [|by exists v].
    simpl in *. destruct (decide (c' = c)) as [->|Hne].
    + destruct (decide (map_get c (map_delete c (channelWatermarks g)) = Some v)) as [E|E]; [by exists v|].
      exfalso. apply Hk. rewrite bool_decide_true; congruence.
    + rewrite map_get_delete_ne by done. by exists v.
Qed.

(** The state in which the [i]th call of a history runs. *)
Fixpoint before (ks : list call) (i : nat) (g : Guards) : Guards :=
  match i, ks with
  | S i, k :: ks => before ks i (exec k g).2
  | _, _ => g
  end.

Lemma run_lookup ks i g e :
  run ks g !! i = Some e → ∃ k, ks !! i = Some k ∧ (exec k (before ks i g)).1 = e.
Proof.
  revert i g; induction ks as [|k ks IH]; intros [|i] g H; simpl in *; try done.
  - injection H as <-. by exists k.
  - by apply IH.
Qed.

Lemma run_lookup_2 ks i g k :
  ks !! i = Some k → run ks g !! i = Some (exec k (before ks i g)).1.
Proof.
  revert i g; induction ks as [|k' ks IH]; intros [|i] g H; simpl in *; try done.
  - by injection H as ->.
  - by apply IH.
Qed.

Lemma before_S ks i g k : ks !! i = Some k → before ks (S i) g = (exec k (before ks i g)).2.
Proof.
  revert i g; induction ks as [|k' ks IH]; intros [|i] g H; simpl in *; try done.
  - injection H as ->. by destruct ks.
  - by apply IH.
Qed.

Lemma exec_accepted k g c n p :
  (exec k g).1 = Accepted c n p →
  2 * n < 3891 ∧ check_against (mark c g) n p = Ok tt ∧ fixed n p (mark c (exec k g).2).
Proof.
  destruct k as [c' m q w | |]; simpl; try done.
  destruct (enforceUpdateGuards c' m q w g) as [[[]|e] g'] eqn:E; simpl; try done.
  intros [= -> -> ->]. apply enforce_accepted in E as (? & ? & _ & ->). split_and!; try done.
  unfold mark; simpl. rewrite map_get_set_eq. by eexists.
Qed.

Lemma fixed_between ks g c n p i j :
  (i < j)%nat → (j <= length ks)%nat →
  fixed n p (mark c (before ks (S i) g)) →
  (∀ k, (i < k < j)%nat → run ks g !! k ≠ Some (Released c true)) →
  fixed n p (mark c (before ks j g)).
Proof.
  intros Hij Hlen Hi Hk. induction j as [|j IH]; [lia|].
  destruct (decide (i = j)) as [->|]; [done|].
  destruct (lookup_lt_is_Some_2 ks j) as [x Hx]; [lia|].
  rewrite (before_S _ _ _ x) by done. apply exec_fixed.
  - apply IH; [lia | lia |]. intros k Hk'. apply Hk. lia.
  - intros He. apply (Hk j); [lia|]. rewrite (run_lookup_2 _ _ _ x) by done. by rewrite He.
Qed.

(** C28. No double signing in one process: along every history of guard calls on
    all channels, two accepted updates of a channel with no release of its
    entry between them come in order of sequence, have the same payload when
    they have the same sequence, and each leaves the two leaves per state
    below the near-exhaustion bound of the 4096. *)
Theorem accepted_updates_never_fork ks g i j c n p m q :
  (i < j)%nat →
  run ks g !! i = Some (Accepted c n p) → run ks g !! j = Some (Accepted c m q) →
  (∀ k, (i < k < j)%nat → run ks g !! k ≠ Some (Released c true)) →
  n <= m ∧ (n = m → p = q) ∧ 2 * m < 3891.
Proof.
  intros Hij Hi Hj Hk.
  apply run_lookup in Hi as (x & Hx & Hi). apply run_lookup in Hj as (y & Hy & Hj).
  apply exec_accepted in Hi as (_ & _ & Hi). apply exec_accepted in Hj as (Hm & Hc & _).
  rewrite <- (before_S _ _ _ x) in Hi by done.
  apply lookup_lt_Some in Hy.
  destruct (fixed_between ks g c n p i j) as (v & Hv & Hn & Hp); [lia | lia | done | done |].
  rewrite Hv in Hc. apply check_against_Ok in Hc as [Hle Heq].
  split; [lia|]. split; [|done]. intros ->. rewrite (Hp ltac:(lia)). apply Heq. lia.
Qed.

Lemma accepted_updates_never_fork_witness :
  let ks := [Enforce "0xa" 7 "P" None; Seal "0xa" 7; Enforce "0xb" 2 "Q" None;
             Release "0xa" 7 "P"; Enforce "0xa" 7 "R" None; Enforce "0xa" 7 "P" None] in
  run ks fresh !! 4%nat = Some (Refused (DoubleSignError 7)) ∧
  (7 <= 7 ∧ (7 = 7 → "P" = "P") ∧ 2 * 7 < 3891).
Proof.
  split; [vm_compute; reflexivity|].
  apply (accepted_updates_never_fork
    [Enforce "0xa" 7 "P" None; Seal "0xa" 7; Enforce "0xb" 2 "Q" None;
     Release "0xa" 7 "P"; Enforce "0xa" 7 "R" None; Enforce "0xa" 7 "P" None] fresh 0 5 "0xa");
    [lia | vm_compute; reflexivity | vm_compute; reflexivity |].
  intros [|[|[|[|[|k] ] ] ] ] Hk; try lia; vm_compute; intros; discriminate.
Defined.

(** ** Releasing a later sequence *)

Lemma sealKey_inj c m n :
  0 <= m <= MAX_SAFE_INTEGER → 0 <= n <= MAX_SAFE_INTEGER → sealKey c m = sealKey c n → m = n.
Proof.
  intros Hm Hn H. unfold sealKey in H. apply app_inj_head, app_inj_head in H.
  rewrite !num_to_string_of_Z in H by done. apply dec_inj in H; lia.
Qed.

Lemma assessCapacity_below used : used < 3072 → assessCapacity used = Ok (None, false).
Proof.
  intros H. unfold assessCapacity.
  replace CAPACITY_NEAR_EXHAUSTION with 3891 by (vm_compute; reflexivity).
  replace CAPACITY_WARNING_CRITICAL with 3686 by (vm_compute; reflexivity).
  replace CAPACITY_WARNING_APPROACHING with 3072 by (vm_compute; reflexivity).
  unfold WOTS_CAPACITY_TOTAL. split_guards; try done; lia.
Qed.

Lemma enforce_below c n p w g :
  2 * n < 3072 → check_against (mark c g) n p = Ok tt →
  enforceUpdateGuards c n p w g =
  match check_against w n p with
  | Ok _ => (Ok false, mkGuards (map_set c (mkProposal n p) (channelWatermarks g)) (sealedWatermarks g))
  | Err e => (Err e, g)
  end.
Proof.
  intros Hn Hc. unfold enforceUpdateGuards, mlift, mget, mbind, M_bind, mret, M_ret, mmodify.
  rewrite assessCapacity_below by lia. unfold mark in Hc. rewrite Hc. by destruct (check_against w n p).
Qed.

Lemma exec_enforce_below c n p g :
  2 * n < 3072 → check_against (mark c g) n p = Ok tt →
  exec (Enforce c n p None) g =
    (Accepted c n p, mkGuards (map_set c (mkProposal n p) (channelWatermarks g)) (sealedWatermarks g)).
Proof. intros Hn Hc. unfold exec. by rewrite enforce_below. Qed.

Lemma exec_seal c n g :
  exec (Seal c n) g = (Sealed c n, mkGuards (channelWatermarks g) ({[sealKey c n]} ∪ sealedWatermarks g)).
Proof. done. Qed.

Lemma exec_release_alone c n p m s :
  bool_decide (sealKey c n ∈ s) = false → map_get c m = None →
  exec (Release c n p) (mkGuards ((c, mkProposal n p) :: m) s) = (Released c true, mkGuards m s).
Proof.
  intros Hs Hm. unfold exec, releaseUpdateGuard, mmodify, mark. cbn [fst snd channelWatermarks sealedWatermarks].
  rewrite Hs. cbn [map_get map_delete]. rewrite String.eqb_refl. cbn [pr_sequence pr_payloadHash].
  rewrite Z.eqb_refl, String.eqb_refl. cbn [andb channelWatermarks]. by rewrite Hm.
Qed.

(** C33. What a release forgets: after a signed and sealed update at [n], a
    released attempt at [n + 1] deletes the channel's only entry, and a
    different payload at [n] is accepted again, unless the caller's channel
    still carries the proposal of [n], which refuses it. *)
Theorem release_of_the_next_update_forgets_the_sealed_one c n p q r :
  0 <= n → 2 * (n + 1) < 3072 → p ≠ q →
  let ks w := [Enforce c n p None; Seal c n; Enforce c (n + 1) r None; Release c (n + 1) r;
               Enforce c n q w] in
  run (ks None) fresh =
    [Accepted c n p; Sealed c n; Accepted c (n + 1) r; Released c true; Accepted c n q] ∧
  run (ks (Some (mkProposal n p))) fresh =
    [Accepted c n p; Sealed c n; Accepted c (n + 1) r; Released c true; Refused (DoubleSignError n)].
Proof.
  intros Hn Hcap Hpq ks.
  assert (Hkey : bool_decide (sealKey c (n + 1) ∈ ({[sealKey c n]} ∪ ∅ : gset string)) = false).
  { apply bool_decide_eq_false_2. intros H.
    assert (E : sealKey c (n + 1) = sealKey c n) by set_solver.
    apply sealKey_inj in E; unfold MAX_SAFE_INTEGER; lia. }
  assert (Hr : ∀ w, run (ks w) fresh =
    [Accepted c n p; Sealed c n; Accepted c (n + 1) r; Released c true;
     (exec (Enforce c n q w) (mkGuards [] ({[sealKey c n]} ∪ ∅))).1]).
  { intros w. unfold ks. cbn [run].
    rewrite exec_enforce_below by (done || lia). rewrite exec_seal. cbn [fst snd].
    rewrite exec_enforce_below;
      [|lia|apply check_against_Ok; unfold mark, fresh; simpl; rewrite String.eqb_refl; simpl; lia].
    cbn [fst snd channelWatermarks sealedWatermarks fresh map_set]. rewrite String.eqb_refl.
    rewrite (exec_release_alone c (n + 1) r []) by done. done. }
  rewrite !Hr. unfold exec. rewrite !enforce_below by (done || lia). split; [done|].
  unfold check_against, throw_if; cbn [pr_sequence pr_payloadHash].
  rewrite (proj2 (String.eqb_neq p q) Hpq), Z.eqb_refl.
  destruct (Z.gtb_spec n n); [lia | done].
Qed.

Lemma release_of_the_next_update_forgets_the_sealed_one_witness :
  run [Enforce "0xa" 7 "P" None; Seal "0xa" 7; Enforce "0xa" 8 "R" None; Release "0xa" 8 "R";
       Enforce "0xa" 7 "Q" None] fresh =
  [Accepted "0xa" 7 "P"; Sealed "0xa" 7; Accepted "0xa" 8 "R"; Released "0xa" true; Accepted "0xa" 7 "Q"].
Proof.
  apply (release_of_the_next_update_forgets_the_sealed_one "0xa" 7 "P" "Q" "R"); [lia | lia | discriminate].
Defined.

End GdSpec.
