(* ===== verification/Omnia.v ===== *)
(** * Omnia: channel data (packages/omnia/src types.ts, state-vars.ts, transition.ts)

    The records of the off-chain channel, the typed state variables a state
    carries, and the canonical form of a program transition. *)

From Stdlib Require Import ZArith Lia QArith Ascii String.
From stdpp Require Import base gmap list strings sorting.
From S2P Require Import Prelude JsBase JsText Watermark Canonical Guards.

Module Om.
Import Js Gd.
Notation key_le := Cj.key_le.

(** ** types.ts *)

(** A [Uint8Array] is the string of its bytes. *)
Notation Bytes := string (only parsing).
Notation ChannelSignature := Bytes (only parsing).
Notation Balances := (list (string * Z)).

Inductive ChannelStatus :=
| opening | funding_pending | active | closing_mutual | closing_unilateral | disputing | closed | spliced.
#[export] Instance ChannelStatus_eq_dec : EqDecision ChannelStatus.
Proof. solve_decision. Defined.

Record ChannelParticipant := mkParty {
  partyId : string; publicKeyDigest : string; settlementAddress : option string }.

Inductive Direction := offered | received.
Inductive HTLCStatus := pending | fulfilled | timed_out.
#[export] Instance HTLCStatus_eq_dec : EqDecision HTLCStatus.
Proof. solve_decision. Defined.

Record HTLCRecord := mkHTLC {
  htlcId : string; amount : Z; hashlock : string; timeoutBlock : Z; direction : Direction;
  status : HTLCStatus; htlcAddress : string; senderPublicKeyDigest : string;
  recipientPublicKeyDigest : string }.

(** A value of type [string | bigint | boolean]. *)
Inductive Scalar := SStr (s : string) | SBig (z : Z) | SBool (b : bool).
#[export] Instance Scalar_eq_dec : EqDecision Scalar.
Proof. solve_decision. Defined.

Inductive StateType := TBool | TNumber | THex | TString.
#[export] Instance StateType_eq_dec : EqDecision StateType.
Proof. solve_decision. Defined.

Record StateValue := mkSV { port : Z; value : Scalar; type : StateType }.
#[export] Instance StateValue_eq_dec : EqDecision StateValue.
Proof. solve_decision. Defined.

Record ProgramTransition := mkTransition {
  action : string;
  inputs : option (list (string * Scalar));
  witness : option (list (string * string));
  metadata : option (list (string * string)) }.

Record ClosePackageArtifact := mkArtifact {
  txHex : string; txDigest : string;
  a_signatures : list (string * ChannelSignature);
  a_signingIndices : list (string * Wm.SigningIndices) }.
Record SignedClosePackage := mkClosePackage {
  p_channelId : string; p_sequence : Z; stateCommitmentV2 : string;
  update : ClosePackageArtifact; settlement : ClosePackageArtifact }.

Record SignedChannelState := mkState {
  sequence : Z;
  balances : Balances;
  pendingHTLCs : list HTLCRecord;
  stateVariables : list StateValue;
  transactionHex : string;
  signatures : list (string * ChannelSignature);
  signingIndices : list (string * Wm.SigningIndices);
  closePackage : option SignedClosePackage;
  programTransition : option ProgramTransition }.

Inductive LogEvent := update_event | htlc_add | htlc_fulfill | htlc_timeout | open_event | settle_event.
Record ChannelLogEntry := mkLog {
  log_sequence : Z; log_timestamp : jsnum; log_balances : Balances; log_htlcCount : nat; log_event : LogEvent }.

Record UnilateralCloseState := mkUnilateral {
  u_channelId : string; u_sequence : Z; updateTxHex : string; settlementTxHex : string;
  contestStartBlock : Z; contestDeadlineBlock : Z; settlement_broadcast : bool;
  updateTxpowId : option string; updateCoinId : option string; settlementTxpowId : option string }.

(** [sign] may throw. *)
Record ChannelSigner := mkSigner {
  s_publicKeyDigest : string;
  sign : Bytes → Wm.SigningIndices → result OmniaError ChannelSignature }.

Record OmniaChannel := mkChannel {
  channelId : string; fundingTxId : string; fundingCoinId : string; fundingScript : string;
  programId : string; programVersion : Z; fundingAddress : string; tokenId : string;
  tokenScale : Z; totalValue : Z; parties : list ChannelParticipant;
  c_balances : Balances; c_pendingHTLCs : list HTLCRecord; currentSequence : Z;
  onChainSequence : option Z; latestState : option SignedChannelState;
  stateLog : list ChannelLogEntry; c_status : ChannelStatus; virtual : bool;
  contestDelayBlocks : option Z; factoryRef : option string; localSigner : option ChannelSigner;
  pendingProposal : option Proposal; latestCoinId : option string;
  unilateralClose : option UnilateralCloseState; createdAt : jsnum; updatedAt : jsnum }.

(** ** state-vars.ts *)

Definition PROGRAM_STATE_PORT_MIN : Z := 120.
Definition assertProgramStatePort (port : Z) : result OmniaError unit :=
  throw_if (port <? PROGRAM_STATE_PORT_MIN) (Plain "Program state port must be an integer >= 120").

(** [String(value)] *)
Definition scalar_string (v : Scalar) : string :=
  match v with
  | SStr s => s
  | SBig z => big_to_string z
  | SBool b => if b then "true" else "false"
  end.

(** [BigInt(text)] *)
Definition BigInt (s : string) : result OmniaError Z :=
  of_option (External "SyntaxError") (big_of_string s).

Definition getStateValue (state : option SignedChannelState) (p : Z) : option StateValue :=
  match state with
  | Some st => List.find (λ v, port v =? p) (stateVariables st)
  | None => None
  end.

Definition getStateBigInt (state : option SignedChannelState) (p fallback : Z) : result OmniaError Z :=
  match getStateValue state p with
  | Some v => BigInt (scalar_string (value v))
  | None => Ok fallback
  end.

Definition getStateBool (state : option SignedChannelState) (p : Z) (fallback : bool) : bool :=
  match getStateValue state p with
  | None => fallback
  | Some v =>
      match value v with
      | SBool b => b
      | SBig z => negb (z =? 0)
      | SStr s =>
          let text := toLowerCase (trim s) in
          if String.eqb text "true" || String.eqb text "1" then true else
          if String.eqb text "false" || String.eqb text "0" then false else fallback
      end
  end.

Definition getStateString (state : option SignedChannelState) (p : Z) (fallback : string) : string :=
  match getStateValue state p with Some v => scalar_string (value v) | None => fallback end.
Definition getStateHex := getStateString.

Definition programNumberState (p z : Z) : result OmniaError StateValue :=
  _ ← assertProgramStatePort p; Ok (mkSV p (SBig z) TNumber).
Definition programBoolState (p : Z) (b : bool) : result OmniaError StateValue :=
  _ ← assertProgramStatePort p; Ok (mkSV p (SBool b) TBool).

(** [value.replace(/^0x/i, '')] *)
Definition strip_0x (s : string) : string :=
  if starts_with "0x" s || starts_with "0X" s then drop_str 2 s else s.
(** [/^(0x)?[0-9a-fA-F]*$/.test(value)] *)
Definition is_hex_text (s : string) : bool :=
  str_forallb is_hex_digit (if starts_with "0x" s then drop_str 2 s else s).

Definition programHexState (p : Z) (s : string) : result OmniaError StateValue :=
  _ ← assertProgramStatePort p;
  _ ← throw_if (negb (is_hex_text s)) (Plain "Program state port: hex value must be a hex string");
  Ok (mkSV p (SStr s) THex).
Definition programStringState (p : Z) (s : string) : result OmniaError StateValue :=
  _ ← assertProgramStatePort p; Ok (mkSV p (SStr s) TString).

(** ** transition.ts *)

Definition canonicalScalar (v : jsval) (path : string) : result OmniaError Scalar :=
  match v with
  | JStr s => Ok (SStr s)
  | JBig z => Ok (SBig z)
  | JBool b => Ok (SBool b)
  | _ => Err (Plain ("Invalid ProgramTransition " +:+ path +:+ ": expected string, bigint, or boolean"))
  end.

(** The members of [record] in the order of their keys, each read by [f]. *)
Definition canonical_members {A} (f : jsval → string → result OmniaError A) (record : jsval) (path : string)
    : result OmniaError (option (list (string * A))) :=
  match record with
  | JUndef => Ok None
  | JObj _ fields =>
      out ← result_mapM (λ kv, x ← f kv.2 (path +:+ "." +:+ kv.1); Ok (kv.1, x)) (merge_sort key_le fields);
      Ok (Some out)
  | _ => Err (Plain ("Invalid ProgramTransition " +:+ path +:+ ": expected object"))
  end.
Definition canonicalRecord (record : jsval) (path : string) := canonical_members canonicalScalar record path.
Definition canonicalStringRecord (record : jsval) (path : string) :=
  canonical_members (λ v path,
    match v with
    | JStr s => Ok s
    | _ => Err (Plain ("Invalid ProgramTransition " +:+ path +:+ ": expected string"))
    end) record path.

(** [if (r && Object.keys(r).length > 0) canonical.x = r] *)
Definition non_empty {A} (r : option (list A)) : option (list A) :=
  match r with Some [] => None | _ => r end.

Definition canonicalizeProgramTransition (transition : jsval) : result OmniaError (option ProgramTransition) :=
  match transition with
  | JUndef => Ok None
  | JObj _ _ =>
      match get_prop transition "action" with
      | JStr "" => Err (Plain "Invalid ProgramTransition action: expected non-empty string")
      | JStr action =>
          inputs ← canonicalRecord (get_prop transition "inputs") "inputs";
          witness ← canonicalStringRecord (get_prop transition "witness") "witness";
          metadata ← canonicalStringRecord (get_prop transition "metadata") "metadata";
          Ok (Some (mkTransition action (non_empty inputs) (non_empty witness) (non_empty metadata)))
      | _ => Err (Plain "Invalid ProgramTransition action: expected non-empty string")
      end
  | _ => Err (Plain "Invalid ProgramTransition: expected object")
  end.

(** The object a typed transition is; [undefined] when absent. *)
Definition scalar_value (v : Scalar) : jsval :=
  match v with SStr s => JStr s | SBig z => JBig z | SBool b => JBool b end.
Definition members_value {A} (f : A → jsval) (r : option (list (string * A))) : jsval :=
  match r with Some l => JObj 1 (map (λ kv, (kv.1, f kv.2)) l) | None => JUndef end.
Definition transition_value (t : option ProgramTransition) : jsval :=
  match t with
  | None => JUndef
  | Some t => JObj 1 [("action", JStr (action t)); ("inputs", members_value scalar_value (inputs t));
                      ("witness", members_value JStr (witness t));
                      ("metadata", members_value JStr (metadata t))]%string
  end.

(** ** serializeProgramTransition *)

(** [canonicalJsonValue]: canonical JSON in which a bigint is a tagged object. *)
Definition canonical_scalar_text (v : Scalar) : string :=
  match v with
  | SStr s => json_string s
  | SBig z => "{" +:+ json_string "__bigint" +:+ ":" +:+ json_string (big_to_string z) +:+ "}"
  | SBool b => if b then "true" else "false"
  end.
Definition members_text {A} (f : A → string) (l : list (string * A)) : string :=
  "{" +:+ join_comma (map (λ kv, json_string kv.1 +:+ ":" +:+ f kv.2) (merge_sort key_le l)) +:+ "}".
Definition canonical_transition_text (t : ProgramTransition) : string :=
  "{" +:+ join_comma (map (λ kv : string * string, json_string kv.1 +:+ ":" +:+ kv.2)
    ([("action"%string, json_string (action t))]
     ++ match inputs t with Some l => [("inputs"%string, members_text canonical_scalar_text l)] | None => [] end
     ++ match metadata t with Some l => [("metadata"%string, members_text json_string l)] | None => [] end
     ++ match witness t with Some l => [("witness"%string, members_text json_string l)] | None => [] end)) +:+ "}".
Definition serializeProgramTransition (transition : jsval) : result OmniaError string :=
  t ← canonicalizeProgramTransition transition;
  of_option (External "undefined") (canonical_transition_text <$> t).

End Om.
