(* ===== verification/Transactions.v ===== *)
(** * Omnia: transactions and commitments (packages/omnia/src transactions.ts)

    The Minima byte encoding of channel transactions, the commitment that binds
    the off-chain state into state variable 102, and the digest both parties sign. *)

From Stdlib Require Import ZArith Lia QArith Ascii String.
From stdpp Require Import base gmap list strings sorting.
From S2P Require Import Prelude JsBase JsText Watermark Canonical Guards Omnia.

Module Tx.
Import Js Gd Om.

(** ** Drafts (types.ts) *)

Inductive TxType := funding_tx | update_tx | settlement_tx.

Record TxInputDraft := mkInput {
  i_coinId : string; i_address : string; i_amount : Z; i_tokenId : string; scriptHex : string;
  i_storeState : option bool; i_stateVariables : option (list StateValue); mmrEntry : option Z }.
Record TxOutputDraft := mkOutput {
  o_address : string; o_amount : Z; o_tokenId : string; o_storeState : bool;
  o_stateVariables : list StateValue }.
Record OmniaTxDraft := mkDraft {
  d_type : TxType; d_inputs : list TxInputDraft; d_outputs : list TxOutputDraft; d_storeState : bool;
  d_stateVariables : list StateValue }.

Definition COINID_OUTPUT : string := "0x00".
Definition COINID_ELTOO : string := "0x01".
Definition STATE_SETTLEMENT_PORT : Z := 100.
Definition STATE_SEQUENCE_PORT : Z := 101.
Definition STATE_COMMITMENT_V2_PORT : Z := 102.

Definition channelStateVars (settlement : bool) (sequence : Z) : list StateValue :=
  [mkSV STATE_SETTLEMENT_PORT (SBool settlement) TBool; mkSV STATE_SEQUENCE_PORT (SBig sequence) TNumber].

(** ** Minima streams *)

Definition hexToBytesLocal (hex : string) : result OmniaError Bytes :=
  let raw := strip_0x hex in
  if String.eqb raw "" then Ok ""%string else
  _ ← throw_if (Nat.odd (String.length raw))
        (Plain ("Invalid hex string: odd length (" +:+ dec (Z.of_nat (String.length raw)) +:+ ")"));
  _ ← throw_if (negb (str_forallb is_hex_digit raw)) (Plain ("Invalid hex string: " +:+ hex));
  Ok (hex_pairs raw).

Definition bytesToHexLocal (bytes : Bytes) : string := "0x" +:+ hex_of_bytes bytes.

(** The two's-complement bytes of Java's [BigInteger.toByteArray]. *)
Definition bigintToJavaBytes (value : Z) : result OmniaError Bytes :=
  _ ← throw_if (value <? 0) (Plain ("Negative MiniNumber values are not supported: " +:+ big_to_string value));
  let bytes := big_endian value in
  Ok (match bytes with
      | String c _ => if code c >=? 128 then String (byte 0) bytes else bytes
      | "" => bytes
      end%string).

Definition writeMiniNumberLocal (value : Z) : result OmniaError Bytes :=
  unscaled ← bigintToJavaBytes value;
  let n := Z.of_nat (String.length unscaled) in
  _ ← throw_if (n >? 255) (Plain ("MiniNumber data too large: " +:+ dec n));
  Ok (String (byte 0) (String (byte n) unscaled)).

Definition writeMiniDataLocal (data : Bytes) : Bytes := uint32 (Z.of_nat (String.length data)) +:+ data.
Definition writeHashToStreamLocal (hex : string) : result OmniaError Bytes :=
  data ← hexToBytesLocal hex; Ok (writeMiniDataLocal data).

Definition write_bool (b : bool) : Bytes := String (byte (if b then 1 else 0)) "".
(** [writeMiniByteLocal] on a boolean is [write_bool]. *)
Definition writeMiniByteLocal (value : Z) : result OmniaError Bytes :=
  _ ← throw_if ((value <? 0) || (value >? 255))
        (Plain ("MiniByte value must be 0-255, got " +:+ num_to_string (of_Z value)));
  Ok (String (byte value) "").

Definition writeMMREntryNumberLocal (value : Z) : result OmniaError Bytes :=
  scale ← writeMiniNumberLocal 0;
  data ← bigintToJavaBytes value;
  Ok (scale +:+ writeMiniDataLocal data).

Definition ends_with_bracket (s : string) : bool :=
  starts_with "]" (rev_str "" s).

Definition writeStateValueLocal (sv : StateValue) : result OmniaError Bytes :=
  p ← writeMiniByteLocal (port sv);
  let text := scalar_string (value sv) in
  td ← match type sv with
       | TBool => Ok (8, write_bool (String.eqb (str_map upper_char text) "TRUE"))
       | TNumber =>
           n ← match value sv with SBig z => Ok z | _ => BigInt text end;
           data ← writeMiniNumberLocal n; Ok (2, data)
       | THex => data ← hexToBytesLocal text; Ok (1, writeMiniDataLocal data)
       | TString =>
           let bracketed := if starts_with "[" text && ends_with_bracket text then text
                            else "[" +:+ text +:+ "]" in
           Ok (4, writeMiniDataLocal (utf8 bracketed))
       end;
  Ok (p +:+ (String (byte (td : Z * Bytes).1) td.2)).

(** [concatBytesLocal] of parts that may throw. *)
Definition concat_parts (parts : list (result OmniaError Bytes)) : result OmniaError Bytes :=
  bs ← result_mapM (λ x, x) parts; Ok (foldr String.append "" bs).

(** A list preceded by its length. *)
Definition counted (parts : list (result OmniaError Bytes)) : list (result OmniaError Bytes) :=
  writeMiniNumberLocal (Z.of_nat (length parts)) :: parts.

(** ** The state commitment *)

Definition is_base_port (p : Z) : bool :=
  (p =? STATE_SETTLEMENT_PORT) || (p =? STATE_SEQUENCE_PORT) || (p =? STATE_COMMITMENT_V2_PORT).

Definition type_name (t : StateType) : string :=
  match t with TBool => "bool" | TNumber => "number" | THex => "hex" | TString => "string" end.

(** The object literals of the payload; identities are not observed. *)
Definition obj (fields : list (string * jsval)) : jsval := JObj 1 fields.

Definition normalizeStateValueForCommitment (sv : StateValue) : jsval :=
  obj [("port", JNum (of_Z (port sv))); ("type", JStr (type_name (type sv)));
       ("value", JStr (scalar_string (value sv)))]%string.

Definition port_le (a b : StateValue) : Prop := port a <= port b.
#[export] Instance port_le_dec : RelDecision port_le.
Proof. intros a b. unfold port_le. apply _. Defined.
#[export] Instance port_le_trans : Transitive port_le.
Proof. intros a b c. unfold port_le. lia. Qed.
#[export] Instance port_le_total : Total port_le.
Proof. intros a b. unfold port_le. lia. Qed.

Definition direction_name (d : Direction) : string := match d with offered => "offered" | received => "received" end.
Definition is_pending (h : HTLCRecord) : bool := bool_decide (status h = pending).

Definition htlc_value (h : HTLCRecord) : jsval :=
  obj [("htlcId", JStr (htlcId h)); ("amount", JStr (big_to_string (amount h))); ("hashlock", JStr (hashlock h));
       ("timeoutBlock", JStr (big_to_string (timeoutBlock h))); ("direction", JStr (direction_name (direction h)));
       ("htlcAddress", JStr (htlcAddress h)); ("senderPublicKeyDigest", JStr (senderPublicKeyDigest h));
       ("recipientPublicKeyDigest", JStr (recipientPublicKeyDigest h))]%string.

Definition htlc_le (a b : HTLCRecord) : Prop := String.le (htlcId a) (htlcId b).
#[export] Instance htlc_le_dec : RelDecision htlc_le.
Proof. intros a b. unfold htlc_le, String.le. apply _. Defined.
#[export] Instance htlc_le_trans : Transitive htlc_le.
Proof. intros a b c Hab Hbc. unfold htlc_le in *. by transitivity (htlcId b). Qed.
#[export] Instance htlc_le_total : Total htlc_le.
Proof. intros a b. unfold htlc_le. apply (total String.le). Qed.

Section Transactions.
Context (sha3_256 : string → string).

Definition commitment_payload (channel : OmniaChannel) (sequence : Z) (balances : Balances)
    (pendingHTLCs : list HTLCRecord) (settlement : bool) (programStateVariables : list StateValue) : jsval :=
  obj [("version", JNum (of_Z 2));
       ("channelId", JStr (channelId channel));
       ("fundingAddress", JStr (fundingAddress channel));
       ("fundingScriptHash",
        JStr (bytesToHexLocal (sha3_256 (utf8 (str_map upper_char (trim (fundingScript channel)))))));
       ("tokenId", JStr (tokenId channel));
       ("tokenScale", JNum (of_Z (tokenScale channel)));
       ("totalValue", JStr (big_to_string (totalValue channel)));
       ("sequence", JNum (of_Z sequence));
       ("settlement", JBool settlement);
       ("balances", obj (map (λ kv, (kv.1, JStr (big_to_string kv.2))) (merge_sort key_le balances)));
       ("htlcs", JArr 1 (map htlc_value (merge_sort htlc_le (List.filter is_pending pendingHTLCs))));
       ("programStateVariables",
        JArr 1 (map normalizeStateValueForCommitment
                  (merge_sort port_le (List.filter (λ sv, negb (is_base_port (port sv))) programStateVariables))))
      ]%string.

Definition computeStateCommitmentV2 (channel : OmniaChannel) (sequence : Z) (balances : Balances)
    (pendingHTLCs : list HTLCRecord) (settlement : bool) (programStateVariables : list StateValue)
    : result OmniaError Bytes :=
  match Cj.canonicalJson (commitment_payload channel sequence balances pendingHTLCs settlement programStateVariables) with
  | Ok text => Ok (sha3_256 (utf8 (default "" text)))
  | Err _ => Err (External "TypeError")
  end.

Definition channelStateVarsV2 (channel : OmniaChannel) (settlement : bool) (sequence : Z) (balances : Balances)
    (pendingHTLCs : list HTLCRecord) (programStateVariables : list StateValue) : result OmniaError (list StateValue) :=
  commitment ← computeStateCommitmentV2 channel sequence balances pendingHTLCs settlement programStateVariables;
  Ok (channelStateVars settlement sequence ++
      List.filter (λ sv, negb (is_base_port (port sv))) programStateVariables ++
      [mkSV STATE_COMMITMENT_V2_PORT (SStr (bytesToHexLocal commitment)) THex]).

Definition stateCommitmentV2Matches (channel : OmniaChannel) (state : SignedChannelState) (settlement : bool)
    : result OmniaError bool :=
  match List.find (λ v, port v =? STATE_COMMITMENT_V2_PORT) (stateVariables state) with
  | Some sv =>
      if negb (bool_decide (type sv = THex)) then Ok false else
      expected ← computeStateCommitmentV2 channel (sequence state) (balances state) (pendingHTLCs state) settlement
                   (stateVariables state);
      Ok (String.eqb (toLowerCase (scalar_string (value sv))) (toLowerCase (bytesToHexLocal expected)))
  | None => Ok false
  end.

Definition same_state_value (a b : StateValue) : bool :=
  (port a =? port b) && bool_decide (type a = type b) && String.eqb (scalar_string (value a)) (scalar_string (value b)).
Fixpoint stateVariablesEqual (actual expected : list StateValue) : bool :=
  match actual, expected with
  | [], [] => true
  | a :: l, b :: l' => same_state_value a b && stateVariablesEqual l l'
  | _, _ => false
  end.

(** ** Drafts *)

Definition toRawMinima (scaledAmount tokenScale : Z) : result OmniaError Z :=
  _ ← throw_if (tokenScale <? 0)
        (Plain ("tokenScale must be a non-negative integer, received " +:+ num_to_string (of_Z tokenScale)));
  _ ← throw_if (scaledAmount <? 0)
        (Plain ("scaledAmount must be non-negative, received " +:+ big_to_string scaledAmount));
  if tokenScale =? 0 then Ok scaledAmount else
  let divisor := 10 ^ tokenScale in
  _ ← throw_if (negb (scaledAmount mod divisor =? 0))
        (Plain ("scaledAmount " +:+ big_to_string scaledAmount +:+ " is not divisible by tokenScale divisor "
                +:+ big_to_string divisor));
  Ok (scaledAmount / divisor).

Definition require_address (channel : OmniaChannel) : result OmniaError unit :=
  throw_if (String.eqb (fundingAddress channel) "")
    (Plain ("channel.fundingAddress is required but not set on channel " +:+ channelId channel)).

Definition buildUpdateTx (channel : OmniaChannel) (newSequence : Z) (newBalances : Balances)
    (pendingHTLCs : list HTLCRecord) (programStateVariables : list StateValue) : result OmniaError OmniaTxDraft :=
  stateVars ← channelStateVarsV2 channel false newSequence newBalances pendingHTLCs programStateVariables;
  rawTotal ← toRawMinima (totalValue channel) (tokenScale channel);
  _ ← require_address channel;
  Ok (mkDraft update_tx
    [mkInput COINID_ELTOO (fundingAddress channel) rawTotal (tokenId channel) (fundingScript channel) None None None]
    [mkOutput (fundingAddress channel) rawTotal (tokenId channel) true stateVars]
    true stateVars).

Record SettlementOpts := mkSettlementOpts {
  floatingInput : bool; s_programStateVariables : list StateValue }.

Definition party_output (channel : OmniaChannel) (balances : Balances) (partyAddresses : list (string * string))
    (party : ChannelParticipant) : result OmniaError (list TxOutputDraft) :=
  rawBalance ← toRawMinima (default 0 (map_get (partyId party) balances)) (tokenScale channel);
  match map_get (partyId party) partyAddresses with
  | None | Some ""%string => Err (Plain ("Missing settlement address for party " +:+ partyId party))
  | Some addr =>
      Ok (if rawBalance >? 0 then [mkOutput addr rawBalance (tokenId channel) false []] else [])
  end.

Definition htlc_output (channel : OmniaChannel) (h : HTLCRecord) : result OmniaError TxOutputDraft :=
  rawHtlcAmount ← toRawMinima (amount h) (tokenScale channel);
  Ok (mkOutput (htlcAddress h) rawHtlcAmount (tokenId channel) false []).

(** The balance map has exactly the participants as keys. *)
Definition is_party (channel : OmniaChannel) (k : string) : bool :=
  existsb (λ p, String.eqb (partyId p) k) (parties channel).
Definition balance_shape (channel : OmniaChannel) (balances : Balances) : bool :=
  (length balances =? size (list_to_set (map partyId (parties channel)) : gset string))%nat &&
  forallb (λ kv, is_party channel kv.1) balances.

Definition check_negative (what : string → string) (balances : Balances) : result OmniaError unit :=
  match List.find (λ kv, kv.2 <? 0) balances with
  | Some kv => Err (Plain (what kv.1 +:+ ": " +:+ big_to_string kv.2))
  | None => Ok tt
  end.

Definition buildSettlementTx (channel : OmniaChannel) (state : SignedChannelState)
    (partyAddresses : list (string * string)) (opts : SettlementOpts) : result OmniaError OmniaTxDraft :=
  stateVars ← channelStateVarsV2 channel true (sequence state) (balances state) (pendingHTLCs state)
                (s_programStateVariables opts);
  rawTotal ← toRawMinima (totalValue channel) (tokenScale channel);
  _ ← require_address channel;
  _ ← throw_if (negb (balance_shape channel (balances state)))
        (Plain "Settlement balances must match the channel participant set exactly");
  _ ← check_negative (λ p, "Negative balance for party " +:+ p) (balances state);
  outputs ← result_mapM (party_output channel (balances state) partyAddresses) (parties channel);
  htlcs ← result_mapM (htlc_output channel) (List.filter is_pending (pendingHTLCs state));
  Ok (mkDraft settlement_tx
    [mkInput (if floatingInput opts then COINID_ELTOO else default (fundingCoinId channel) (latestCoinId channel))
       (fundingAddress channel) rawTotal (tokenId channel) (fundingScript channel) None None None]
    (concat outputs ++ htlcs) true stateVars).

(** ** JSON text of a draft *)

Definition big_text (z : Z) : string := json_string ("__bigint__" +:+ big_to_string z).
Definition bool_text (b : bool) : string := if b then "true" else "false".
Definition scalar_text (v : Scalar) : string :=
  match v with SStr s => json_string s | SBig z => big_text z | SBool b => bool_text b end.
Definition array_text (l : list string) : string := "[" +:+ join_comma l +:+ "]".
Definition state_value_text (sv : StateValue) : string :=
  json_object [("port", Some (num_to_string (of_Z (port sv)))); ("value", Some (scalar_text (value sv)));
               ("type", Some (json_string (type_name (type sv))))]%string.
Definition state_values_text (l : list StateValue) : string := array_text (map state_value_text l).
Definition input_text (i : TxInputDraft) : string :=
  json_object [("coinId", Some (json_string (i_coinId i))); ("address", Some (json_string (i_address i)));
               ("amount", Some (big_text (i_amount i))); ("tokenId", Some (json_string (i_tokenId i)));
               ("scriptHex", Some (json_string (scriptHex i))); ("storeState", bool_text <$> i_storeState i);
               ("stateVariables", state_values_text <$> i_stateVariables i);
               ("mmrEntry", big_text <$> mmrEntry i)]%string.
Definition output_text (o : TxOutputDraft) : string :=
  json_object [("address", Some (json_string (o_address o))); ("amount", Some (big_text (o_amount o)));
               ("tokenId", Some (json_string (o_tokenId o))); ("storeState", Some (bool_text (o_storeState o)));
               ("stateVariables", Some (state_values_text (o_stateVariables o)))]%string.
Definition tx_type_name (t : TxType) : string :=
  match t with funding_tx => "funding" | update_tx => "update" | settlement_tx => "settlement" end.
Definition draft_text (d : OmniaTxDraft) : string :=
  json_object [("type", Some (json_string (tx_type_name (d_type d))));
               ("inputs", Some (array_text (map input_text (d_inputs d))));
               ("outputs", Some (array_text (map output_text (d_outputs d))));
               ("storeState", Some (bool_text (d_storeState d)));
               ("stateVariables", Some (state_values_text (d_stateVariables d)))]%string.
Definition serializeTxDraft (d : OmniaTxDraft) : string := hex_of_bytes (utf8 (draft_text d)).

(** ** Canonical Minima bytes *)

Definition output_coin_id (baseCoinId : string) (index : nat) : result OmniaError string :=
  base ← hexToBytesLocal baseCoinId;
  n ← writeMiniNumberLocal (Z.of_nat index);
  Ok (bytesToHexLocal (sha3_256 (writeMiniDataLocal base +:+ n))).

Definition minimaOutputCoinIdsForDraft (d : OmniaTxDraft) : result OmniaError (list string) :=
  match d_inputs d with
  | [] => Ok (map (λ _, COINID_OUTPUT) (d_outputs d))
  | i :: _ =>
      if String.eqb (toLowerCase (i_coinId i)) (toLowerCase COINID_ELTOO)
      then Ok (map (λ _, COINID_OUTPUT) (d_outputs d))
      else result_mapM (output_coin_id (i_coinId i)) (seq 0 (length (d_outputs d)))
  end.

Definition serializeCoinForMinima (coinId address : string) (amount : Z) (tokenId : string) (storeState : bool)
    (stateVariables : list StateValue) (mmrEntry : option Z) : result OmniaError Bytes :=
  concat_parts
    ([writeHashToStreamLocal coinId; writeHashToStreamLocal address; writeMiniNumberLocal amount;
      writeHashToStreamLocal tokenId; Ok (write_bool storeState); writeMMREntryNumberLocal (default 0 mmrEntry);
      Ok (write_bool false); writeMiniNumberLocal 0]
     ++ counted (map writeStateValueLocal stateVariables) ++ [Ok (write_bool false)]).

Definition input_bytes (i : TxInputDraft) : result OmniaError Bytes :=
  serializeCoinForMinima (i_coinId i) (i_address i) (i_amount i) (i_tokenId i) (default false (i_storeState i))
    (default [] (i_stateVariables i)) (mmrEntry i).
Definition output_bytes (coinId : string) (o : TxOutputDraft) : result OmniaError Bytes :=
  serializeCoinForMinima coinId (o_address o) (o_amount o) (o_tokenId o) (o_storeState o)
    (if o_storeState o then o_stateVariables o else []) None.

Definition omniaDraftToCanonicalMinimaBytes (d : OmniaTxDraft) : result OmniaError Bytes :=
  outputCoinIds ← minimaOutputCoinIdsForDraft d;
  inputBytes ← result_mapM input_bytes (d_inputs d);
  outputBytes ← result_mapM (λ co, output_bytes co.1 co.2) (zip outputCoinIds (d_outputs d));
  concat_parts
    (counted (map Ok inputBytes) ++ counted (map Ok outputBytes) ++
     counted (map writeStateValueLocal (d_stateVariables d)) ++ [writeHashToStreamLocal "0x00"]).

Definition computeOmniaTxDigest (d : OmniaTxDraft) : result OmniaError Bytes :=
  bytes ← omniaDraftToCanonicalMinimaBytes d; Ok (sha3_256 bytes).

End Transactions.
End Tx.
