(* ===== verification/TransactionsSpec.v ===== *)
(** * What a channel signature commits to

    The digest both parties sign is taken over the Minima bytes of the update
    transaction, which end in the state commitment; two updates with the same
    digest agree on the whole off-chain state, up to a hash collision. *)

From Stdlib Require Import ZArith Lia QArith Ascii String.
From stdpp Require Import base gmap list strings sorting.
From S2P Require Import Prelude JsBase JsText JsMap Watermark Canonical CanonicalSpec Guards Omnia Transactions.

Module TxSpec.
Import Js JsText CjSpec Gd Om Tx.
#[local] Arguments String.append : simpl nomatch.

(** Bytes written as hexadecimal read back. *)
Lemma hex_round_trip s : hexToBytesLocal (bytesToHexLocal s) = Ok s.
Proof.
  unfold hexToBytesLocal, bytesToHexLocal, strip_0x. rewrite starts_with_app. simpl (_ || _).
  change 2%nat with (String.length "0x"). rewrite drop_app_str.
  destruct (String.eqb_spec (hex_of_bytes s) "") as [E|E].
  - f_equal. rewrite <- (hex_of_bytes_pairs s), E. done.
  - rewrite hex_of_bytes_even, hex_of_bytes_digits. simpl. by rewrite hex_of_bytes_pairs.
Qed.

Lemma bytesToHexLocal_inj a b : bytesToHexLocal a = bytesToHexLocal b → a = b.
Proof. intros E. apply (f_equal hexToBytesLocal) in E. rewrite !hex_round_trip in E. by injection E. Qed.

(** ** Strings from the end *)

Lemma app_same_suffix a b s t :
  String.length s = String.length t → a +:+ s = b +:+ t → a = b ∧ s = t.
Proof.
  intros Hlen. revert b. induction a as [|x a IH]; intros [|y b] E; simpl in E.
  - done.
  - exfalso. apply (f_equal String.length) in E. simpl in E. rewrite length_app_str in E. lia.
  - exfalso. apply (f_equal String.length) in E. simpl in E. rewrite length_app_str in E. lia.
  - injection E as -> E. by destruct (IH b E) as [-> ->].
Qed.

Lemma app_tail_inj a b t : a +:+ t = b +:+ t → a = b.
Proof. intros E. by apply app_same_suffix in E as [-> _]. Qed.

Lemma concat_parts_Ok parts b :
  concat_parts parts = Ok b → ∃ bs, parts = map Ok bs ∧ b = foldr String.append "" bs.
Proof.
  unfold concat_parts. intros H. apply result_bind_Ok in H as (bs & Hbs & [= <-]).
  exists bs. split; [|done]. apply result_mapM_Ok in Hbs. induction Hbs as [|x y l k Hxy _ IH]; [done|].
  simpl. by rewrite Hxy, IH.
Qed.

Lemma foldr_append_app l k : foldr String.append "" (l ++ k) = foldr String.append "" l +:+ foldr String.append "" k.
Proof. induction l as [|x l IH]; simpl; [done|]. by rewrite IH, app_assoc_str. Qed.

Lemma concat_parts_last p q r x y b :
  concat_parts (p ++ q ++ (r ++ [Ok x]) ++ [Ok y]) = Ok b → ∃ a, b = a +:+ (x +:+ y).
Proof.
  rewrite <- (app_assoc r). rewrite (app_assoc p), (app_assoc _ r). cbn [app]. generalize ((p ++ q) ++ r). intros parts.
  intros H. apply concat_parts_Ok in H as (bs & Hbs & ->).
  assert (∃ cs, bs = cs ++ [x; y]) as [cs ->].
  { symmetry in Hbs. apply map_eq_app in Hbs as (cs & ds & -> & _ & Hds).
    destruct ds as [|? [|? [|] ] ]; try done. injection Hds as -> ->. by exists cs. }
  exists (foldr String.append "" cs). rewrite foldr_append_app. simpl. by rewrite app_nil_r_str.
Qed.

(** ** The commitment is at the end of the bytes *)

Section commit.
Context (sha3_256 : string → string).
Hypothesis sha3_length : ∀ x, String.length (sha3_256 x) = 32%nat.

Lemma commitment_bytes h :
  writeStateValueLocal (mkSV STATE_COMMITMENT_V2_PORT (SStr (bytesToHexLocal h)) THex) =
  Ok (String (byte 102) (String (byte 1) (writeMiniDataLocal h))).
Proof.
  unfold writeStateValueLocal. cbn [port value type scalar_string].
  change (writeMiniByteLocal STATE_COMMITMENT_V2_PORT) with (@Ok OmniaError _ (String (byte 102) "")).
  cbn [mbind result_bind]. rewrite hex_round_trip. done.
Qed.

Lemma update_bytes_end c n bal hs vars d b :
  buildUpdateTx sha3_256 c n bal hs vars = Ok d → omniaDraftToCanonicalMinimaBytes sha3_256 d = Ok b →
  ∃ h a, computeStateCommitmentV2 sha3_256 c n bal hs false vars = Ok h ∧
         b = a +:+ (h +:+ writeMiniDataLocal (String (byte 0) "")).
Proof.
  unfold buildUpdateTx, channelStateVarsV2. intros Hd Hb.
  apply result_bind_Ok in Hd as (svs & Hsv & Hd). apply result_bind_Ok in Hsv as (h & Hh & [= <-]).
  apply result_bind_Ok in Hd as (raw & _ & Hd). apply result_bind_Ok in Hd as ([] & _ & [= <-]).
  exists h. unfold omniaDraftToCanonicalMinimaBytes in Hb.
  apply result_bind_Ok in Hb as (ids & _ & Hb). apply result_bind_Ok in Hb as (ins & _ & Hb).
  apply result_bind_Ok in Hb as (outs & _ & Hb). cbn [d_stateVariables] in Hb.
  unfold counted in Hb at 3. cbn [map channelStateVars app] in Hb. rewrite map_app in Hb. cbn [map] in Hb.
  rewrite commitment_bytes in Hb.
  change (writeHashToStreamLocal "0x00") with (@Ok OmniaError _ (writeMiniDataLocal (String (byte 0) ""))) in Hb.
  rewrite !app_comm_cons in Hb. apply concat_parts_last in Hb as (a & ->).
  exists (a +:+ String (byte 102) (String (byte 1) (uint32 (Z.of_nat (String.length h))))). split; [done|].
  unfold writeMiniDataLocal at 1. rewrite !app_assoc_str. done.
Qed.

(** ** The commitment determines the state *)

(** What a state variable is in the commitment. *)
Definition sv_key (sv : StateValue) : Z * StateType * string := (port sv, type sv, scalar_string (value sv)).
Definition committed_vars (vars : list StateValue) : list StateValue :=
  List.filter (λ sv, negb (is_base_port (port sv))) vars.
Definition committed_htlcs (hs : list HTLCRecord) : list HTLCRecord := List.filter is_pending hs.

(** Numbers that print exactly and a balance map with one entry per key. *)
Definition well_formed (c : OmniaChannel) (n : Z) (bal : Balances) (vars : list StateValue) : Prop :=
  0 <= n <= MAX_SAFE_INTEGER ∧ 0 <= tokenScale c <= MAX_SAFE_INTEGER ∧ NoDup bal.*1 ∧
  Forall (λ sv, 0 <= port sv <= MAX_SAFE_INTEGER) vars.

Lemma plain_int z : 0 <= z <= MAX_SAFE_INTEGER → plain (JNum (of_Z z)).
Proof. intros Hz. exists z. split; [done | lia]. Qed.

Lemma plain_obj_intro fs : NoDup fs.*1 → Forall (λ kv, plain kv.2) fs → plain (obj fs).
Proof. intros. by apply plain_obj. Qed.

Lemma keys_NoDup (l : list string) : bool_decide (NoDup l) = true → NoDup l.
Proof. intros H. by apply bool_decide_eq_true in H. Qed.

Lemma htlc_value_plain h : plain (htlc_value h).
Proof. apply plain_obj_intro; [by apply keys_NoDup | repeat constructor]. Qed.

Lemma sv_value_plain sv : 0 <= port sv <= MAX_SAFE_INTEGER → plain (normalizeStateValueForCommitment sv).
Proof. intros H. apply plain_obj_intro; [by apply keys_NoDup|]. repeat constructor; simpl. by apply plain_int. Qed.

Lemma balances_plain (bal : Balances) :
  NoDup bal.*1 → plain (obj (map (λ kv, (kv.1, JStr (big_to_string kv.2))) (merge_sort key_le bal))).
Proof.
  intros H. apply plain_obj_intro.
  - unfold fmap. rewrite map_map. simpl. change (NoDup (merge_sort key_le bal).*1). by rewrite merge_sort_Permutation.
  - apply List.Forall_forall. intros x Hx. apply in_map_iff in Hx as (y & <- & _). done.
Qed.

Lemma payload_plain c n bal hs vars :
  well_formed c n bal vars → plain (commitment_payload sha3_256 c n bal hs false vars).
Proof.
  intros (Hn & Hs & Hb & Hv). apply plain_obj_intro; [by apply keys_NoDup|].
  repeat (apply Forall_cons; split); simpl; try done; try (by apply plain_int).
  - by apply balances_plain.
  - apply (plain_arr 1), List.Forall_forall. intros x Hx. apply in_map_iff in Hx as (y & <- & _). apply htlc_value_plain.
  - apply (plain_arr 1), List.Forall_forall. intros x Hx. apply in_map_iff in Hx as (y & <- & Hy).
    apply sv_value_plain. apply list_elem_of_In in Hy. rewrite merge_sort_Permutation in Hy.
    apply list_elem_of_In, filter_In in Hy as [Hy _]. rewrite List.Forall_forall in Hv. by apply Hv.
Qed.

(** Equivalent objects agree member by member. *)
Lemma equiv_member i j fs fs' k v w :
  json_equiv (JObj i fs) (JObj j fs') → NoDup fs'.*1 → (k, v) ∈ fs → (k, w) ∈ fs' → json_equiv v w.
Proof.
  intros H Hnd Hv Hw. inversion H as [| | | | |? ? ? ? gs gs' Hp Hp' HF]; subst. rewrite Hp in Hv.
  destruct (list_elem_of_lookup_1 _ _ Hv) as [m Hm].
  destruct (Forall2_lookup_l _ _ _ _ _ HF Hm) as ([k' w'] & Hm' & Hk & He). simpl in *. subst k'.
  apply list_elem_of_lookup_2 in Hm'. rewrite <- Hp' in Hm'.
  by rewrite (NoDup_fst_unique _ _ _ _ Hnd Hw Hm').
Qed.

Lemma equiv_get i j fs fs' k v w :
  json_equiv (JObj i fs) (JObj j fs') → bool_decide (NoDup fs'.*1) = true →
  map_get k fs = Some v → map_get k fs' = Some w → json_equiv v w.
Proof.
  intros H Hnd Hv Hw. apply JsMap.map_get_elem in Hv, Hw. apply bool_decide_eq_true in Hnd.
  exact (equiv_member _ _ _ _ _ _ _ H Hnd Hv Hw).
Qed.

Lemma equiv_str_eq s t : json_equiv (JStr s) (JStr t) → s = t.
Proof. by inversion 1. Qed.
Lemma equiv_num_eq y z : json_equiv (JNum (of_Z y)) (JNum (of_Z z)) → y = z.
Proof. intros H. inversion H. unfold of_Z, inject_Z in *. congruence. Qed.

Lemma Forall2_map_equiv {A B} (f : A → jsval) (g : A → B) l l' :
  (∀ a b, json_equiv (f a) (f b) → g a = g b) → Forall2 json_equiv (map f l) (map f l') → map g l = map g l'.
Proof.
  intros Hf. revert l'; induction l as [|a l IH]; intros [|b l'] H; inversion H; subst; [done|].
  simpl. f_equal; [by apply Hf | by apply IH].
Qed.

Ltac get_member H k := apply (equiv_get _ _ _ _ k _ _ H); reflexivity.
Ltac get_str H k := apply equiv_str_eq; get_member H k.

Lemma sv_key_equiv a b :
  json_equiv (normalizeStateValueForCommitment a) (normalizeStateValueForCommitment b) → sv_key a = sv_key b.
Proof.
  intros H. unfold sv_key. f_equal; [f_equal|].
  - apply equiv_num_eq. get_member H "port"%string.
  - assert (E : type_name (type a) = type_name (type b)) by get_str H "type"%string.
    by destruct (type a), (type b).
  - get_str H "value"%string.
Qed.

Lemma htlc_equiv a b :
  is_pending a = true → is_pending b = true → json_equiv (htlc_value a) (htlc_value b) → a = b.
Proof.
  intros Ha Hb H. apply bool_decide_eq_true in Ha, Hb.
  assert (E1 : htlcId a = htlcId b) by get_str H "htlcId"%string.
  assert (E2 : amount a = amount b) by (apply big_to_string_inj; get_str H "amount"%string).
  assert (E3 : hashlock a = hashlock b) by get_str H "hashlock"%string.
  assert (E4 : timeoutBlock a = timeoutBlock b) by (apply big_to_string_inj; get_str H "timeoutBlock"%string).
  assert (E5 : direction_name (direction a) = direction_name (direction b)) by get_str H "direction"%string.
  assert (E6 : htlcAddress a = htlcAddress b) by get_str H "htlcAddress"%string.
  assert (E7 : senderPublicKeyDigest a = senderPublicKeyDigest b) by get_str H "senderPublicKeyDigest"%string.
  assert (E8 : recipientPublicKeyDigest a = recipientPublicKeyDigest b) by get_str H "recipientPublicKeyDigest"%string.
  assert (E : direction a = direction b) by (by destruct (direction a), (direction b)).
  clear H. destruct a, b; simpl in *. by subst.
Qed.

Lemma sorted_htlcs_equiv hs hs' :
  Forall2 json_equiv (map htlc_value (merge_sort htlc_le (committed_htlcs hs)))
    (map htlc_value (merge_sort htlc_le (committed_htlcs hs'))) →
  committed_htlcs hs ≡ₚ committed_htlcs hs'.
Proof.
  intros HF. rewrite <- (merge_sort_Permutation htlc_le (committed_htlcs hs)).
  rewrite <- (merge_sort_Permutation htlc_le (committed_htlcs hs')).
  assert (Hp : ∀ hs, Forall (λ h, is_pending h = true) (merge_sort htlc_le (committed_htlcs hs))).
  { intros l. rewrite merge_sort_Permutation. apply List.Forall_forall. intros x Hx.
    by apply filter_In in Hx as [_ Hx]. }
  pose proof (Hp hs) as H1. pose proof (Hp hs') as H2. clear Hp. revert HF H1 H2.
  generalize (merge_sort htlc_le (committed_htlcs hs)) as l, (merge_sort htlc_le (committed_htlcs hs')) as l'.
  induction l as [|a l IH]; intros [|b l'] HF H1 H2; inversion HF; subst; [done|].
  apply Forall_cons in H1 as [Ha H1], H2 as [Hb H2]. rewrite (htlc_equiv a b) by done. constructor. by apply IH.
Qed.

Lemma sorted_balances_equiv (bal bal' : Balances) :
  NoDup bal'.*1 →
  json_equiv (obj (map (λ kv, (kv.1, JStr (big_to_string kv.2))) (merge_sort key_le bal)))
    (obj (map (λ kv, (kv.1, JStr (big_to_string kv.2))) (merge_sort key_le bal'))) →
  bal ≡ₚ bal'.
Proof.
  intros _ H. inversion H as [| | | | |? ? ? ? gs gs' Hp Hp' HF]; subst.
  rewrite <- (merge_sort_Permutation key_le bal), <- (merge_sort_Permutation key_le bal').
  assert (E : ∀ l, map (λ kv : string * jsval, (kv.1, match kv.2 with JStr s => s | _ => "" end))
      (map (λ kv : string * Z, (kv.1, JStr (big_to_string kv.2))) l) = map (λ kv, (kv.1, big_to_string kv.2)) l).
  { intros l. by rewrite map_map. }
  apply (Permutation_map (λ kv : string * jsval, (kv.1, match kv.2 with JStr s => s | _ => "" end))) in Hp, Hp'.
  rewrite E in Hp, Hp'.
  assert (Hgs : map (λ kv : string * jsval, (kv.1, match kv.2 with JStr s => s | _ => "" end)) gs
              = map (λ kv : string * jsval, (kv.1, match kv.2 with JStr s => s | _ => "" end)) gs').
  { clear -HF. induction HF as [|x y l l' [H1 H2] _ IH]; [done|]. simpl. rewrite IH, H1. by inversion H2. }
  rewrite Hgs, <- Hp' in Hp. clear -Hp.
  assert (Hinj : Inj (=) (=) (λ kv : string * Z, (kv.1, big_to_string kv.2))).
  { intros [k z] [k' z'] [= -> E%big_to_string_inj]. by subst. }
  apply Permutation_map_inv in Hp as (l & E & Hp). rewrite Hp.
  apply (inj (fmap (λ kv : string * Z, (kv.1, big_to_string kv.2)))) in E. rewrite E. by symmetry.
Qed.

(** The normalised text of a script. *)
Definition script_key (c : OmniaChannel) : string := str_map upper_char (trim (fundingScript c)).

(** What is hashed on the way from a state to its digest: the bytes of the transaction,
    the text that is committed to, and the script. *)
Definition commitment_text (c : OmniaChannel) (n : Z) (bal : Balances) (hs : list HTLCRecord) (vars : list StateValue) : string :=
  match Cj.canonicalJson (commitment_payload sha3_256 c n bal hs false vars) with Ok t => utf8 (default ""%string t) | Err _ => "" end.
Definition digest_inputs (c : OmniaChannel) (n : Z) (bal : Balances) (hs : list HTLCRecord) (vars : list StateValue) (d : OmniaTxDraft)
    : list string :=
  [match omniaDraftToCanonicalMinimaBytes sha3_256 d with Ok b => b | Err _ => "" end; commitment_text c n bal hs vars; utf8 (script_key c)]%string.

Lemma commitment_inj c c' n n' bal bal' hs hs' vars vars' h :
  well_formed c n bal vars → well_formed c' n' bal' vars' →
  computeStateCommitmentV2 sha3_256 c n bal hs false vars = Ok h →
  computeStateCommitmentV2 sha3_256 c' n' bal' hs' false vars' = Ok h →
  json_equiv (commitment_payload sha3_256 c n bal hs false vars) (commitment_payload sha3_256 c' n' bal' hs' false vars') ∨
  collision_in sha3_256 [commitment_text c n bal hs vars; commitment_text c' n' bal' hs' vars'].
Proof.
  intros Hw Hw'. pose proof (payload_plain c n bal hs vars Hw) as Hp.
  pose proof (payload_plain c' n' bal' hs' vars' Hw') as Hp'. unfold computeStateCommitmentV2, commitment_text.
  rewrite (plain_prints _ Hp), (plain_prints _ Hp').
  generalize dependent (commitment_payload sha3_256 c n bal hs false vars). intros v Hv.
  generalize dependent (commitment_payload sha3_256 c' n' bal' hs' false vars'). intros w Hv'.
  cbn [default id]. intros [= <-] [= E]. symmetry in E.
  apply (same_or_collision sha3_256 [utf8 (text v); utf8 (text w)]) in E as [Et|Hc]; [left|by right|set_solver..].
  apply utf8_inj in Et. apply (text_inj v Hv w "" ""); [done|done|done|]. by rewrite Et.
Qed.

Lemma payload_equiv c c' n n' bal bal' hs hs' vars vars' :
  NoDup bal'.*1 →
  json_equiv (commitment_payload sha3_256 c n bal hs false vars) (commitment_payload sha3_256 c' n' bal' hs' false vars') →
  ((channelId c = channelId c' ∧ script_key c = script_key c' ∧ tokenId c = tokenId c' ∧
    tokenScale c = tokenScale c' ∧ totalValue c = totalValue c') ∧
   n = n' ∧ bal ≡ₚ bal' ∧ committed_htlcs hs ≡ₚ committed_htlcs hs' ∧
   map sv_key (merge_sort port_le (committed_vars vars)) = map sv_key (merge_sort port_le (committed_vars vars'))) ∨
  collision_in sha3_256 [utf8 (script_key c); utf8 (script_key c')].
Proof.
  intros Hnd H. unfold commitment_payload, obj in H.
  assert (E1 : channelId c = channelId c') by get_str H "channelId"%string.
  assert (E2 : sha3_256 (utf8 (script_key c)) = sha3_256 (utf8 (script_key c')))
    by (apply bytesToHexLocal_inj; get_str H "fundingScriptHash"%string).
  assert (E3 : tokenId c = tokenId c') by get_str H "tokenId"%string.
  assert (E4 : tokenScale c = tokenScale c') by (apply equiv_num_eq; get_member H "tokenScale"%string).
  assert (E5 : totalValue c = totalValue c') by (apply big_to_string_inj; get_str H "totalValue"%string).
  assert (E6 : n = n') by (apply equiv_num_eq; get_member H "sequence"%string).
  assert (E7 : bal ≡ₚ bal') by (apply sorted_balances_equiv; [done|get_member H "balances"%string]).
  assert (E8 : committed_htlcs hs ≡ₚ committed_htlcs hs').
  { apply sorted_htlcs_equiv.
    assert (Ha : json_equiv (JArr 1 (map htlc_value (merge_sort htlc_le (committed_htlcs hs))))
      (JArr 1 (map htlc_value (merge_sort htlc_le (committed_htlcs hs'))))) by get_member H "htlcs"%string.
    by inversion Ha. }
  assert (E9 : map sv_key (merge_sort port_le (committed_vars vars)) = map sv_key (merge_sort port_le (committed_vars vars'))).
  { apply (Forall2_map_equiv normalizeStateValueForCommitment); [apply sv_key_equiv|].
    assert (Ha : json_equiv (JArr 1 (map normalizeStateValueForCommitment (merge_sort port_le (committed_vars vars))))
      (JArr 1 (map normalizeStateValueForCommitment (merge_sort port_le (committed_vars vars')))))
      by get_member H "programStateVariables"%string.
    by inversion Ha. }
  apply (same_or_collision sha3_256 [utf8 (script_key c); utf8 (script_key c')]) in E2 as [Es|Hc]; [left|by right|set_solver..].
  by apply utf8_inj in Es.
Qed.

End commit.

(** C29. What a channel signature binds: when the update transactions of two
    off-chain states (of the same or of two channels) have the same digest, the
    states agree on the channel, its script, token and total value, on the
    sequence number, on every balance, on the pending HTLCs in full and on the
    program's state variables, unless two of the strings hashed for the two digests, the
    bytes of the transactions, the texts committed to and the scripts, are different and
    have one hash. *)
Theorem digest_commits_to_the_state sha3_256 c c' n n' bal bal' hs hs' vars vars' d d' h :
  (∀ x, String.length (sha3_256 x) = 32%nat) →
  well_formed c n bal vars → well_formed c' n' bal' vars' →
  buildUpdateTx sha3_256 c n bal hs vars = Ok d → buildUpdateTx sha3_256 c' n' bal' hs' vars' = Ok d' →
  computeOmniaTxDigest sha3_256 d = Ok h → computeOmniaTxDigest sha3_256 d' = Ok h →
  ((channelId c = channelId c' ∧ script_key c = script_key c' ∧ tokenId c = tokenId c' ∧
    tokenScale c = tokenScale c' ∧ totalValue c = totalValue c') ∧
   n = n' ∧ bal ≡ₚ bal' ∧ committed_htlcs hs ≡ₚ committed_htlcs hs' ∧
   map sv_key (merge_sort port_le (committed_vars vars)) = map sv_key (merge_sort port_le (committed_vars vars'))) ∨
  collision_in sha3_256 (digest_inputs sha3_256 c n bal hs vars d ++ digest_inputs sha3_256 c' n' bal' hs' vars' d').
Proof.
  intros Hlen Hw Hw' Hd Hd' Hh Hh'. unfold computeOmniaTxDigest in Hh, Hh'.
  apply result_bind_Ok in Hh as (b & Hb & [= Ehb]), Hh' as (b' & Hb' & [= Ehb']).
  unfold digest_inputs. rewrite Hb, Hb'.
  destruct (same_or_collision sha3_256 [b; b'] b b') as [<-|Hc]; [set_solver..|congruence| |].
  2:{ right. revert Hc. apply collision_weaken. set_solver. }
  destruct (update_bytes_end _ _ _ _ _ _ _ _ Hd Hb) as (k & a & Hk & Ea).
  destruct (update_bytes_end _ _ _ _ _ _ _ _ Hd' Hb') as (k' & a' & Hk' & Ea').
  assert (Hkl : ∀ c n bal hs vars k, computeStateCommitmentV2 sha3_256 c n bal hs false vars = Ok k → String.length k = 32%nat).
  { clear -Hlen. intros c n bal hs vars k. unfold computeStateCommitmentV2.
    destruct (Cj.canonicalJson _); [|done]. intros [= <-]. apply Hlen. }
  rewrite Ea in Ea'. apply app_same_suffix in Ea' as [_ Ek].
  2:{ rewrite !length_app_str, (Hkl _ _ _ _ _ _ Hk), (Hkl _ _ _ _ _ _ Hk'). done. }
  apply app_tail_inj in Ek as <-.
  destruct (commitment_inj sha3_256 Hlen c c' n n' bal bal' hs hs' vars vars' k Hw Hw' Hk Hk') as [H|Hc].
  2:{ right. revert Hc. apply collision_weaken. set_solver. }
  destruct (payload_equiv sha3_256 Hlen c c' n n' bal bal' hs hs' vars vars') as [|Hc]; [by destruct Hw' as (_ & _ & ? & _)|exact H|by left|].
  right. revert Hc. apply collision_weaken. set_solver.
Qed.

(** ** A concrete channel *)

(** A 32-byte stand-in for the hash. *)
Definition toy_sha (s : string) : string :=
  repeat_char 32 (byte (Z.of_nat (String.length s) mod 256)).
Definition toy_channel : OmniaChannel :=
  mkChannel "0xc1" "0xf1" "0x1234" "RETURN TRUE" "eltoo-payment" 1 "0xabcd" "0x00" 0 100
    [mkParty "alice" "aa" None; mkParty "bob" "bb" None] [("alice", 60); ("bob", 40)]%string [] 0 (Some 0) None [] active false
    None None None None None None (of_Z 0) (of_Z 0).
Definition toy_htlc : HTLCRecord :=
  mkHTLC "0x01" 10 "0xaa" 50 offered pending "0xbeef" "aa" "bb".
Definition toy_balances (swap : bool) : Balances :=
  if swap then [("bob", 40); ("alice", 50)]%string else [("alice", 50); ("bob", 40)]%string.
Definition toy_draft (swap : bool) : OmniaTxDraft :=
  match buildUpdateTx toy_sha toy_channel 1 (toy_balances swap) [toy_htlc] [] with
  | Ok d => d | Err _ => mkDraft update_tx [] [] false [] end.

Lemma digest_commits_to_the_state_witness :
  is_ok (computeOmniaTxDigest toy_sha (toy_draft false)) = true ∧
  ((1 = 1 ∧ toy_balances false ≡ₚ toy_balances true) ∨
   collision_in toy_sha (digest_inputs toy_sha toy_channel 1 (toy_balances false) [toy_htlc] [] (toy_draft false)
     ++ digest_inputs toy_sha toy_channel 1 (toy_balances true) [toy_htlc] [] (toy_draft true))).
Proof.
  split; [vm_compute; reflexivity|].
  assert (Hw : ∀ b, well_formed toy_channel 1 (toy_balances b) []).
  { intros b. unfold well_formed, MAX_SAFE_INTEGER. split; [lia|]. split; [cbn; lia|].
    split; [apply keys_NoDup; by destruct b | constructor]. }
  assert (Hd : ∀ b, buildUpdateTx toy_sha toy_channel 1 (toy_balances b) [toy_htlc] [] = Ok (toy_draft b))
    by (intros []; vm_compute; reflexivity).
  destruct (computeOmniaTxDigest toy_sha (toy_draft false)) as [h|e] eqn:Eh; [|vm_compute in Eh; discriminate Eh].
  assert (Eh' : computeOmniaTxDigest toy_sha (toy_draft true) = Ok h) by (rewrite <- Eh; vm_compute; reflexivity).
  destruct (digest_commits_to_the_state toy_sha toy_channel toy_channel 1 1 (toy_balances false) (toy_balances true)
    [toy_htlc] [toy_htlc] [] [] (toy_draft false) (toy_draft true) h)
    as [(_ & Hn & Hb & _) | H]; [| | | | | | | left; by split | by right].
  - intros x. apply length_repeat_char.
  - apply Hw.
  - apply Hw.
  - apply Hd.
  - apply Hd.
  - exact Eh.
  - exact Eh'.
Defined.

End TxSpec.
