(* ===== verification/NodeScript.v ===== *)
(** * Canonical script text (packages/core/src/scripts/canonical.ts)

    [toNodeScript] rewrites a script to the syntax of the Minima node: user names
    become lower-case letters, words of the language upper case, comments go.  Both
    passes cut the text at the matches of one regular expression; a fuel of the
    text's length is enough, since every step consumes a character.  The search for
    a free name tries at most one candidate more than there are names in use. *)

From Stdlib Require Import ZArith Lia Ascii String.
From stdpp Require Import base list strings.
From S2P Require Import Prelude JsBase.

Module Ns.
Import Js.

Definition KEYWORDS : list string :=
  ["LET"; "IF"; "THEN"; "ELSE"; "ELSEIF"; "ENDIF"; "RETURN"; "ASSERT"; "EXEC"; "MAST"; "WHILE";
   "DO"; "ENDWHILE"; "FOR"; "TO"; "BY"; "ENDFOR"; "FOREACH"; "IN"; "SWITCH"; "CASE"; "DEFAULT";
   "ENDSWITCH"; "FUNC"; "ENDFUNC"; "TRUE"; "FALSE"; "STORE"; "WITH"; "FUNCTION"; "RETURN"]%string.
Definition OPS : list string :=
  ["GT"; "LT"; "EQ"; "GTE"; "LTE"; "NEQ"; "AND"; "OR"; "XOR"; "NAND"; "NOR"; "NXOR"; "NOT"; "NEG";
   "MUL"; "DIV"; "MOD"; "LSHIFT"; "RSHIFT"; "BITAND"; "BITOR"; "BITXOR"; "BITNOT"]%string.
Definition FUNCTIONS : list string :=
  ["SHA3"; "SHA2"; "HASH"; "PROOF"; "SIGNEDBY"; "MULTISIG"; "CHECKSIG"; "VERIFYOUT"; "VERIFYIN";
   "GETOUTADDR"; "GETOUTAMT"; "GETOUTTOK"; "GETOUTKEEPSTATE"; "GETINADDR"; "GETINAMT"; "GETINID";
   "GETINTOK"; "STATE"; "PREVSTATE"; "SAMESTATE"; "SAMECOINS"; "COINAGE"; "COINDATA"; "NUMBER";
   "HEX"; "STRING"; "ASCII"; "UTF8"; "BOOL"; "CONCAT"; "LEN"; "REV"; "SUBSET"; "SETLEN"; "SUBSTR";
   "REPLACE"; "REPLACEFIRST"; "OVERWRITE"; "ABS"; "CEIL"; "FLOOR"; "MAX"; "MIN"; "DEC"; "INC";
   "SIGDIG"; "POW"; "SQRT"; "BITSET"; "BITGET"; "BITCOUNT"; "ADDRESS"; "EXISTS"; "GET";
   "SUMINPUTS"; "SUMOUTPUTS"; "CHECKSIG"]%string.

Inductive Classified := keep (out : string) | var.

Definition classify (id : string) : Classified :=
  let up := toUpperCase id in
  if String.eqb up "ADD" then keep "+" else
  if String.eqb up "SUB" then keep "-" else
  if mem_string up KEYWORDS || mem_string up OPS || mem_string up FUNCTIONS then keep up else var.

(** a, b, ..., z, aa, ab, ... *)
Fixpoint letters_loop (fuel : nat) (n : Z) (s : string) : string :=
  match fuel with
  | O => s
  | S fuel => if n >? 0 then letters_loop fuel ((n - 1) / 26) (String (byte (97 + (n - 1) mod 26)) s) else s
  end.
Definition letters (n : nat) : string := letters_loop (S n) (Z.of_nat n + 1) "".

(** *** Regular expressions *)

Definition is_name_start (c : ascii) : bool := is_letter c || Ascii.eqb c "_".
Definition is_name (c : ascii) : bool := is_letter c || is_digit c || Ascii.eqb c "_".

(** [script.replace(/\/\/\[^\n\]*/g, '')] *)
Fixpoint strip_comments (in_comment : bool) (s : string) : string :=
  match s with
  | EmptyString => EmptyString
  | String c r =>
      if in_comment && negb (code c =? 10) then strip_comments true r
      else if Ascii.eqb c "/" && starts_with "/" r then strip_comments true r
      else String c (strip_comments false r)
  end.

(** A match of TOKEN at the start of the text, and the rest. *)
Definition token (s : string) : option (string * string) :=
  match s with
  | EmptyString => None
  | String c r =>
      if Ascii.eqb c "[" then
        match span_while (λ c, negb (Ascii.eqb c "]")) r with
        | (a, String d b) => Some (String c (a +:+ String d ""), b)
        | (_, EmptyString) => None
        end
      else if Ascii.eqb c "0" then
        match r with
        | String x r =>
            if Ascii.eqb x "x" || Ascii.eqb x "X" then
              match span_while is_hex_digit r with
              | (EmptyString, _) => None
              | (h, b) => Some (String c (String x h), b)
              end
            else None
        | EmptyString => None
        end
      else if Ascii.eqb c "@" then
        match r with
        | String l r => if is_letter l then let '(a, b) := span_while (λ c, is_letter c || is_digit c) r in
                                            Some (String c (String l a), b) else None
        | EmptyString => None
        end
      else if is_name_start c then let '(a, b) := span_while is_name r in Some (String c a, b)
      else None
  end.

(** The text cut into matches and the characters between them. *)
Inductive Piece := Raw (c : ascii) | Tok (t : string).
Fixpoint pieces (fuel : nat) (s : string) : list Piece :=
  match fuel, s with
  | S fuel, String c r =>
      match token s with
      | Some (t, rest) => Tok t :: pieces fuel rest
      | None => Raw c :: pieces fuel r
      end
  | _, _ => []
  end.
Definition cut (s : string) : list Piece := pieces (String.length s) s.

(** *** Names *)

Definition is_hex_token (tok : string) : bool := starts_with "0x" tok || starts_with "0X" tok.

Definition is_variable (tok : string) : bool :=
  negb (starts_with "[" tok || is_hex_token tok || starts_with "@" tok)
  && match classify tok with var => true | keep _ => false end.

Fixpoint keep_lower (s : string) : string :=
  match s with
  | String c s => if in_range 97 122 c then String c (keep_lower s) else keep_lower s
  | EmptyString => EmptyString
  end.
Definition base_name (tok : string) : string :=
  let base := keep_lower (toLowerCase tok) in if String.eqb base "" then "v" else base.

(** [while (used.has(cand)) cand = base + letters(i++)] *)
Fixpoint free_name (fuel : nat) (used : list string) (base cand : string) (i : nat) : string :=
  match fuel with
  | O => cand
  | S fuel => if mem_string cand used then free_name fuel used base (base +:+ letters i) (S i) else cand
  end.

Record Names := mkNames { varMap : list (string * string); used : list string }.

Definition assign (names : Names) (tok : string) : Names :=
  if negb (is_variable tok) || map_has tok (varMap names) then names else
  let base := base_name tok in
  let cand := free_name (S (length (used names))) (used names) base base 0 in
  mkNames (map_set tok cand (varMap names)) (cand :: used names).

Definition first_pass (l : list Piece) : Names :=
  foldl (λ names p, match p with Raw _ => names | Tok t => assign names t end) (mkNames [] []) l.

Definition rewrite_token (names : Names) (tok : string) : string :=
  if starts_with "[" tok then tok
  else if is_hex_token tok then "0x" +:+ drop_str 2 tok
  else if starts_with "@" tok then "@" +:+ toUpperCase (drop_str 1 tok)
  else match classify tok with
       | keep out => out
       | var => default tok (map_get tok (varMap names))
       end.

Definition write_piece (names : Names) (p : Piece) : string :=
  match p with Raw c => String c "" | Tok t => rewrite_token names t end.

Definition toNodeScript (script : string) : string :=
  let l := cut (strip_comments false script) in
  foldr (λ p text, write_piece (first_pass l) p +:+ text) "" l.

End Ns.
