(* ===== verification/Mmr.v ===== *)
(** * Merkle mountain range (packages/core/src mmr.ts, bytes.ts, Streamable.ts, javaStreamables.ts)

    The sum tree behind wallet keys, script proofs and the PROOF opcode: node
    hashes over Minima byte streams, the tree of a key's leaves, proofs and their
    byte form.  SHA3-256 is a parameter.  An offset that became NaN at the end of
    the data is [None]; [Math.log2] of the leaf count is the integer logarithm. *)

From Stdlib Require Import ZArith Lia QArith Ascii String.
From stdpp Require Import base gmap list strings.
From S2P Require Import Prelude JsBase.

Module Mm.
Import Js.

(** The message of a thrown Error. *)
Notation Res := (result string).

(** ** bytes.ts *)

Fixpoint decode_pairs (s : string) : Res string :=
  match s with
  | String a (String b s) =>
      _ ← throw_if (negb (is_hex_digit a && is_hex_digit b)) ("Invalid hex: " +:+ String a (String b ""));
      bytes ← decode_pairs s;
      Ok (String (byte (16 * default 0 (digit_val a) + default 0 (digit_val b))) bytes)
  | _ => Ok ""%string
  end.
Definition hexToBytes (hex : string) : Res string :=
  let s := if starts_with "0x" hex then drop_str 2 hex else hex in
  _ ← throw_if (Nat.odd (String.length s)) "Invalid hex: odd-length string";
  decode_pairs s.

(** ** Streamable.ts, javaStreamables.ts *)

Definition bigIntToByteArray (value : Z) : Res string :=
  _ ← throw_if (value <? 0) "bigIntToByteArray does not support negative values";
  let bytes := big_endian value in
  Ok (match bytes with
      | String c _ => if code c >=? 128 then String (byte 0) bytes else bytes
      | EmptyString => bytes
      end).

(** With scale zero. *)
Definition writeMiniNumber (value : Z) : Res string :=
  _ ← throw_if (value <? 0) "writeMiniNumber does not support negative values";
  unscaled ← bigIntToByteArray value;
  let n := Z.of_nat (String.length unscaled) in
  _ ← throw_if (n >? 255) "MiniNumber data too large";
  Ok (String (byte 0) (String (byte n) unscaled)).

Definition writeMiniData (data : string) : string := uint32 (Z.of_nat (String.length data)) +:+ data.
Definition writeMiniString (text : string) : string := writeMiniData (utf8 text).

(** The argument is a Number: a sum is rounded to binary64 before it is written. *)
Definition serializeMiniNumber (n : jsnum) : Res string :=
  _ ← throw_if (num_lt n (of_Z 0)) "MiniNumber must be non-negative";
  value ← of_option "RangeError" (num_integer n);
  writeMiniNumber value.

(** MiniNumber.ZERO and MiniNumber.ONE *)
Definition mini_zero : string := String (byte 0) (String (byte 1) (String (byte 0) "")).
Definition mini_one : string := String (byte 0) (String (byte 1) (String (byte 1) "")).

Record MMRData := mkData { data : string; value : Z }.
Record MMRProofChunk := mkChunk { isLeft : bool; mmrData : MMRData }.
Notation MMRProof := (list MMRProofChunk).

(** *** Proofs as bytes *)

Definition writeMMRData (d : MMRData) : Res string :=
  v ← writeMiniNumber (value d); Ok (writeMiniData (data d) +:+ v).
Definition writeMMRProofChunk (c : MMRProofChunk) : Res string :=
  d ← writeMMRData (mmrData c); Ok (String (byte (if isLeft c then 1 else 0)) d).
Definition serializeMMRProof (proof : MMRProof) (blockTime : Z) : Res string :=
  bt ← writeMiniNumber blockTime;
  len ← writeMiniNumber (Z.of_nat (length proof));
  parts ← result_mapM writeMMRProofChunk proof;
  Ok (bt +:+ len +:+ foldr String.append "" parts).

(** [bytes\[offset\]], undefined outside the array. *)
Definition byte_at (bytes : string) (offset : option Z) : option Z :=
  i ← offset;
  if i <? 0 then None else
  match drop_str (Z.to_nat i) bytes with String c _ => Some (code c) | EmptyString => None end.
(** [bytes.slice(from, to)]; a bound that is NaN counts as zero, a negative one
    from the end. *)
Definition slice_bound (len : Z) (bound : option Z) : Z :=
  let b := default 0 bound in if b <? 0 then Z.max 0 (len + b) else Z.min b len.
Definition slice (bytes : string) (from to : option Z) : string :=
  let len := Z.of_nat (String.length bytes) in
  let i := slice_bound len from in
  take_str (Z.to_nat (slice_bound len to - i)) (drop_str (Z.to_nat i) bytes).

Fixpoint from_bytes (acc : Z) (bytes : string) : Z :=
  match bytes with EmptyString => acc | String c s => from_bytes (acc * 256 + code c) s end.

Definition plus (a : option Z) (b : Z) : option Z := (λ x, x + b) <$> a.

(** The value and the offset after it. *)
Definition readMiniNumber (bytes : string) (offset : option Z) : Z * option Z :=
  match byte_at bytes (plus offset 1) with
  | None => (0, None)
  | Some length =>
      if length =? 0 then (0, plus offset 2)
      else (from_bytes 0 (slice bytes (plus offset 2) (plus offset (2 + length))), plus offset (2 + length))
  end.

(** Four bytes as a signed 32-bit integer; missing bytes count as zero. *)
Definition read_int32 (bytes : string) (offset : option Z) : Z :=
  let b k := default 0 (byte_at bytes (plus offset k)) in
  let u := b 0 * 2 ^ 24 + b 1 * 2 ^ 16 + b 2 * 2 ^ 8 + b 3 in
  if u <? 2 ^ 31 then u else u - 2 ^ 32.

Definition read_chunk (bytes : string) (offset : option Z) : MMRProofChunk * option Z :=
  let left := match byte_at bytes offset with Some b => b =? 1 | None => false end in
  let hashLength := read_int32 bytes (plus offset 1) in
  let start := plus offset 5 in
  let next := plus offset (5 + hashLength) in
  let '(v, next') := readMiniNumber bytes next in
  (mkChunk left (mkData (slice bytes start next) v), next').
Fixpoint read_chunks (n : nat) (bytes : string) (offset : option Z) : MMRProof * option Z :=
  match n with
  | O => ([], offset)
  | S n =>
      let '(c, offset) := read_chunk bytes offset in
      let '(l, offset) := read_chunks n bytes offset in
      (c :: l, offset)
  end.
Record ParsedProof := mkParsed { pp_proof : MMRProof; pp_blockTime : Z; pp_bytesRead : option Z }.
Definition parseMMRProofFromHex (bytes : string) : ParsedProof :=
  let '(blockTime, offset) := readMiniNumber bytes (Some 0) in
  let '(numChunks, offset) := readMiniNumber bytes offset in
  let '(chunks, offset) := read_chunks (Z.to_nat numChunks) bytes offset in
  mkParsed chunks blockTime offset.

Section Hash.
Context (sha3_256 : string → string).

(** ** Node hashes *)

(** The leaf of a script: ZERO, the script as a MiniString, ZERO. *)
Definition mmrLeafExact (script : string) : string :=
  sha3_256 (mini_zero +:+ writeMiniString script +:+ mini_zero).

Definition sum_bytes (sumValue : Z) : Res string :=
  if sumValue =? 0 then Ok mini_zero else serializeMiniNumber (to_binary64 (inject_Z sumValue)).

Definition createMMRDataLeafNode (pubkey : string) (sumValue : Z) : Res MMRData :=
  s ← sum_bytes sumValue;
  Ok (mkData (sha3_256 (mini_zero +:+ writeMiniData pubkey +:+ s)) sumValue).

Definition createMMRDataParentNode (left right : MMRData) : Res MMRData :=
  let sumValue := value left + value right in
  s ← sum_bytes sumValue;
  Ok (mkData (sha3_256 (mini_one +:+ writeMiniData (data left) +:+ writeMiniData (data right) +:+ s)) sumValue).

(** ** Proofs *)

(** The node a proof leads to; eval.ts walks proofs with the same loop. *)
Fixpoint calculateRootMMRData (current : MMRData) (proof : MMRProof) : Res MMRData :=
  match proof with
  | [] => Ok current
  | c :: proof =>
      parent ← if isLeft c then createMMRDataParentNode (mmrData c) current
               else createMMRDataParentNode current (mmrData c);
      calculateRootMMRData parent proof
  end.
Definition calculateProofRoot (leafData : MMRData) (proof : MMRProof) : Res string :=
  data <$> calculateRootMMRData leafData proof.

Definition verifyMMRProof (leafPubkey : string) (proof : MMRProof) (expectedRoot : string) : Res bool :=
  leaf ← createMMRDataLeafNode leafPubkey 0;
  root ← calculateProofRoot leaf proof;
  Ok (String.eqb root expectedRoot).

(** ** The tree *)

Record MMRTree := mkTree { entries : gmap (Z * Z) MMRData; leafCount : Z; maxRow : Z }.
Definition new_tree : MMRTree := mkTree ∅ 0 0.
Notation T := (M MMRTree string).

Definition setEntry (row entryNumber : Z) (d : MMRData) : T unit :=
  mmodify (λ t, mkTree (<[(row, entryNumber) := d]> (entries t)) (leafCount t)
                  (if row >? maxRow t then row else maxRow t)).
Definition getEntry (row entryNumber : Z) (t : MMRTree) : option MMRData := entries t !! (row, entryNumber).

(** From a right child to its parent. *)
Fixpoint propagate (fuel : nat) (row entryNumber : Z) (d : MMRData) : T unit :=
  match fuel with
  | O => mret tt
  | S fuel =>
      if negb (Z.rem entryNumber 2 =? 1) then mret tt else
      t ← mget;
      match getEntry row (entryNumber - 1) t with
      | None => mret tt
      | Some sibling =>
          parent ← mlift (createMMRDataParentNode sibling d);
          _ ← setEntry (row + 1) (Z.quot entryNumber 2) parent;
          propagate fuel (row + 1) (Z.quot entryNumber 2) parent
      end
  end.

Definition addLeaf (d : MMRData) : T unit :=
  t ← mget;
  let entryNumber := leafCount t in
  _ ← setEntry 0 entryNumber d;
  _ ← mmodify (λ t, mkTree (entries t) (leafCount t + 1) (maxRow t));
  propagate (S (Z.to_nat (Z.log2 (entryNumber + 1)))) 0 entryNumber d.

Definition fromPublicKeys (pubkeys : list string) : Res MMRTree :=
  let '(r, t) := mfor (λ pk, leaf ← mlift (createMMRDataLeafNode pk 0); addLeaf leaf) pubkeys new_tree in
  _ ← r; Ok t.

Definition getRoot (t : MMRTree) : option MMRData :=
  if leafCount t =? 0 then None else getEntry (Z.log2 (leafCount t)) 0 t.

Fixpoint proof_loop (fuel : nat) (t : MMRTree) (row entryNumber : Z) : MMRProof :=
  match fuel with
  | O => []
  | S fuel =>
      if negb (row <? maxRow t) then [] else
      let siblingNumber := if Z.rem entryNumber 2 =? 0 then entryNumber + 1 else entryNumber - 1 in
      match getEntry row siblingNumber t with
      | None => []
      | Some sibling =>
          mkChunk (siblingNumber <? entryNumber) sibling :: proof_loop fuel t (row + 1) (Z.quot entryNumber 2)
      end
  end.
(** Every turn goes up one row. *)
Definition getProof (t : MMRTree) (leafIndex : Z) : MMRProof :=
  proof_loop (Z.to_nat (maxRow t)) t 0 leafIndex.

Definition getLeaf (t : MMRTree) (index : Z) : option MMRData := getEntry 0 index t.

End Hash.
End Mm.
