(* ===== verification/Eltoo.v ===== *)
(** * Omnia: the script of a channel (packages/omnia/src script.ts, program.ts)

    The KISSVM text that guards the channel coin: the eltoo script of two keys and a
    contest delay, the additions of the programs to its update branch, and the address
    of the text. *)

From Stdlib Require Import ZArith Lia Ascii String.
From stdpp Require Import base list strings.
From S2P Require Import Prelude JsBase Guards Omnia.
From S2P Require NodeScript Mmr.

Module El.
Import Js Gd Om.

Definition newline : string := String (byte 10) "".
(** [[...].join('\n')] *)
Definition lines (l : list string) : string := join_with newline l.

(** [hex.startsWith('0x') || hex.startsWith('0X') ? hex.slice(2) : hex] *)
Definition strip_prefix (hex : string) : string :=
  if starts_with "0x" hex || starts_with "0X" hex then drop_str 2 hex else hex.
Definition is_key_hex (raw : string) : bool := (String.length raw =? 64)%nat && str_forallb is_hex_digit raw.

Definition kissHex (hex : string) : result OmniaError string :=
  let raw := strip_prefix hex in
  _ ← throw_if (negb (is_key_hex raw)) (Plain ("publicKeyDigest must be exactly 64 hex characters, got " +:+ json_string hex));
  Ok ("0x" +:+ toUpperCase raw).

Definition eltoo_text (pkA pkB : string) (delay : Z) : string :=
  lines ["LET SETTLEMENT=STATE(100)"; "LET SEQUENCE=STATE(101)"; "LET PREVSEQUENCE=PREVSTATE(101)";
         "LET BOTHSIGNED=MULTISIG(2 " +:+ pkA +:+ " " +:+ pkB +:+ ")"; "IF SETTLEMENT THEN"; "    ASSERT BOTHSIGNED";
         "    ASSERT SEQUENCE EQ PREVSEQUENCE"; "    ASSERT @COINAGE GTE " +:+ num_to_string (of_Z delay); "    RETURN TRUE";
         "ENDIF"; "ASSERT BOTHSIGNED"; "ASSERT SEQUENCE GT PREVSEQUENCE"; "RETURN TRUE"]%string.

(** [None] is an absent delay, for which the default stands. *)
Definition buildEltooScript (parties : list ChannelParticipant) (contestDelayBlocks : option Z) : result OmniaError string :=
  let delay := default ELTOO_CONTEST_DELAY_BLOCKS contestDelayBlocks in
  match parties with
  | [a; b] =>
      _ ← throw_if (negb (is_safe_integer delay) || (delay <? 0))
            (Plain ("contestDelayBlocks must be a safe non-negative integer, got " +:+ num_to_string (of_Z delay)));
      pkA ← kissHex (publicKeyDigest a);
      pkB ← kissHex (publicKeyDigest b);
      _ ← throw_if (String.eqb pkA pkB)
            (Plain "parties must have distinct publicKeyDigest values; a duplicate key collapses MULTISIG(2) to 1-of-1");
      Ok (NodeScript.Ns.toNodeScript (eltoo_text pkA pkB delay))
  | _ => Err (Plain ("v0.1.0 supports exactly 2 parties, got " +:+ dec (Z.of_nat (length parties))))
  end.

Definition normalizeScript (script : string) : string := str_map upper_char (trim script).

(** ** Additions of the programs *)

(** [s.replace(pattern, replacement)] with a replacement that has no dollar sign. *)
Fixpoint replace_first (pattern replacement s : string) : string :=
  if starts_with pattern s then replacement +:+ drop_str (String.length pattern) s
  else match s with
       | String c s => String c (replace_first pattern replacement s)
       | EmptyString => EmptyString
       end.

Definition ELTOO_INJECTION_ANCHOR : string := lines ["ASSERT bothsigned"; "ASSERT sequence GT prevsequence"]%string.
Definition injectEltooScript (parties : list ChannelParticipant) (additions : list string) : result OmniaError string :=
  base ← buildEltooScript parties None;
  Ok (NodeScript.Ns.toNodeScript (replace_first ELTOO_INJECTION_ANCHOR (lines (ELTOO_INJECTION_ANCHOR :: additions)) base)).

Section address.
Context (sha3_256 : string → string).
Definition computeScriptAddress (script : string) : string :=
  "0x" +:+ hex_of_bytes (Mmr.Mm.mmrLeafExact sha3_256 (NodeScript.Ns.toNodeScript script)).
Definition scriptAddress (script : string) : string := computeScriptAddress script.
Definition buildAndHashEltooScript (parties : list ChannelParticipant) : result OmniaError (string * string) :=
  script ← buildEltooScript parties None; Ok (script, scriptAddress script).
End address.

End El.
