(* ===== verification/Programs.v ===== *)
(** * Omnia: channel programs (packages/omnia/src program.ts)

    The state machines that run inside a channel: the script that guards its coin,
    what state variables the signer of a transition builds, and which successor states
    a verifier takes. *)

From Stdlib Require Import ZArith Lia QArith Ascii String.
From stdpp Require Import base gmap list strings.
From S2P Require Import Prelude JsBase JsText Watermark Guards Omnia Transactions Eltoo.

Module Pg.
Import Js Gd Om Tx El.

(** ** Ports *)

Definition ELTOO_PAYMENT_PROGRAM_ID : string := "eltoo-payment".
Definition COUNTER_PROGRAM_ID : string := "counter".
Definition COUNTER_STATE_PORT : Z := 120.
Definition COUNTER_ACTION_PORT : Z := 121.
Definition COUNTER_OPERAND_PORT : Z := 122.
Definition COUNTER_ACTION_NONE : Z := 0.
Definition COUNTER_ACTION_INCREMENT : Z := 1.
Definition COUNTER_ACTION_DECREMENT : Z := 2.
Definition COUNTER_ACTION_SET : Z := 3.
Definition METER_PROGRAM_ID : string := "meter".
Definition METER_READING_PORT : Z := 130.
Definition METER_USAGE_DELTA_PORT : Z := 131.
Definition METER_UNIT_PRICE_PORT : Z := 132.
Definition METER_PAYMENT_PORT : Z := 133.
Definition HTLC_PROGRAM_ID : string := "htlc-payment".
Definition HTLC_HASHLOCK_PORT : Z := 140.
Definition HTLC_LOCKED_AMOUNT_PORT : Z := 141.
Definition HTLC_TIMEOUT_BLOCK_PORT : Z := 142.
Definition HTLC_CLAIMED_PORT : Z := 143.
Definition HTLC_PREIMAGE_PORT : Z := 144.
Definition VAULT_PROGRAM_ID : string := "vault".
Definition VAULT_LOCKED_VALUE_PORT : Z := 150.
Definition VAULT_RELEASE_SEQUENCE_PORT : Z := 151.
Definition VAULT_SWEPT_PORT : Z := 152.
Definition TREASURY_PROGRAM_ID : string := "treasury".
Definition TREASURY_MEMBERSHIP_SNAPSHOT_HASH_PORT : Z := 160.
Definition TREASURY_VOTE_TALLY_HASH_PORT : Z := 161.
Definition TREASURY_SPEND_CAP_PORT : Z := 162.
Definition TREASURY_SPENT_PORT : Z := 163.
Definition TREASURY_OUTCOME_PROOF_ID_PORT : Z := 164.
Definition MEMBERSHIP_PROGRAM_ID : string := "membership".
Definition MEMBERSHIP_MEMBER_ROOT_PORT : Z := 170.
Definition MEMBERSHIP_DIVIDEND_POOL_PORT : Z := 171.
Definition MEMBERSHIP_PAYOUT_SEQUENCE_PORT : Z := 172.
Definition ASSET_PROGRAM_ID : string := "asset".
Definition ASSET_TOKEN_ID_PORT : Z := 180.
Definition ASSET_HOLDER_A_BALANCE_PORT : Z := 181.
Definition ASSET_HOLDER_B_BALANCE_PORT : Z := 182.
Definition ASSET_TOTAL_PORT : Z := 183.

(** ** The program interface *)

Record BuildInput := mkBuild {
  b_channel : OmniaChannel; b_sequence : Z; b_balances : Balances; b_pendingHTLCs : list HTLCRecord;
  b_settlement : bool; b_previousState : option SignedChannelState;
  b_transition : option ProgramTransition }.

Record ValidateInput := mkValidate {
  v_channel : OmniaChannel; v_previousState : option SignedChannelState;
  v_nextState : SignedChannelState; v_transition : option ProgramTransition }.

(** [None] is [{ valid: true }], [Some e] is [{ valid: false, error: e }]. *)
Notation ValidationResult := (option string).

Record ChannelProgram := mkProgram {
  id : string; version : Z;
  buildScript : list ChannelParticipant → option Z → result OmniaError string;
  buildStateVariables : BuildInput → result OmniaError (list StateValue);
  validateTransition : option (ValidateInput → result OmniaError ValidationResult) }.

(** An array literal of calls that may throw. *)
Definition array (l : list (result OmniaError StateValue)) : result OmniaError (list StateValue) :=
  result_mapM (λ x, x) l.
Definition number_of (p : Z) (r : result OmniaError Z) : result OmniaError StateValue :=
  z ← r; programNumberState p z.

(** [transition.inputs?.k] and [String(transition.inputs?.k ?? d)] *)
Definition input (t : ProgramTransition) (k : string) : option Scalar := inputs t ≫= map_get k.
Definition input_string (t : ProgramTransition) (k : string) (d : Scalar) : string :=
  scalar_string (default d (input t k)).
Definition input_big (t : ProgramTransition) (k : string) (d : Z) : result OmniaError Z :=
  BigInt (input_string t k (SBig d)).

Definition normalizeHex (s : string) : string := toLowerCase (strip_0x s).

(** [STATE(p)] and [PREVSTATE(p)] in a script template. *)
Definition now_ (p : Z) : string := "STATE(" +:+ dec p +:+ ")".
Definition prev_ (p : Z) : string := "PREVSTATE(" +:+ dec p +:+ ")".
(** The programs but the first ignore the contest delay. *)
Definition injected (additions : list string) (parties : list ChannelParticipant) (_ : option Z) : result OmniaError string :=
  injectEltooScript parties additions.

(** The first failing check, in order. *)
Fixpoint checks (l : list (bool * string)) : ValidationResult :=
  match l with
  | [] => None
  | (bad, e) :: l => if bad then Some e else checks l
  end.

Section Programs.
(** The SHA3-256 kernel: bytes to bytes. *)
Context (sha3_256 : string → string).

(** [bytesToHex(bytes)]: upper case, without prefix. *)
Definition bytesToHex (bytes : string) : string := str_map upper_char (hex_of_bytes bytes).

Definition preimageDigest (preimage : string) : string :=
  toLowerCase (strip_0x (bytesToHex (sha3_256 (utf8 preimage)))).

(** ** Payments *)

Definition DefaultEltooPaymentProgram : ChannelProgram :=
  mkProgram ELTOO_PAYMENT_PROGRAM_ID 1 buildEltooScript (λ _, Ok []) None.

(** ** Counter *)

Definition counter_vars (v a o : Z) : result OmniaError (list StateValue) :=
  array [programNumberState COUNTER_STATE_PORT v; programNumberState COUNTER_ACTION_PORT a;
         programNumberState COUNTER_OPERAND_PORT o].

Definition counter_build (i : BuildInput) : result OmniaError (list StateValue) :=
  current ← getStateBigInt (b_previousState i) COUNTER_STATE_PORT 0;
  match b_transition i with
  | None => counter_vars current COUNTER_ACTION_NONE 0
  | Some t =>
      by_ ← input_big t "by" 1;
      if String.eqb (action t) "increment" then counter_vars (current + by_) COUNTER_ACTION_INCREMENT by_
      else if String.eqb (action t) "decrement" then counter_vars (current - by_) COUNTER_ACTION_DECREMENT by_
      else if String.eqb (action t) "set" then
        v ← input_big t "value" current; counter_vars v COUNTER_ACTION_SET v
      else counter_vars current COUNTER_ACTION_NONE 0
  end.

Definition counter_validate (i : ValidateInput) : result OmniaError ValidationResult :=
  match v_transition i with
  | None => Ok None
  | Some t =>
      current ← getStateBigInt (v_previousState i) COUNTER_STATE_PORT 0;
      next ← getStateBigInt (Some (v_nextState i)) COUNTER_STATE_PORT 0;
      by_ ← input_big t "by" 1;
      if String.eqb (action t) "increment" then
        Ok (checks [(negb (next =? current + by_), "counter increment mismatch")])
      else if String.eqb (action t) "decrement" then
        Ok (checks [(negb (next =? current - by_), "counter decrement mismatch")])
      else if String.eqb (action t) "set" then
        expected ← input_big t "value" current;
        Ok (checks [(negb (next =? expected), "counter set mismatch")])
      else Ok (Some ("unsupported counter action: " +:+ action t))
  end.

Definition counter_script : list string :=
  ["LET COUNTER=" +:+ now_ COUNTER_STATE_PORT; "LET PREVCOUNTER=" +:+ prev_ COUNTER_STATE_PORT;
   "LET ACTION=" +:+ now_ COUNTER_ACTION_PORT; "LET OPERAND=" +:+ now_ COUNTER_OPERAND_PORT;
   "IF ACTION EQ " +:+ dec COUNTER_ACTION_INCREMENT +:+ " THEN"; "    ASSERT COUNTER EQ PREVCOUNTER + OPERAND";
   "ELSEIF ACTION EQ " +:+ dec COUNTER_ACTION_DECREMENT +:+ " THEN"; "    ASSERT COUNTER EQ PREVCOUNTER - OPERAND";
   "ELSEIF ACTION EQ " +:+ dec COUNTER_ACTION_SET +:+ " THEN"; "    ASSERT COUNTER EQ OPERAND"; "ELSE";
   "    ASSERT ACTION EQ " +:+ dec COUNTER_ACTION_NONE; "    ASSERT COUNTER EQ PREVCOUNTER"; "ENDIF"]%string.
Definition CounterProgram : ChannelProgram :=
  mkProgram COUNTER_PROGRAM_ID 1 (injected counter_script) counter_build (Some counter_validate).

(** ** Meter *)

Definition meter_build (i : BuildInput) : result OmniaError (list StateValue) :=
  previousReading ← getStateBigInt (b_previousState i) METER_READING_PORT 0;
  previousUnitPrice ← getStateBigInt (b_previousState i) METER_UNIT_PRICE_PORT 0;
  let given k d := match b_transition i with Some t => input_big t k d | None => BigInt (big_to_string d) end in
  reading ← given "reading" previousReading;
  unitPrice ← given "unitPrice" previousUnitPrice;
  let usage := reading - previousReading in
  array [programNumberState METER_READING_PORT reading; programNumberState METER_USAGE_DELTA_PORT usage;
         programNumberState METER_UNIT_PRICE_PORT unitPrice;
         programNumberState METER_PAYMENT_PORT (usage * unitPrice)].

Definition meter_validate (i : ValidateInput) : result OmniaError ValidationResult :=
  match v_transition i with
  | None => Ok None
  | Some t =>
      if negb (String.eqb (action t) "record_reading")
      then Ok (Some ("unsupported meter action: " +:+ action t)) else
      match parties (v_channel i) with
      | payer :: payee :: _ =>
          previousReading ← getStateBigInt (v_previousState i) METER_READING_PORT 0;
          reading ← getStateBigInt (Some (v_nextState i)) METER_READING_PORT 0;
          if reading <? previousReading then Ok (Some "meter reading decreased") else
          usage ← getStateBigInt (Some (v_nextState i)) METER_USAGE_DELTA_PORT 0;
          unitPrice ← getStateBigInt (Some (v_nextState i)) METER_UNIT_PRICE_PORT 0;
          payment ← getStateBigInt (Some (v_nextState i)) METER_PAYMENT_PORT 0;
          let previousBalances := match v_previousState i with
                                  | Some s => balances s | None => c_balances (v_channel i) end in
          let before p := default 0 (map_get (partyId p) previousBalances) in
          let after p := map_get (partyId p) (balances (v_nextState i)) in
          Ok (checks
            [(negb (usage =? reading - previousReading), "meter usage mismatch");
             (negb (payment =? usage * unitPrice), "meter payment mismatch");
             (negb (bool_decide (after payer = Some (before payer - payment))) ||
              negb (bool_decide (after payee = Some (before payee + payment))), "meter balance transfer mismatch")])
      | _ => Ok (Some "meter program requires payer and payee parties")
      end
  end.

Definition meter_script : list string :=
  ["LET READING=" +:+ now_ METER_READING_PORT; "LET PREVREADING=" +:+ prev_ METER_READING_PORT;
   "LET USAGE=" +:+ now_ METER_USAGE_DELTA_PORT; "LET UNITPRICE=" +:+ now_ METER_UNIT_PRICE_PORT;
   "LET PAYMENT=" +:+ now_ METER_PAYMENT_PORT; "ASSERT READING GTE PREVREADING";
   "ASSERT USAGE EQ READING - PREVREADING"; "ASSERT PAYMENT EQ USAGE MUL UNITPRICE"]%string.
Definition MeterProgram : ChannelProgram :=
  mkProgram METER_PROGRAM_ID 1 (injected meter_script) meter_build (Some meter_validate).

(** ** Hash-locked payment *)

Definition htlc_vars (hashlock : string) (amount timeout : result OmniaError Z) (claimed : bool)
    (preimage : string) : result OmniaError (list StateValue) :=
  array [programHexState HTLC_HASHLOCK_PORT hashlock; number_of HTLC_LOCKED_AMOUNT_PORT amount;
         number_of HTLC_TIMEOUT_BLOCK_PORT timeout; programBoolState HTLC_CLAIMED_PORT claimed;
         programHexState HTLC_PREIMAGE_PORT preimage].

Definition truthy (s : Scalar) : bool :=
  match s with SStr s => negb (String.eqb s "") | SBig z => negb (z =? 0) | SBool b => b end.
(** [transition.inputs?.preimage], when truthy, as a string. *)
Definition given_preimage (t : ProgramTransition) : option string :=
  match input t "preimage" with
  | Some v => if truthy v then Some (scalar_string v) else None
  | None => None
  end.

Definition htlc_build (i : BuildInput) : result OmniaError (list StateValue) :=
  let prev := b_previousState i in
  let lock := getStateHex prev HTLC_HASHLOCK_PORT "" in
  let locked := getStateBigInt prev HTLC_LOCKED_AMOUNT_PORT 0 in
  let timeout := getStateBigInt prev HTLC_TIMEOUT_BLOCK_PORT 0 in
  let shown := getStateHex prev HTLC_PREIMAGE_PORT "" in
  let unchanged := htlc_vars lock locked timeout (getStateBool prev HTLC_CLAIMED_PORT false) shown in
  let refused := htlc_vars lock locked timeout false shown in
  match b_transition i with
  | None => unchanged
  | Some t =>
      if String.eqb (action t) "add" then
        let hashlock := normalizeHex (input_string t "hashlock" (SStr "")) in
        amount ← input_big t "amount" 0;
        timeoutBlock ← input_big t "timeoutBlock" 0;
        htlc_vars ("0x" +:+ hashlock) (Ok amount) (Ok timeoutBlock) false ""
      else if String.eqb (action t) "claim" then
        match given_preimage t with
        | None => refused
        | Some preimage =>
            if negb (String.eqb (preimageDigest preimage) (normalizeHex lock)) then refused else
            htlc_vars lock (Ok 0) timeout true ("0x" +:+ bytesToHex (utf8 preimage))
        end
      else if String.eqb (action t) "timeout" then htlc_vars lock (Ok 0) timeout true shown
      else unchanged
  end.

Definition htlc_validate (i : ValidateInput) : result OmniaError ValidationResult :=
  let prev := v_previousState i in
  let next := Some (v_nextState i) in
  match v_transition i with
  | None => Ok None
  | Some t =>
      if String.eqb (action t) "add" then
        nextAmount ← getStateBigInt next HTLC_LOCKED_AMOUNT_PORT 0;
        expectedAmount ← input_big t "amount" 0;
        Ok (checks [(getStateBool next HTLC_CLAIMED_PORT false, "htlc add after claim is not allowed");
                    (String.eqb (getStateHex next HTLC_HASHLOCK_PORT "") "", "htlc add requires hashlock");
                    (negb (nextAmount =? expectedAmount), "htlc amount mismatch")])
      else if String.eqb (action t) "claim" then
        match given_preimage t with
        | None => Ok (Some "htlc claim requires preimage")
        | Some preimage =>
            let lock := getStateHex prev HTLC_HASHLOCK_PORT "" in
            if negb (String.eqb (preimageDigest preimage) (normalizeHex lock))
            then Ok (Some "htlc preimage mismatch") else
            nextAmount ← getStateBigInt next HTLC_LOCKED_AMOUNT_PORT 0;
            Ok (checks [(negb (nextAmount =? 0), "htlc claim must release locked amount");
                        (negb (getStateBool next HTLC_CLAIMED_PORT false), "htlc claim must set claimed flag")])
        end
      else if String.eqb (action t) "timeout" then
        currentBlock ← BigInt (input_string t "currentBlock" (SStr "0"));
        timeoutBlock ← getStateBigInt prev HTLC_TIMEOUT_BLOCK_PORT 0;
        if currentBlock <? timeoutBlock then Ok (Some "htlc timeout block not reached") else
        nextAmount ← getStateBigInt next HTLC_LOCKED_AMOUNT_PORT 0;
        Ok (checks [(negb (nextAmount =? 0), "htlc timeout must release locked amount");
                    (negb (getStateBool next HTLC_CLAIMED_PORT false), "htlc timeout must set claimed flag")])
      else Ok (Some ("unsupported htlc action: " +:+ action t))
  end.

Definition htlc_script : list string :=
  ["LET PREIMAGEHASH=SHA3(" +:+ now_ HTLC_PREIMAGE_PORT +:+ ")"; "LET LOCKED=" +:+ now_ HTLC_LOCKED_AMOUNT_PORT;
   "LET TIMEOUTBLOCK=" +:+ now_ HTLC_TIMEOUT_BLOCK_PORT; "LET CLAIMED=" +:+ now_ HTLC_CLAIMED_PORT; "IF CLAIMED THEN";
   "    ASSERT LOCKED EQ 0";
   "    ASSERT PREIMAGEHASH EQ " +:+ now_ HTLC_HASHLOCK_PORT +:+ " OR @BLOCK GTE TIMEOUTBLOCK OR "
     +:+ prev_ HTLC_CLAIMED_PORT +:+ " EQ TRUE";
   "    RETURN TRUE"; "ENDIF"]%string.
Definition HTLCPaymentProgram : ChannelProgram :=
  mkProgram HTLC_PROGRAM_ID 1 (injected htlc_script) htlc_build (Some htlc_validate).

(** ** Vault *)

Definition vault_vars (locked release : result OmniaError Z) (swept : bool) : result OmniaError (list StateValue) :=
  array [number_of VAULT_LOCKED_VALUE_PORT locked; number_of VAULT_RELEASE_SEQUENCE_PORT release;
         programBoolState VAULT_SWEPT_PORT swept].

Definition vault_build (i : BuildInput) : result OmniaError (list StateValue) :=
  let prev := b_previousState i in
  let locked := getStateBigInt prev VAULT_LOCKED_VALUE_PORT 0 in
  let release := getStateBigInt prev VAULT_RELEASE_SEQUENCE_PORT 0 in
  let swept := getStateBool prev VAULT_SWEPT_PORT false in
  match b_transition i with
  | None => vault_vars locked release swept
  | Some t =>
      if String.eqb (action t) "lock" then
        amount ← input_big t "amount" 0;
        newRelease ← input_big t "releaseSequence" 0;
        vault_vars (Ok amount) (Ok newRelease) false
      else if String.eqb (action t) "extend" then
        newRelease ← input_big t "releaseSequence" 0;
        vault_vars locked (Ok newRelease) swept
      else if String.eqb (action t) "release" then vault_vars (Ok 0) release true
      else vault_vars locked release swept
  end.

Definition vault_validate (i : ValidateInput) : result OmniaError ValidationResult :=
  let prev := v_previousState i in
  let next := Some (v_nextState i) in
  let seq := sequence (v_nextState i) in
  match v_transition i with
  | None => Ok None
  | Some t =>
      if String.eqb (action t) "lock" then
        amount ← input_big t "amount" 0;
        release ← input_big t "releaseSequence" 0;
        if amount <? 0 then Ok (Some "vault lock amount must be non-negative") else
        prevLocked ← getStateBigInt prev VAULT_LOCKED_VALUE_PORT 0;
        prevRelease ← getStateBigInt prev VAULT_RELEASE_SEQUENCE_PORT 0;
        nextAmount ← getStateBigInt next VAULT_LOCKED_VALUE_PORT 0;
        nextRelease ← getStateBigInt next VAULT_RELEASE_SEQUENCE_PORT 0;
        Ok (checks
          [(negb (nextAmount =? amount), "vault locked value mismatch");
           (negb (nextRelease =? release), "vault release sequence mismatch");
           (getStateBool next VAULT_SWEPT_PORT false, "vault lock after sweep is not allowed");
           ((prevLocked >? 0) && ((seq <? prevRelease) && negb (nextAmount =? prevLocked)),
            "vault lock before release must keep locked value");
           ((prevLocked >? 0) && ((seq >=? prevRelease) && (nextAmount <? prevLocked)),
            "vault lock must not decrease locked value")])
      else if String.eqb (action t) "extend" then
        release ← input_big t "releaseSequence" 0;
        prevRelease ← getStateBigInt prev VAULT_RELEASE_SEQUENCE_PORT 0;
        nextRelease ← getStateBigInt next VAULT_RELEASE_SEQUENCE_PORT 0;
        Ok (checks
          [(release <? prevRelease, "vault extend must not shorten release");
           (negb (nextRelease =? release), "vault release sequence mismatch");
           (getStateBool next VAULT_SWEPT_PORT false, "vault extend after sweep is not allowed")])
      else if String.eqb (action t) "release" then
        prevRelease ← getStateBigInt prev VAULT_RELEASE_SEQUENCE_PORT 0;
        if seq <? prevRelease then Ok (Some "vault release sequence not reached") else
        nextAmount ← getStateBigInt next VAULT_LOCKED_VALUE_PORT 0;
        Ok (checks
          [(negb (nextAmount =? 0), "vault release must empty locked value");
           (negb (getStateBool next VAULT_SWEPT_PORT false), "vault release must set swept flag")])
      else Ok (Some ("unsupported vault action: " +:+ action t))
  end.

Definition vault_script : list string :=
  ["LET LOCKEDVALUE=" +:+ now_ VAULT_LOCKED_VALUE_PORT; "LET SWEPT=" +:+ now_ VAULT_SWEPT_PORT; "IF SWEPT THEN";
   "    ASSERT LOCKEDVALUE EQ 0"; "    ASSERT sequence GTE " +:+ prev_ VAULT_RELEASE_SEQUENCE_PORT; "    RETURN TRUE"; "ENDIF";
   "IF sequence LT " +:+ prev_ VAULT_RELEASE_SEQUENCE_PORT +:+ " THEN";
   "    ASSERT LOCKEDVALUE EQ " +:+ prev_ VAULT_LOCKED_VALUE_PORT; "ENDIF";
   "IF LOCKEDVALUE LT " +:+ prev_ VAULT_LOCKED_VALUE_PORT +:+ " THEN"; "    ASSERT SWEPT"; "ENDIF"]%string.
Definition VaultProgram : ChannelProgram :=
  mkProgram VAULT_PROGRAM_ID 1 (injected vault_script) vault_build (Some vault_validate).

(** ** Treasury *)

Definition treasury_vars (snapshot tally : string) (cap spent : result OmniaError Z) (outcome : string)
    : result OmniaError (list StateValue) :=
  array [programStringState TREASURY_MEMBERSHIP_SNAPSHOT_HASH_PORT snapshot;
         programStringState TREASURY_VOTE_TALLY_HASH_PORT tally;
         number_of TREASURY_SPEND_CAP_PORT cap; number_of TREASURY_SPENT_PORT spent;
         programStringState TREASURY_OUTCOME_PROOF_ID_PORT outcome].

Definition treasury_build (i : BuildInput) : result OmniaError (list StateValue) :=
  let prev := b_previousState i in
  let snapshot := getStateString prev TREASURY_MEMBERSHIP_SNAPSHOT_HASH_PORT "" in
  let tally := getStateString prev TREASURY_VOTE_TALLY_HASH_PORT "" in
  let cap := getStateBigInt prev TREASURY_SPEND_CAP_PORT 0 in
  let spent := getStateBigInt prev TREASURY_SPENT_PORT 0 in
  let outcome := getStateString prev TREASURY_OUTCOME_PROOF_ID_PORT "" in
  let fresh t := treasury_vars (input_string t "membershipSnapshotHash" (SStr ""))
                   (input_string t "voteTallyHash" (SStr "")) (input_big t "spendCap" 0) (Ok 0)
                   (input_string t "outcomeProofId" (SStr "")) in
  match b_transition i with
  | None => treasury_vars snapshot tally cap spent outcome
  | Some t =>
      if String.eqb (action t) "configure" then fresh t
      else if String.eqb (action t) "spend" then
        amount ← input_big t "amount" 0;
        treasury_vars snapshot tally cap (prevSpent ← spent; Ok (prevSpent + amount)) outcome
      else if String.eqb (action t) "rotate_snapshot" then fresh t
      else treasury_vars snapshot tally cap spent outcome
  end.

Definition treasury_validate (i : ValidateInput) : result OmniaError ValidationResult :=
  let prev := v_previousState i in
  let next := Some (v_nextState i) in
  match v_transition i with
  | None => Ok None
  | Some t =>
      if String.eqb (action t) "configure" then
        spendCap ← getStateBigInt next TREASURY_SPEND_CAP_PORT 0;
        spent ← getStateBigInt next TREASURY_SPENT_PORT 0;
        Ok (checks [(spendCap <? 0, "treasury spend cap must be non-negative");
                    (negb (spent =? 0), "treasury configure must reset spent")])
      else if String.eqb (action t) "spend" then
        let outcomeProof := getStateString prev TREASURY_OUTCOME_PROOF_ID_PORT "" in
        let requested := getStateString next TREASURY_OUTCOME_PROOF_ID_PORT "" in
        if negb (String.eqb outcomeProof "") && negb (String.eqb requested outcomeProof)
        then Ok (Some "treasury outcome proof mismatch") else
        cap ← getStateBigInt prev TREASURY_SPEND_CAP_PORT 0;
        prevSpent ← getStateBigInt prev TREASURY_SPENT_PORT 0;
        nextSpent ← getStateBigInt next TREASURY_SPENT_PORT 0;
        amount ← input_big t "amount" 0;
        Ok (checks [(amount <? 0, "treasury spend amount must be non-negative");
                    (negb (nextSpent =? prevSpent + amount), "treasury spent accounting mismatch");
                    (nextSpent >? cap, "treasury spend exceeds cap")])
      else if String.eqb (action t) "rotate_snapshot" then
        spent ← getStateBigInt next TREASURY_SPENT_PORT 0;
        Ok (checks [(negb (spent =? 0), "treasury rotate must reset spent")])
      else Ok (Some ("unsupported treasury action: " +:+ action t))
  end.

Definition treasury_script : list string :=
  ["LET SPENT=" +:+ now_ TREASURY_SPENT_PORT; "LET CAP=" +:+ now_ TREASURY_SPEND_CAP_PORT; "ASSERT SPENT LTE CAP"]%string.
Definition TreasuryProgram : ChannelProgram :=
  mkProgram TREASURY_PROGRAM_ID 1 (injected treasury_script) treasury_build (Some treasury_validate).

(** ** Membership *)

Definition membership_vars (root : string) (pool payout : result OmniaError Z) : result OmniaError (list StateValue) :=
  array [programHexState MEMBERSHIP_MEMBER_ROOT_PORT root; number_of MEMBERSHIP_DIVIDEND_POOL_PORT pool;
         number_of MEMBERSHIP_PAYOUT_SEQUENCE_PORT payout].

Definition member_action (a : string) : bool := String.eqb a "member_add" || String.eqb a "member_remove".

Definition membership_build (i : BuildInput) : result OmniaError (list StateValue) :=
  let prev := b_previousState i in
  let root := getStateHex prev MEMBERSHIP_MEMBER_ROOT_PORT "" in
  let pool := getStateBigInt prev MEMBERSHIP_DIVIDEND_POOL_PORT 0 in
  let payout := getStateBigInt prev MEMBERSHIP_PAYOUT_SEQUENCE_PORT 0 in
  match b_transition i with
  | None => membership_vars root pool payout
  | Some t =>
      if member_action (action t) then
        membership_vars (normalizeHex (input_string t "memberRoot" (SStr ""))) pool payout
      else if String.eqb (action t) "mint_dividend" then
        amount ← input_big t "amount" 0;
        membership_vars root (prevPool ← pool; Ok (prevPool + amount)) payout
      else if String.eqb (action t) "pay_dividend" then
        newPayout ← input_big t "payoutSequence" 0;
        membership_vars root (Ok 0) (Ok newPayout)
      else membership_vars root pool payout
  end.

Definition membership_validate (i : ValidateInput) : result OmniaError ValidationResult :=
  let prev := v_previousState i in
  let next := Some (v_nextState i) in
  match v_transition i with
  | None => Ok None
  | Some t =>
      if member_action (action t) then
        let root := normalizeHex (input_string t "memberRoot" (SStr "")) in
        Ok (checks [(String.eqb root "", "membership member root required");
                    (negb (String.eqb (getStateHex next MEMBERSHIP_MEMBER_ROOT_PORT "") root),
                     "membership member root mismatch")])
      else if String.eqb (action t) "mint_dividend" then
        amount ← input_big t "amount" 0;
        prevPool ← getStateBigInt prev MEMBERSHIP_DIVIDEND_POOL_PORT 0;
        nextPool ← getStateBigInt next MEMBERSHIP_DIVIDEND_POOL_PORT 0;
        Ok (checks [(amount <? 0, "membership dividend amount must be non-negative");
                    (negb (nextPool =? prevPool + amount), "membership dividend pool mismatch")])
      else if String.eqb (action t) "pay_dividend" then
        payout ← input_big t "payoutSequence" 0;
        prevPayout ← getStateBigInt prev MEMBERSHIP_PAYOUT_SEQUENCE_PORT 0;
        nextPayout ← getStateBigInt next MEMBERSHIP_PAYOUT_SEQUENCE_PORT 0;
        nextPool ← getStateBigInt next MEMBERSHIP_DIVIDEND_POOL_PORT 0;
        Ok (checks [(payout <=? prevPayout, "membership payout must advance sequence");
                    (negb (nextPayout =? payout), "membership payout sequence mismatch");
                    (negb (nextPool =? 0), "membership payout must empty pool")])
      else Ok (Some ("unsupported membership action: " +:+ action t))
  end.

Definition membership_script : list string :=
  ["LET ROOT=" +:+ now_ MEMBERSHIP_MEMBER_ROOT_PORT; "LET POOL=" +:+ now_ MEMBERSHIP_DIVIDEND_POOL_PORT; "ASSERT POOL GTE 0"]%string.
Definition MembershipProgram : ChannelProgram :=
  mkProgram MEMBERSHIP_PROGRAM_ID 1 (injected membership_script) membership_build (Some membership_validate).

(** ** Asset *)

Definition asset_vars (token : string) (a b total : result OmniaError Z) : result OmniaError (list StateValue) :=
  array [programHexState ASSET_TOKEN_ID_PORT token; number_of ASSET_HOLDER_A_BALANCE_PORT a;
         number_of ASSET_HOLDER_B_BALANCE_PORT b; number_of ASSET_TOTAL_PORT total].

(** The balances after a transfer of [amount] to [to]. *)
Definition moved (to : string) (amount a b : Z) : Z * Z :=
  (if String.eqb to "a" then a + amount else a - amount, if String.eqb to "a" then b - amount else b + amount).

Definition asset_build (i : BuildInput) : result OmniaError (list StateValue) :=
  let prev := b_previousState i in
  let token := getStateHex prev ASSET_TOKEN_ID_PORT "" in
  let prevA := getStateBigInt prev ASSET_HOLDER_A_BALANCE_PORT 0 in
  let prevB := getStateBigInt prev ASSET_HOLDER_B_BALANCE_PORT 0 in
  let prevTotal := getStateBigInt prev ASSET_TOTAL_PORT 0 in
  match b_transition i with
  | None => asset_vars token prevA prevB prevTotal
  | Some t =>
      if String.eqb (action t) "configure" then
        a ← input_big t "holderABalance" 0;
        b ← input_big t "holderBBalance" 0;
        asset_vars (normalizeHex (input_string t "tokenId" (SStr ""))) (Ok a) (Ok b) (Ok (a + b))
      else if String.eqb (action t) "transfer" then
        amount ← input_big t "amount" 0;
        let to := input_string t "to" (SStr "b") in
        a ← prevA; b ← prevB; total ← prevTotal;
        let ab := moved to amount a b in
        asset_vars token (Ok ab.1) (Ok ab.2) (Ok total)
      else asset_vars token prevA prevB prevTotal
  end.

Definition asset_validate (i : ValidateInput) : result OmniaError ValidationResult :=
  let prev := v_previousState i in
  let next := Some (v_nextState i) in
  match v_transition i with
  | None => Ok None
  | Some t =>
      if String.eqb (action t) "configure" then
        a ← getStateBigInt next ASSET_HOLDER_A_BALANCE_PORT 0;
        b ← getStateBigInt next ASSET_HOLDER_B_BALANCE_PORT 0;
        total ← getStateBigInt next ASSET_TOTAL_PORT 0;
        Ok (checks [((a <? 0) || (b <? 0), "asset balances must be non-negative");
                    (negb (total =? a + b), "asset conservation mismatch")])
      else if String.eqb (action t) "transfer" then
        amount ← input_big t "amount" 0;
        let to := input_string t "to" (SStr "b") in
        if amount <? 0 then Ok (Some "asset transfer amount must be non-negative") else
        prevA ← getStateBigInt prev ASSET_HOLDER_A_BALANCE_PORT 0;
        prevB ← getStateBigInt prev ASSET_HOLDER_B_BALANCE_PORT 0;
        total ← getStateBigInt prev ASSET_TOTAL_PORT 0;
        nextA ← getStateBigInt next ASSET_HOLDER_A_BALANCE_PORT 0;
        nextB ← getStateBigInt next ASSET_HOLDER_B_BALANCE_PORT 0;
        nextTotal ← getStateBigInt next ASSET_TOTAL_PORT 0;
        let expected := moved to amount prevA prevB in
        Ok (checks [((expected.1 <? 0) || (expected.2 <? 0), "asset transfer exceeds balance");
                    (negb (nextA =? expected.1) || negb (nextB =? expected.2), "asset balance accounting mismatch");
                    (negb (nextTotal =? total), "asset conservation mismatch")])
      else Ok (Some ("unsupported asset action: " +:+ action t))
  end.

Definition asset_script : list string :=
  ["LET A=" +:+ now_ ASSET_HOLDER_A_BALANCE_PORT; "LET B=" +:+ now_ ASSET_HOLDER_B_BALANCE_PORT;
   "LET TOTAL=" +:+ now_ ASSET_TOTAL_PORT; "ASSERT A GTE 0"; "ASSERT B GTE 0"; "ASSERT A + B EQ TOTAL"]%string.
Definition AssetProgram : ChannelProgram :=
  mkProgram ASSET_PROGRAM_ID 1 (injected asset_script) asset_build (Some asset_validate).

(** ** The registry *)

Definition program_key (i : string) (v : Z) : string := i +:+ "@" +:+ num_to_string (of_Z v).
Notation Registry := (list (string * ChannelProgram)).

Definition registerChannelProgram (program : ChannelProgram) (programs : Registry) : Registry :=
  map_set (program_key (id program) (version program)) program programs.

(** The registry after the module is loaded. *)
Definition programs : Registry :=
  foldl (λ r p, registerChannelProgram p r) []
    [DefaultEltooPaymentProgram; CounterProgram; MeterProgram; HTLCPaymentProgram; VaultProgram;
     TreasuryProgram; MembershipProgram; AssetProgram].

(** The argument [{ id, version }]: either member may be absent. *)
Definition resolveChannelProgram (registry : Registry) (program : option string * option Z)
    : result OmniaError ChannelProgram :=
  let i := default (id DefaultEltooPaymentProgram) program.1 in
  let v := default (version DefaultEltooPaymentProgram) program.2 in
  of_option (Plain ("Unknown ChannelProgram: " +:+ i +:+ "@" +:+ num_to_string (of_Z v)))
    (map_get (program_key i v) registry).
(** ** Update transactions *)

Definition buildProgramUpdateTx (registry : Registry) (channel : OmniaChannel) (sequence : Z) (balances : Balances)
    (pendingHTLCs : list HTLCRecord) (transition : jsval) : result OmniaError OmniaTxDraft :=
  program ← resolveChannelProgram registry (Some (programId channel), Some (programVersion channel));
  canonicalTransition ← canonicalizeProgramTransition transition;
  programStateVariables ← buildStateVariables program
    (mkBuild channel sequence balances (List.filter is_pending pendingHTLCs) false (latestState channel)
       canonicalTransition);
  buildUpdateTx sha3_256 channel sequence balances pendingHTLCs programStateVariables.

Definition computeProgramUpdateDigest (registry : Registry) (channel : OmniaChannel) (sequence : Z)
    (balances : Balances) (pendingHTLCs : list HTLCRecord) (transition : jsval) : result OmniaError Bytes :=
  draft ← buildProgramUpdateTx registry channel sequence balances pendingHTLCs transition;
  computeOmniaTxDigest sha3_256 draft.

Definition computeProgramUpdateDigestHex (registry : Registry) (channel : OmniaChannel) (sequence : Z)
    (balances : Balances) (pendingHTLCs : list HTLCRecord) (transition : jsval) : result OmniaError string :=
  digest ← computeProgramUpdateDigest registry channel sequence balances pendingHTLCs transition;
  Ok (bytesToHex digest).

End Programs.
End Pg.
