(* ===== verification/ProgramsSpec.v ===== *)
(** * Omnia: what the channel programs guarantee

    Over every history of updates that a verifier accepts, the ledgers that run
    inside a channel balance: an asset is conserved, a treasury never spends
    beyond its cap, and a vault loses value only by a release in time. *)

From Stdlib Require Import ZArith Lia QArith Ascii String.
From stdpp Require Import base gmap list strings.
From S2P Require Import Prelude JsBase JsText JsMap Watermark Guards Omnia Transactions TransactionsSpec Programs.

Module PgSpec.
Import Js JsText Gd Om Tx TxSpec Pg.

(** ** Reading variables back *)

Definition view (l : list StateValue) (p : Z) : option string :=
  scalar_string ∘ value <$> List.find (λ v, port v =? p) l.

Lemma stateVariablesEqual_view l l' p : stateVariablesEqual l l' = true → view l p = view l' p.
Proof.
  revert l'; induction l as [|a l IH]; intros [|b l'] H; try done.
  simpl in H. apply andb_true_iff in H as [Hab H]. unfold same_state_value in Hab.
  rewrite !andb_true_iff in Hab. destruct Hab as [[Hp%Z.eqb_eq _] Hs%String.eqb_eq].
  unfold view in *. simpl. rewrite Hp. destruct (port b =? p); [simpl; by rewrite Hs | by apply IH].
Qed.

Lemma getStateBigInt_view st p d :
  getStateBigInt (Some st) p d = match view (stateVariables st) p with Some s => BigInt s | None => Ok d end.
Proof. unfold getStateBigInt, getStateValue, view. simpl. by destruct (List.find _ _). Qed.
Lemma getStateString_view st p d :
  getStateString (Some st) p d = default d (view (stateVariables st) p).
Proof. unfold getStateString, getStateValue, view. simpl. by destruct (List.find _ _). Qed.

Lemma BigInt_big z : BigInt (big_to_string z) = Ok z.
Proof. unfold BigInt. by rewrite big_of_string_big. Qed.

(** ** Accepted updates *)

Section programs.
Context (sha3_256 : string → string).

(** The update has a digest to sign: its variables can be written. *)
Definition writable (vars : list StateValue) : Prop := Forall (λ sv, is_ok (writeStateValueLocal sv) = true) vars.

(** The checks a verifier makes on the program of an update: its variables are
    those its builder derives, and the program's own validator has no objection. *)
Definition program_accepts (p : ChannelProgram) (c : OmniaChannel) (n : Z) (bal : Balances) (hs : list HTLCRecord)
    (tr : option ProgramTransition) (next : SignedChannelState) : Prop :=
  ∃ vars h, buildStateVariables p (mkBuild c n bal hs false (latestState c) tr) = Ok vars ∧
    writable vars ∧ sequence next = n ∧
    stateVariablesEqual (stateVariables next)
      (channelStateVars false n ++ committed_vars vars ++ [mkSV STATE_COMMITMENT_V2_PORT (SStr h) THex]) = true ∧
    match validateTransition p with
    | Some v => v (mkValidate c (latestState c) next tr) = Ok None
    | None => True
    end.

Lemma writable_number p z : is_ok (writeStateValueLocal (mkSV p (SBig z) TNumber)) = true → 0 <= z.
Proof.
  unfold writeStateValueLocal. cbn [port value type].
  destruct (writeMiniByteLocal p); [|done]. cbn [mbind result_bind].
  unfold writeMiniNumberLocal, bigintToJavaBytes, throw_if. destruct (Z.ltb_spec z 0); [done | lia].
Qed.

(** ** Assets *)

Definition asset_of (st : option SignedChannelState) : result OmniaError (Z * Z * Z) :=
  a ← getStateBigInt st ASSET_HOLDER_A_BALANCE_PORT 0;
  b ← getStateBigInt st ASSET_HOLDER_B_BALANCE_PORT 0;
  t ← getStateBigInt st ASSET_TOTAL_PORT 0;
  Ok (a, b, t).

Lemma asset_vars_Ok token a b t vars :
  asset_vars token a b t = Ok vars →
  ∃ x y z, a = Ok x ∧ b = Ok y ∧ t = Ok z ∧
  vars = [mkSV ASSET_TOKEN_ID_PORT (SStr token) THex; mkSV ASSET_HOLDER_A_BALANCE_PORT (SBig x) TNumber;
          mkSV ASSET_HOLDER_B_BALANCE_PORT (SBig y) TNumber; mkSV ASSET_TOTAL_PORT (SBig z) TNumber].
Proof.
  unfold asset_vars, array, number_of, programHexState. intros H.
  destruct a as [x|], b as [y|], t as [z|]; simpl in H; destruct (is_hex_text token); simpl in H; try done.
  injection H as <-. eauto 8.
Qed.

Lemma asset_of_built next n token x y z h :
  stateVariablesEqual (stateVariables next)
    (channelStateVars false n ++
     committed_vars [mkSV ASSET_TOKEN_ID_PORT (SStr token) THex; mkSV ASSET_HOLDER_A_BALANCE_PORT (SBig x) TNumber;
       mkSV ASSET_HOLDER_B_BALANCE_PORT (SBig y) TNumber; mkSV ASSET_TOTAL_PORT (SBig z) TNumber] ++
     [mkSV STATE_COMMITMENT_V2_PORT (SStr h) THex]) = true →
  asset_of (Some next) = Ok (x, y, z).
Proof.
  intros H. unfold asset_of. rewrite !getStateBigInt_view, !(stateVariablesEqual_view _ _ _ H).
  unfold view. cbn. by rewrite !BigInt_big.
Qed.

Lemma moved_sum to m a b : (moved to m a b).1 + (moved to m a b).2 = a + b.
Proof. unfold moved. simpl. destruct (String.eqb to "a"); lia. Qed.

(** One accepted update of an asset: the balances are non-negative, a transfer
    conserves their sum, and only [configure] sets a new total. *)
Lemma asset_step c n bal hs tr next a b t :
  program_accepts AssetProgram c n bal hs tr next →
  asset_of (latestState c) = Ok (a, b, t) → 0 <= a → 0 <= b → a + b = t →
  ∃ a' b' t', asset_of (Some next) = Ok (a', b', t') ∧ 0 <= a' ∧ 0 <= b' ∧ a' + b' = t' ∧
    (t' ≠ t → ∃ x, tr = Some x ∧ action x = "configure"%string).
Proof.
  intros (vars & h & Hb & Hw & Hseq & Hv & Hval) Hprev Ha Hb' Ht.
  cbn [buildStateVariables AssetProgram] in Hb. unfold asset_build in Hb. cbn [b_previousState b_transition] in Hb.
  assert (Hvars : ∃ token x y z, vars = [mkSV ASSET_TOKEN_ID_PORT (SStr token) THex;
     mkSV ASSET_HOLDER_A_BALANCE_PORT (SBig x) TNumber; mkSV ASSET_HOLDER_B_BALANCE_PORT (SBig y) TNumber;
     mkSV ASSET_TOTAL_PORT (SBig z) TNumber] ∧ x + y = z ∧
     (z ≠ t → ∃ x, tr = Some x ∧ action x = "configure"%string)).
  { unfold asset_of in Hprev. apply result_bind_Ok in Hprev as (a0 & Ea & Hprev).
    apply result_bind_Ok in Hprev as (b0 & Eb & Hprev). apply result_bind_Ok in Hprev as (t0 & Et & [= -> -> ->]).
    rewrite Ea, Eb, Et in Hb. destruct tr as [x|].
    - destruct (String.eqb_spec (action x) "configure") as [Hc|Hc].
      { apply result_bind_Ok in Hb as (a1 & _ & Hb). apply result_bind_Ok in Hb as (b1 & _ & Hb).
        apply asset_vars_Ok in Hb as (? & ? & ? & [= <-] & [= <-] & [= <-] & ->). eexists _, _, _, _.
        split; [done|]. split; [done|]. intros _. by exists x. }
      destruct (String.eqb_spec (action x) "transfer") as [Htr|Htr].
      { apply result_bind_Ok in Hb as (amount & _ & Hb). cbn [mbind result_bind] in Hb.
        apply asset_vars_Ok in Hb as (? & ? & ? & [= <-] & [= <-] & [= <-] & ->). eexists _, _, _, _.
        split; [done|]. split; [|done]. exact (eq_trans (moved_sum _ _ a b) Ht). }
      apply asset_vars_Ok in Hb as (? & ? & ? & [= <-] & [= <-] & [= <-] & ->). eexists _, _, _, _. by split_and!.
    - apply asset_vars_Ok in Hb as (? & ? & ? & [= <-] & [= <-] & [= <-] & ->). eexists _, _, _, _. by split_and!. }
  destruct Hvars as (token & x & y & z & -> & Hsum & Hconf). exists x, y, z.
  split; [by eapply asset_of_built|]. unfold writable in Hw.
  apply Forall_cons in Hw as [_ Hw]. apply Forall_cons in Hw as [Hx%writable_number Hw].
  apply Forall_cons in Hw as [Hy%writable_number Hw]. done.
Qed.

(** ** Treasuries *)

Definition treasury_of (st : option SignedChannelState) : result OmniaError (Z * Z) :=
  cap ← getStateBigInt st TREASURY_SPEND_CAP_PORT 0;
  spent ← getStateBigInt st TREASURY_SPENT_PORT 0;
  Ok (cap, spent).

Definition treasury_list (snapshot tally : string) (cap spent : Z) (outcome : string) : list StateValue :=
  [mkSV TREASURY_MEMBERSHIP_SNAPSHOT_HASH_PORT (SStr snapshot) TString;
   mkSV TREASURY_VOTE_TALLY_HASH_PORT (SStr tally) TString;
   mkSV TREASURY_SPEND_CAP_PORT (SBig cap) TNumber; mkSV TREASURY_SPENT_PORT (SBig spent) TNumber;
   mkSV TREASURY_OUTCOME_PROOF_ID_PORT (SStr outcome) TString].

Lemma treasury_vars_Ok snapshot tally cap spent outcome vars :
  treasury_vars snapshot tally cap spent outcome = Ok vars →
  ∃ x y, cap = Ok x ∧ spent = Ok y ∧ vars = treasury_list snapshot tally x y outcome.
Proof.
  unfold treasury_vars, array, number_of, programStringState. intros H.
  destruct cap as [x|], spent as [y|]; simpl in H; try done. injection H as <-. eauto 8.
Qed.

Lemma treasury_of_built next n s t x y o h :
  stateVariablesEqual (stateVariables next)
    (channelStateVars false n ++ committed_vars (treasury_list s t x y o) ++
     [mkSV STATE_COMMITMENT_V2_PORT (SStr h) THex]) = true →
  treasury_of (Some next) = Ok (x, y).
Proof.
  intros H. unfold treasury_of. rewrite !getStateBigInt_view, !(stateVariablesEqual_view _ _ _ H).
  unfold view. cbn. by rewrite !BigInt_big.
Qed.

(** One accepted update of a treasury: what is spent stays within the cap, and
    only [configure] and [rotate_snapshot] reset it. *)
Lemma treasury_step c n bal hs tr next cap spent :
  program_accepts TreasuryProgram c n bal hs tr next →
  treasury_of (latestState c) = Ok (cap, spent) → 0 <= spent <= cap →
  ∃ cap' spent', treasury_of (Some next) = Ok (cap', spent') ∧ 0 <= spent' <= cap' ∧
    (spent' < spent → ∃ x, tr = Some x ∧ (action x = "configure" ∨ action x = "rotate_snapshot")%string).
Proof.
  intros (vars & h & Hb & Hw & Hseq & Hv & Hval) Hprev Hs.
  cbn [buildStateVariables TreasuryProgram] in Hb. unfold treasury_build in Hb. cbn [b_previousState b_transition] in Hb.
  cbn [validateTransition TreasuryProgram] in Hval. unfold treasury_validate in Hval.
  cbn [v_previousState v_nextState v_transition] in Hval.
  unfold treasury_of in Hprev. apply result_bind_Ok in Hprev as (cap0 & Ec & Hprev).
  apply result_bind_Ok in Hprev as (spent0 & Es & [= -> ->]). rewrite Ec, Es in Hb, Hval.
  assert (Hnext : ∀ s t x y o, vars = treasury_list s t x y o → treasury_of (Some next) = Ok (x, y) ∧ 0 <= x ∧ 0 <= y).
  { intros s t x y o ->. split; [by eapply treasury_of_built|]. unfold writable, treasury_list in Hw.
    do 2 (apply Forall_cons in Hw as [_ Hw]). apply Forall_cons in Hw as [Hx%writable_number Hw].
    by apply Forall_cons in Hw as [Hy%writable_number _]. }
  destruct tr as [x|].
  2:{ apply treasury_vars_Ok in Hb as (? & ? & [= <-] & [= <-] & ->).
      destruct (Hnext _ _ _ _ _ eq_refl) as (Ht & _). exists cap, spent. split; [done|]. split; [done|]. lia. }
  destruct (String.eqb_spec (action x) "configure") as [Hc|Hc].
  { apply treasury_vars_Ok in Hb as (cap' & ? & _ & [= <-] & ->).
    destruct (Hnext _ _ _ _ _ eq_refl) as (Ht & ? & _). exists cap', 0. split; [done|]. split; [lia|]. intros _. eauto. }
  destruct (String.eqb_spec (action x) "spend") as [Hsp|Hsp].
  - apply result_bind_Ok in Hb as (amount & Ea & Hb).
    apply treasury_vars_Ok in Hb as (? & spent' & [= <-] & [= <-] & ->).
    destruct (Hnext _ _ _ _ _ eq_refl) as (Ht & ? & ?). exists cap, (spent + amount). split; [done|].
    unfold treasury_of in Ht. apply result_bind_Ok in Ht as (cap1 & Ec1 & Ht).
    apply result_bind_Ok in Ht as (spent1 & Es1 & [= -> ->]).
    destruct (negb _ && _) in Hval; [done|]. cbn [mbind result_bind] in Hval. rewrite Es1, Ea in Hval.
    injection Hval as Hval. destruct (Z.ltb_spec amount 0); [done|]. destruct (negb _) in Hval; [done|].
    destruct (Z.gtb_spec (spent + amount) cap); [done|]. split; [|intros; exfalso]; lia.
  - destruct (String.eqb_spec (action x) "rotate_snapshot") as [Hr|Hr].
    + apply treasury_vars_Ok in Hb as (cap' & ? & _ & [= <-] & ->).
      destruct (Hnext _ _ _ _ _ eq_refl) as (Ht & ? & _). exists cap', 0. split; [done|]. split; [lia|]. intros _. eauto.
    + apply treasury_vars_Ok in Hb as (? & ? & [= <-] & [= <-] & ->).
      destruct (Hnext _ _ _ _ _ eq_refl) as (Ht & _). exists cap, spent. split; [done|]. split; [done|]. lia.
Qed.

(** ** Vaults *)

Definition vault_of (st : option SignedChannelState) : result OmniaError (Z * Z) :=
  locked ← getStateBigInt st VAULT_LOCKED_VALUE_PORT 0;
  release ← getStateBigInt st VAULT_RELEASE_SEQUENCE_PORT 0;
  Ok (locked, release).

Definition vault_list (locked release : Z) (swept : bool) : list StateValue :=
  [mkSV VAULT_LOCKED_VALUE_PORT (SBig locked) TNumber; mkSV VAULT_RELEASE_SEQUENCE_PORT (SBig release) TNumber;
   mkSV VAULT_SWEPT_PORT (SBool swept) TBool].

Lemma vault_vars_Ok locked release swept vars :
  vault_vars locked release swept = Ok vars →
  ∃ x y, locked = Ok x ∧ release = Ok y ∧ vars = vault_list x y swept.
Proof.
  unfold vault_vars, array, number_of, programBoolState. intros H.
  destruct locked as [x|], release as [y|]; simpl in H; try done. injection H as <-. eauto.
Qed.

Lemma vault_of_built next n x y s h :
  stateVariablesEqual (stateVariables next)
    (channelStateVars false n ++ committed_vars (vault_list x y s) ++
     [mkSV STATE_COMMITMENT_V2_PORT (SStr h) THex]) = true →
  vault_of (Some next) = Ok (x, y).
Proof.
  intros H. unfold vault_of. rewrite !getStateBigInt_view, !(stateVariablesEqual_view _ _ _ H).
  unfold view. cbn. by rewrite !BigInt_big.
Qed.

(** One accepted update of a vault: it only loses value by a [release] at or
    after the release sequence it carries. *)
Lemma vault_step c n bal hs tr next L R :
  program_accepts VaultProgram c n bal hs tr next → vault_of (latestState c) = Ok (L, R) →
  ∃ L' R', vault_of (Some next) = Ok (L', R') ∧ 0 <= L' ∧ 0 <= R' ∧
    (L' < L → R <= n ∧ ∃ x, tr = Some x ∧ action x = "release"%string).
Proof.
  intros (vars & h & Hb & Hw & Hseq & Hv & Hval) Hprev.
  cbn [buildStateVariables VaultProgram] in Hb. unfold vault_build in Hb. cbn [b_previousState b_transition] in Hb.
  cbn [validateTransition VaultProgram] in Hval. unfold vault_validate in Hval.
  cbn [v_previousState v_nextState v_transition] in Hval.
  unfold vault_of in Hprev. apply result_bind_Ok in Hprev as (L0 & EL & Hprev).
  apply result_bind_Ok in Hprev as (R0 & ER & [= -> ->]). rewrite EL, ER in Hb, Hval.
  assert (Hnext : ∀ x y s, vars = vault_list x y s → vault_of (Some next) = Ok (x, y) ∧ 0 <= x ∧ 0 <= y).
  { intros x y s ->. split; [by eapply vault_of_built|]. unfold writable, vault_list in Hw.
    apply Forall_cons in Hw as [Hx%writable_number Hw]. by apply Forall_cons in Hw as [Hy%writable_number _]. }
  destruct tr as [x|].
  2:{ apply vault_vars_Ok in Hb as (? & ? & [= <-] & [= <-] & ->).
      destruct (Hnext _ _ _ eq_refl) as (Ht & ? & ?). exists L, R. split_and!; [done..|lia]. }
  destruct (String.eqb_spec (action x) "lock") as [Hl|Hl].
  { apply result_bind_Ok in Hb as (amount & Ea & Hb). apply result_bind_Ok in Hb as (release & Er & Hb).
    apply vault_vars_Ok in Hb as (? & ? & [= <-] & [= <-] & ->).
    destruct (Hnext _ _ _ eq_refl) as (Ht & ? & ?). exists amount, release. split_and!; [done..|].
    intros Hlt. exfalso. rewrite Ea, Er in Hval. cbn [mbind result_bind] in Hval.
    destruct (Z.ltb_spec amount 0); [done|].
    unfold vault_of in Ht. apply result_bind_Ok in Ht as (L1 & EL1 & Ht).
    apply result_bind_Ok in Ht as (R1 & ER1 & [= -> ->]). rewrite EL1, ER1 in Hval. cbn [mbind result_bind] in Hval.
    injection Hval as Hval. do 3 (destruct (_ : bool) in Hval; [done|]).
    destruct (Z.gtb_spec L 0); [|lia]. rewrite Hseq in Hval. cbn [andb] in Hval.
    destruct (Z.ltb_spec n R) as [Hn|Hn]; cbn [andb] in Hval.
    - destruct (Z.eqb_spec amount L); [lia|done].
    - replace (n >=? R) with true in Hval by lia. replace (amount <? L) with true in Hval by lia. done. }
  destruct (String.eqb_spec (action x) "extend") as [He|He].
  { apply result_bind_Ok in Hb as (release & Er & Hb).
    apply vault_vars_Ok in Hb as (? & ? & [= <-] & [= <-] & ->).
    destruct (Hnext _ _ _ eq_refl) as (Ht & ? & ?). exists L, release. split_and!; [done..|lia]. }
  destruct (String.eqb_spec (action x) "release") as [Hr|Hr].
  - apply vault_vars_Ok in Hb as (? & ? & [= <-] & [= <-] & ->).
    destruct (Hnext _ _ _ eq_refl) as (Ht & ? & ?). exists 0, R. split_and!; [done..|]. intros _.
    cbn [mbind result_bind] in Hval. rewrite Hseq in Hval. destruct (Z.ltb_spec n R); [done|]. eauto.
  - apply vault_vars_Ok in Hb as (? & ? & [= <-] & [= <-] & ->).
    destruct (Hnext _ _ _ eq_refl) as (Ht & ? & ?). exists L, R. split_and!; [done..|lia].
Qed.

Lemma be_acc_length fuel n s : (String.length (be_acc fuel n s) <= fuel + String.length s)%nat.
Proof.
  revert n s; induction fuel as [|fuel IH]; intros n s; simpl; [lia|].
  destruct (n <? 256); simpl; [lia|]. specialize (IH (n / 256) (String (byte (n mod 256)) s)). simpl in IH. lia.
Qed.

Lemma small_number_writable p z : 0 <= p <= 255 → 0 <= z < 2 ^ 64 → is_ok (writeStateValueLocal (mkSV p (SBig z) TNumber)) = true.
Proof.
  intros Hp Hz. unfold writeStateValueLocal. cbn [port value type].
  unfold writeMiniByteLocal, throw_if. replace ((p <? 0) || (p >? 255)) with false by lia. cbn [mbind result_bind].
  unfold writeMiniNumberLocal, bigintToJavaBytes, throw_if. replace (z <? 0) with false by lia. cbn [mbind result_bind].
  assert (Hlen : (String.length (big_endian z) <= 64)%nat).
  { unfold big_endian. pose proof (be_acc_length (S (Z.to_nat (Z.log2 z))) z "") as H. simpl in *.
    assert (Z.log2 z < 64); [|lia]. destruct (decide (z = 0)) as [->|]; [done|]. apply Z.log2_lt_pow2; lia. }
  destruct (big_endian z) as [|x s]; [done|]. simpl in Hlen.
  assert (Hb : ∀ t, (String.length t <= 65)%nat → (Z.of_nat (String.length t) >? 255) = false)
    by (intros; lia).
  destruct (code x >=? 128); cbn [mbind result_bind]; rewrite Hb by (simpl; lia); done.
Qed.

Lemma stateVariablesEqual_refl l : stateVariablesEqual l l = true.
Proof.
  induction l as [|a l IH]; [done|]. simpl. rewrite IH. unfold same_state_value.
  by rewrite Z.eqb_refl, String.eqb_refl, bool_decide_true.
Qed.

(** The state whose variables the builder derives. *)
Definition built_state (n : Z) (bal : Balances) (vars : list StateValue) : SignedChannelState :=
  mkState n bal [] (channelStateVars false n ++ committed_vars vars ++
    [mkSV STATE_COMMITMENT_V2_PORT (SStr "") THex]) "" [] [] None None.

Definition relock (L : Z) : ProgramTransition :=
  mkTransition "lock" (Some [("amount", SBig L); ("releaseSequence", SBig 0)]%string) None None.
Definition release_now : ProgramTransition := mkTransition "release" None None None.

Lemma built_vault n bal x y s : vault_of (Some (built_state n bal (vault_list x y s))) = Ok (x, y).
Proof. eapply vault_of_built. apply stateVariablesEqual_refl. Qed.

Lemma relock_accepted c n bal hs L R :
  vault_of (latestState c) = Ok (L, R) → 0 < L < 2 ^ 64 → n < R →
  program_accepts VaultProgram c n bal hs (Some (relock L)) (built_state n bal (vault_list L 0 false)).
Proof.
  intros Hprev HL Hn. unfold vault_of in Hprev. apply result_bind_Ok in Hprev as (L0 & EL & Hprev).
  apply result_bind_Ok in Hprev as (R0 & ER & [= -> ->]).
  pose proof (built_vault n bal L 0 false) as Hv. unfold vault_of in Hv.
  apply result_bind_Ok in Hv as (L1 & EL1 & Hv). apply result_bind_Ok in Hv as (R1 & ER1 & [= -> ->]).
  exists (vault_list L 0 false), "". split; [|split; [|split; [done|split; [apply stateVariablesEqual_refl|] ] ] ].
  - cbn [buildStateVariables VaultProgram]. unfold vault_build, input_big, input_string, input, relock.
    cbn -[big_to_string BigInt]. rewrite !BigInt_big. done.
  - repeat (apply Forall_cons; split); [apply small_number_writable; (done || lia)..|done|constructor].
  - cbn [validateTransition VaultProgram]. unfold vault_validate. cbn [v_previousState v_nextState v_transition].
    rewrite EL, ER, EL1, ER1. unfold input_big, input_string, input, relock.
    cbn -[big_to_string BigInt built_state]. rewrite !BigInt_big. cbn [mbind result_bind].
    destruct (Z.ltb_spec L 0); [lia|]. cbn [checks]. rewrite !Z.eqb_refl. cbn [negb].
    replace (getStateBool (Some (built_state n bal (vault_list L 0 false))) VAULT_SWEPT_PORT false) with false by done.
    cbn [sequence built_state]. replace (n >=? R) with false by lia. rewrite !andb_false_r. done.
Qed.

Lemma release_accepted c n bal hs L s :
  vault_of (latestState c) = Ok (L, 0) → 0 <= n → s = true →
  program_accepts VaultProgram c n bal hs (Some release_now) (built_state n bal (vault_list 0 0 s)).
Proof.
  intros Hprev Hn ->. unfold vault_of in Hprev. apply result_bind_Ok in Hprev as (L0 & EL & Hprev).
  apply result_bind_Ok in Hprev as (R0 & ER & [= -> ->]).
  exists (vault_list 0 0 true), "". split; [|split; [|split; [done|split; [apply stateVariablesEqual_refl|] ] ] ].
  - cbn [buildStateVariables VaultProgram]. unfold vault_build. cbn [b_previousState b_transition].
    rewrite EL, ER. done.
  - repeat (apply Forall_cons; split); done.
  - cbn [validateTransition VaultProgram]. unfold vault_validate. cbn [v_previousState v_nextState v_transition].
    rewrite ER. cbn -[getStateBigInt getStateBool]. destruct (Z.ltb_spec n 0); [lia|]. done.
Qed.

(** ** Ledgers *)

(** The states a program reaches by accepted updates of a channel, from none. *)
Inductive ledger (p : ChannelProgram) : option SignedChannelState → Prop :=
| ledger_new : ledger p None
| ledger_update c n bal hs tr next :
    ledger p (latestState c) → program_accepts p c n bal hs tr next → ledger p (Some next).

Lemma asset_ledger st : ledger AssetProgram st →
  ∃ a b t, asset_of st = Ok (a, b, t) ∧ 0 <= a ∧ 0 <= b ∧ a + b = t.
Proof.
  induction 1 as [|c n bal hs tr next Hl (a & b & t & Hp & ? & ? & ?) Hacc]; [by exists 0, 0, 0|].
  destruct (asset_step _ _ _ _ _ _ _ _ _ Hacc Hp) as (a' & b' & t' & ? & ? & ? & ? & _); [done..|]. eauto 8.
Qed.

Lemma treasury_ledger st : ledger TreasuryProgram st → ∃ cap spent, treasury_of st = Ok (cap, spent) ∧ 0 <= spent <= cap.
Proof.
  induction 1 as [|c n bal hs tr next Hl (cap & spent & Hp & ?) Hacc]; [by exists 0, 0|].
  destruct (treasury_step _ _ _ _ _ _ _ _ Hacc Hp) as (cap' & spent' & ? & ? & _); [done|]. eauto.
Qed.

End programs.
(** ** Properties *)

(** C31. The ledgers run inside a channel balance, over every history of updates
    that a verifier accepts: an asset has non-negative balances that sum to its
    total, which only [configure] changes; a treasury's spending stays between
    zero and its cap, and falls only when it is configured or rotated. *)
Theorem program_ledgers_balance c n bal hs tr next :
  (ledger AssetProgram (latestState c) → program_accepts AssetProgram c n bal hs tr next →
   ∃ a b t a' b' t',
     asset_of (latestState c) = Ok (a, b, t) ∧ asset_of (Some next) = Ok (a', b', t') ∧
     0 <= a' ∧ 0 <= b' ∧ a' + b' = t' ∧ (t' ≠ t → ∃ x, tr = Some x ∧ action x = "configure"%string)) ∧
  (ledger TreasuryProgram (latestState c) → program_accepts TreasuryProgram c n bal hs tr next →
   ∃ cap spent cap' spent',
     treasury_of (latestState c) = Ok (cap, spent) ∧ treasury_of (Some next) = Ok (cap', spent') ∧
     0 <= spent' <= cap' ∧
     (spent' < spent → ∃ x, tr = Some x ∧ (action x = "configure" ∨ action x = "rotate_snapshot")%string)).
Proof.
  split.
  - intros Hl Hacc. destruct (asset_ledger _ Hl) as (a & b & t & Hp & ? & ? & ?).
    destruct (asset_step _ _ _ _ _ _ _ _ _ Hacc Hp) as (a' & b' & t' & ?); [done..|]. by exists a, b, t, a', b', t'.
  - intros Hl Hacc. destruct (treasury_ledger _ Hl) as (cap & spent & Hp & ?).
    destruct (treasury_step _ _ _ _ _ _ _ _ Hacc Hp) as (cap' & spent' & ?); [done|]. by exists cap, spent, cap', spent'.
Qed.

(** A channel whose latest signed state is [st]. *)
Definition with_latest (st : option SignedChannelState) : OmniaChannel :=
  let c := toy_channel in
  mkChannel (channelId c) (fundingTxId c) (fundingCoinId c) (fundingScript c) (programId c) (programVersion c)
    (fundingAddress c) (tokenId c) (tokenScale c) (totalValue c) (parties c) (c_balances c) (c_pendingHTLCs c)
    (currentSequence c) (onChainSequence c) st (stateLog c) (c_status c) (virtual c) None None None None None None
    (createdAt c) (updatedAt c).

Definition toy_configure : ProgramTransition :=
  mkTransition "configure" (Some [("spendCap", SBig 100)]%string) None None.
Definition toy_spend : ProgramTransition := mkTransition "spend" (Some [("amount", SStr "40")]%string) None None.
Definition toy_treasury_1 : SignedChannelState := built_state 1 [] (treasury_list "" "" 100 0 "").
Definition toy_treasury_2 : SignedChannelState := built_state 2 [] (treasury_list "" "" 100 40 "").

Ltac computed_update :=
  eexists _, ""%string; split; [vm_compute; reflexivity|];
  split; [repeat constructor|]; split; [reflexivity|]; split; vm_compute; reflexivity.

Lemma toy_configure_accepted :
  program_accepts TreasuryProgram (with_latest None) 1 [] [] (Some toy_configure) toy_treasury_1.
Proof. computed_update. Qed.
Lemma toy_spend_accepted :
  program_accepts TreasuryProgram (with_latest (Some toy_treasury_1)) 2 [] [] (Some toy_spend) toy_treasury_2.
Proof. computed_update. Qed.

Lemma program_ledgers_balance_witness :
  ∃ cap' spent', treasury_of (Some toy_treasury_2) = Ok (cap', spent') ∧ 0 <= spent' <= cap'.
Proof.
  destruct (proj2 (program_ledgers_balance (with_latest (Some toy_treasury_1)) 2 [] [] (Some toy_spend) toy_treasury_2))
    as (_ & _ & cap' & spent' & _ & H1 & H2 & _).
  - exact (ledger_update TreasuryProgram (with_latest None) 1 [] [] (Some toy_configure) toy_treasury_1
             (ledger_new TreasuryProgram) toy_configure_accepted).
  - exact toy_spend_accepted.
  - exists cap', spent'. exact (conj H1 H2).
Defined.

(** C32. A vault loses value only by a [release] at or after the release sequence
    of the state it leaves; but a [lock] of the same amount is accepted before
    that sequence and brings it forward, to any earlier one, so that the very
    next update empties the vault. *)
Theorem vault_value_leaves_in_time_until_relocked c n bal hs L R :
  vault_of (latestState c) = Ok (L, R) →
  (∀ tr next, program_accepts VaultProgram c n bal hs tr next →
     ∃ L' R', vault_of (Some next) = Ok (L', R') ∧ 0 <= L' ∧
       (L' < L → R <= n ∧ ∃ x, tr = Some x ∧ action x = "release"%string)) ∧
  (0 < L < 2 ^ 64 → 0 <= n < R →
   ∃ tr next, program_accepts VaultProgram c n bal hs (Some tr) next ∧ vault_of (Some next) = Ok (L, 0) ∧
     ∀ c', latestState c' = Some next →
       ∃ tr' next', program_accepts VaultProgram c' (n + 1) bal hs (Some tr') next' ∧ vault_of (Some next') = Ok (0, 0)).
Proof.
  intros Hprev. split.
  - intros tr next Hacc. destruct (vault_step _ _ _ _ _ _ _ _ Hacc Hprev) as (L' & R' & ? & ? & ? & ?). eauto.
  - intros HL [Hn HR]. exists (relock L), (built_state n bal (vault_list L 0 false)).
    split; [by eapply relock_accepted|]. split; [apply built_vault|]. intros c' Hc'.
    exists release_now, (built_state (n + 1) bal (vault_list 0 0 true)). split; [|apply built_vault].
    eapply release_accepted; [rewrite Hc'; apply built_vault | lia | done].
Qed.

Lemma vault_value_leaves_in_time_until_relocked_witness :
  ∃ tr next, program_accepts VaultProgram (with_latest (Some (built_state 3 [] (vault_list 1000 500 false)))) 4 [] []
    (Some tr) next ∧ vault_of (Some next) = Ok (1000, 0).
Proof.
  destruct (vault_value_leaves_in_time_until_relocked
    (with_latest (Some (built_state 3 [] (vault_list 1000 500 false)))) 4 [] [] 1000 500) as [_ H];
    [apply built_vault|].
  destruct H as (tr & next & H1 & H2 & _); [lia | lia |]. exists tr, next. split; assumption.
Defined.

End PgSpec.
