(* ===== verification/Sign.v ===== *)
(** * Omnia: signing a state update (packages/omnia/src sign.ts, close-package.ts, addresses.ts, wots.ts)

    The reserve, sign, commit cycle of a channel state over a lease provider, the
    close package that goes with it, and the checks of a received state. *)

From Stdlib Require Import ZArith Lia QArith Ascii String.
From stdpp Require Import base gmap list strings.
From S2P Require Import Prelude JsBase JsText Watermark Guards Omnia Transactions Programs.

Module Sg.
Import Js Gd Om Tx Pg.

(** ** What the channel layer is built on *)

(** Code of other packages: the hash kernel, WOTS address derivation, the address
    of an HTLC script, verification of a serialized tree signature. *)
Class Crypto := {
  sha3_256 : string → string;
  wotsAddressData : string → string;
  htlcScriptAddress : string → string → string → Z → result OmniaError string;
  verifyTreeSignature : Bytes → Bytes → Bytes → bool }.

Record Reservation := mkReservation { reservationId : string; indices : Wm.SigningIndices }.

(** The lease provider: allocation of one-time keys of a tree, and the settlement
    of a reservation.  Every call may throw and changes the provider. *)
Class WotsLeaseProvider (P : Type) := {
  reserveKeyUse : string → string → string → P → result OmniaError Reservation * P;
  commitKeyUse : string → string → P → result OmniaError unit * P;
  burnReservation : string → string → P → result OmniaError unit * P }.

(** The process: the signing guards, the provider, and every signature produced
    so far, with the tree and leaf that produced it. *)
Record World (P : Type) := mkWorld {
  w_guards : Guards;
  w_lease : P;
  w_signed : list (string * Wm.SigningIndices * Bytes) }.
Arguments mkWorld {P}. Arguments w_guards {P}. Arguments w_lease {P}. Arguments w_signed {P}.

(** A signer port gets the whole request; its custody is always self-custody. *)
Record SignRequest := mkRequest {
  requestId : string; digest : Bytes; summary : string; signers : list string;
  request_indices : Wm.SigningIndices; expiresAt : jsnum }.
Record SignerPort := mkPort {
  port_publicKeyDigest : string;
  port_sign : SignRequest → result OmniaError ChannelSignature }.

Section sign.
Context `{Crypto} {P : Type} `{WotsLeaseProvider P} (registry : list (string * ChannelProgram)).

Notation Omnia := (M (World P) OmniaError).

Definition on_guards {A} (m : Guarded A) : Omnia A :=
  zoom w_guards (λ g w, mkWorld g (w_lease w) (w_signed w)) (λ e, e) m.
Definition on_lease {A} (m : P → result OmniaError A * P) : Omnia A :=
  zoom w_lease (λ p w, mkWorld (w_guards w) p (w_signed w)) (λ e, e) m.

(** ** wots.ts *)

(** [hexToBytes] of core/src/bytes.ts. *)
Definition hexToBytes (hex : string) : result OmniaError Bytes :=
  let s := if starts_with "0x" hex then drop_str 2 hex else hex in
  _ ← throw_if (Nat.odd (String.length s)) (Plain "Invalid hex: odd-length string");
  _ ← throw_if (negb (str_forallb is_hex_digit s)) (Plain "Invalid hex");
  Ok (hex_pairs s).

Definition verifyChannelSignature (signature digest : Bytes) (publicKeyDigest : string) : bool :=
  if String.eqb signature "" then false else
  match hexToBytes publicKeyDigest with
  | Ok pk => (String.length pk =? 32)%nat && verifyTreeSignature pk digest signature
  | Err _ => false
  end.

(** ** addresses.ts *)

Definition canonicalSettlementAddress (party : ChannelParticipant) : string :=
  default (wotsAddressData (publicKeyDigest party)) (settlementAddress party).

Fixpoint resolve_addresses (parties : list ChannelParticipant) (supplied resolved : list (string * string))
    : result OmniaError (list (string * string)) :=
  match parties with
  | [] => Ok resolved
  | party :: parties =>
      let canonical := canonicalSettlementAddress party in
      _ ← throw_if (match map_get (partyId party) supplied with
                    | Some given => negb (String.eqb given canonical) | None => false end)
            (Plain ("Settlement address for party " +:+ partyId party +:+ " does not match the channel's agreed address"));
      resolve_addresses parties supplied (map_set (partyId party) canonical resolved)
  end.
Definition resolveSettlementAddresses (parties : list ChannelParticipant) (supplied : list (string * string)) :=
  resolve_addresses parties supplied [].

(** ** close-package.ts *)

Definition stateCommitmentV2Hex (vars : list StateValue) : result OmniaError string :=
  match List.find (λ v, port v =? STATE_COMMITMENT_V2_PORT) vars with
  | Some sv => Ok (toLowerCase (strip_0x (scalar_string (value sv))))
  | None => Err (Plain "Cannot build close package: missing STATE(102) commitment")
  end.

(** The program's variables for the update ([false]) or the settlement ([true]). *)
Definition program_vars (program : ChannelProgram) (channel : OmniaChannel) (sequence : Z) (balances : Balances)
    (pendingHTLCs : list HTLCRecord) (settlement : bool) (transition : option ProgramTransition) :=
  buildStateVariables program
    (mkBuild channel sequence balances pendingHTLCs settlement (latestState channel) transition).

Definition artifact (d : OmniaTxDraft) : result OmniaError ClosePackageArtifact :=
  h ← computeOmniaTxDigest sha3_256 d;
  Ok (mkArtifact (serializeTxDraft d) (hex_of_bytes h) [] []).

Definition buildUnsignedClosePackage (channel : OmniaChannel) (sequence : Z) (balances : Balances)
    (pendingHTLCs : list HTLCRecord) (stateVariables : list StateValue) (transition : option ProgramTransition)
    : result OmniaError SignedClosePackage :=
  partyAddresses ← resolveSettlementAddresses (parties channel) [];
  program ← resolveChannelProgram registry (Some (programId channel), Some (programVersion channel));
  programUpdateState ← program_vars program channel sequence balances pendingHTLCs false transition;
  updateDraft ← buildUpdateTx sha3_256 channel sequence balances pendingHTLCs programUpdateState;
  programSettlementState ← program_vars program channel sequence balances pendingHTLCs true transition;
  settlementDraft ← buildSettlementTx sha3_256 channel
    (mkState sequence balances pendingHTLCs stateVariables "" [] [] None None) partyAddresses
    (mkSettlementOpts true programSettlementState);
  commitment ← stateCommitmentV2Hex stateVariables;
  u ← artifact updateDraft;
  s ← artifact settlementDraft;
  Ok (mkClosePackage (channelId channel) sequence commitment u s).

Definition add_signature (a : ClosePackageArtifact) (party : string) (sig : ChannelSignature) (i : Wm.SigningIndices) :=
  mkArtifact (txHex a) (txDigest a) (map_set party sig (a_signatures a)) (map_set party i (a_signingIndices a)).

Definition addClosePackageSignature (p : SignedClosePackage) (party : string) (updateSignature : ChannelSignature)
    (updateIndices : Wm.SigningIndices) (settlementSignature : ChannelSignature)
    (settlementIndices : Wm.SigningIndices) : SignedClosePackage :=
  mkClosePackage (p_channelId p) (p_sequence p) (stateCommitmentV2 p)
    (add_signature (update p) party updateSignature updateIndices)
    (add_signature (settlement p) party settlementSignature settlementIndices).

(** [{ ...a, ...b }] *)
Definition spread {A} (a b : list (string * A)) : list (string * A) := foldl (λ m kv, map_set kv.1 kv.2 m) a b.
Definition merge_artifacts (a b : ClosePackageArtifact) : ClosePackageArtifact :=
  mkArtifact (txHex a) (txDigest a) (spread (a_signatures a) (a_signatures b))
    (spread (a_signingIndices a) (a_signingIndices b)).

Definition mergeClosePackages (localPackage counterpartyPackage : SignedClosePackage)
    : result OmniaError SignedClosePackage :=
  let l := localPackage in let c := counterpartyPackage in
  _ ← throw_if (negb (String.eqb (p_channelId l) (p_channelId c)) || negb (p_sequence l =? p_sequence c))
        (Plain "Cannot merge close packages for different channel/sequence");
  _ ← throw_if (negb (String.eqb (stateCommitmentV2 l) (stateCommitmentV2 c)) ||
                negb (String.eqb (txDigest (update l)) (txDigest (update c))) ||
                negb (String.eqb (txDigest (settlement l)) (txDigest (settlement c))) ||
                negb (String.eqb (txHex (update l)) (txHex (update c))) ||
                negb (String.eqb (txHex (settlement l)) (txHex (settlement c))))
        (Plain "Cannot merge close packages with different artifacts");
  Ok (mkClosePackage (p_channelId l) (p_sequence l) (stateCommitmentV2 l)
        (merge_artifacts (update l) (update c)) (merge_artifacts (settlement l) (settlement c))).

(** [if (bad) errors.push(e)] *)
Definition err (bad : bool) (e : string) : list string := if bad then [e] else [].

(** The header and transaction checks both verifiers make. *)
Definition package_errors (channel : OmniaChannel) (state : SignedChannelState) (p : SignedClosePackage)
    : result OmniaError (list string) :=
  commitment ← stateCommitmentV2Hex (stateVariables state);
  expected ← buildUnsignedClosePackage channel (sequence state) (balances state) (pendingHTLCs state)
               (stateVariables state) (programTransition state);
  Ok (err (negb (String.eqb (p_channelId p) (channelId channel))) "close package channelId mismatch" ++
      err (negb (p_sequence p =? sequence state)) "close package sequence mismatch" ++
      err (negb (String.eqb (stateCommitmentV2 p) commitment)) "close package stateCommitmentV2 mismatch" ++
      err (negb (String.eqb (txHex (update p)) (txHex (update expected)))) "close package update tx mismatch" ++
      err (negb (String.eqb (txDigest (update p)) (txDigest (update expected)))) "close package update digest mismatch" ++
      err (negb (String.eqb (txHex (settlement p)) (txHex (settlement expected)))) "close package settlement tx mismatch" ++
      err (negb (String.eqb (txDigest (settlement p)) (txDigest (settlement expected))))
        "close package settlement digest mismatch").

(** A signature object that is present is truthy. *)
Definition present (o : option Bytes) : bool := bool_decide (is_Some o).
Definition present_i (o : option Wm.SigningIndices) : bool := bool_decide (is_Some o).

(** The signature checks of one artifact; the exception of a malformed digest is
    caught and reported. *)
Definition signature_errors (a s : ClosePackageArtifact) (party : ChannelParticipant) : list string :=
  let check (x : ClosePackageArtifact) :=
    match map_get (partyId party) (a_signatures x) with
    | Some sig => d ← hexToBytes (txDigest x); Ok (negb (verifyChannelSignature sig d (publicKeyDigest party)))
    | None => Ok false
    end in
  match check a with
  | Ok bad_a =>
      err bad_a ("invalid update close artifact signature for " +:+ partyId party) ++
      match check s with
      | Ok bad_s => err bad_s ("invalid settlement close artifact signature for " +:+ partyId party)
      | Err _ => ["close artifact signature verification error for " +:+ partyId party]
      end
  | Err _ => ["close artifact signature verification error for " +:+ partyId party]
  end.

Definition has_signature (a : ClosePackageArtifact) (party : ChannelParticipant) : bool :=
  present (map_get (partyId party) (a_signatures a)).
Definition fully_signed (a : ClosePackageArtifact) (party : ChannelParticipant) : bool :=
  has_signature a party && present_i (map_get (partyId party) (a_signingIndices a)).

Definition party_errors (p : SignedClosePackage) (party : ChannelParticipant) : list string :=
  err (negb (fully_signed (update p) party)) ("missing update close artifact signature for " +:+ partyId party) ++
  err (negb (fully_signed (settlement p) party)) ("missing settlement close artifact signature for " +:+ partyId party) ++
  signature_errors (update p) (settlement p) party.

Definition verifyClosePackage (channel : OmniaChannel) (state : SignedChannelState) : result OmniaError (list string) :=
  match closePackage state with
  | None => Ok ["missing close package"]
  | Some p =>
      errors ← package_errors channel state p;
      Ok (errors ++ concat (map (party_errors p) (parties channel)))
  end.

Definition partial_party_errors (state : SignedChannelState) (p : SignedClosePackage) (party : ChannelParticipant)
    : list string :=
  let u := update p in let s := settlement p in
  (if map_has (partyId party) (signatures state) then
     err (negb (fully_signed u party)) ("missing update close artifact signature for state signer " +:+ partyId party) ++
     err (negb (fully_signed s party)) ("missing settlement close artifact signature for state signer " +:+ partyId party)
   else []) ++
  (if negb (has_signature u party) && negb (has_signature s party) then [] else
     err (negb (fully_signed u party)) ("incomplete update close artifact signature for " +:+ partyId party) ++
     err (negb (fully_signed s party)) ("incomplete settlement close artifact signature for " +:+ partyId party) ++
     signature_errors u s party).

Definition verifyPartialClosePackage (channel : OmniaChannel) (state : SignedChannelState)
    : result OmniaError (list string) :=
  match closePackage state with
  | None => Ok ["missing close package"]
  | Some p =>
      errors ← package_errors channel state p;
      Ok (errors ++ concat (map (partial_party_errors state p) (parties channel)))
  end.

(** ** sign.ts: signing *)

Definition resolveSignerOrThrow (channel : OmniaChannel) (signer : option ChannelSigner) : result OmniaError ChannelSigner :=
  of_option (Plain "No signer provided and channel.localSigner is not set")
    (match signer with Some s => Some s | None => localSigner channel end).

Definition tree_of (channel : OmniaChannel) : string := "omnia-channel-" +:+ channelId channel.
Definition seq_text (n : Z) : string := num_to_string (of_Z n).

(** The call of a signer with the leaf of a tree; a signature it returns is recorded. *)
Definition sign_with (tree : string) (i : Wm.SigningIndices) (d : Bytes) (r : result OmniaError ChannelSignature)
    : Omnia ChannelSignature :=
  sig ← mlift r;
  _ ← mmodify (λ w, mkWorld (w_guards w) (w_lease w) (w_signed w ++ [(tree, i, d)]));
  mret sig.

Definition signTxDraft (channel : OmniaChannel) (draft : OmniaTxDraft) (purpose : string)
    (signer : option ChannelSigner) : Omnia (ChannelSignature * Wm.SigningIndices * string) :=
  effectiveSigner ← mlift (resolveSignerOrThrow channel signer);
  d ← mlift (computeOmniaTxDigest sha3_256 draft);
  reservation ← on_lease (reserveKeyUse (tree_of channel) purpose (hex_of_bytes d));
  signature ← sign_with (tree_of channel) (indices reservation) d (sign effectiveSigner d (indices reservation));
  _ ← on_lease (commitKeyUse (reservationId reservation) purpose);
  mret (signature, indices reservation, serializeTxDraft draft).

Record UnsignedStateUpdate := mkUnsigned {
  un_channel : OmniaChannel; un_sequence : Z; un_balances : Balances; un_pendingHTLCs : list HTLCRecord;
  un_stateVariables : list StateValue; un_transition : option ProgramTransition; un_transactionHex : string;
  updateDigest : Bytes; settlementDigest : Bytes; un_payloadHash : string; signerPartyId : string;
  unsignedClosePackage : SignedClosePackage }.

Definition sum_amounts (hs : list HTLCRecord) : Z := foldr (λ h a, a + amount h) 0 hs.
Definition sum_balances (b : Balances) : Z := foldr (λ kv a, a + kv.2) 0 b.
Definition find_digest (channel : OmniaChannel) (digest : string) : option ChannelParticipant :=
  List.find (λ p, String.eqb (publicKeyDigest p) digest) (parties channel).

(** Conservation and non-negativity of a balance split. *)
Definition check_split (channel : OmniaChannel) (newBalances : Balances) (hs : list HTLCRecord) : result OmniaError unit :=
  let total := sum_balances newBalances + sum_amounts (List.filter is_pending hs) in
  _ ← throw_if (negb (total =? totalValue channel)) (BalanceConservationError (totalValue channel) total);
  check_negative (λ p, "Negative balance for " +:+ p) newBalances.

Record StateUpdate := mkUpdate { newSequence : Z; newBalances : Balances; up_transition : jsval }.

Definition buildStateUpdate (channel : OmniaChannel) (u : StateUpdate) (signerDigest : option string)
    : result OmniaError UnsignedStateUpdate :=
  digest ← of_option (Plain "No signer public key digest provided and channel.localSigner is not set")
    (match signerDigest with Some d => Some d | None => s_publicKeyDigest <$> localSigner channel end);
  signerParty ← of_option (Plain "Signer public key digest not found in channel parties") (find_digest channel digest);
  let hs := List.filter is_pending (c_pendingHTLCs channel) in
  _ ← check_split channel (newBalances u) (c_pendingHTLCs channel);
  transition ← canonicalizeProgramTransition (up_transition u);
  let tv := transition_value transition in
  draft ← buildProgramUpdateTx sha3_256 registry channel (newSequence u) (newBalances u) (c_pendingHTLCs channel) tv;
  ud ← computeOmniaTxDigest sha3_256 draft;
  payloadHash ← computeProgramUpdateDigestHex sha3_256 registry channel (newSequence u) (newBalances u)
                  (c_pendingHTLCs channel) tv;
  package ← buildUnsignedClosePackage channel (newSequence u) (newBalances u) hs (d_stateVariables draft) transition;
  sd ← hexToBytes (txDigest (settlement package));
  Ok (mkUnsigned channel (newSequence u) (newBalances u) hs (d_stateVariables draft) transition
        (serializeTxDraft draft) ud sd payloadHash (partyId signerParty) package).

Definition update_purpose (n : Z) : string := "channel-update-seq-" +:+ seq_text n.
Definition settlement_purpose (n : Z) : string := "channel-settlement-seq-" +:+ seq_text n.

(** The unsigned update with the reservations of its two leaves. *)
Definition prepareStateUpdate (channel : OmniaChannel) (u : StateUpdate) (signerDigest : option string)
    : Omnia (UnsignedStateUpdate * Reservation * Reservation) :=
  unsigned ← mlift (buildStateUpdate channel u signerDigest);
  updateReservation ← on_lease (reserveKeyUse (tree_of channel) (update_purpose (un_sequence unsigned))
                                  (hex_of_bytes (updateDigest unsigned)));
  mcatch
    (settlementReservation ← on_lease (reserveKeyUse (tree_of channel) (settlement_purpose (un_sequence unsigned))
                                         (txDigest (settlement (unsignedClosePackage unsigned))));
     mret (unsigned, updateReservation, settlementReservation))
    (λ e, _ ← mignore (on_lease (burnReservation (reservationId updateReservation) "channel-update-prepare-failed"));
          mthrow e).

Record PartialState := mkPartial {
  ps_sequence : Z; ps_balances : Balances; ps_pendingHTLCs : list HTLCRecord; ps_stateVariables : list StateValue;
  ps_transactionHex : string; ps_signatures : list (string * ChannelSignature);
  ps_signingIndices : list (string * Wm.SigningIndices); ps_closePackage : option SignedClosePackage;
  ps_transition : option ProgramTransition }.

Definition finalizeStateUpdateWithIndices (un : UnsignedStateUpdate) (updateSignature : ChannelSignature)
    (updateIndices : Wm.SigningIndices) (settlementSignature : ChannelSignature)
    (settlementIndices : Wm.SigningIndices) : PartialState :=
  mkPartial (un_sequence un) (un_balances un) (un_pendingHTLCs un) (un_stateVariables un) (un_transactionHex un)
    [(signerPartyId un, updateSignature)] [(signerPartyId un, updateIndices)]
    (Some (addClosePackageSignature (unsignedClosePackage un) (signerPartyId un) updateSignature updateIndices
             settlementSignature settlementIndices))
    (un_transition un).

(** [now] is [Date.now()]. *)
Definition signDigest (now : Z) (channel : OmniaChannel) (effectiveSigner : ChannelSigner) (signerPort : option SignerPort)
    (d : Bytes) (i : Wm.SigningIndices) (purpose : string) : Omnia ChannelSignature :=
  match signerPort with
  | None => sign_with (tree_of channel) i d (sign effectiveSigner d i)
  | Some p =>
      _ ← mthrow_if (negb (String.eqb (port_publicKeyDigest p) (s_publicKeyDigest effectiveSigner)))
            (Plain "signer port does not match the channel signer");
      sign_with (tree_of channel) i d
        (port_sign p (mkRequest ("channel-" +:+ channelId channel +:+ "-" +:+ purpose +:+ "-" +:+ seq_text now) d purpose
                        [port_publicKeyDigest p] i (of_Z (now + 60000))))
  end.

Definition signState (now : Z) (channel : OmniaChannel) (u : StateUpdate) (signer : option ChannelSigner)
    (signerPort : option SignerPort) : Omnia PartialState :=
  effectiveSigner ← mlift (resolveSignerOrThrow channel signer);
  transition ← mlift (canonicalizeProgramTransition (up_transition u));
  payloadHash ← mlift (computeProgramUpdateDigestHex sha3_256 registry channel (newSequence u) (newBalances u)
                         (c_pendingHTLCs channel) (transition_value transition));
  guardError ← on_guards (enforceUpdateGuards (channelId channel) (newSequence u) payloadHash (pendingProposal channel));
  _ ← mthrow_if guardError (Plain "CAPACITY_NEAR_EXHAUSTION");
  prepared ← prepareStateUpdate channel u (s_publicKeyDigest <$> signer);
  let '(un, updateReservation, settlementReservation) := prepared : UnsignedStateUpdate * Reservation * Reservation in
  mcatch
    (updateSignature ← signDigest now channel effectiveSigner signerPort (updateDigest un) (indices updateReservation)
                         (update_purpose (un_sequence un));
     _ ← on_guards (sealUpdateGuard (channelId channel) (un_sequence un));
     settlementSignature ← signDigest now channel effectiveSigner signerPort (settlementDigest un)
                             (indices settlementReservation) (settlement_purpose (un_sequence un));
     _ ← on_lease (commitKeyUse (reservationId updateReservation) (update_purpose (un_sequence un)));
     _ ← on_lease (commitKeyUse (reservationId settlementReservation) (settlement_purpose (un_sequence un)));
     mret (finalizeStateUpdateWithIndices un updateSignature (indices updateReservation) settlementSignature
             (indices settlementReservation)))
    (λ e,
       _ ← mignore (on_lease (burnReservation (reservationId updateReservation) "channel-update-sign-failed"));
       _ ← mignore (on_lease (burnReservation (reservationId settlementReservation) "channel-settlement-sign-failed"));
       mthrow e).

(** ** sign.ts: verification *)

Definition verifyStateSignature (channel : OmniaChannel) (state : SignedChannelState) (party publicKeyDigest : string) : bool :=
  if negb (is_party channel party) then false else
  match map_get party (signatures state) with
  | None => false
  | Some sig =>
      match (draft ← buildProgramUpdateTx sha3_256 registry channel (sequence state) (balances state)
                       (pendingHTLCs state) (transition_value (programTransition state));
             d ← computeOmniaTxDigest sha3_256 draft; Ok (draft, d)) with
      | Ok (draft, d) =>
          stateVariablesEqual (stateVariables state) (d_stateVariables draft) &&
          String.eqb (transactionHex state) (serializeTxDraft draft) &&
          verifyChannelSignature sig d publicKeyDigest
      | Err _ => false
      end
  end.

Definition validateStateTransition (channel : OmniaChannel) (newSequence : Z) (newBalances : Balances)
    (pendingHTLCDelta : Z) : result OmniaError unit :=
  _ ← throw_if (newSequence <=? currentSequence channel) (SequenceError (currentSequence channel) newSequence);
  let total := sum_balances newBalances +
               (sum_amounts (List.filter is_pending (c_pendingHTLCs channel)) + pendingHTLCDelta) in
  throw_if (negb (total =? totalValue channel)) (BalanceConservationError (totalValue channel) total).

Definition validateBalanceShape (channel : OmniaChannel) (state : SignedChannelState) : list string :=
  err (negb (balance_shape channel (balances state))) "balance map does not match the channel participant set" ++
  concat (map (λ kv, err (kv.2 <? 0) ("negative balance for party " +:+ kv.1)) (balances state)).

(** The checks of the state itself, common to both verifiers. *)
Definition state_errors (channel : OmniaChannel) (state : SignedChannelState) : result OmniaError (list string) :=
  let total := sum_balances (balances state) + sum_amounts (List.filter is_pending (pendingHTLCs state)) in
  matches ← stateCommitmentV2Matches sha3_256 channel state false;
  program ← resolveChannelProgram registry (Some (programId channel), Some (programVersion channel));
  transition ← canonicalizeProgramTransition (transition_value (programTransition state));
  programResult ← match validateTransition program with
                  | Some v => v (mkValidate channel (latestState channel) state transition)
                  | None => Ok None
                  end;
  Ok (err (negb (total =? totalValue channel))
        ("balance conservation: " +:+ big_to_string total +:+ " !== " +:+ big_to_string (totalValue channel)) ++
      validateBalanceShape channel state ++
      err (negb matches) "state commitment v2 mismatch" ++
      match programResult with Some e => ["program validation failed: " +:+ e] | None => [] end).

Definition flat_of (i : Wm.SigningIndices) : Z := flatSigningIndex (Wm.l1 i) (Wm.l2 i).
Definition previous_indices (channel : OmniaChannel) (party : string) : option Wm.SigningIndices :=
  st ← latestState channel; map_get party (signingIndices st).

Definition signer_errors (channel : OmniaChannel) (state : SignedChannelState) (party : ChannelParticipant) : list string :=
  match map_get (partyId party) (signatures state), map_get (partyId party) (signingIndices state) with
  | Some _, Some i =>
      err (negb (verifyStateSignature channel state (partyId party) (publicKeyDigest party)))
        ("invalid WOTS signature for party " +:+ partyId party) ++
      match previous_indices channel (partyId party) with
      | Some prev =>
          err (flat_of i <=? flat_of prev)
            ("signing index not monotone for party " +:+ partyId party +:+ ": " +:+ seq_text (flat_of i) +:+ " <= "
             +:+ seq_text (flat_of prev))
      | None => []
      end
  | _, _ => ["missing signature/indices for party " +:+ partyId party]
  end.

(** [kissvm] is the optional script pre-validation: its error, when it fails. *)
Definition verifyState (channel : OmniaChannel) (state : SignedChannelState)
    (kissvm : option (OmniaChannel → SignedChannelState → option string)) : result OmniaError (list string) :=
  errors ← state_errors channel state;
  closePackageErrors ← verifyClosePackage channel state;
  Ok (err (sequence state <=? currentSequence channel)
        ("sequence " +:+ seq_text (sequence state) +:+ " not > current " +:+ seq_text (currentSequence channel)) ++
      errors ++ closePackageErrors ++
      concat (map (signer_errors channel state) (parties channel)) ++
      match kissvm with
      | Some f => match f channel state with Some e => ["kissvm pre-validation failed: " +:+ e] | None => [] end
      | None => []
      end).

Definition cosigner_errors (channel : OmniaChannel) (state : SignedChannelState) (party : string) : list string :=
  match List.find (λ p, String.eqb (partyId p) party) (parties channel) with
  | None => ["unknown signing party " +:+ party]
  | Some p =>
      match map_get party (signingIndices state) with
      | None => ["missing signing indices for party " +:+ party]
      | Some _ => err (negb (verifyStateSignature channel state party (publicKeyDigest p)))
                    ("invalid WOTS signature for party " +:+ party)
      end
  end.

Definition validateStateForCoSign (channel : OmniaChannel) (state : SignedChannelState) (requireSequenceAdvance : bool)
    : result OmniaError (list string) :=
  errors ← state_errors channel state;
  closePackageErrors ← verifyPartialClosePackage channel state;
  Ok ((if requireSequenceAdvance
       then err (sequence state <=? currentSequence channel)
              ("sequence " +:+ seq_text (sequence state) +:+ " not > current " +:+ seq_text (currentSequence channel))
       else err (sequence state <? currentSequence channel)
              ("stale sequence " +:+ seq_text (sequence state) +:+ " is behind current "
               +:+ seq_text (currentSequence channel))) ++
      errors ++ closePackageErrors ++
      err (length (signatures state) =? 0)%nat "missing state signature for co-sign" ++
      concat (map (cosigner_errors channel state) (signatures state).*1)).

End sign.
End Sg.
