(* ===== verification/Channel.v ===== *)
(** * Omnia: the channel state machine (packages/omnia/src channel.ts, htlc.ts)

    Off-chain updates, hash time-locked payments, and the bookkeeping of
    confirmations and counterparty signatures. *)

From Stdlib Require Import ZArith Lia QArith Ascii String.
From stdpp Require Import base gmap list strings.
From S2P Require Import Prelude JsBase JsText Watermark Guards Omnia Transactions Programs Sign.

Module Ch.
Import Js Gd Om Tx Pg Sg.

(** ** Copies of a channel *)

(** [{ ...channel, balances, pendingHTLCs, currentSequence, latestState, stateLog, pendingProposal, updatedAt }] *)
Definition with_state (c : OmniaChannel) (balances : Balances) (hs : list HTLCRecord) (sequence : Z)
    (latest : option SignedChannelState) (log : list ChannelLogEntry) (proposal : option Proposal)
    (updated : jsnum) : OmniaChannel :=
  mkChannel (channelId c) (fundingTxId c) (fundingCoinId c) (fundingScript c) (programId c) (programVersion c)
    (fundingAddress c) (tokenId c) (tokenScale c) (totalValue c) (parties c) balances hs sequence (onChainSequence c)
    latest log (c_status c) (virtual c) (contestDelayBlocks c) (factoryRef c) (localSigner c) proposal
    (latestCoinId c) (unilateralClose c) (createdAt c) updated.
(** [{ ...channel, pendingHTLCs }] and with a proposal. *)
Definition with_htlcs (c : OmniaChannel) (hs : list HTLCRecord) (proposal : option Proposal) : OmniaChannel :=
  with_state c (c_balances c) hs (currentSequence c) (latestState c) (stateLog c) proposal (updatedAt c).
(** [{ ...channel, status, onChainSequence, latestCoinId, updatedAt }] *)
Definition with_chain (c : OmniaChannel) (st : ChannelStatus) (onChain : option Z) (coin : option string)
    (updated : jsnum) : OmniaChannel :=
  mkChannel (channelId c) (fundingTxId c) (fundingCoinId c) (fundingScript c) (programId c) (programVersion c)
    (fundingAddress c) (tokenId c) (tokenScale c) (totalValue c) (parties c) (c_balances c) (c_pendingHTLCs c)
    (currentSequence c) onChain (latestState c) (stateLog c) st (virtual c) (contestDelayBlocks c) (factoryRef c)
    (localSigner c) (pendingProposal c) coin (unilateralClose c) (createdAt c) updated.

Definition status_name (s : ChannelStatus) : string :=
  match s with
  | opening => "opening" | funding_pending => "funding_pending" | active => "active"
  | closing_mutual => "closing_mutual" | closing_unilateral => "closing_unilateral"
  | disputing => "disputing" | closed => "closed" | spliced => "spliced"
  end.

Definition pending_count (hs : list HTLCRecord) : nat := length (List.filter is_pending hs).
Definition logEntry (c : OmniaChannel) (event : LogEvent) (now : jsnum) : ChannelLogEntry :=
  mkLog (currentSequence c) now (c_balances c) (pending_count (c_pendingHTLCs c)) event.

Section channel.
Context `{Crypto} {P : Type} `{WotsLeaseProvider P} (registry : list (string * ChannelProgram)).

Notation Omnia := (M (World P) OmniaError).
Notation "'digest_hex'" := (computeProgramUpdateDigestHex sha3_256 registry).

(** ** Updates (channel.ts) *)

Definition require_active (c : OmniaChannel) : result OmniaError unit :=
  throw_if (negb (bool_decide (c_status c = active))) (ChannelStatusError "active" (status_name (c_status c))).

(** The new leaf of the signer must lie after the one of the latest state. *)
Definition check_monotone (c : OmniaChannel) (party : string) (p : PartialState) : result OmniaError unit :=
  i ← of_option (External "TypeError") (map_get party (ps_signingIndices p));
  match previous_indices c party with
  | Some prev => throw_if (flat_of i <=? flat_of prev) (SigningIndexMonotonicityError party (flat_of prev) (flat_of i))
  | None => Ok tt
  end.

(** [signState] with the release of the guard when it throws. *)
Definition signStateGuarded (now : Z) (c : OmniaChannel) (u : StateUpdate) (signer : option ChannelSigner)
    (port : option SignerPort) (payloadHash : string) : Omnia PartialState :=
  mcatch (signState registry now c u signer port)
    (λ e, _ ← on_guards (releaseUpdateGuard (channelId c) (newSequence u) payloadHash); mthrow e).

Record UpdateDelta := mkDelta { delta_newBalances : Balances; programTransition : jsval }.

(** [None] as the signed state is the near-exhaustion result. *)
Definition updateState (now : Z) (c : OmniaChannel) (delta : UpdateDelta) (signer : option ChannelSigner)
    (port : option SignerPort) : Omnia (OmniaChannel * option PartialState) :=
  _ ← mlift (require_active c);
  effectiveSigner ← mlift (resolveSignerOrThrow c signer);
  signerParty ← mlift (of_option (Plain "Signer public key digest not found in channel parties")
                         (find_digest c (s_publicKeyDigest effectiveSigner)));
  let seq := currentSequence c + 1 in
  transition ← mlift (canonicalizeProgramTransition (programTransition delta));
  let tv := transition_value transition in
  let bal := delta_newBalances delta in
  _ ← mlift (check_split c bal (c_pendingHTLCs c));
  payloadHash ← mlift (digest_hex c seq bal (c_pendingHTLCs c) tv);
  guardError ← on_guards (enforceUpdateGuards (channelId c) seq payloadHash (pendingProposal c));
  if guardError : bool then mret (c, None) else
  partialState ← signStateGuarded now c (mkUpdate seq bal tv) (Some effectiveSigner) port payloadHash;
  _ ← mlift (check_monotone c (partyId signerParty) partialState);
  let t := of_Z now in
  mret (with_state c bal (c_pendingHTLCs c) seq (latestState c)
          (stateLog c ++ [mkLog seq t bal (pending_count (c_pendingHTLCs c)) update_event])
          (Some (mkProposal seq payloadHash)) t, Some partialState).

Definition applyProgramTransition (now : Z) (c : OmniaChannel) (transition : jsval) (balances : option Balances)
    (signer : option ChannelSigner) (port : option SignerPort) : Omnia (OmniaChannel * option PartialState) :=
  updateState now c (mkDelta (default (c_balances c) balances) transition) signer port.

(** ** Program calls (counter.ts, meter.ts) *)

(** [{ action, inputs }] with numeric inputs. *)
Definition call_of (action : string) (inputs : list (string * Z)) : jsval :=
  transition_value (Some (mkTransition action (Some (map (λ kv, (kv.1, SBig kv.2)) inputs)) None None)).

Definition incrementCounter (now : Z) (c : OmniaChannel) (by_ : Z) (signer : option ChannelSigner) :=
  applyProgramTransition now c (call_of "increment" [("by"%string, by_)]) None signer None.
Definition decrementCounter (now : Z) (c : OmniaChannel) (by_ : Z) (signer : option ChannelSigner) :=
  applyProgramTransition now c (call_of "decrement" [("by"%string, by_)]) None signer None.
Definition setCounter (now : Z) (c : OmniaChannel) (v : Z) (signer : option ChannelSigner) :=
  applyProgramTransition now c (call_of "set" [("value"%string, v)]) None signer None.

(** A balance that is missing is [undefined], and the subtraction throws. *)
Definition recordMeterReading (now : Z) (c : OmniaChannel) (reading unitPrice : Z) (signer : option ChannelSigner)
    : Omnia (OmniaChannel * option PartialState) :=
  match parties c with
  | payer :: payee :: _ =>
      previousReading ← mlift (getStateBigInt (latestState c) METER_READING_PORT 0);
      _ ← mthrow_if (reading <? previousReading) (Plain "Meter reading cannot decrease");
      let payment := (reading - previousReading) * unitPrice in
      a ← mlift (of_option (External "TypeError") (map_get (partyId payer) (c_balances c)));
      b ← mlift (of_option (External "TypeError") (map_get (partyId payee) (c_balances c)));
      applyProgramTransition now c (call_of "record_reading" [("reading"%string, reading); ("unitPrice"%string, unitPrice)])
        (Some (map_set (partyId payee) (b + payment) (map_set (partyId payer) (a - payment) (c_balances c)))) signer None
  | _ => mthrow (Plain "MeterProgram requires payer and payee parties")
  end.

(** ** Hash time-locked payments (htlc.ts) *)

(** [/^(0x)?[0-9a-fA-F]{64}$/] and the normal form. *)
Definition is_hash_text (s : string) : bool :=
  let r := if starts_with "0x" s then drop_str 2 s else s in
  (String.length r =? 64)%nat && str_forallb is_hex_digit r.
Definition normalizeHash (s : string) : string := "0x" +:+ toLowerCase (strip_0x s).

(** The part the three operations share: conservation, the guards, the signature
    over the channel with the new HTLCs, and the resulting channel. *)
Definition advance (now : Z) (c : OmniaChannel) (signer : ChannelSigner) (party : string) (bal : Balances)
    (hs : list HTLCRecord) (event : LogEvent) : Omnia (OmniaChannel * option PartialState) :=
  let seq := currentSequence c + 1 in
  _ ← mlift (check_split c bal hs);
  payloadHash ← mlift (digest_hex (with_htlcs c hs (pendingProposal c)) seq bal hs JUndef);
  guardError ← on_guards (enforceUpdateGuards (channelId c) seq payloadHash (pendingProposal c));
  if guardError : bool then mret (c, None) else
  partialState ← signStateGuarded now (with_htlcs c hs (Some (mkProposal seq payloadHash)))
                   (mkUpdate seq bal JUndef) (Some signer) None payloadHash;
  _ ← mlift (check_monotone c party partialState);
  let t := of_Z now in
  mret (with_state c bal hs seq (latestState c)
          (stateLog c ++ [mkLog seq t bal (pending_count hs) event]) (pendingProposal c) t, Some partialState).

Record AddHTLCParams := mkAdd {
  ad_amount : Z; ad_hashlock : string; ad_timeoutBlock : Z; ad_direction : Direction;
  counterpartPublicKeyDigest : string }.

Definition not_participant : OmniaError := Plain "Signer is not a channel participant".
Definition no_signer : OmniaError := Plain "No signer provided and channel.localSigner is not set".

(** [newId] is what [generateHtlcId()] returns. *)
Definition addHTLC (now : Z) (newId : string) (c : OmniaChannel) (params : AddHTLCParams)
    (signer : option ChannelSigner) : Omnia (OmniaChannel * string * option PartialState) :=
  _ ← mlift (require_active c);
  s ← mlift (resolveSignerOrThrow c signer);
  offerer ← mlift (of_option not_participant (find_digest c (s_publicKeyDigest s)));
  _ ← mthrow_if (String.eqb (partyId offerer) "") not_participant;
  _ ← mthrow_if (negb (is_hash_text (ad_hashlock params)))
        (Plain ("HTLC hashlock must be a 32-byte hex string, got " +:+ json_string (ad_hashlock params)));
  let hashlock := normalizeHash (ad_hashlock params) in
  _ ← mthrow_if (ad_timeoutBlock params <=? 0)
        (Plain ("HTLC timeoutBlock must be a positive bigint, got " +:+ big_to_string (ad_timeoutBlock params)));
  counterParty ← mlift (of_option (Plain "Counter party not found")
                   (List.find (λ p, negb (String.eqb (publicKeyDigest p) (s_publicKeyDigest s))) (parties c)));
  _ ← mthrow_if (negb (String.eqb (toLowerCase (counterpartPublicKeyDigest params))
                         (toLowerCase (publicKeyDigest counterParty))))
        (Plain ("HTLC counterparty " +:+ json_string (counterpartPublicKeyDigest params)
                +:+ " is not the channel counterparty"));
  let amt := ad_amount params in
  _ ← mthrow_if (amt <=? 0) (Plain ("HTLC amount must be positive: " +:+ big_to_string amt));
  _ ← mthrow_if ((tokenScale c >? 0) && negb (amt mod 10 ^ tokenScale c =? 0))
        (Plain ("HTLC amount " +:+ big_to_string amt +:+ " is not a whole number of raw units at tokenScale "
                +:+ seq_text (tokenScale c)));
  let offererBalance := default 0 (map_get (partyId offerer) (c_balances c)) in
  _ ← mthrow_if (amt >? offererBalance)
        (Plain ("Insufficient balance: " +:+ big_to_string offererBalance +:+ " < " +:+ big_to_string amt));
  address ← mlift (htlcScriptAddress (s_publicKeyDigest s) (counterpartPublicKeyDigest params) hashlock
                     (ad_timeoutBlock params));
  let htlcRecord := mkHTLC newId amt hashlock (ad_timeoutBlock params) (ad_direction params) pending address
                      (s_publicKeyDigest s) (publicKeyDigest counterParty) in
  r ← advance now c s (partyId offerer) (map_set (partyId offerer) (offererBalance - amt) (c_balances c))
        (c_pendingHTLCs c ++ [htlcRecord]) htlc_add;
  let '(c', p) := r : OmniaChannel * option PartialState in
  mret (c', newId, p).

Definition find_pending (c : OmniaChannel) (i : string) : result OmniaError HTLCRecord :=
  of_option (Plain ("HTLC " +:+ i +:+ " not found or not pending"))
    (List.find (λ h, String.eqb (htlcId h) i && is_pending h) (c_pendingHTLCs c)).

Definition set_status (st : HTLCStatus) (h : HTLCRecord) : HTLCRecord :=
  mkHTLC (htlcId h) (amount h) (hashlock h) (timeoutBlock h) (direction h) st (htlcAddress h)
    (senderPublicKeyDigest h) (recipientPublicKeyDigest h).
Definition settle (i : string) (st : HTLCStatus) (hs : list HTLCRecord) : list HTLCRecord :=
  map (λ h, if String.eqb (htlcId h) i then set_status st h else h) hs.

(** [HTLCHelper.hashPreimage] and [verifyPreimage] of core's contract helpers, on
    the 64-digit preimages that are hashed here. *)
Definition hashPreimage (preimage : string) : string :=
  "0x" +:+ hex_of_bytes (sha3_256 (hex_pairs (if starts_with "0x" preimage then drop_str 2 preimage else preimage))).
Definition verifyPreimage (preimage expectedHash : string) : bool :=
  String.eqb (toLowerCase (hashPreimage preimage)) (toLowerCase expectedHash).

(** The party with a key digest, when its id is not empty. *)
Definition find_party (c : OmniaChannel) (digest : string) (e : OmniaError) : result OmniaError ChannelParticipant :=
  p ← of_option e (find_digest c digest);
  _ ← throw_if (String.eqb (partyId p) "") e;
  Ok p.

Definition credit (c : OmniaChannel) (party : string) (amt : Z) : Balances :=
  map_set party (default 0 (map_get party (c_balances c)) + amt) (c_balances c).

(** [tip] is what [chainProvider.getTip()] reports. *)
Definition fulfillHTLC (now : Z) (c : OmniaChannel) (i preimage : string) (tip : result OmniaError Z)
    (signer : option ChannelSigner) : Omnia (OmniaChannel * option PartialState) :=
  _ ← mlift (require_active c);
  s ← mlift (resolveSignerOrThrow c signer);
  htlc ← mlift (find_pending c i);
  _ ← mthrow_if (negb (is_hash_text preimage)) (Plain "HTLC preimage must be a 32-byte hex string");
  block ← mlift tip;
  _ ← mthrow_if (block >? timeoutBlock htlc)
        (Plain ("HTLC " +:+ i +:+ " expired at block " +:+ big_to_string (timeoutBlock htlc) +:+ " (current "
                +:+ seq_text block +:+ "); fulfil is no longer valid"));
  _ ← mthrow_if (negb (verifyPreimage (normalizeHash preimage) (hashlock htlc))) (Plain ("Preimage does not match hashlock for HTLC " +:+ i));
  recipient ← mlift (find_party c (recipientPublicKeyDigest htlc) (Plain "Recipient party not found in channel"));
  signerParty ← mlift (find_party c (s_publicKeyDigest s) not_participant);
  advance now c s (partyId signerParty) (credit c (partyId recipient) (amount htlc))
    (settle i fulfilled (c_pendingHTLCs c)) htlc_fulfill.

Definition timeoutHTLC (now : Z) (c : OmniaChannel) (i : string) (tip : result OmniaError Z)
    (signer : option ChannelSigner) : Omnia (OmniaChannel * option PartialState) :=
  _ ← mlift (require_active c);
  s ← mlift (resolveSignerOrThrow c signer);
  htlc ← mlift (find_pending c i);
  block ← mlift tip;
  _ ← mthrow_if (block <? timeoutBlock htlc)
        (Plain ("HTLC " +:+ i +:+ " has not yet timed out (block " +:+ big_to_string block +:+ " < "
                +:+ big_to_string (timeoutBlock htlc) +:+ ")"));
  sender ← mlift (find_party c (senderPublicKeyDigest htlc) (Plain "Sender party not found in channel"));
  signerParty ← mlift (find_party c (s_publicKeyDigest s) not_participant);
  advance now c s (partyId signerParty) (credit c (partyId sender) (amount htlc))
    (settle i timed_out (c_pendingHTLCs c)) htlc_timeout.

(** ** Counterparty signatures, receipts, activation (channel.ts) *)

Definition attachCounterpartySignature (now : Z) (c : OmniaChannel) (p : PartialState) (counterPartyId : string)
    (counterSignature : ChannelSignature) (counterIndices : Wm.SigningIndices)
    (counterClosePackage : option SignedClosePackage) : result OmniaError (OmniaChannel * SignedChannelState) :=
  _ ← throw_if ((ps_sequence p =? 0) || String.eqb (ps_transactionHex p) "") (Plain "Partial state is incomplete");
  _ ← throw_if (negb (is_party c counterPartyId))
        (Plain ("Counterparty " +:+ counterPartyId +:+ " not found in channel parties"));
  package ← match counterClosePackage, ps_closePackage p with
            | Some theirs, Some ours => merged ← mergeClosePackages ours theirs; Ok (Some merged)
            | Some theirs, None => Ok (Some theirs)
            | None, ours => Ok ours
            end;
  let signedState := mkState (ps_sequence p) (ps_balances p) (ps_pendingHTLCs p) (ps_stateVariables p)
    (ps_transactionHex p) (map_set counterPartyId counterSignature (ps_signatures p))
    (map_set counterPartyId counterIndices (ps_signingIndices p)) package (ps_transition p) in
  errors ← validateStateForCoSign registry c signedState false;
  _ ← throw_if (negb (length errors =? 0)%nat)
        (Plain ("Invalid state for counterparty signature: " +:+ join_with "; " errors));
  Ok (with_state c (balances signedState) (c_pendingHTLCs c) (sequence signedState) (Some signedState) (stateLog c)
        (pendingProposal c) (of_Z now), signedState).

Record ChannelReceipt := mkReceipt {
  rc_channelId : string; rc_sequence : Z; rc_balances : Balances; capacityWarning : option CapacityWarning;
  capacityUsed : Z; capacityTotal : Z; rc_timestamp : jsnum }.

Definition getChannelReceipt (now : Z) (c : OmniaChannel) (state : SignedChannelState) : result OmniaError ChannelReceipt :=
  cap ← assessCapacity (sequence state * 2);
  Ok (mkReceipt (channelId c) (sequence state) (balances state) (cap : option CapacityWarning * bool).1
        (sequence state * 2) WOTS_CAPACITY_TOTAL (of_Z now)).

Definition activateChannel (now : Z) (c : OmniaChannel) : result OmniaError OmniaChannel :=
  _ ← throw_if (negb (bool_decide (c_status c = funding_pending)) && negb (bool_decide (c_status c = opening)))
        (Plain ("Cannot activate channel with status '" +:+ status_name (c_status c)
                +:+ "' — must be 'funding_pending' or 'opening'"));
  Ok (with_chain c active (onChainSequence c) (latestCoinId c) (of_Z now)).

(** A coin as the chain provider reports it. *)
Record Coin := mkCoin {
  co_spent : bool; co_address : string; co_created : option jsval; co_state : list jsval;
  co_amount : string; co_tokenid : string; co_storestate : bool }.

Definition coinStateValue (coin : Coin) (p : Z) : option string :=
  match co_state coin !! Z.to_nat p with
  | None | Some JUndef | Some JNull => None
  | Some v => Some (to_string v)
  end.

Definition normalize (s : string) : string := toLowerCase (strip_0x s).

(** [coin] and [tip] are the provider's answers to [getCoin(coinId)] and [getTip()]. *)
Definition confirmUpdateBroadcast (now : Z) (c : OmniaChannel) (coinId : string) (coin : option Coin)
    (tip : result OmniaError Z) (minConfirmations : Z) : result OmniaError OmniaChannel :=
  latest ← of_option (Plain "Cannot confirm an update without a latest signed state") (latestState c);
  _ ← throw_if (String.eqb (fundingAddress c) "") (Plain "Channel fundingAddress is required to confirm an update");
  coin ← of_option (Plain ("Update output coin " +:+ coinId +:+ " not found on chain")) coin;
  _ ← throw_if (co_spent coin) (Plain ("Update output coin " +:+ coinId +:+ " is already spent"));
  _ ← throw_if (negb (String.eqb (co_address coin) (fundingAddress c)))
        (Plain ("Update output address " +:+ co_address coin +:+ " is not the channel script address " +:+ fundingAddress c));
  _ ← (if minConfirmations >? 0 then
         block ← tip;
         let confirmations := confirmationsAt (co_created coin) block in
         throw_if (match confirmations with Some n => n <? minConfirmations | None => true end)
           (Plain ("Update output coin " +:+ coinId +:+ " has "
                   +:+ match confirmations with Some n => seq_text n | None => "unknown" end
                   +:+ " confirmations; " +:+ seq_text minConfirmations +:+ " required"))
       else Ok tt);
  onChain ← of_option (Plain "Channel coin has no sequence state; cannot confirm the update")
              (coinStateValue coin STATE_SEQUENCE_PORT);
  _ ← throw_if (negb (num_eqb (num_of_string onChain) (of_Z (sequence latest))))
        (Plain ("On-chain sequence " +:+ onChain +:+ " does not match the latest signed state "
                +:+ seq_text (sequence latest)));
  pair ← of_option (Plain "Channel coin has no state commitment; cannot confirm the update")
           (committed ← coinStateValue coin STATE_COMMITMENT_V2_PORT;
            expected ← List.find (λ sv, port sv =? STATE_COMMITMENT_V2_PORT) (stateVariables latest);
            Some (committed, scalar_string (value expected)));
  let '(committed, expected) := pair : string * string in
  _ ← throw_if (negb (String.eqb (normalize committed) (normalize expected)))
        (Plain "On-chain state commitment does not match the latest signed state");
  Ok (with_chain c (c_status c) (Some (sequence latest)) (Some coinId) (of_Z now)).

(** ** The complete check of a signed state (channel.ts) *)

Fixpoint first_error (l : list (option string)) : option string :=
  match l with [] => None | Some e :: _ => Some e | None :: l => first_error l end.
Definition fail_if (b : bool) (e : string) : option string := if b then Some e else None.

Definition signature_check (c : OmniaChannel) (state : SignedChannelState) (party : string) : option string :=
  match List.find (λ p, String.eqb (partyId p) party) (parties c) with
  | None => Some ("Signature party '" +:+ party +:+ "' not found in channel parties")
  | Some p => fail_if (negb (verifyStateSignature registry c state party (publicKeyDigest p)))
                ("Invalid WOTS signature for party " +:+ party)
  end.

Definition monotone_check (c : OmniaChannel) (state : SignedChannelState) (party : ChannelParticipant) : option string :=
  match previous_indices c (partyId party), map_get (partyId party) (signingIndices state) with
  | Some prev, Some i =>
      fail_if (flat_of i <=? flat_of prev)
        ("WOTS index not monotonic for " +:+ partyId party +:+ ": " +:+ seq_text (flat_of i) +:+ " <= "
         +:+ seq_text (flat_of prev))
  | _, _ => None
  end.

(** [None] is [{ valid: true }]. *)
Definition validateCompleteChannelState (c : OmniaChannel) (state : SignedChannelState) : result OmniaError (option string) :=
  let ids : gset string := list_to_set (map partyId (parties c)) in
  let digests : gset string := list_to_set (map publicKeyDigest (parties c)) in
  let total := sum_balances (balances state) + sum_amounts (List.filter is_pending (pendingHTLCs state)) in
  match first_error
    ([fail_if (negb (length (balances state) =? size ids)%nat) "Balance map has the wrong number of keys"]
     ++ map (λ kv, fail_if (negb (is_party c kv.1)) ("Balance key '" +:+ kv.1 +:+ "' is not a channel participant"))
          (balances state)
     ++ [fail_if (negb (size digests =? length (parties c))%nat) "Duplicate public key digests in channel parties"]
     ++ map (λ kv, fail_if (kv.2 <? 0) ("Negative balance for " +:+ kv.1 +:+ ": " +:+ big_to_string kv.2)) (balances state)
     ++ [fail_if (negb (total =? totalValue c)) "Balance conservation failed";
         fail_if (sequence state <=? 0) ("Sequence must be positive: " +:+ seq_text (sequence state))]
     ++ map (λ p, fail_if (negb (map_has (partyId p) (signatures state))) ("Missing signature for party " +:+ partyId p))
          (parties c)
     ++ map (signature_check c state) (signatures state).*1
     ++ map (monotone_check c state) (parties c)
     ++ [fail_if (String.eqb (transactionHex state) "") "Missing transactionHex in signed state"]) with
  | Some e => Ok (Some e)
  | None =>
      errors ← verifyClosePackage registry c state;
      Ok (match errors with [] => None | _ => Some (join_with "; " errors) end)
  end.

End channel.
End Ch.
