(* ===== verification/ChannelSpec.v ===== *)
(** * Omnia: what a channel promises

    A channel is driven by updates, hash time-locked payments, counterparty
    signatures, activation and confirmation.  Along every such history each payment is
    settled at most once, and the value of the channel is conserved as long as the states
    that are attached lock what the channel locks, which the code does not check. *)

From Stdlib Require Import ZArith Lia QArith Ascii String.
From stdpp Require Import base gmap list strings relations.
From S2P Require Import Prelude JsBase JsText JsMap Watermark Guards Omnia Transactions TransactionsSpec Programs Sign Channel.

Module ChSpec.
Import Js JsText JsMap Gd Om Tx Pg Sg Ch.

(** ** Sums over balances and payments *)

Definition locked (hs : list HTLCRecord) : Z := sum_amounts (List.filter is_pending hs).

Lemma sum_amounts_app hs hs' : sum_amounts (hs ++ hs') = sum_amounts hs + sum_amounts hs'.
Proof. induction hs as [|h hs IH]; simpl; lia. Qed.
Lemma locked_app hs hs' : locked (hs ++ hs') = locked hs + locked hs'.
Proof. unfold locked. by rewrite List.filter_app, sum_amounts_app. Qed.

Lemma sum_map_set k v (b : Balances) :
  NoDup b.*1 → sum_balances (map_set k v b) = sum_balances b - default 0 (map_get k b) + v.
Proof.
  induction b as [|[k' v'] b IH]; simpl; [lia|]. intros [Hni Hnd]%NoDup_cons.
  destruct (String.eqb_spec k' k) as [->|Hne]; simpl; [lia|]. rewrite IH by done. lia.
Qed.

Definition nonneg (b : Balances) : Prop := Forall (λ kv, 0 <= kv.2) b.

Lemma nonneg_get k (b : Balances) : nonneg b → 0 <= default 0 (map_get k b).
Proof.
  unfold nonneg. rewrite Forall_forall. intros H. destruct (map_get k b) as [v|] eqn:E; simpl; [|lia].
  apply map_get_elem in E. exact (H _ E).
Qed.
Lemma nonneg_set k v (b : Balances) : nonneg b → 0 <= v → nonneg (map_set k v b).
Proof.
  unfold nonneg. rewrite !Forall_forall. intros H Hv [k' v'] Hin.
  apply map_set_keeps in Hin as [ [-> ->] | Hin]; [done|]. exact (H _ Hin).
Qed.

Lemma check_negative_Ok what b : check_negative what b = Ok tt ↔ nonneg b.
Proof.
  unfold check_negative, nonneg. destruct (List.find (λ kv, kv.2 <? 0) b) as [kv|] eqn:E.
  - apply find_some in E as [Hin Hlt]. split; [done|]. rewrite Forall_forall. intros H.
    specialize (H kv ltac:(by apply list_elem_of_In)). lia.
  - split; [|done]. intros _. apply Forall_forall. intros kv Hin%list_elem_of_In.
    pose proof (find_none _ _ E kv Hin). simpl in *. lia.
Qed.

Lemma check_split_Ok c b hs :
  check_split c b hs = Ok tt ↔ sum_balances b + locked hs = totalValue c ∧ nonneg b.
Proof.
  unfold check_split. fold (locked hs). rewrite result_bind_Ok. split.
  - intros ([] & Ht%throw_if_Ok & Hn). rewrite check_negative_Ok in Hn. split; [lia | done].
  - intros [Ht Hn]. exists tt. rewrite check_negative_Ok, throw_if_Ok. split; [lia | done].
Qed.

(** ** Payments by id *)

(** Settling a payment unlocks exactly its amount. *)
Lemma settle_other i st hs : i ∉ map htlcId hs → settle i st hs = hs.
Proof.
  induction hs as [|h hs IH]; [done|]. simpl. rewrite not_elem_of_cons. intros [Hne Hni].
  rewrite IH by done. destruct (String.eqb_spec (htlcId h) i); congruence.
Qed.
Lemma settle_ids i st hs : map htlcId (settle i st hs) = map htlcId hs.
Proof. unfold settle. rewrite map_map. apply map_ext. intros h. by destruct (String.eqb _ _). Qed.

Lemma locked_settle i st hs h :
  NoDup (map htlcId hs) → st ≠ pending → h ∈ hs → htlcId h = i → is_pending h = true →
  locked (settle i st hs) = locked hs - amount h.
Proof.
  intros Hnd Hst. induction hs as [|g hs IH]; [by intros ?%elem_of_nil|]. simpl in Hnd.
  apply NoDup_cons in Hnd as [Hni Hnd]. intros [->|Hin]%elem_of_cons Hi Hp.
  - simpl. rewrite Hi, String.eqb_refl. rewrite settle_other by congruence.
    change (g :: hs) with ([g] ++ hs). change (set_status st g :: hs) with ([set_status st g] ++ hs).
    rewrite !locked_app. unfold locked at 1 3. simpl. rewrite Hp.
    unfold is_pending at 1. simpl. rewrite bool_decide_false by done. simpl. lia.
  - simpl. destruct (String.eqb_spec (htlcId g) i) as [He|He].
    { exfalso. apply Hni. rewrite He, <- Hi. by apply list_elem_of_fmap_2. }
    change (g :: settle i st hs) with ([g] ++ settle i st hs). change (g :: hs) with ([g] ++ hs).
    rewrite !locked_app. rewrite (IH Hnd Hin Hi Hp). lia.
Qed.

Lemma find_pending_Ok c i h :
  find_pending c i = Ok h → h ∈ c_pendingHTLCs c ∧ htlcId h = i ∧ is_pending h = true.
Proof.
  unfold find_pending. destruct (List.find _ _) as [h'|] eqn:E; [|done]. intros [= ->].
  apply find_some in E as [Hin Hb]. apply andb_prop in Hb as [Hi%String.eqb_eq Hp].
  split; [by apply list_elem_of_In | done].
Qed.

(** No payment of that id can be settled any more. *)
Definition spent_id (i : string) (hs : list HTLCRecord) : Prop :=
  Forall (λ h, htlcId h = i → is_pending h = false) hs.

Lemma spent_settle i st hs : st ≠ pending → spent_id i (settle i st hs).
Proof.
  intros Hst. apply Forall_map, Forall_forall. intros h _ Hi.
  destruct (String.eqb_spec (htlcId h) i); [|done]. unfold is_pending. simpl. by rewrite bool_decide_false.
Qed.
Lemma spent_settle_other i j st hs : st ≠ pending → spent_id i hs → spent_id i (settle j st hs).
Proof.
  intros Hst H. apply Forall_map. eapply Forall_impl; [exact H|]. intros h Hh.
  destruct (String.eqb (htlcId h) j); [|done]. intros _. unfold is_pending. simpl. by rewrite bool_decide_false.
Qed.
Lemma spent_find c i : spent_id i (c_pendingHTLCs c) → is_ok (find_pending c i) = false.
Proof.
  intros H. destruct (find_pending c i) as [h|] eqn:E; [|done]. apply find_pending_Ok in E as (Hin & Hi & Hp).
  unfold spent_id in H. rewrite Forall_forall in H. rewrite (H h Hin Hi) in Hp. done.
Qed.

(** ** Operations as steps *)

Section channel.
Context {Cr : Crypto} {P : Type} {Wl : WotsLeaseProvider P} (registry : list (string * ChannelProgram)).
Notation Omnia := (M (World P) OmniaError).

(** A call on a channel object, with what it is given and what the chain answers. *)
Inductive op :=
| OpUpdate (now : Z) (delta : UpdateDelta) (signer : option ChannelSigner) (signerPort : option SignerPort)
| OpAdd (now : Z) (newId : string) (params : AddHTLCParams) (signer : option ChannelSigner)
| OpFulfill (now : Z) (i preimage : string) (tip : result OmniaError Z) (signer : option ChannelSigner)
| OpTimeout (now : Z) (i : string) (tip : result OmniaError Z) (signer : option ChannelSigner)
| OpAttach (now : Z) (p : PartialState) (party : string) (sig : ChannelSignature) (inds : Wm.SigningIndices)
    (package : option SignedClosePackage)
| OpActivate (now : Z)
| OpConfirm (now : Z) (coinId : string) (coin : option Coin) (tip : result OmniaError Z) (minConfirmations : Z).

(** The channel the call returns. *)
Definition run_op (o : op) (c : OmniaChannel) : Omnia OmniaChannel :=
  match o with
  | OpUpdate now delta s p => r ← updateState registry now c delta s p; mret (fst r)
  | OpAdd now newId params s => r ← addHTLC registry now newId c params s; mret (fst (fst r))
  | OpFulfill now i preimage tip s => r ← fulfillHTLC registry now c i preimage tip s; mret (fst r)
  | OpTimeout now i tip s => r ← timeoutHTLC registry now c i tip s; mret (fst r)
  | OpAttach now p party sig inds package =>
      mlift (fst <$> attachCounterpartySignature registry now c p party sig inds package)
  | OpActivate now => mlift (activateChannel now c)
  | OpConfirm now coinId coin tip n => mlift (confirmUpdateBroadcast now c coinId coin tip n)
  end.

(** The channel one update later. *)
Definition moved (c : OmniaChannel) (bal : Balances) (hs : list HTLCRecord) (c' : OmniaChannel) : Prop :=
  ∃ log proposal t, c' = with_state c bal hs (currentSequence c + 1) (latestState c) log proposal t.

Ltac step H :=
  apply mbind_Ok in H as (? & ? & ? & H);
  repeat match goal with
  | K : mlift _ _ = (Ok _, _) |- _ => apply mlift_Ok in K as [K ->]
  | K : mthrow_if _ _ _ = (Ok _, _) |- _ => apply mthrow_if_Ok in K as [K ->]
  end; try match goal with u : unit |- _ => destruct u end.

Lemma require_active_Ok c u : require_active c = Ok u → c_status c = active.
Proof.
  unfold require_active, throw_if. destruct (bool_decide (c_status c = active)) eqn:E; [|done].
  by apply bool_decide_eq_true in E.
Qed.

Lemma updateState_Ok now c delta s p w c' q w' :
  updateState registry now c delta s p w = (Ok (c', q), w') →
  c_status c = active ∧ check_split c (delta_newBalances delta) (c_pendingHTLCs c) = Ok tt ∧
  match q with
  | None => c' = c
  | Some _ => moved c (delta_newBalances delta) (c_pendingHTLCs c) c'
  end.
Proof.
  unfold updateState. intros Hr. step Hr. match goal with K : require_active _ = _ |- _ => apply require_active_Ok in K end. do 3 step Hr. cbv zeta in Hr.
  step Hr. split; [done|]. split; [done|].
  do 2 step Hr. match goal with b : bool |- _ => destruct b end.
  - by injection Hr as <- <- _.
  - do 2 step Hr. injection Hr as <- <- _. by repeat eexists.
Qed.

Lemma advance_Ok now c s party bal hs event w c' q w' :
  advance registry now c s party bal hs event w = (Ok (c', q), w') →
  check_split c bal hs = Ok tt ∧
  match q with None => c' = c | Some _ => moved c bal hs c' end.
Proof.
  unfold advance. cbv zeta. intros Hr. step Hr. split; [done|]. do 2 step Hr. match goal with b : bool |- _ => destruct b end.
  - by injection Hr as <- <- _.
  - do 2 step Hr. injection Hr as <- <- _. by repeat eexists.
Qed.

(** The payment an offer records. *)
Definition is_offer (newId : string) (params : AddHTLCParams) (h : HTLCRecord) : Prop :=
  htlcId h = newId ∧ amount h = ad_amount params ∧ status h = pending ∧ 0 < amount h ∧
  timeoutBlock h = ad_timeoutBlock params.

Lemma addHTLC_Ok now newId c params s w c' i q w' :
  addHTLC registry now newId c params s w = (Ok (c', i, q), w') →
  ∃ h party, let old := default 0 (map_get party (c_balances c)) in
    let bal := map_set party (old - amount h) (c_balances c) in
    let hs := c_pendingHTLCs c ++ [h] in
    i = newId ∧ is_offer newId params h ∧ amount h <= old ∧ check_split c bal hs = Ok tt ∧
    match q with None => c' = c | Some _ => moved c bal hs c' end.
Proof.
  unfold addHTLC. intros Hr. do 5 step Hr. cbv zeta in Hr. do 7 step Hr. step Hr. match goal with x : OmniaChannel * _ |- _ => destruct x as [c1 q1] end.
  injection Hr as <- <- <- _. match goal with K : advance _ _ _ _ _ _ _ _ _ = _ |- _ => apply advance_Ok in K as [Hc Hm] end.
  match type of Hc with check_split _ (map_set ?k _ _) (_ ++ [?h]) = _ => exists h, k end.
  cbv zeta. split; [done|]. split; [|split; [|by split] ].
  - unfold is_offer. simpl. split_and!; try done. lia.
  - simpl. lia.
Qed.

Lemma find_party_Ok c digest e p : find_party c digest e = Ok p → find_digest c digest = Some p.
Proof.
  unfold find_party. intros Hr. apply result_bind_Ok in Hr as (x & Hx & Hr).
  apply result_bind_Ok in Hr as (u & _ & [= <-]). unfold of_option in Hx. by destruct (find_digest c digest); simplify_eq.
Qed.

Lemma fulfillHTLC_Ok now c i preimage tip s w c' q w' :
  fulfillHTLC registry now c i preimage tip s w = (Ok (c', q), w') →
  ∃ h block recipient, find_pending c i = Ok h ∧ tip = Ok block ∧ block <= timeoutBlock h ∧
    verifyPreimage (normalizeHash preimage) (hashlock h) = true ∧
    find_digest c (recipientPublicKeyDigest h) = Some recipient ∧
    let bal := credit c (partyId recipient) (amount h) in
    let hs := settle i fulfilled (c_pendingHTLCs c) in
    check_split c bal hs = Ok tt ∧ match q with None => c' = c | Some _ => moved c bal hs c' end.
Proof.
  unfold fulfillHTLC. intros Hr. do 9 step Hr. apply advance_Ok in Hr.
  exists x0, x1, x2. split_and!; [done..|lia|by apply negb_false_iff|by eapply find_party_Ok|exact (proj1 Hr)|exact (proj2 Hr)].
Qed.

Lemma timeoutHTLC_Ok now c i tip s w c' q w' :
  timeoutHTLC registry now c i tip s w = (Ok (c', q), w') →
  ∃ h block sender, find_pending c i = Ok h ∧ tip = Ok block ∧ timeoutBlock h <= block ∧
    find_digest c (senderPublicKeyDigest h) = Some sender ∧
    let bal := credit c (partyId sender) (amount h) in
    let hs := settle i timed_out (c_pendingHTLCs c) in
    check_split c bal hs = Ok tt ∧ match q with None => c' = c | Some _ => moved c bal hs c' end.
Proof.
  unfold timeoutHTLC. intros Hr. do 7 step Hr. apply advance_Ok in Hr.
  exists x0, x1, x2. split_and!; [done..|lia|by eapply find_party_Ok|exact (proj1 Hr)|exact (proj2 Hr)].
Qed.

(** A package attached to a channel carries a state that fits it. *)
Lemma err_nil b e : err b e = [] → b = false.
Proof. by destruct b. Qed.

Lemma state_errors_nil c state :
  state_errors registry c state = Ok [] →
  sum_balances (balances state) + locked (pendingHTLCs state) = totalValue c ∧ nonneg (balances state).
Proof.
  unfold state_errors. intros He.
  apply result_bind_Ok in He as (m & _ & He). apply result_bind_Ok in He as (prog & _ & He).
  apply result_bind_Ok in He as (t & _ & He). apply result_bind_Ok in He as (r & _ & He).
  injection He as He. apply app_eq_nil in He as [Ht%err_nil He]. apply app_eq_nil in He as [Hs _].
  apply app_eq_nil in Hs as [_ Hs]. split; [unfold locked; lia|].
  apply Forall_forall. intros kv Hkv. pose proof (proj1 (concat_nil_Forall _) Hs) as Hs'.
  rewrite Forall_map, Forall_forall in Hs'. specialize (Hs' kv Hkv). apply err_nil in Hs'. lia.
Qed.

Lemma attach_Ok now c p party sig inds package c' st :
  attachCounterpartySignature registry now c p party sig inds package = Ok (c', st) →
  sum_balances (ps_balances p) + locked (ps_pendingHTLCs p) = totalValue c ∧ nonneg (ps_balances p) ∧
  currentSequence c <= ps_sequence p ∧
  ∃ log proposal t, c' = with_state c (ps_balances p) (c_pendingHTLCs c) (ps_sequence p) (Some st) log proposal t.
Proof.
  unfold attachCounterpartySignature. intros Hr.
  apply result_bind_Ok in Hr as (u & _ & Hr). apply result_bind_Ok in Hr as (u1 & _ & Hr).
  apply result_bind_Ok in Hr as (pk & _ & Hr). cbv zeta in Hr.
  apply result_bind_Ok in Hr as (errors & He & Hr). apply result_bind_Ok in Hr as ([] & Hl & Hr).
  apply throw_if_Ok in Hl. destruct errors as [|e errors]; [|done]. injection Hr as <- <-.
  unfold validateStateForCoSign in He. apply result_bind_Ok in He as (se & Hse & He).
  apply result_bind_Ok in He as (ce & _ & He). injection He as He.
  apply app_eq_nil in He as [Hq%err_nil He]. apply app_eq_nil in He as [-> _].
  apply state_errors_nil in Hse as [Ht Hn]. cbn [sequence balances pendingHTLCs] in *.
  split_and!; [done..|lia|]. by repeat eexists.
Qed.

(** ** Histories *)

(** A well-formed channel: one payment per id, one balance per party, nothing negative. *)
Record well_formed (c : OmniaChannel) : Prop := mkWell {
  wf_ids : NoDup (map htlcId (c_pendingHTLCs c));
  wf_keys : NoDup (c_balances c).*1;
  wf_nonneg : nonneg (c_balances c);
  wf_amounts : Forall (λ h, is_pending h = true → 0 <= amount h) (c_pendingHTLCs c) }.

(** A consistent one: balances and locked payments add up to the channel's value, too. *)
Record sound (c : OmniaChannel) : Prop := mkSound {
  sound_well : well_formed c;
  sound_total : sum_balances (c_balances c) + locked (c_pendingHTLCs c) = totalValue c }.

(** What the call's data are in JavaScript: an object of balances has one entry per
    key, and the id made for a new payment is not in use. *)
Definition admissible (o : op) (c : OmniaChannel) : Prop :=
  match o with
  | OpUpdate _ delta _ _ => NoDup (delta_newBalances delta).*1
  | OpAdd _ newId _ _ => newId ∉ map htlcId (c_pendingHTLCs c)
  | OpAttach _ p _ _ _ _ => NoDup (ps_balances p).*1
  | _ => True
  end.

(** A co-signed state that is attached locks what the channel locks.
    [attachCounterpartySignature] does not compare the two. *)
Definition locks_alike (o : op) (c : OmniaChannel) : Prop :=
  match o with
  | OpAttach _ p _ _ _ _ => locked (ps_pendingHTLCs p) = locked (c_pendingHTLCs c)
  | _ => True
  end.

Definition next (c c' : OmniaChannel) : Prop :=
  ∃ o w w', admissible o c ∧ run_op o c w = (Ok c', w').
Definition next_alike (c c' : OmniaChannel) : Prop :=
  ∃ o w w', admissible o c ∧ locks_alike o c ∧ run_op o c w = (Ok c', w').

(** Activation and confirmation leave the money alone. *)
Definition same_money (c c' : OmniaChannel) : Prop :=
  ∃ st onChain coin t, c' = with_chain c st onChain coin t.

Lemma activate_Ok now c c' : activateChannel now c = Ok c' → same_money c c'.
Proof.
  unfold activateChannel. intros Hr. apply result_bind_Ok in Hr as (u & _ & [= <-]). by repeat eexists.
Qed.
Lemma confirm_Ok now c coinId coin tip n c' :
  confirmUpdateBroadcast now c coinId coin tip n = Ok c' → same_money c c'.
Proof.
  unfold confirmUpdateBroadcast. intros Hr. do 8 apply result_bind_Ok in Hr as (? & _ & Hr).
  apply result_bind_Ok in Hr as ([a b] & _ & Hr). apply result_bind_Ok in Hr as (? & _ & [= <-]).
  by repeat eexists.
Qed.

(** What one call may do to the money and the payments of a channel; [alike] is
    [locks_alike] of the call. *)
Inductive effect (alike : Prop) (c c' : OmniaChannel) : Prop :=
| effect_none : same_money c c' ∨ c' = c → effect alike c c'
| effect_update bal : NoDup bal.*1 → check_split c bal (c_pendingHTLCs c) = Ok tt →
    moved c bal (c_pendingHTLCs c) c' → effect alike c c'
| effect_add party h : htlcId h ∉ map htlcId (c_pendingHTLCs c) → 0 < amount h →
    let bal := map_set party (default 0 (map_get party (c_balances c)) - amount h) (c_balances c) in
    check_split c bal (c_pendingHTLCs c ++ [h]) = Ok tt → moved c bal (c_pendingHTLCs c ++ [h]) c' → effect alike c c'
| effect_settle i st party h : st ≠ pending → find_pending c i = Ok h →
    let bal := credit c party (amount h) in let hs := settle i st (c_pendingHTLCs c) in
    check_split c bal hs = Ok tt → moved c bal hs c' → effect alike c c'
| effect_attach bal theirs n st log proposal t : NoDup bal.*1 → nonneg bal →
    sum_balances bal + locked theirs = totalValue c → (alike → locked theirs = locked (c_pendingHTLCs c)) → currentSequence c <= n →
    c' = with_state c bal (c_pendingHTLCs c) n (Some st) log proposal t → effect alike c c'.

Lemma run_op_effect o c w c' w' : admissible o c → run_op o c w = (Ok c', w') → effect (locks_alike o c) c c'.
Proof.
  destruct o; simpl; intros Ha Hr.
  - apply mbind_Ok in Hr as ([c1 q] & w1 & Hr & [= -> ->]). apply updateState_Ok in Hr as (_ & Hc & Hq).
    destruct q; [by eapply effect_update|]. apply effect_none. by right.
  - apply mbind_Ok in Hr as ([ [c1 i] q] & w1 & Hr & [= -> ->]).
    apply addHTLC_Ok in Hr as (h & party & -> & (<- & _ & _ & Hpos & _) & _ & Hc & Hq).
    destruct q; [by eapply effect_add|]. apply effect_none. by right.
  - apply mbind_Ok in Hr as ([c1 q] & w1 & Hr & [= -> ->]).
    apply fulfillHTLC_Ok in Hr as (h & b & r & Hf & _ & _ & _ & _ & Hc & Hq).
    destruct q; [by eapply (effect_settle _ _ _ i fulfilled)|]. apply effect_none. by right.
  - apply mbind_Ok in Hr as ([c1 q] & w1 & Hr & [= -> ->]).
    apply timeoutHTLC_Ok in Hr as (h & b & r & Hf & _ & _ & _ & Hc & Hq).
    destruct q; [by eapply (effect_settle _ _ _ i timed_out)|]. apply effect_none. by right.
  - apply mlift_Ok in Hr as [Hr ->]. destruct (attachCounterpartySignature _ _ _ _ _ _ _ _) as [ [c1 st]|] eqn:E; [|done].
    injection Hr as <-. apply attach_Ok in E as (Ht & Hn & Hs & log & pr & t & ->). by eapply effect_attach.
  - apply mlift_Ok in Hr as [Hr%activate_Ok ->]. apply effect_none. by left.
  - apply mlift_Ok in Hr as [Hr%confirm_Ok ->]. apply effect_none. by left.
Qed.

End channel.
(** ** The invariant *)

Lemma sound_moved c bal hs c' :
  NoDup (map htlcId hs) → NoDup bal.*1 → Forall (λ h, is_pending h = true → 0 <= amount h) hs →
  check_split c bal hs = Ok tt → moved c bal hs c' → sound c'.
Proof.
  intros Hi Hk Ha [Ht Hn]%check_split_Ok (log & pr & t & ->). by repeat constructor.
Qed.

Lemma amounts_settle i st hs :
  st ≠ pending → Forall (λ h, is_pending h = true → 0 <= amount h) hs →
  Forall (λ h, is_pending h = true → 0 <= amount h) (settle i st hs).
Proof.
  intros Hst Hf. apply Forall_map. eapply Forall_impl; [exact Hf|]. intros h Hh.
  destruct (String.eqb (htlcId h) i); [|done]. unfold is_pending. simpl. by rewrite bool_decide_false.
Qed.

(** Whatever the call, a well-formed channel stays one, and is consistent after it unless
    the call moved no money or attached a state. *)
Lemma effect_sound A c c' : effect A c c' → well_formed c → well_formed c' ∧ (A → sound c → sound c').
Proof.
  intros He [Hi Hk Hn Ha].
  assert (sound c' → well_formed c' ∧ (A → sound c → sound c')) as Hw by (intros Hs; split; [apply Hs|done]).
  destruct He as [ [(? & ? & ? & ? & ->)| ->] |bal Hb Hc Hm|party h Hni Hpos bal Hc Hm
                 |i st party h Hst Hf bal hs Hc Hm|bal theirs n st log pr t Hb Hnb Hs Hal Hle ->].
  - split; [by constructor|]. by intros _ [? ?].
  - split; [by constructor|done].
  - apply Hw. by apply (sound_moved c bal (c_pendingHTLCs c)).
  - apply Hw. eapply sound_moved; [| | |exact Hc|exact Hm].
    + rewrite map_app. apply NoDup_app. split_and!; [done| |apply NoDup_singleton].
      intros x Hx Hx1. simpl in Hx1. set_solver.
    + by apply map_set_NoDup.
    + apply Forall_app. split; [done|]. apply Forall_singleton. lia.
  - apply Hw. eapply sound_moved; [| | |exact Hc|exact Hm].
    + subst hs. by rewrite settle_ids.
    + by apply map_set_NoDup.
    + by apply amounts_settle.
  - split; [by constructor|]. intros Al _. split; [by constructor|].
    change (sum_balances bal + locked (c_pendingHTLCs c) = totalValue c). by rewrite <- Hal.
Qed.

Lemma effect_frame A c c' :
  effect A c c' → totalValue c' = totalValue c ∧ parties c' = parties c ∧ currentSequence c <= currentSequence c'.
Proof.
  intros [ [(? & ? & ? & ? & ->)| ->] |? ? ? (? & ? & ? & ->)|? ? ? ? ? ? (? & ? & ? & ->)
         |? ? ? ? ? ? ? ? ? (? & ? & ? & ->)|? ? ? ? ? ? ? ? ? ? ? ? ->]; simpl; split_and!; try done; lia.
Qed.

(** A spent payment id stays spent unless the id is offered again. *)
Lemma effect_spent A i c c' :
  effect A c c' → spent_id i (c_pendingHTLCs c) → (i ∈ map htlcId (c_pendingHTLCs c)) →
  spent_id i (c_pendingHTLCs c') ∧ i ∈ map htlcId (c_pendingHTLCs c').
Proof.
  intros [ [(? & ? & ? & ? & ->)| ->] |? ? ? (? & ? & ? & ->)|? h Hni ? ? ? (? & ? & ? & ->)
         |j st ? ? Hst ? ? ? ? (? & ? & ? & ->)|? ? ? ? ? ? ? ? ? ? ? ? ->] Hs Hin; try done.
  - cbn. split.
    + apply Forall_app. split; [done|]. apply Forall_singleton. intros <-. done.
    + rewrite map_app. set_solver.
  - cbn. subst hs. split; [by apply spent_settle_other | by rewrite settle_ids].
Qed.

(** ** The arithmetic of a payment never unbalances a consistent channel *)

Lemma settle_splits c i st party h :
  sound c → st ≠ pending → find_pending c i = Ok h →
  check_split c (credit c party (amount h)) (settle i st (c_pendingHTLCs c)) = Ok tt.
Proof.
  intros [[Hi Hk Hn Ha] Ht] Hst (Hin & Hid & Hp)%find_pending_Ok. apply check_split_Ok. unfold credit.
  rewrite Forall_forall in Ha. specialize (Ha h Hin Hp).
  split; [rewrite sum_map_set, (locked_settle _ _ _ h) by done; lia|].
  apply nonneg_set; [done|]. pose proof (nonneg_get party _ Hn). lia.
Qed.

Lemma offer_splits c party h :
  sound c → is_pending h = true → amount h <= default 0 (map_get party (c_balances c)) →
  check_split c (map_set party (default 0 (map_get party (c_balances c)) - amount h) (c_balances c))
    (c_pendingHTLCs c ++ [h]) = Ok tt.
Proof.
  intros [[Hi Hk Hn Ha] Ht] Hp Hle. apply check_split_Ok. rewrite sum_map_set, locked_app by done. split.
  - unfold locked at 2. simpl. rewrite Hp. simpl. lia.
  - apply nonneg_set; [done|lia].
Qed.

Section properties.
Context {Cr : Crypto} {P : Type} {Wl : WotsLeaseProvider P} (registry : list (string * ChannelProgram)).

Lemma reachable_well c c' :
  well_formed c → rtc (next registry) c c' →
  well_formed c' ∧ totalValue c' = totalValue c ∧ parties c' = parties c ∧ currentSequence c <= currentSequence c'.
Proof.
  intros Hs Hr. induction Hr as [c|c c1 c' (o & w & w' & Ha & Hrun) Hr IH]; [by split_and!|].
  apply run_op_effect in Hrun; [|done]. destruct (effect_sound _ _ _ Hrun Hs) as [Hs1 _].
  destruct (IH Hs1) as (? & Ht & Hp & Hq).
  apply effect_frame in Hrun as (? & ? & ?). split_and!; [done|congruence|congruence|lia].
Qed.
Lemma reachable_sound c c' : sound c → rtc (next_alike registry) c c' → sound c'.
Proof.
  intros Hs Hr. induction Hr as [c|c c1 c' (o & w & w' & Ha & Hl & Hrun) Hr IH]; [done|].
  apply run_op_effect in Hrun; [|done]. apply IH. by apply (effect_sound _ _ _ Hrun (sound_well _ Hs)).
Qed.

Lemma attach_sound now c p party sig inds package c' st :
  well_formed c → NoDup (ps_balances p).*1 →
  attachCounterpartySignature registry now c p party sig inds package = Ok (c', st) →
  sound c' ↔ locked (ps_pendingHTLCs p) = locked (c_pendingHTLCs c).
Proof.
  intros [Hi _ _ Ha] Hk (Ht & Hn & _ & log & pr & t & ->)%attach_Ok. split.
  - intros [_ Hs]. change (sum_balances (ps_balances p) + locked (c_pendingHTLCs c) = totalValue c) in Hs. lia.
  - intros El. split; [by constructor|].
    change (sum_balances (ps_balances p) + locked (c_pendingHTLCs c) = totalValue c). lia.
Qed.

Lemma reachable_spent i c c' :
  spent_id i (c_pendingHTLCs c) → i ∈ map htlcId (c_pendingHTLCs c) → rtc (next registry) c c' →
  spent_id i (c_pendingHTLCs c').
Proof.
  intros Hs Hin Hr. induction Hr as [c|c c1 c' (o & w & w' & Ha & Hrun) Hr IH]; [done|].
  apply run_op_effect in Hrun; [|done]. destruct (effect_spent _ i _ _ Hrun Hs Hin). by apply IH.
Qed.

(** The two operations that pay out the payment [i]. *)
Definition settles (i : string) (o : op) : Prop :=
  match o with
  | OpFulfill _ j _ _ _ => j = i
  | OpTimeout _ j _ _ => j = i
  | _ => False
  end.

Lemma spent_refuses i o c w : settles i o → spent_id i (c_pendingHTLCs c) → is_ok (run_op registry o c w).1 = false.
Proof.
  intros Ho Hs%spent_find. destruct (run_op registry o c w) as [ [c'|e] w'] eqn:E; [|done]. exfalso.
  destruct o as [| |now j pre tip s|now j tip s| | |]; try done; simpl in Ho; subst j; simpl in E;
    apply mbind_Ok in E as ([c1 q] & w1 & E & _).
  - apply fulfillHTLC_Ok in E as (h & b & r & Hf & _). by rewrite Hf in Hs.
  - apply timeoutHTLC_Ok in E as (h & b & r & Hf & _). by rewrite Hf in Hs.
Qed.

(** What a call that pays out a payment has checked and done. *)
Definition paid_out (o : op) (c c' : OmniaChannel) : Prop :=
  match o with
  | OpFulfill _ i preimage tip _ => ∃ h block recipient,
      h ∈ c_pendingHTLCs c ∧ htlcId h = i ∧ status h = pending ∧
      verifyPreimage (normalizeHash preimage) (hashlock h) = true ∧
      tip = Ok block ∧ block <= timeoutBlock h ∧
      find_digest c (recipientPublicKeyDigest h) = Some recipient ∧
      c_balances c' = credit c (partyId recipient) (amount h)
  | OpTimeout _ i tip _ => ∃ h block sender,
      h ∈ c_pendingHTLCs c ∧ htlcId h = i ∧ status h = pending ∧
      tip = Ok block ∧ timeoutBlock h <= block ∧
      find_digest c (senderPublicKeyDigest h) = Some sender ∧
      c_balances c' = credit c (partyId sender) (amount h)
  | _ => False
  end.

Lemma pays_out i o c w c' w' :
  settles i o → run_op registry o c w = (Ok c', w') → c' ≠ c →
  paid_out o c c' ∧ spent_id i (c_pendingHTLCs c') ∧ i ∈ map htlcId (c_pendingHTLCs c').
Proof.
  intros Ho Hr Hne.
  destruct o as [| |now j pre tip s|now j tip s| | |]; try done; simpl in Ho; subst j; simpl in Hr;
    apply mbind_Ok in Hr as ([c1 q] & w1 & Hr & [= -> ->]).
  - apply fulfillHTLC_Ok in Hr as (h & b & r & Hf & Htip & Hle & Hv & Hr & Hc & Hq).
    destruct q; [|done]. destruct Hq as (log & pr & t & ->).
    apply find_pending_Ok in Hf as (Hin & Hi & Hp). apply bool_decide_eq_true in Hp.
    split; [by exists h, b, r|]. cbn. split; [by apply spent_settle|]. rewrite settle_ids.
    rewrite <- Hi. by apply list_elem_of_fmap_2.
  - apply timeoutHTLC_Ok in Hr as (h & b & r & Hf & Htip & Hle & Hr & Hc & Hq).
    destruct q; [|done]. destruct Hq as (log & pr & t & ->).
    apply find_pending_Ok in Hf as (Hin & Hi & Hp). apply bool_decide_eq_true in Hp.
    split; [by exists h, b, r|]. cbn. split; [by apply spent_settle|]. rewrite settle_ids.
    rewrite <- Hi. by apply list_elem_of_fmap_2.
Qed.

End properties.

(** ** A concrete channel *)

#[export] Instance toy_crypto : Crypto := {
  sha3_256 := TxSpec.toy_sha;
  wotsAddressData := λ d, "0x" +:+ d;
  htlcScriptAddress := λ _ _ _ _, Ok "0xbeef"%string;
  verifyTreeSignature := λ _ _ _, true }.
(** A provider that hands out consecutive leaves. *)
Definition toy_leaf (n : Z) : Wm.SigningIndices := Wm.mkIndices 0 (n / 64) (n mod 64).
#[export] Instance toy_provider : WotsLeaseProvider Z := {
  reserveKeyUse := λ _ _ _ n, (Ok (mkReservation (dec n) (toy_leaf n)), n + 1);
  commitKeyUse := λ _ _ n, (Ok tt, n);
  burnReservation := λ _ _ n, (Ok tt, n) }.
Definition toy_world : World Z := mkWorld (mkGuards [] ∅) 0 [].
Definition toy_signer : ChannelSigner := mkSigner "aa" (λ _ _, Ok "signature"%string).
Definition toy_preimage : string := "0x" +:+ hex_of_bytes (TxSpec.toy_sha "seed").
Definition toy_hashlock : string := "0x" +:+ hex_of_bytes (TxSpec.toy_sha (hex_pairs (drop_str 2 toy_preimage))).
Definition toy_add : op := OpAdd 1000 "h1" (mkAdd 25 toy_hashlock 50 offered "bb") (Some toy_signer).
Definition toy_fulfill : op := OpFulfill 2000 "h1" toy_preimage (Ok 40) (Some toy_signer).

Definition toy_run (o : op) (c : OmniaChannel) : result OmniaError OmniaChannel * World Z :=
  run_op (programs TxSpec.toy_sha) o c toy_world.
Definition toy_result (o : op) (c : OmniaChannel) : OmniaChannel :=
  match (toy_run o c).1 with Ok c' => c' | Err _ => c end.
Definition toy_added : OmniaChannel := toy_result toy_add TxSpec.toy_channel.
Definition toy_fulfilled : OmniaChannel := toy_result toy_fulfill toy_added.

Lemma toy_sound : sound TxSpec.toy_channel.
Proof. constructor; [constructor; [apply NoDup_nil_2|by apply TxSpec.keys_NoDup|by repeat constructor|constructor]|reflexivity]. Qed.
Lemma toy_added_ok : is_ok (toy_run toy_add TxSpec.toy_channel).1 = true.
Proof. vm_compute. reflexivity. Qed.
Lemma toy_fulfilled_ok : is_ok (toy_run toy_fulfill toy_added).1 = true.
Proof. vm_compute. reflexivity. Qed.
Lemma toy_run_Ok o c : is_ok (toy_run o c).1 = true → toy_run o c = (Ok (toy_result o c), (toy_run o c).2).
Proof. unfold toy_result. by destruct (toy_run o c) as [ [c'|] w]. Qed.
Lemma toy_step o c : is_ok (toy_run o c).1 = true → admissible o c → locks_alike o c →
  next_alike (P := Z) (programs TxSpec.toy_sha) c (toy_result o c).
Proof. intros Hok Ha Hl. exists o, toy_world, (toy_run o c).2. split; [exact Ha|]. split; [exact Hl|by apply toy_run_Ok]. Qed.
Lemma toy_add_admissible : admissible toy_add TxSpec.toy_channel.
Proof. simpl. by intros ?%elem_of_nil. Qed.
Lemma toy_moves : rtc (next_alike (P := Z) (programs TxSpec.toy_sha)) TxSpec.toy_channel toy_fulfilled.
Proof.
  refine (rtc_l _ _ _ _ (toy_step toy_add TxSpec.toy_channel toy_added_ok toy_add_admissible I) _).
  exact (rtc_once _ _ (toy_step toy_fulfill toy_added toy_fulfilled_ok I I)).
Qed.

(** A state with an offered payment, attached by a caller whose channel has not got the
    payment: the balances are the state's, the payments the channel's own. *)
Definition wide_key (c : ascii) : string := repeat_char 64 c.
Definition toy_keyed : OmniaChannel :=
  mkChannel "0xc1" "0xf1" "0x1234" "RETURN TRUE" "eltoo-payment" 1 "0xabcd" "0x00" 0 100
    [mkParty "alice" (wide_key "a") None; mkParty "bob" (wide_key "b") None] [("alice", 60); ("bob", 40)]%string [] 0
    (Some 0) None [] active false None None None None None None (of_Z 0) (of_Z 0).
Definition toy_offer : option PartialState :=
  match (addHTLC (P := Z) (programs TxSpec.toy_sha) 1000 "h1" toy_keyed (mkAdd 25 toy_hashlock 50 offered (wide_key "b"))
           (Some (mkSigner (wide_key "a") (λ _ _, Ok "signature"%string))) toy_world).1 with
  | Ok (_, _, p) => p
  | Err _ => None
  end.
Definition toy_attached : result OmniaError (OmniaChannel * SignedChannelState) :=
  match toy_offer with
  | Some p => attachCounterpartySignature (programs TxSpec.toy_sha) 1001 toy_keyed p "bob" "signature" (toy_leaf 7)
                ((λ k, addClosePackageSignature k "bob" "signature" (toy_leaf 7) "signature" (toy_leaf 8)) <$> ps_closePackage p)
  | None => Err (Plain "no offer")
  end.
Lemma toy_keyed_sound : sound toy_keyed.
Proof. constructor; [constructor; [apply NoDup_nil_2|by apply TxSpec.keys_NoDup|by repeat constructor|constructor]|reflexivity]. Qed.
Theorem attaching_can_unbalance_a_channel :
  sound toy_keyed ∧
  match toy_attached with
  | Ok (c, _) => c_balances c = [("alice", 35); ("bob", 40)]%string ∧ c_pendingHTLCs c = [] ∧ totalValue c = 100
  | Err _ => False
  end.
Proof. split; [exact toy_keyed_sound|]. vm_compute. done. Qed.

(** ** Properties *)

(** C2. From a consistent channel, whatever the sequence of updates, payments,
    counterparty signatures, activations and confirmations, with any provider,
    signer and program, the channel keeps its value and parties, its sequence never
    goes back, balances stay non-negative, and attaching a co-signed state gives
    a consistent channel exactly when the state locks as much in payments as the channel
    does.  The code does not compare the two; along histories whose callers attach
    only states that do, every channel is consistent: balances and locked payments
    add up to the value the channel was opened with, and paying out any pending
    payment or offering one the party can afford passes the conservation check. *)
Theorem channel_value_is_conserved {Cr : Crypto} {P : Type} {Wl : WotsLeaseProvider P} registry c :
  sound c →
  (∀ c', rtc (next (P := P) registry) c c' →
     well_formed c' ∧ totalValue c' = totalValue c ∧ parties c' = parties c ∧ currentSequence c <= currentSequence c' ∧
     ∀ now p party sig inds package c'' st, NoDup (ps_balances p).*1 →
       attachCounterpartySignature registry now c' p party sig inds package = Ok (c'', st) →
       sound c'' ↔ locked (ps_pendingHTLCs p) = locked (c_pendingHTLCs c')) ∧
  (∀ c', rtc (next_alike (P := P) registry) c c' →
     sound c' ∧
     (∀ i h party st, find_pending c' i = Ok h → st ≠ pending →
        check_split c' (credit c' party (amount h)) (settle i st (c_pendingHTLCs c')) = Ok tt) ∧
     (∀ h party, is_pending h = true → amount h <= default 0 (map_get party (c_balances c')) →
        check_split c' (map_set party (default 0 (map_get party (c_balances c')) - amount h) (c_balances c'))
          (c_pendingHTLCs c' ++ [h]) = Ok tt)).
Proof.
  intros Hs. split; intros c' Hr.
  - destruct (reachable_well registry c c' (sound_well _ Hs) Hr) as (Hw & Ht & Hp & Hq). split_and!; [done..|].
    intros. by eapply attach_sound.
  - pose proof (reachable_sound registry c c' Hs Hr) as Hs'. split; [done|]. split; intros.
    + by apply settle_splits.
    + by apply offer_splits.
Qed.

Lemma channel_value_is_conserved_witness :
  c_balances toy_fulfilled = [("alice", 35); ("bob", 65)]%string ∧ currentSequence toy_fulfilled = 2 ∧
  sound toy_fulfilled.
Proof.
  split; [vm_compute; reflexivity|]. split; [vm_compute; reflexivity|].
  apply (proj2 (channel_value_is_conserved (programs TxSpec.toy_sha) TxSpec.toy_channel toy_sound)).
  exact toy_moves.
Defined.

(** C3. A call that pays out a payment found it pending; a fulfilment had the
    preimage of its hash and the timeout block had not passed, a timeout came at or
    after that block, and exactly the recipient, or the sender, is credited with
    its amount.  Whatever happens to the channel afterwards, no later fulfilment or
    timeout of that payment succeeds. *)
Theorem payment_is_settled_once {Cr : Crypto} {P : Type} {Wl : WotsLeaseProvider P} registry i o c w c1 w1 :
  settles i o → run_op (P := P) registry o c w = (Ok c1, w1) → c1 ≠ c →
  paid_out o c c1 ∧
  ∀ c2 o' w', rtc (next (P := P) registry) c1 c2 → settles i o' → is_ok (run_op registry o' c2 w').1 = false.
Proof.
  intros Ho Hr Hne. destruct (pays_out registry i o c w c1 w1 Ho Hr Hne) as (Hp & Hs & Hin).
  split; [done|]. intros c2 o' w' Hreach Ho'. apply (spent_refuses registry i); [done|].
  by apply (reachable_spent registry i c1).
Qed.

Lemma payment_is_settled_once_witness :
  paid_out toy_fulfill toy_added toy_fulfilled ∧
  is_ok (run_op (programs TxSpec.toy_sha) toy_fulfill toy_fulfilled toy_world).1 = false.
Proof.
  destruct (payment_is_settled_once (programs TxSpec.toy_sha) "h1" toy_fulfill toy_added toy_world toy_fulfilled
              (toy_run toy_fulfill toy_added).2) as [Hp Hl].
  - reflexivity.
  - exact (toy_run_Ok toy_fulfill toy_added toy_fulfilled_ok).
  - intros E. apply (f_equal currentSequence) in E. vm_compute in E. discriminate E.
  - split; [exact Hp|]. apply (Hl toy_fulfilled); [apply rtc_refl | reflexivity].
Defined.

End ChSpec.
