(* ===== verification/Receipt.v ===== *)
(** * Omnia: receipts of fulfilled payments (packages/omnia/src htlc.ts)

    The record of a payment that was fulfilled, bound to a state that the recipient has
    signed, and its verification. *)

From Stdlib Require Import ZArith Lia QArith Ascii String.
From stdpp Require Import base gmap list strings.
From S2P Require Import Prelude JsBase JsText Watermark Guards Omnia Transactions Programs Sign Channel ChannelSpec Json.

Module Rc.
Import Js Gd Om Tx Pg Sg Ch ChSpec Json.

Definition HTLC_FEE_PROOF_DOMAIN : string := "totemsdk/omnia/htlc-fulfillment/v1".

Record HtlcFulfillmentReceipt := mkFulfillment {
  fr_channelId : string; fr_htlcId : string; fr_recipient : string; fr_amount : Z; fr_tokenId : string;
  fulfilledAt : jsnum; fr_sequence : Z; fr_commitment : string; receiptHash : string }.

(** [JSON.stringify] of the members but the hash, with bigints as decimal text. *)
Definition receipt_text (r : HtlcFulfillmentReceipt) : string :=
  json_object [("channelId", Some (json_string (fr_channelId r))); ("htlcId", Some (json_string (fr_htlcId r)));
               ("recipientPublicKeyDigest", Some (json_string (fr_recipient r)));
               ("amount", Some (json_string (big_to_string (fr_amount r)))); ("tokenId", Some (json_string (fr_tokenId r)));
               ("fulfilledAt", Some (json_text (JNum (fulfilledAt r)))); ("sequence", Some (json_text (JNum (of_Z (fr_sequence r)))));
               ("stateCommitmentV2", Some (json_string (fr_commitment r)))]%string.

Section receipts.
Context {Cr : Crypto} (registry : list (string * ChannelProgram)).

Definition computeHtlcFulfillmentReceiptHash (r : HtlcFulfillmentReceipt) : string :=
  bytesToHex (sha3_256 (utf8 (HTLC_FEE_PROOF_DOMAIN +:+ "|" +:+ receipt_text r))).

Definition with_hash (r : HtlcFulfillmentReceipt) (h : string) : HtlcFulfillmentReceipt :=
  mkFulfillment (fr_channelId r) (fr_htlcId r) (fr_recipient r) (fr_amount r) (fr_tokenId r) (fulfilledAt r) (fr_sequence r)
    (fr_commitment r) h.

Definition is_fulfilled (i : string) (h : HTLCRecord) : bool := String.eqb (htlcId h) i && bool_decide (status h = fulfilled).

(** [at_] is the given time of fulfilment, for which the clock stands otherwise. *)
Definition buildHtlcFulfillmentReceipt (now : Z) (c : OmniaChannel) (state : SignedChannelState) (i : string) (at_ : option jsnum)
    : result OmniaError HtlcFulfillmentReceipt :=
  htlc ← of_option (Plain ("HTLC " +:+ i +:+ " is not fulfilled on the channel")) (List.find (is_fulfilled i) (c_pendingHTLCs c));
  _ ← throw_if (existsb (λ h, String.eqb (htlcId h) i) (pendingHTLCs state)) (Plain ("Signed state still carries HTLC " +:+ i +:+ " as pending"));
  commitment ← of_option (Plain "Signed state is missing the port-102 commitment")
                 (List.find (λ v, port v =? STATE_COMMITMENT_V2_PORT) (stateVariables state));
  let receipt := mkFulfillment (channelId c) i (recipientPublicKeyDigest htlc) (amount htlc) (tokenId c) (default (of_Z now) at_)
                   (sequence state) (toLowerCase (strip_0x (scalar_string (value commitment)))) "" in
  Ok (with_hash receipt (computeHtlcFulfillmentReceiptHash receipt)).

Definition verifyHtlcFulfillmentReceipt (c : OmniaChannel) (state : SignedChannelState) (r : HtlcFulfillmentReceipt) : bool :=
  String.eqb (fr_channelId r) (channelId c) && (fr_sequence r =? sequence state) &&
  match buildHtlcFulfillmentReceipt 0 c state (fr_htlcId r) (Some (fulfilledAt r)) with
  | Err _ => false
  | Ok rebuilt =>
      String.eqb (receiptHash rebuilt) (receiptHash r) &&
      String.eqb (receiptHash rebuilt) (computeHtlcFulfillmentReceiptHash r) &&
      (fr_amount rebuilt =? fr_amount r) && String.eqb (fr_recipient rebuilt) (fr_recipient r) &&
      String.eqb (fr_tokenId rebuilt) (fr_tokenId r) &&
      match find_digest c (fr_recipient r) with
      | Some party => map_has (partyId party) (signatures state) &&
                      verifyStateSignature registry c state (partyId party) (publicKeyDigest party)
      | None => false
      end
  end.

(** ** What a receipt shows *)

(** A receipt that verifies names a payment of the channel that is fulfilled and gone from
    the state, with its amount, token and recipient, and the recipient has signed that
    state. *)
Lemma receipts_show_signed_payments c state r : verifyHtlcFulfillmentReceipt c state r = true →
  ∃ h party, h ∈ c_pendingHTLCs c ∧ htlcId h = fr_htlcId r ∧ status h = fulfilled ∧ amount h = fr_amount r ∧
    recipientPublicKeyDigest h = fr_recipient r ∧ tokenId c = fr_tokenId r ∧ channelId c = fr_channelId r ∧
    fr_sequence r = sequence state ∧ fr_htlcId r ∉ map htlcId (pendingHTLCs state) ∧
    find_digest c (fr_recipient r) = Some party ∧
    verifyStateSignature registry c state (partyId party) (publicKeyDigest party) = true.
Proof.
  unfold verifyHtlcFulfillmentReceipt. intros [[Hc Hq]%andb_true_iff H]%andb_true_iff. apply String.eqb_eq in Hc. apply Z.eqb_eq in Hq.
  destruct (buildHtlcFulfillmentReceipt _ _ _ _ _) as [b|] eqn:Eb; [|done].
  apply andb_true_iff in H as [[[[_ Ha]%andb_true_iff Hr]%andb_true_iff Ht]%andb_true_iff Hs].
  apply Z.eqb_eq in Ha. apply String.eqb_eq in Hr, Ht. unfold buildHtlcFulfillmentReceipt in Eb.
  destruct (List.find (is_fulfilled (fr_htlcId r)) (c_pendingHTLCs c)) as [h|] eqn:Ef; [|done].
  apply List.find_some in Ef as [Hin [Hi Hst]%andb_true_iff]. apply String.eqb_eq in Hi. apply bool_decide_eq_true in Hst.
  cbn [of_option mbind result_bind] in Eb. apply result_bind_Ok in Eb as ([] & Hn%throw_if_Ok & Eb).
  apply result_bind_Ok in Eb as (k & _ & [= <-]). cbn in Ha, Hr, Ht.
  destruct (find_digest c (fr_recipient r)) as [party|]; [|done]. apply andb_true_iff in Hs as [_ Hv].
  exists h, party. split_and!; try done; [by apply list_elem_of_In|]. intros (x & Hx & Hin')%list_elem_of_In%in_map_iff.
  assert (existsb (λ h, String.eqb (htlcId h) (fr_htlcId r)) (pendingHTLCs state) = true) as E; [|by rewrite E in Hn].
  apply existsb_exists. exists x. split; [done|]. by apply String.eqb_eq.
Qed.

(** A receipt verifies when the recipient has signed the state it was built on. *)
Lemma built_receipts_verify now c state i at_ r party : buildHtlcFulfillmentReceipt now c state i at_ = Ok r →
  find_digest c (fr_recipient r) = Some party → map_has (partyId party) (signatures state) = true →
  verifyStateSignature registry c state (partyId party) (publicKeyDigest party) = true →
  verifyHtlcFulfillmentReceipt c state r = true.
Proof.
  unfold verifyHtlcFulfillmentReceipt. intros Hb Hf Hm Hv.
  assert (buildHtlcFulfillmentReceipt 0 c state i (Some (fulfilledAt r)) = Ok r ∧
          fr_channelId r = channelId c ∧ fr_sequence r = sequence state ∧ fr_htlcId r = i ∧
          receiptHash r = computeHtlcFulfillmentReceiptHash r) as (Hb' & E1 & E2 & E3 & E4).
  { unfold buildHtlcFulfillmentReceipt in *. apply result_bind_Ok in Hb as (h & -> & Hb). apply result_bind_Ok in Hb as (u & Hu & Hb).
    apply result_bind_Ok in Hb as (k & Hk & Hb). cbn [mbind result_bind]. rewrite Hu. cbn [mbind result_bind]. rewrite Hk.
    cbn [mbind result_bind]. apply Ok_inj in Hb as <-. split; [reflexivity|]. split; [reflexivity|]. split; [reflexivity|].
    split; reflexivity. }
  rewrite E1, E2, E3, Hb', <- E4, Hf, Hm, Hv, !String.eqb_refl, !Z.eqb_refl. done.
Qed.
End receipts.
End Rc.
