(* ===== verification/SigningSpec.v ===== *)
(** * Omnia over the lease provider: one signature per leaf

    The channel layer signs with the leaves a lease provider hands out.  The laws a
    provider must satisfy are a class; every history of channel calls, whatever
    throws, signs at most once per leaf over a provider that satisfies them; and
    the local provider of wots-lease satisfies them, by the theorems of its journal. *)

From Stdlib Require Import ZArith Lia QArith Ascii String.
From stdpp Require Import base gmap list strings.
From S2P Require Import Prelude JsBase JsText JsMap Watermark Journal JournalSpec Lease Local LocalSpec Guards Omnia Transactions TransactionsSpec Programs Sign Channel ChannelSpec.

Module SgSpec.
Import Js Gd Om Tx Pg Sg Ch ChSpec.

(** ** The interface *)

(** A leaf of a tree, by its flat index. *)
Definition leaf : Type := string * Z.
Definition leaf_of (tree : string) (i : Wm.SigningIndices) : leaf := (tree, Wm.flat i).

(** A call keeps the provider's invariant and never gives a leaf back. *)
Definition keeps_leases {P A} (inv : P → Prop) (leased : P → leaf → Prop) (m : P → result OmniaError A * P) : Prop :=
  ∀ p, inv p → inv (m p).2 ∧ ∀ l, leased p l → leased (m p).2 l.

Class LeaseLaws (P : Type) {Wl : WotsLeaseProvider P} := {
  lease_inv : P → Prop;
  leased : P → leaf → Prop;
  reserve_keeps tree purpose d : keeps_leases lease_inv leased (reserveKeyUse tree purpose d);
  reserve_fresh tree purpose d p r p' : lease_inv p → reserveKeyUse tree purpose d p = (Ok r, p') →
    ¬ leased p (leaf_of tree (indices r)) ∧ leased p' (leaf_of tree (indices r));
  commit_keeps i purpose : keeps_leases lease_inv leased (commitKeyUse i purpose);
  burn_keeps i reason : keeps_leases lease_inv leased (burnReservation i reason) }.

(** ** Signing over any provider *)

Section signing.
Context {Cr : Crypto} {P : Type} {Wl : WotsLeaseProvider P} {Ll : LeaseLaws P}
  (registry : list (string * ChannelProgram)).
Notation Omnia := (M (World P) OmniaError).
(** The leaves that were in use before the process started. *)
Variable base : leaf → Prop.

Definition signed_leaves (w : World P) : list leaf := map (λ x, leaf_of x.1.1 x.1.2) (w_signed w).

(** Every signature so far used its own leaf, none of the base, and the leaves of
    [L] are reserved and have signed nothing. *)
Definition ready (L : list leaf) (w : World P) : Prop :=
  lease_inv (w_lease w) ∧
  NoDup (L ++ signed_leaves w) ∧
  (∀ l, l ∈ L ++ signed_leaves w → leased (w_lease w) l ∧ ¬ base l) ∧
  (∀ l, base l → leased (w_lease w) l).

Lemma ready_perm L L' w : L ≡ₚ L' → ready L w → ready L' w.
Proof.
  intros HL (Hi & Hn & Hl & Hb). split; [done|]. split; [by rewrite <- HL|]. split; [|done].
  intros l Hin. apply Hl. by rewrite HL.
Qed.
Lemma ready_drop l L w : ready (l :: L) w → ready L w.
Proof.
  intros (Hi & Hn & Hl & Hb). cbn [app] in *. apply NoDup_cons in Hn as [_ Hn].
  split_and!; try done. intros l' Hin. apply Hl. by apply elem_of_cons; right.
Qed.
Lemma ready_drops L K w : ready (L ++ K) w → ready K w.
Proof. induction L as [|l L IH]; [done|]. intros H%ready_drop. by apply IH. Qed.

(** *** Rules *)

(** [m] keeps what is reserved, on return and on exception. *)
Definition neutral {A} (m : Omnia A) : Prop := ∀ L, preserves (ready L) m.
(** [m] may use up the leaves of [L], and leaves those of [L'] when it returns. *)
Definition uses {A} (L : list leaf) (L' : A → list leaf) (m : Omnia A) : Prop :=
  ∀ K, ensures (ready (L ++ K)) m (λ r w, match r with Ok a => ready (L' a ++ K) w | Err _ => ready K w end).

Lemma neutral_lift {A} (r : result OmniaError A) : neutral (mlift r).
Proof. intros L w H. exact H. Qed.
Lemma neutral_ret {A} (a : A) : neutral (mret a).
Proof. intros L w H. exact H. Qed.
Lemma neutral_throw {A} (e : OmniaError) : neutral (mthrow e : Omnia A).
Proof. intros L w H. exact H. Qed.
Lemma neutral_throw_if b (e : OmniaError) : neutral (mthrow_if b e).
Proof. apply neutral_lift. Qed.
Lemma neutral_guards {A} (m : Guarded A) : neutral (on_guards m).
Proof.
  intros L. apply (preserves_zoom _ _ _ m (λ _, True) (ready L)); [by intros ? ? | done | by intros ? ? ? _].
Qed.
Lemma neutral_lease {A} (m : P → result OmniaError A * P) : keeps_leases lease_inv leased m → neutral (on_lease m).
Proof.
  intros Hm L w (Hi & Hn & Hl & Hb). unfold on_lease, zoom. destruct (Hm _ Hi) as [Hi' Hk].
  assert (Hr : ready L (mkWorld (w_guards w) (m (w_lease w)).2 (w_signed w))).
  { split; [exact Hi'|]. split; [exact Hn|]. split; [|by intros l ?; apply Hk, Hb].
    intros l Hin. destruct (Hl l Hin) as [? ?]. split; [by apply Hk | done]. }
  unfold ensures. destruct (m (w_lease w)) as [ [a|e] p']; exact Hr.
Qed.
Lemma neutral_bind {A B} (m : Omnia A) (f : A → Omnia B) : neutral m → (∀ a, neutral (f a)) → neutral (m ≫= f).
Proof. intros Hm Hf L. apply preserves_bind; [apply Hm|]. intros a. apply Hf. Qed.
Lemma neutral_ignore {A} (m : Omnia A) : neutral m → neutral (mignore m).
Proof. intros Hm L. apply preserves_ignore, Hm. Qed.
Lemma neutral_catch {A} (m : Omnia A) h : neutral m → (∀ e, neutral (h e)) → neutral (mcatch m h).
Proof. intros Hm Hh L. apply preserves_catch; [apply Hm|]. intros e. apply Hh. Qed.

Lemma uses_ret {A} L (a : A) : uses (L a) L (mret a).
Proof. intros K w Hw. exact Hw. Qed.
Lemma uses_weaken {A} L L' (m : Omnia A) : uses L L' m → uses L (λ _, []) m.
Proof.
  intros Hm K w Hw. specialize (Hm K w Hw). unfold ensures in *.
  destruct (m w) as [ [a|e] w']; simpl in *; [by apply ready_drops in Hm | done].
Qed.
Lemma uses_perm {A} L L1 L' (m : Omnia A) : L ≡ₚ L1 → uses L L' m → uses L1 L' m.
Proof. intros HL Hm K w Hw. apply Hm. eapply ready_perm; [|exact Hw]. by rewrite HL. Qed.
Lemma uses_bind {A B} L L1 L' (m : Omnia A) (f : A → Omnia B) :
  uses L L1 m → (∀ a, uses (L1 a) L' (f a)) → uses L L' (m ≫= f).
Proof.
  intros Hm Hf K w Hw. specialize (Hm K w Hw). unfold mbind, M_bind.
  destruct (m w) as [ [a|e] w1]; simpl in *; [by apply Hf | done].
Qed.
(** A neutral step keeps what is reserved. *)
Lemma uses_step {A B} L L' (m : Omnia A) (f : A → Omnia B) :
  neutral m → (∀ a, uses L L' (f a)) → uses L L' (m ≫= f).
Proof.
  intros Hm Hf. apply (uses_bind _ (λ _, L)); [|done]. intros K w Hw. specialize (Hm (L ++ K) w Hw).
  unfold ensures. destruct (m w) as [ [a|e] w']; simpl in *; [done | by apply ready_drops in Hm].
Qed.
(** A handler that rethrows gives up what was reserved. *)
Definition rethrows {A} (h : OmniaError → Omnia A) : Prop :=
  ∀ e, neutral (h e) ∧ ∀ w, ∃ e' w', h e w = (Err e', w').
Lemma uses_catch {A} L L' (m : Omnia A) h : uses L L' m → rethrows h → uses L L' (mcatch m h).
Proof.
  intros Hm Hh K w Hw. specialize (Hm K w Hw). unfold mcatch.
  destruct (m w) as [ [a|e] w1]; simpl in *; [done|]. destruct (Hh e) as [Hn Herr]. specialize (Hn K w1 Hm).
  destruct (Herr w1) as (e' & w' & E). rewrite E in *. exact Hn.
Qed.
Lemma uses_nothing {A} L (m : Omnia A) : uses [] L m → neutral m.
Proof.
  intros Hm%uses_weaken K w Hw. specialize (Hm K w Hw). unfold ensures in *.
  by destruct (m w) as [ [a|e] w'].
Qed.

(** A signature uses up its leaf. *)
Lemma uses_sign tree i d r : uses [leaf_of tree i] (λ _, []) (sign_with tree i d r).
Proof.
  intros K w Hw. unfold sign_with, mbind, M_bind, mlift, mmodify, mret, M_ret. destruct r as [sig|e]; simpl.
  - destruct Hw as (Hi & Hn & Hl & Hb). cbn [app] in *.
    assert (Hs : K ++ signed_leaves (mkWorld (w_guards w) (w_lease w) (w_signed w ++ [(tree, i, d)]))
                 ≡ₚ leaf_of tree i :: K ++ signed_leaves w).
    { unfold signed_leaves. simpl. rewrite map_app. simpl. rewrite app_assoc. symmetry. apply Permutation_cons_append. }
    split; [done|]. split; [by rewrite Hs|]. split; [|done]. intros l Hin. apply Hl. by rewrite <- Hs.
  - by apply ready_drop in Hw.
Qed.

(** A reservation adds one. *)
Lemma reserve_ready tree purpose d K w :
  ready K w →
  match on_lease (reserveKeyUse tree purpose d) w with
  | (Ok r, w') => ready (leaf_of tree (indices r) :: K) w'
  | (Err _, w') => ready K w'
  end.
Proof.
  intros Hw. pose proof (neutral_lease _ (reserve_keeps tree purpose d) K w Hw) as Hk.
  unfold on_lease, zoom in *. destruct Hw as (Hi & Hn & Hl & Hb).
  destruct (reserveKeyUse tree purpose d (w_lease w)) as [ [r|e] p'] eqn:E; simpl in *; [|exact Hk].
  apply reserve_fresh in E as [Hno Hyes]; [|done]. destruct Hk as (Hi' & Hn' & Hl' & Hb').
  split; [done|]. cbn [app]. split.
  - apply NoDup_cons. split; [|done]. intros Hin. apply Hno. by apply Hl.
  - split; [|done]. intros l [->|Hin]%elem_of_cons; [|by apply Hl']. split; [done|]. intros Hbase. by apply Hno, Hb.
Qed.

Lemma uses_reserve {B} L L' tree purpose d (f : Reservation → Omnia B) :
  (∀ r, uses (leaf_of tree (indices r) :: L) L' (f r)) → uses L L' (on_lease (reserveKeyUse tree purpose d) ≫= f).
Proof.
  intros Hf K w Hw. pose proof (reserve_ready tree purpose d (L ++ K) w Hw) as Hr. unfold mbind, M_bind.
  destruct (on_lease _ w) as [ [r|e] w1]; simpl; [by apply (Hf r) | by apply ready_drops in Hr].
Qed.

Lemma neutral_commit i purpose : neutral (on_lease (commitKeyUse i purpose)).
Proof. apply neutral_lease, commit_keeps. Qed.
Lemma neutral_burn i reason : neutral (on_lease (burnReservation i reason)).
Proof. apply neutral_lease, burn_keeps. Qed.

Create HintDb signing.
Hint Resolve neutral_lift neutral_ret neutral_throw neutral_throw_if neutral_guards neutral_commit neutral_burn
  neutral_ignore neutral_bind : signing.

Ltac rethrows := intros ?; split; [auto with signing | intros ?; eexists _, _; reflexivity].

(** *** The operations of the channel layer *)

Lemma neutral_signTxDraft c draft purpose s : neutral (signTxDraft c draft purpose s).
Proof.
  apply (uses_nothing (λ _, [])). unfold signTxDraft. do 2 (apply uses_step; [auto with signing|]; intros ?).
  apply uses_reserve. intros r. eapply uses_bind; [apply uses_sign|]. intros sig. simpl.
  apply uses_step; [auto with signing|]. intros _. apply (uses_ret (λ _, [])).
Qed.

(** A prepared update holds two leaves. *)
Definition prepared_leaves (c : OmniaChannel) (r : UnsignedStateUpdate * Reservation * Reservation) : list leaf :=
  [leaf_of (tree_of c) (indices r.2); leaf_of (tree_of c) (indices r.1.2)].

Lemma uses_prepare c u s : uses [] (prepared_leaves c) (prepareStateUpdate registry c u s).
Proof.
  unfold prepareStateUpdate. apply uses_step; [auto with signing|]. intros un.
  apply uses_reserve. intros ur. apply uses_catch.
  - apply uses_reserve. intros sr. apply (uses_ret (prepared_leaves c) (un, ur, sr)).
  - rethrows.
Qed.

Lemma uses_signDigest now c s port d i purpose :
  uses [leaf_of (tree_of c) i] (λ _, []) (signDigest now c s port d i purpose).
Proof.
  unfold signDigest. destruct port as [p|]; [|apply uses_sign].
  apply uses_step; [auto with signing|]. intros _. apply uses_sign.
Qed.
Lemma uses_frame {A} L L1 (m : Omnia A) : uses L (λ _, []) m → uses (L ++ L1) (λ _, L1) m.
Proof.
  intros Hm K w Hw. rewrite <- app_assoc in Hw. specialize (Hm (L1 ++ K) w Hw). unfold ensures in *.
  destruct (m w) as [ [a|e] w']; simpl in *; [done | by apply ready_drops in Hm].
Qed.

Lemma neutral_signState now c u s port : neutral (signState registry now c u s port).
Proof.
  apply (uses_nothing (λ _, [])). unfold signState. do 5 (apply uses_step; [auto with signing|]; intros ?).
  eapply uses_bind; [apply uses_prepare|]. intros [ [un ur] sr]. unfold prepared_leaves. simpl.
  apply uses_catch; [|rethrows].
  apply (uses_perm ([leaf_of (tree_of c) (indices ur)] ++ [leaf_of (tree_of c) (indices sr)]));
    [apply Permutation_swap|].
  eapply uses_bind; [apply uses_frame, uses_signDigest|]. intros us.
  apply uses_step; [auto with signing|]. intros _.
  eapply uses_bind; [apply uses_signDigest|]. intros ss. simpl.
  do 2 (apply uses_step; [auto with signing|]; intros _). apply (uses_ret (λ _, [])).
Qed.
Hint Resolve neutral_signState neutral_signTxDraft : signing.

Lemma neutral_signStateGuarded now c u s port h : neutral (signStateGuarded registry now c u s port h).
Proof. unfold signStateGuarded. apply neutral_catch; auto with signing. Qed.
Hint Resolve neutral_signStateGuarded : signing.

Ltac neutral :=
  repeat first [ apply neutral_bind; [|intros ?] | solve [auto with signing] | case_match ].

Lemma neutral_updateState now c delta s port : neutral (updateState registry now c delta s port).
Proof. unfold updateState. neutral. Qed.
Lemma neutral_advance now c s party bal hs event : neutral (advance registry now c s party bal hs event).
Proof. unfold advance. neutral. Qed.
Hint Resolve neutral_updateState neutral_advance : signing.

Lemma neutral_run_op o c : neutral (run_op registry o c).
Proof.
  destruct o; simpl; try (apply neutral_bind; [|intros ?; auto with signing]); auto with signing.
  - unfold addHTLC. neutral.
  - unfold fulfillHTLC. neutral.
  - unfold timeoutHTLC. neutral.
Qed.

(** A process: calls on any channel objects, stale ones included, each of which may
    throw. *)
Inductive use :=
| Operate (c : OmniaChannel) (o : op)
| SignDraft (c : OmniaChannel) (draft : OmniaTxDraft) (purpose : string) (s : option ChannelSigner).
Definition run_use (u : use) (w : World P) : World P :=
  match u with
  | Operate c o => (run_op registry o c w).2
  | SignDraft c draft purpose s => (signTxDraft c draft purpose s w).2
  end.
Definition run_uses (us : list use) (w : World P) : World P := fold_left (λ w u, run_use u w) us w.

Lemma run_uses_ready us : ∀ w, ready [] w → ready [] (run_uses us w).
Proof.
  induction us as [|u us IH]; intros w Hw; [done|]. simpl. apply IH. destruct u as [c o|c d p s]; simpl.
  - by apply (neutral_run_op o c []).
  - by apply (neutral_signTxDraft c d p s []).
Qed.

End signing.
(** ** The local provider satisfies the laws *)

Section local.
Context (sha256_hex : string → string).
Hypothesis sha256_hex_format : ∀ b, Jr.is_hash (sha256_hex b) = true.

(** The provider of one device, with the readings of the clock and the random ids
    of the calls it will serve; when they are used up the process has ended. *)
Definition LocalProcess : Type := Lp.LocalLeaseProvider * list (Z * string).

Definition serve {A B} (m : Z → string → M Lp.LocalLeaseProvider Lp.LpError A) (f : A → B) (s : LocalProcess)
    : result OmniaError B * LocalProcess :=
  match s with
  | (p, []) => (Err (External "the process has ended"), (p, []))
  | (p, (now, rid) :: readings) =>
      match m now rid p with
      | (Ok a, p') => (Ok (f a), (p', readings))
      | (Err _, p') => (Err (External "lease provider"), (p', readings))
      end
  end.

Instance local_provider : WotsLeaseProvider LocalProcess := {
  reserveKeyUse := λ tree _ payload,
    serve (λ now rid, Lp.reserveKeyUse sha256_hex now rid (Lp.mkParams tree None None None (Some payload)))
      (λ r, mkReservation (Lp.reservationId r) (Lp.r_indices r));
  commitKeyUse := λ i tx, serve (λ now _, Lp.commitKeyUse sha256_hex now i tx) (λ u, u);
  burnReservation := λ i _, serve (λ now _, Lp.burnReservation sha256_hex now i) (λ u, u) }.

(** The journal of the process, with room for the calls to come. *)
Definition journalled (s : LocalProcess) (es : list Jr.JournalEntry) : Prop :=
  Lp.initialized s.1 = true ∧ LpSpec.log_is sha256_hex es (Lp.journal s.1) ∧
  Z.of_nat (length es) + Z.of_nat (length s.2) <= MAX_SAFE_INTEGER.

(** A leaf is leased when the journal names it. *)
Definition local_leased (s : LocalProcess) (l : leaf) : Prop :=
  ∃ es, LpSpec.log_is sha256_hex es (Lp.journal s.1) ∧ LpSpec.slot_in es l.

Lemma journalled_leased s es l : journalled s es → local_leased s l ↔ LpSpec.slot_in es l.
Proof.
  intros (_ & Hl & _). split; [|by exists es]. intros (es' & [_ Hr] & Hs). destruct Hl as [_ Hr'].
  rewrite Hr in Hr'. by injection Hr' as ->.
Qed.
Lemma slot_in_app es es' l : LpSpec.slot_in es l → LpSpec.slot_in (es ++ es') l.
Proof. intros (e & Hin & He). exists e. split; [set_solver | done]. Qed.

(** A call that appends at most one entry keeps the leases. *)
Lemma serve_keeps {A B} (m : Z → string → M Lp.LocalLeaseProvider Lp.LpError A) (f : A → B) :
  (∀ es now rid, Z.of_nat (length es) <= MAX_SAFE_INTEGER →
     LpSpec.jens (LpSpec.log_is sha256_hex es) (m now rid) (LpSpec.log_grew sha256_hex es)) →
  keeps_leases (λ s, ∃ es, journalled s es) local_leased (serve m f).
Proof.
  intros Hm [p [|[now rid] readings] ] [es Hj].
  { split; [by exists es | done]. }
  pose proof Hj as (Hi & Hl & Hlen). cbn [fst snd length] in *.
  destruct (Hm es now rid ltac:(lia) p Hi Hl) as (Hi' & es' & Hl' & Hle). cbn [serve].
  assert (Hj' : journalled ((m now rid p).2, readings) (es ++ es')).
  { split; [done|]. split; [done|]. cbn [snd]. rewrite length_app. lia. }
  assert (Hk : ∀ l, local_leased (p, (now, rid) :: readings) l → local_leased ((m now rid p).2, readings) l).
  { intros l. rewrite (journalled_leased _ _ _ Hj), (journalled_leased _ _ _ Hj'). apply slot_in_app. }
  destruct (m now rid p) as [ [a|e] p']; (split; [by exists (es ++ es') | exact Hk]).
Qed.

Lemma jens_getByReservation es i :
  LpSpec.jens (LpSpec.log_is sha256_hex es) (Lp.getByReservation i) (LpSpec.log_is sha256_hex es).
Proof. intros p Hi [Hji Hr]. by rewrite LpSpec.getByReservation_run. Qed.

Create HintDb settle.
Hint Resolve LpSpec.quiet_wm LpSpec.quiet_ls LpSpec.quiet_lift LpSpec.quiet_get LpSpec.quiet_ret
  LpSpec.quiet_find_lease : settle.

(** The tail of a settlement: at most one entry. *)
Ltac settle_tail :=
  repeat first
    [ apply LpSpec.jens_quiet; [solve [auto with settle]|by apply LpSpec.log_is_grew]
    | apply LpSpec.jens_quiet; [solve [auto with settle]|done]
    | apply (LpSpec.jens_step _ _); [solve [auto with settle]|by apply LpSpec.log_is_grew|intros ?]
    | apply (LpSpec.jens_step _ _); [solve [auto with settle]|done|intros ?]
    | eapply LpSpec.jens_bind; [by apply LpSpec.jens_append_use|done|intros ?]
    | case_match ].

Lemma jens_commit es now i tx : Z.of_nat (length es) <= MAX_SAFE_INTEGER →
  LpSpec.jens (LpSpec.log_is sha256_hex es) (Lp.commitKeyUse sha256_hex now i tx) (LpSpec.log_grew sha256_hex es).
Proof.
  intros Hlen. unfold Lp.commitKeyUse.
  eapply LpSpec.jens_bind; [apply LpSpec.jens_initialize|by apply LpSpec.log_is_grew|intros _].
  do 2 (apply LpSpec.jens_step; [auto with settle|by apply LpSpec.log_is_grew|]; intros ?).
  eapply LpSpec.jens_bind; [apply jens_getByReservation|by apply LpSpec.log_is_grew|intros latest].
  settle_tail.
Qed.

Lemma jens_burn es now i : Z.of_nat (length es) <= MAX_SAFE_INTEGER →
  LpSpec.jens (LpSpec.log_is sha256_hex es) (Lp.burnReservation sha256_hex now i) (LpSpec.log_grew sha256_hex es).
Proof.
  intros Hlen. unfold Lp.burnReservation.
  eapply LpSpec.jens_bind; [apply LpSpec.jens_initialize|by apply LpSpec.log_is_grew|intros _].
  do 2 (apply LpSpec.jens_step; [auto with settle|by apply LpSpec.log_is_grew|]; intros ?).
  eapply LpSpec.jens_bind; [apply jens_getByReservation|by apply LpSpec.log_is_grew|intros latest].
  settle_tail.
Qed.

Lemma local_reserve_Ok es now rid params p r p' :
  Lp.initialized p = true → LpSpec.log_is sha256_hex es (Lp.journal p) → Z.of_nat (length es) <= MAX_SAFE_INTEGER →
  Lp.reserveKeyUse sha256_hex now rid params p = (Ok r, p') →
  ¬ LpSpec.slot_in es (leaf_of (Lp.rp_treeId params) (Lp.r_indices r)) ∧
  ∃ e, LpSpec.log_is sha256_hex (es ++ [e]) (Lp.journal p') ∧
    LpSpec.slot_in (es ++ [e]) (leaf_of (Lp.rp_treeId params) (Lp.r_indices r)).
Proof.
  intros Hi Hl Hlen E. unfold Lp.reserveKeyUse in E.
  apply mbind_Ok in E as (u & p0 & Hinit & E). rewrite LpSpec.initialize_done in Hinit by done. injection Hinit as <- <-.
  apply mbind_Ok in E as (u1 & p1 & Ht & E). apply LpSpec.wm_Ok in Ht as (w & _ & ->).
  apply mbind_Ok in E as (i & p1 & Ht & E). apply LpSpec.wm_Ok in Ht as (w1 & _ & ->).
  eapply (LpSpec.reserve_Ok sha256_hex sha256_hex_format es) in E as (Hno & _ & e & Hl' & ? & ?); [|done..].
  split; [done|]. exists e. split; [done|]. exists e. split; [set_solver | done].
Qed.

Lemma local_fresh tree purpose d s r s' :
  (∃ es, journalled s es) → reserveKeyUse tree purpose d s = (Ok r, s') →
  ¬ local_leased s (leaf_of tree (indices r)) ∧ local_leased s' (leaf_of tree (indices r)).
Proof.
  destruct s as [p [|[now rid] readings] ]; intros (es & Hj) E; [done|]. simpl in E.
  pose proof Hj as (Hi & Hl & Hlen). cbn [fst snd length] in *.
  destruct (Lp.reserveKeyUse sha256_hex now rid _ p) as [ [lr|e] p'] eqn:E1; [|done]. injection E as <- <-.
  apply (local_reserve_Ok es) in E1 as (Hno & e & Hl' & Hin); [|done|done|lia]. simpl.
  rewrite (journalled_leased _ _ _ Hj). split; [exact Hno|]. by exists (es ++ [e]).
Qed.

#[refine] Instance local_lease_laws : LeaseLaws LocalProcess := {
  lease_inv := λ s, ∃ es, journalled s es;
  leased := local_leased }.
Proof.
  - intros tree purpose d. apply serve_keeps. intros es now rid Hlen.
    by apply LpSpec.jens_reserveKeyUse.
  - intros tree purpose d s r s'. apply local_fresh.
  - intros i purpose. apply serve_keeps. intros es now rid Hlen. by apply jens_commit.
  - intros i reason. apply serve_keeps. intros es now rid Hlen. by apply jens_burn.
Defined.

Lemma ready_start guards p readings es :
  journalled (p, readings) es → ready (LpSpec.slot_in es) [] (mkWorld guards (p, readings) []).
Proof.
  intros Hj. split; [by exists es|]. split; [constructor|]. split; [by intros l ?%elem_of_nil|].
  intros l Hl. simpl. by apply (journalled_leased _ es).
Qed.

End local.

(** ** Properties *)

(** C1. Over the local lease provider, a process that updates channels, offers,
    fulfils and times out payments and signs transactions, on any channel objects
    and in any order, with any call throwing at any point, signs at most one
    digest with each one-time leaf, and none with a leaf its journal already named
    when it started. *)
Theorem no_leaf_signs_two_digests {Cr : Crypto} sha256_hex registry us guards p readings es :
  (∀ b, Jr.is_hash (sha256_hex b) = true) →
  Lp.initialized p = true → LpSpec.log_is sha256_hex es (Lp.journal p) →
  Z.of_nat (length es) + Z.of_nat (length readings) <= MAX_SAFE_INTEGER →
  let w := run_uses (Wl := local_provider sha256_hex) registry us (mkWorld guards (p, readings) []) in
  NoDup (signed_leaves w) ∧ ∀ l, l ∈ signed_leaves w → ¬ LpSpec.slot_in es l.
Proof.
  intros Hf Hi Hl Hlen w.
  pose proof (run_uses_ready (Ll := local_lease_laws sha256_hex Hf) registry (LpSpec.slot_in es) us _
                (ready_start sha256_hex Hf guards p readings es ltac:(done))) as (_ & Hn & Hs & _).
  split; [exact Hn|]. intros l Hin. by apply Hs.
Qed.

Definition toy_uses : list use :=
  [Operate TxSpec.toy_channel toy_add; Operate TxSpec.toy_channel toy_add; Operate toy_added toy_fulfill].
Definition toy_readings : list (Z * string) :=
  [(1, "r1"); (2, "r2"); (3, ""); (4, ""); (5, "r3"); (6, "r4"); (7, ""); (8, ""); (9, "r5"); (10, "r6"); (11, ""); (12, "")]%string.
Definition toy_start : World LocalProcess := mkWorld (mkGuards [] ∅) (LpSpec.sample_provider, toy_readings) [].
Definition toy_end : World LocalProcess :=
  run_uses (Wl := local_provider JrSpec.toy_hash) (programs TxSpec.toy_sha) toy_uses toy_start.

Lemma no_leaf_signs_two_digests_witness :
  signed_leaves toy_end = map (λ n, ("omnia-channel-0xc1"%string, n)) [0; 1; 2; 3; 4; 5] ∧
  NoDup (signed_leaves toy_end).
Proof.
  split; [vm_compute; reflexivity|].
  assert (Hlog : LpSpec.log_is JrSpec.toy_hash [] (Lp.journal LpSpec.sample_provider)) by (split; vm_compute; reflexivity).
  assert (Hlen : Z.of_nat (length (@nil Jr.JournalEntry)) + Z.of_nat (length toy_readings) <= MAX_SAFE_INTEGER)
    by (vm_compute; discriminate).
  exact (proj1 (no_leaf_signs_two_digests JrSpec.toy_hash (programs TxSpec.toy_sha) toy_uses (mkGuards [] ∅)
           LpSpec.sample_provider toy_readings [] JrSpec.toy_hash_format eq_refl Hlog Hlen)).
Defined.

End SgSpec.
