(* ===== verification/Draft.v ===== *)
(** * Omnia: reading a transaction draft back (packages/omnia/src transactions.ts, deserializeTxDraft)

    The JSON value of a draft, the reviver of tagged bigints, and the draft that a
    value is.  The source casts the value; a value of another shape, which the casts
    let through, is the error [External "shape"]. *)

From Stdlib Require Import ZArith Lia QArith Ascii String.
From stdpp Require Import base gmap list strings sorting.
From S2P Require Import Prelude JsBase Guards Omnia Transactions Json.

Module Dr.
Import Js Gd Om Tx Json.

Definition BIGINT_PREFIX : string := "__bigint__".

(** [bigintReviver] *)
Definition bigintReviver (v : jsval) : result js_error jsval :=
  match v with
  | JStr s =>
      if starts_with BIGINT_PREFIX s then JBig <$> of_option SyntaxError (big_of_string (drop_str 10 s)) else Ok v
  | _ => Ok v
  end.

(** [Buffer.from(hex, 'hex')]: the bytes before the first pair that is not hexadecimal. *)
Fixpoint buffer_of_hex (s : string) : Bytes :=
  match s with
  | String a (String b s) =>
      if is_hex_digit a && is_hex_digit b
      then String (byte (16 * default 0 (digit_val a) + default 0 (digit_val b))) (buffer_of_hex s) else ""
  | _ => ""
  end%string.

(** ** The members of a draft *)

Definition Shape {A} : result OmniaError A := Err (External "shape").
Definition field {A} (read : jsval → result OmniaError A) (k : string) (v : jsval) : result OmniaError A := read (get_prop v k).
Definition optional {A} (read : jsval → result OmniaError A) (v : jsval) : result OmniaError (option A) :=
  match v with JUndef => Ok None | _ => Some <$> read v end.
Definition as_text (v : jsval) : result OmniaError string := match v with JStr s => Ok s | _ => Shape end.
Definition as_big (v : jsval) : result OmniaError Z := match v with JBig z => Ok z | _ => Shape end.
Definition as_bool (v : jsval) : result OmniaError bool := match v with JBool b => Ok b | _ => Shape end.
Definition as_whole (v : jsval) : result OmniaError Z :=
  match v with JNum n => of_option (External "shape") (num_integer n) | _ => Shape end.
Definition as_list {A} (read : jsval → result OmniaError A) (v : jsval) : result OmniaError (list A) :=
  match v with JArr _ l => result_mapM read l | _ => Shape end.
Definition as_scalar (v : jsval) : result OmniaError Scalar :=
  match v with JStr s => Ok (SStr s) | JBig z => Ok (SBig z) | JBool b => Ok (SBool b) | _ => Shape end.
Definition as_state_type (v : jsval) : result OmniaError StateType :=
  s ← as_text v;
  if String.eqb s "bool" then Ok TBool else if String.eqb s "number" then Ok TNumber
  else if String.eqb s "hex" then Ok THex else if String.eqb s "string" then Ok TString else Shape.
Definition as_tx_type (v : jsval) : result OmniaError TxType :=
  s ← as_text v;
  if String.eqb s "funding" then Ok funding_tx else if String.eqb s "update" then Ok update_tx
  else if String.eqb s "settlement" then Ok settlement_tx else Shape.

Definition as_state_value (v : jsval) : result OmniaError StateValue :=
  port ← field as_whole "port" v; value ← field as_scalar "value" v; type ← field as_state_type "type" v;
  Ok (mkSV port value type).
Definition as_input (v : jsval) : result OmniaError TxInputDraft :=
  coinId ← field as_text "coinId" v; address ← field as_text "address" v; amount ← field as_big "amount" v;
  tokenId ← field as_text "tokenId" v; script ← field as_text "scriptHex" v;
  store ← field (optional as_bool) "storeState" v; vars ← field (optional (as_list as_state_value)) "stateVariables" v;
  entry ← field (optional as_big) "mmrEntry" v;
  Ok (mkInput coinId address amount tokenId script store vars entry).
Definition as_output (v : jsval) : result OmniaError TxOutputDraft :=
  address ← field as_text "address" v; amount ← field as_big "amount" v; tokenId ← field as_text "tokenId" v;
  store ← field as_bool "storeState" v; vars ← field (as_list as_state_value) "stateVariables" v;
  Ok (mkOutput address amount tokenId store vars).
Definition as_draft (v : jsval) : result OmniaError OmniaTxDraft :=
  type ← field as_tx_type "type" v; inputs ← field (as_list as_input) "inputs" v;
  outputs ← field (as_list as_output) "outputs" v; store ← field as_bool "storeState" v;
  vars ← field (as_list as_state_value) "stateVariables" v;
  Ok (mkDraft type inputs outputs store vars).

Definition language {A} (r : result js_error A) : result OmniaError A :=
  match r with Ok a => Ok a | Err _ => Err (External "SyntaxError") end.
Definition deserializeTxDraft (hex : string) : result OmniaError OmniaTxDraft :=
  parsed ← language (json_parse (utf8_decode (buffer_of_hex hex)));
  v ← language (json_revive bigintReviver parsed);
  as_draft v.

(** ** Other forms of a draft *)

Section forms.
Context (sha3_256 : string → string).

(** The digest of the JSON text, which only tests use. *)
Definition computeTxDraftDigest (d : OmniaTxDraft) : Bytes :=
  sha3_256 (utf8 (json_object
    [("type", Some (json_string (tx_type_name (d_type d)))); ("inputs", Some (array_text (map input_text (d_inputs d))));
     ("outputs", Some (array_text (map output_text (d_outputs d)))); ("stateVariables", Some (state_values_text (d_stateVariables d)))]%string)).

Definition htlc_text (h : HTLCRecord) : string :=
  json_object [("htlcId", Some (json_string (htlcId h))); ("amount", Some (json_string (big_to_string (amount h))));
               ("hashlock", Some (json_string (hashlock h))); ("timeoutBlock", Some (json_string (big_to_string (timeoutBlock h))));
               ("direction", Some (json_string (direction_name (direction h))))]%string.
(** The commitment before version 2: sequence, balances and open payments. *)
Definition computeStateCommitment (sequence : Z) (balances : Balances) (pendingHTLCs : list HTLCRecord) : Bytes :=
  sha3_256 (utf8 (json_object
    [("sequence", Some (json_text (JNum (of_Z sequence))));
     ("balances", Some (json_object (map (λ kv, (kv.1, Some (json_string (big_to_string kv.2)))) (merge_sort key_le balances))));
     ("htlcs", Some (array_text (map htlc_text (merge_sort htlc_le (List.filter is_pending pendingHTLCs)))))]%string)).
Definition omniaDraftToMinimaBytes (d : OmniaTxDraft) : result OmniaError Bytes := omniaDraftToCanonicalMinimaBytes sha3_256 d.
End forms.

(** The parameters of the transaction builder; its script descriptor is RETURN_TRUE. *)
Record TxBuilderInput := mkBuilderInput {
  bi_coinId : string; bi_address : string; bi_amount : string; bi_tokenId : string; coinProofHex : option string }.
Record TxBuilderOutput := mkBuilderOutput {
  bo_address : string; bo_amount : string; bo_tokenId : string; bo_storeState : bool; bo_state : option (list StateValue) }.
Record EnhancedBuildParams := mkBuildParams {
  bp_inputs : list TxBuilderInput; bp_outputs : list TxBuilderOutput; transactionState : list StateValue }.
Definition toEnhancedBuildParams (d : OmniaTxDraft) : EnhancedBuildParams :=
  mkBuildParams
    (map (λ i, mkBuilderInput (i_coinId i) (i_address i) (big_to_string (i_amount i)) (i_tokenId i)
                 (if String.eqb (scriptHex i) "" then None else Some (scriptHex i))) (d_inputs d))
    (map (λ o, mkBuilderOutput (o_address o) (big_to_string (o_amount o)) (o_tokenId o) (o_storeState o)
                 (if o_storeState o then Some (d_stateVariables d) else None)) (d_outputs d))
    (d_stateVariables d).

End Dr.
