(* ===== verification/MiniNumber.v ===== *)
(** * KISSVM: decimal numbers (packages/kissvm/src MiniNumber.ts, errors.ts)

    A decimal is an unscaled integer and a count of decimals.  The constructor
    cuts to 64 significant digits and 44 decimals and refuses magnitudes above
    2^64 - 1; results are passed to it as text in exponent form.  BigInt has no
    size limit here; an exponent that is not a number gives a zero whose scale is
    NaN, the [None] of [scale]. *)

From Stdlib Require Import ZArith Lia QArith Ascii String.
From stdpp Require Import base list strings.
From S2P Require Import Prelude JsBase.

Module Mn.
Import Js.

(** ** errors.ts *)

(** The message of a runtime error: [Stuck] marks the default branches of the
    evaluator's dispatch, which no parsed script is meant to reach. *)
Inductive Fault := Message (m : string) | Stuck (m : string).
Definition fault_text (f : Fault) : string := match f with Message m => m | Stuck m => m end.

(** [JsError] is any other exception of the language or of a library. *)
Inductive KissvmError :=
| KissvmLimitError (m : string)
| KissvmRuntimeError (f : Fault)
| KissvmParseError (m : string)
| JsError (m : string).

Notation Kiss := (result KissvmError).

(** ** MiniNumber.ts *)

Definition MAX_DIGITS : Z := 64.
Definition MAX_DECIMAL_PLACES : Z := MAX_DIGITS - 20.
Definition MAX_VALUE_BIG : Z := Z.shiftl 1 64 - 1.

Record MiniNumber := mkMini { unscaled : Z; scale : option Z }.

(** [10n ** BigInt(k)] *)
Definition pow10 (k : Z) : Kiss Z := if k <? 0 then Err (JsError "RangeError") else Ok (10 ^ k).

Definition checkLimits (unscaled : Z) (scale : option Z) : Kiss unit :=
  match scale with
  | None => Err (JsError "RangeError")
  | Some scale =>
      let '(u, s) := if scale >? MAX_DECIMAL_PLACES
                     then (Z.quot unscaled (10 ^ (scale - MAX_DECIMAL_PLACES)), MAX_DECIMAL_PLACES)
                     else (unscaled, scale) in
      factor ← pow10 s;
      let intPart := Z.quot (Z.abs u) factor in
      let rem := Z.rem (Z.abs u) factor in
      throw_if ((intPart >? MAX_VALUE_BIG) || ((intPart =? MAX_VALUE_BIG) && (rem >? 0)))
        (JsError "MiniNumber too large")
  end.

Definition digits (v : Z) : Z := if v =? 0 then 0 else Z.of_nat (String.length (dec (Z.abs v))).

(** [while (s > 0 && u % 10n === 0n)], at most [s] times. *)
Fixpoint strip_zeros (fuel : nat) (u s : Z) : Z * Z :=
  match fuel with
  | O => (u, s)
  | S fuel => if (s >? 0) && (Z.rem u 10 =? 0) then strip_zeros fuel (Z.quot u 10) (s - 1) else (u, s)
  end.

Definition roundToDigits (unscaled : Z) (scale : option Z) (digits_target : Z) : Z * option Z :=
  let currentDigits := digits unscaled in
  let '(u, s) := if currentDigits >? digits_target
                 then (Z.quot unscaled (10 ^ (currentDigits - digits_target)),
                       (λ s, s - (currentDigits - digits_target)) <$> scale)
                 else (unscaled, scale) in
  match s with
  | None => (u, None)
  | Some s =>
      let '(u, s) := if s >? MAX_DECIMAL_PLACES
                     then (Z.quot u (10 ^ (s - MAX_DECIMAL_PLACES)), MAX_DECIMAL_PLACES) else (u, s) in
      let '(u, s) := strip_zeros (Z.to_nat s) u s in
      (u, Some s)
  end.

(** The end of the constructor: rounding and limits, unless the value is zero. *)
Definition make (unscaled : Z) (scale : option Z) : Kiss MiniNumber :=
  if unscaled =? 0 then Ok (mkMini unscaled scale) else
  let '(u, s) := roundToDigits unscaled scale MAX_DIGITS in
  _ ← checkLimits u s;
  Ok (mkMini u s).

(** *** parseDecimal *)

Fixpoint digit_prefix (s : string) : string :=
  match s with
  | String c s => if is_digit c then String c (digit_prefix s) else EmptyString
  | EmptyString => EmptyString
  end.
(** [parseInt(s, 10)], [None] for NaN. *)
Definition parseInt10 (s : string) : option Z :=
  let t := trim_start s in
  match t with
  | String c r =>
      if Ascii.eqb c "-" then Z.opp <$> parse_radix 10 (digit_prefix r)
      else if Ascii.eqb c "+" then parse_radix 10 (digit_prefix r)
      else parse_radix 10 (digit_prefix t)
  | EmptyString => None
  end.

Definition to_big (s : string) : Kiss Z := of_option (JsError "SyntaxError") (big_of_string s).

Definition parse_mantissa (s : string) : Kiss (Z * Z) :=
  let s := trim s in
  let neg := starts_with "-" s in
  let abs := if neg then drop_str 1 s else s in
  let signed t := if neg then String "-" t else t in
  match break_at (Ascii.eqb ".") abs with
  | (_, None) => u ← to_big (signed abs); Ok (u, 0)
  | (intPart, Some fracPart) =>
      let intPart := if String.eqb intPart "" then "0"%string else intPart in
      u ← to_big (signed (intPart +:+ fracPart));
      Ok (u, Z.of_nat (String.length fracPart))
  end.

Definition parseDecimal (s : string) : Kiss (Z * option Z) :=
  match break_at (λ c, Ascii.eqb c "e" || Ascii.eqb c "E") (trim s) with
  | (mantissa, Some e) =>
      r ← parse_mantissa mantissa;
      let '(u, s) := r : Z * Z in
      match parseInt10 e with
      | None => Ok (u, None)
      | Some exponent =>
          let newScale := s - exponent in
          if newScale <? 0 then Ok (u * 10 ^ (- newScale), Some 0) else Ok (u, Some newScale)
      end
  | (_, None) => r ← parse_mantissa s; let '(u, s) := r : Z * Z in Ok (u, Some s)
  end.

(** *** The constructor, by the type of its argument *)

Definition of_string (value : string) : Kiss MiniNumber :=
  r ← parseDecimal value; let '(u, s) := r : Z * option Z in make u s.
Definition of_bigint (value : Z) : Kiss MiniNumber := make value (Some 0).

(** [q.toExponential(20)] for [q > 0]: 21 significant digits, ties upwards. *)
Definition exponential20 (q : Q) : string :=
  let e := dec_exponent q - 1 in
  let scaled := (q * pow10_q (20 - e) 1)%Q in
  let n := (2 * Qnum scaled + Z.pos (Qden scaled)) / (2 * Z.pos (Qden scaled)) in
  let '(n, e) := if n =? 10 ^ 21 then (10 ^ 20, e + 1) else (n, e) in
  take_str 1 (dec n) +:+ "." +:+ drop_str 1 (dec n) +:+ "e" +:+ (if e <? 0 then "-" else "+") +:+ dec (Z.abs e).
(** The text the constructor parses for a number: [toFixed(0)], which is [String(n)]
    from 10^21 on, or [toExponential(20)]. *)
Definition number_text (n : jsnum) : string :=
  match n, num_integer n with
  | _, Some z => if Z.abs z <? 10 ^ 21 then big_to_string z else num_to_string n
  | NFin q, None => if Qnum q <? 0 then String "-" (exponential20 (Qopp q)) else exponential20 q
  | _, None => num_to_string n
  end.
Definition of_number (n : jsnum) : Kiss MiniNumber := of_string (number_text n).

Definition ZERO : MiniNumber := mkMini 0 (Some 0).
Definition ONE : MiniNumber := mkMini 1 (Some 0).

(** *** Text *)

(** Zeros at the end of the fraction, and the point when nothing is left. *)
Fixpoint drop_zeros (s : string) : string :=
  match s with
  | String c r => if Ascii.eqb c "0" then drop_zeros r else if Ascii.eqb c "." then r else s
  | EmptyString => EmptyString
  end.
Definition strip_fraction (s : string) : string := rev_str "" (drop_zeros (rev_str "" s)).

(** A value other than zero has a scale. *)
Definition toString (m : MiniNumber) : string :=
  if unscaled m =? 0 then "0" else
  let scale := Z.to_nat (default 0 (scale m)) in
  let s := dec (Z.abs (unscaled m)) in
  let s := if (String.length s <=? scale)%nat then pad_start (S scale) "0" s else s in
  let cut := (String.length s - scale)%nat in
  let s := strip_fraction (take_str cut s +:+ "." +:+ drop_str cut s) in
  if unscaled m <? 0 then String "-" s else s.

Definition getAsBigDecimal (m : MiniNumber) : string := toString m.
Definition getAsBigInteger (m : MiniNumber) : string := (break_at (Ascii.eqb ".") (toString m)).1.
Definition toNumber (m : MiniNumber) : jsnum := num_of_string (toString m).

(** [u.toString() + 'e' + (-s)] *)
Definition exp_text (u : Z) (s : option Z) : string :=
  big_to_string u +:+ "e" +:+ match s with Some s => big_to_string (- s) | None => "NaN" end.

(** *** Arithmetic *)

Definition assertSameScale (m other : MiniNumber) : Kiss (Z * Z * Z) :=
  match scale m, scale other with
  | Some s, Some s' =>
      if s =? s' then Ok (unscaled m, unscaled other, s)
      else if s >? s' then Ok (unscaled m, unscaled other * 10 ^ (s - s'), s)
      else Ok (unscaled m * 10 ^ (s' - s), unscaled other, s')
  | _, _ => Err (JsError "RangeError")
  end.

Definition rounded (u : Z) (s : option Z) : Kiss MiniNumber :=
  let '(u, s) := roundToDigits u s MAX_DIGITS in of_string (exp_text u s).

Definition add (m other : MiniNumber) : Kiss MiniNumber :=
  r ← assertSameScale m other; let '(a, b, outScale) := r : Z * Z * Z in rounded (a + b) (Some outScale).
Definition sub (m other : MiniNumber) : Kiss MiniNumber :=
  r ← assertSameScale m other; let '(a, b, outScale) := r : Z * Z * Z in rounded (a - b) (Some outScale).
Definition mult (m other : MiniNumber) : Kiss MiniNumber :=
  rounded (unscaled m * unscaled other) (s ← scale m; s' ← scale other; Some (s + s')).
Definition div (m other : MiniNumber) : Kiss MiniNumber :=
  _ ← throw_if (unscaled other =? 0) (JsError "Division by zero");
  rounded (Z.quot (unscaled m * 10 ^ MAX_DIGITS) (unscaled other))
    (s ← scale m; s' ← scale other; Some (s + MAX_DIGITS - s')).
Definition modulo (m other : MiniNumber) : Kiss MiniNumber :=
  _ ← throw_if (unscaled other =? 0) (JsError "Modulo by zero");
  r ← assertSameScale m other; let '(a, b, outScale) := r : Z * Z * Z in
  of_string (exp_text (Z.rem a b) (Some outScale)).

Fixpoint pow_loop (n : nat) (m result : MiniNumber) : Kiss MiniNumber :=
  match n with O => Ok result | S n => r ← mult result m; pow_loop n m r end.
(** For an integer [n]. *)
Definition pow (m : MiniNumber) (n : Z) : Kiss MiniNumber :=
  _ ← throw_if (n <? 0) (JsError "Negative power not supported"); pow_loop (Z.to_nat n) m ONE.

(** A zero keeps its scale: [this.scale === 0] fails for NaN and [BigInt] throws. *)
Definition integral (m : MiniNumber) (step : Z → Z → Z) : Kiss MiniNumber :=
  match scale m with
  | None => Err (JsError "RangeError")
  | Some s =>
      if s =? 0 then Ok m else
      divisor ← pow10 s;
      of_string (big_to_string (step (Z.quot (unscaled m) divisor) (Z.rem (unscaled m) divisor)))
  end.
Definition floor (m : MiniNumber) : Kiss MiniNumber :=
  integral m (λ q rem, if (unscaled m <? 0) && negb (rem =? 0) then q - 1 else q).
Definition ceil (m : MiniNumber) : Kiss MiniNumber :=
  integral m (λ q rem, if (unscaled m >? 0) && negb (rem =? 0) then q + 1 else q).
Definition abs (m : MiniNumber) : Kiss MiniNumber :=
  if unscaled m >=? 0 then Ok m else of_string (exp_text (- unscaled m) (scale m)).
Definition negate (m : MiniNumber) : Kiss MiniNumber := of_string (exp_text (- unscaled m) (scale m)).
Definition increment (m : MiniNumber) : Kiss MiniNumber := add m ONE.
Definition decrement (m : MiniNumber) : Kiss MiniNumber := sub m ONE.

Definition compareTo (m other : MiniNumber) : Kiss Z :=
  r ← assertSameScale m other; let '(a, b, _) := r : Z * Z * Z in
  Ok (if a <? b then -1 else if a >? b then 1 else 0).
Definition isEqual (m other : MiniNumber) : Kiss bool := (λ c, c =? 0) <$> compareTo m other.
Definition isLess (m other : MiniNumber) : Kiss bool := (λ c, c <? 0) <$> compareTo m other.
Definition isLessEqual (m other : MiniNumber) : Kiss bool := (λ c, c <=? 0) <$> compareTo m other.
Definition isMore (m other : MiniNumber) : Kiss bool := (λ c, c >? 0) <$> compareTo m other.
Definition isMoreEqual (m other : MiniNumber) : Kiss bool := (λ c, c >=? 0) <$> compareTo m other.

Definition setSignificantDigits (m : MiniNumber) (d : jsnum) : Kiss MiniNumber :=
  _ ← throw_if (num_lt (of_Z MAX_DIGITS) d) (JsError "Cannot specify this many significant digits");
  _ ← throw_if (num_lt d (of_Z 0)) (JsError "Cannot specify negative significant digits");
  if num_le (of_Z (digits (unscaled m))) d then Ok m else
  d ← of_option (JsError "RangeError") (num_integer d);
  let drop := digits (unscaled m) - d in
  of_string (exp_text (Z.quot (unscaled m) (10 ^ drop)) ((λ s, s - drop) <$> scale m)).

Definition decimalPlaces (m : MiniNumber) : option Z := scale m.

End Mn.
