(* ===== verification/MiniNumberSpec.v ===== *)
(** * KISSVM decimals: addition is exact or refused

    What the constructor accepts is well formed; a result handed to it as text
    in exponent form is read back as it was; and since two magnitudes up to 2^64 with
    44 decimals add up within 64 digits, no addition or subtraction rounds. *)

From Stdlib Require Import ZArith Lia Ascii String.
From stdpp Require Import base list strings.
From S2P Require Import Prelude JsBase JsText MiniNumber.

Module MnSpec.
Import Js JsText Mn.
#[local] Arguments String.append : simpl nomatch.

(** ** Well-formed decimals *)

(** At most 44 decimals, and a magnitude of at most 2^64 - 1. *)
Record wf (m : MiniNumber) (s : Z) : Prop := {
  wf_scale : scale m = Some s;
  wf_places : 0 <= s <= MAX_DECIMAL_PLACES;
  wf_limit : Z.abs (unscaled m) <= MAX_VALUE_BIG * 10 ^ s }.

(** The value in units of the last decimal place. *)
Definition units (m : MiniNumber) : Z := unscaled m * 10 ^ (MAX_DECIMAL_PLACES - default 0 (scale m)).

Lemma pow10_pos k : 0 < 10 ^ k ∨ k < 0.
Proof. destruct (decide (k < 0)); [by right|left]. apply Z.pow_pos_nonneg; lia. Qed.
Lemma pow10_split a b : 0 <= a → 0 <= b → 10 ^ (a + b) = 10 ^ a * 10 ^ b.
Proof. intros. by apply Z.pow_add_r. Qed.

(** ** Digits and trailing zeros *)

Lemma digits_bound u (k : nat) : (0 < k)%nat → Z.abs u < 10 ^ Z.of_nat k → digits u <= Z.of_nat k.
Proof.
  intros Hk Hu. unfold digits. destruct (u =? 0); [lia|].
  pose proof (dec_length (Z.abs u) k ltac:(lia) Hk). lia.
Qed.

Lemma strip_zeros_spec fuel : ∀ u s u' s',
  0 <= s → strip_zeros fuel u s = (u', s') →
  0 <= s' <= s ∧ u = u' * 10 ^ (s - s') ∧ ((s <= Z.of_nat fuel → s' = 0 ∨ Z.rem u' 10 ≠ 0)).
Proof.
  induction fuel as [|fuel IH]; intros u s u' s' Hs; cbn [strip_zeros].
  { intros [= <- <-]. rewrite Z.sub_diag. simpl. split; [lia|]. split; lia. }
  destruct ((s >? 0) && (Z.rem u 10 =? 0)) eqn:E.
  - apply andb_true_iff in E as [E1 E2]. apply Z.gtb_lt in E1. apply Z.eqb_eq in E2. intros H.
    apply IH in H as (H1 & H2 & H3); [|lia]. split; [lia|]. split; [|lia].
    replace (s - s') with (1 + (s - 1 - s')) by lia. rewrite pow10_split by lia.
    pose proof (Z.quot_rem u 10 ltac:(lia)). lia.
  - intros [= <- <-]. rewrite Z.sub_diag. simpl. split; [lia|]. split; [lia|]. intros _.
    apply andb_false_iff in E as [E|E]; [left|right].
    + rewrite Z.gtb_ltb in E. apply Z.ltb_ge in E. lia.
    + by apply Z.eqb_neq.
Qed.
Lemma strip_zeros_done fuel u s : s = 0 ∨ Z.rem u 10 ≠ 0 → strip_zeros fuel u s = (u, s).
Proof.
  intros H. destruct fuel as [|fuel]; [done|]. cbn [strip_zeros].
  replace ((s >? 0) && (Z.rem u 10 =? 0)) with false; [done|]. destruct H as [->|H]; [done|].
  apply Z.eqb_neq in H. by rewrite H, andb_false_r.
Qed.

(** Within 64 digits and 44 decimals only zeros at the end are dropped. *)
Lemma round_exact u s :
  0 <= s <= MAX_DECIMAL_PLACES → Z.abs u < 10 ^ MAX_DIGITS →
  ∃ u' s', roundToDigits u (Some s) MAX_DIGITS = (u', Some s')
  ∧ 0 <= s' <= s ∧ u = u' * 10 ^ (s - s') ∧ (s' = 0 ∨ Z.rem u' 10 ≠ 0).
Proof.
  intros Hs Hu. unfold roundToDigits. pose proof (digits_bound u 64 ltac:(lia) Hu) as Hd.
  replace (digits u >? MAX_DIGITS) with false by (unfold MAX_DIGITS in *; lia).
  replace (s >? MAX_DECIMAL_PLACES) with false by lia.
  destruct (strip_zeros (Z.to_nat s) u s) as [u' s'] eqn:E. apply strip_zeros_spec in E as (H1 & H2 & H3); [|lia].
  exists u', s'. split; [done|]. split; [done|]. split; [done|]. apply H3. lia.
Qed.

(** ** Text in exponent form *)

Lemma break_at_no p s : str_forallb (λ c, negb (p c)) s = true → break_at p s = (s, None).
Proof.
  induction s as [|c s IH]; simpl; [done|]. rewrite andb_true_iff. intros [Hc Hs]. apply negb_true_iff in Hc.
  by rewrite Hc, IH.
Qed.
Lemma break_at_first p s c t :
  str_forallb (λ c, negb (p c)) s = true → p c = true → break_at p (s +:+ String c t) = (s, Some t).
Proof.
  intros Hs Hc. induction s as [|d s IH]; simpl in *; [by rewrite Hc|]. apply andb_true_iff in Hs as [Hd Hs].
  apply negb_true_iff in Hd. by rewrite Hd, IH.
Qed.

(** A sign, digits and an exponent: no spaces and no point. *)
Definition signed_digits (s : string) : Prop := str_forallb (λ c, is_digit c || Ascii.eqb c "-") s = true.
Lemma big_signed_digits z : signed_digits (big_to_string z).
Proof.
  unfold signed_digits, big_to_string. destruct (Z.ltb_spec z 0); simpl; eapply str_forallb_impl;
    try apply dec_digits; try lia; intros c Hc; by rewrite Hc.
Qed.
Lemma signed_digit_char c : is_digit c || Ascii.eqb c "-" = true → 48 <= code c <= 57 ∨ code c = 45.
Proof.
  intros H. apply orb_true_iff in H as [H|H]; [left; unfold is_digit, in_range in H; lia|right].
  apply Ascii.eqb_eq in H. by subst.
Qed.
Lemma code_neq c d : code c ≠ code d → Ascii.eqb c d = false.
Proof. intros H. destruct (Ascii.eqb_spec c d) as [->|]; [done|done]. Qed.

Lemma mantissa_big u : parse_mantissa (big_to_string u) = Ok (u, 0).
Proof.
  pose proof (big_signed_digits u) as Hd.
  assert (trim (big_to_string u) = big_to_string u) as Et.
  { apply trim_no_space. eapply str_forallb_impl; [|exact Hd]. intros c Hc%signed_digit_char.
    apply negb_true_iff. unfold is_space, in_range. lia. }
  unfold parse_mantissa. rewrite Et.
  assert (∀ t, signed_digits t → break_at (Ascii.eqb ".") t = (t, None)) as Hb.
  { intros t Ht. apply break_at_no. eapply str_forallb_impl; [|exact Ht]. intros c Hc%signed_digit_char.
    apply negb_true_iff, code_neq. change (code ".") with 46. lia. }
  pose proof (big_of_string_big u) as Hu. unfold to_big.
  destruct (starts_with "-" (big_to_string u)) eqn:E.
  - apply starts_with_spec in E as [r Er]. rewrite Er in *. change (drop_str 1 ("-" +:+ r)) with r.
    rewrite Hb. 2:{ unfold signed_digits in *. simpl in Hd. exact Hd. }
    change (String "-" r) with ("-" +:+ r). by rewrite Hu.
  - rewrite Hb by done. by rewrite Hu.
Qed.

Lemma parseInt_opp s : 0 <= s → parseInt10 (big_to_string (- s)) = Some (- s).
Proof.
  intros Hs.
  assert (∀ n, 0 <= n → digit_prefix (dec n) = dec n) as Hp.
  { intros n Hn. pose proof (dec_digits n Hn) as H. induction (dec n) as [|c t IH]; [done|]. simpl in *.
    apply andb_true_iff in H as [Hc Ht]. by rewrite Hc, IH. }
  unfold big_to_string. destruct (Z.ltb_spec (- s) 0).
  - unfold parseInt10. change (trim_start (String "-" (dec (- - s)))) with (String "-" (dec (- - s))). cbv iota.
    change (Ascii.eqb "-" "-") with true. cbv iota. rewrite Hp, parse_radix_dec by lia. simpl. f_equal. lia.
  - replace s with 0 by lia. reflexivity.
Qed.

Lemma read_exp_text u s : 0 <= s → of_string (exp_text u (Some s)) = make u (Some s).
Proof.
  intros Hs. unfold of_string. assert (parseDecimal (exp_text u (Some s)) = Ok (u, Some s)) as ->; [|done].
  unfold parseDecimal, exp_text. rewrite trim_no_space.
  2:{ rewrite !str_forallb_app. pose proof (big_signed_digits u) as H1. pose proof (big_signed_digits (- s)) as H2.
      assert (∀ t, signed_digits t → str_forallb (λ c, negb (is_space c)) t = true) as H.
      { intros t Ht. eapply str_forallb_impl; [|exact Ht]. intros c Hc%signed_digit_char.
        apply negb_true_iff. unfold is_space, in_range. lia. }
      by rewrite (H _ H1), (H _ H2). }
  change ("e" +:+ big_to_string (- s)) with (String "e" (big_to_string (- s))).
  rewrite break_at_first; [|eapply str_forallb_impl; [|apply big_signed_digits]|done].
  2:{ intros c Hc%signed_digit_char. apply negb_true_iff, orb_false_iff. split; apply code_neq.
      - change (code "e") with 101. lia.
      - change (code "E") with 69. lia. }
  rewrite mantissa_big. cbn [mbind result_bind]. rewrite parseInt_opp by done.
  replace (0 - - s) with s by lia. by replace (s <? 0) with false by lia.
Qed.

(** ** The constructor *)

Lemma within_limit u s : 0 <= s → Z.abs u <= MAX_VALUE_BIG * 10 ^ s ∨ MAX_VALUE_BIG * 10 ^ s < Z.abs u →
  (Z.quot (Z.abs u) (10 ^ s) >? MAX_VALUE_BIG) || ((Z.quot (Z.abs u) (10 ^ s) =? MAX_VALUE_BIG) && (Z.rem (Z.abs u) (10 ^ s) >? 0))
  = (MAX_VALUE_BIG * 10 ^ s <? Z.abs u).
Proof.
  intros Hs _. assert (0 < 10 ^ s) as Hp by (apply Z.pow_pos_nonneg; lia).
  rewrite Z.quot_div_nonneg, Z.rem_mod_nonneg by lia. set (p := 10 ^ s) in *. set (a := Z.abs u). assert (0 <= a) by lia.
  pose proof (Z.div_mod a p ltac:(lia)) as Ea. pose proof (Z.mod_pos_bound a p Hp) as Hm.
  set (q := a / p) in *. set (r := a mod p) in *. apply eq_true_iff_eq.
  rewrite orb_true_iff, andb_true_iff, !Z.gtb_lt, Z.eqb_eq, Z.ltb_lt. split; [nia|]. intros L.
  destruct (decide (MAX_VALUE_BIG < q)); [by left|right]. nia.
Qed.

Lemma limits_spec u s :
  0 <= s <= MAX_DECIMAL_PLACES →
  checkLimits u (Some s) =
    if MAX_VALUE_BIG * 10 ^ s <? Z.abs u then Err (JsError "MiniNumber too large") else Ok tt.
Proof.
  intros Hs. unfold checkLimits. replace (s >? MAX_DECIMAL_PLACES) with false by lia.
  unfold pow10. replace (s <? 0) with false by lia. cbn [mbind result_bind]. unfold throw_if.
  rewrite within_limit by lia. by destruct (_ <? _).
Qed.

(** What the constructor accepts of a value other than zero is well formed. *)
Lemma make_wf u s m : u ≠ 0 → make u (Some s) = Ok m → ∃ s', wf m s'.
Proof.
  intros Hu. unfold make. replace (u =? 0) with false by lia. unfold roundToDigits.
  destruct (if digits u >? MAX_DIGITS then _ else _) as [u1 o1] eqn:E1.
  assert (∃ s1, o1 = Some s1) as [s1 ->] by (destruct (digits u >? MAX_DIGITS); injection E1 as _ <-; by eexists).
  destruct (if s1 >? MAX_DECIMAL_PLACES then _ else _) as [u2 s2] eqn:E2.
  assert (s2 <= MAX_DECIMAL_PLACES) as H2.
  { destruct (s1 >? MAX_DECIMAL_PLACES) eqn:E; injection E2 as _ <-; [lia|].
    rewrite Z.gtb_ltb in E. by apply Z.ltb_ge in E. }
  destruct (strip_zeros (Z.to_nat s2) u2 s2) as [u3 s3] eqn:E3.
  assert (s3 <= MAX_DECIMAL_PLACES) as H3.
  { destruct (decide (0 <= s2)) as [Hs|Hs]; [apply strip_zeros_spec in E3 as [? _]; lia|].
    replace (Z.to_nat s2) with 0%nat in E3 by lia. simpl in E3. injection E3 as _ <-. lia. }
  destruct (decide (0 <= s3)) as [Hs|Hs].
  - rewrite limits_spec by lia. destruct (Z.ltb_spec (MAX_VALUE_BIG * 10 ^ s3) (Z.abs u3)); [done|].
    simpl. intros [= <-]. exists s3. by split; simpl.
  - unfold checkLimits, pow10. replace (s3 >? MAX_DECIMAL_PLACES) with false by lia.
    by replace (s3 <? 0) with true by lia.
Qed.

Lemma limit_64_digits u s :
  0 <= s <= MAX_DECIMAL_PLACES → Z.abs u <= 2 * (MAX_VALUE_BIG * 10 ^ s) → Z.abs u < 10 ^ MAX_DIGITS.
Proof.
  intros Hs Hu. change MAX_DIGITS with (20 + MAX_DECIMAL_PLACES). rewrite pow10_split by (unfold MAX_DECIMAL_PLACES, MAX_DIGITS; lia).
  assert (10 ^ s <= 10 ^ MAX_DECIMAL_PLACES) by (apply Z.pow_le_mono_r; lia).
  assert (0 < 10 ^ s) by (apply Z.pow_pos_nonneg; lia).
  assert (2 * MAX_VALUE_BIG < 10 ^ 20) by (by vm_compute). nia.
Qed.

(** Rounding a sum within 64 digits: exact, or refused as too large. *)
Lemma rounded_exact u s :
  0 <= s <= MAX_DECIMAL_PLACES → Z.abs u < 10 ^ MAX_DIGITS →
  if MAX_VALUE_BIG * 10 ^ s <? Z.abs u
  then rounded u (Some s) = Err (JsError "MiniNumber too large")
  else ∃ m s', rounded u (Some s) = Ok m ∧ wf m s' ∧ units m = u * 10 ^ (MAX_DECIMAL_PLACES - s).
Proof.
  intros Hs Hu. destruct (round_exact u s Hs Hu) as (u' & s' & E & Hs' & Eu & Hz).
  assert (0 < 10 ^ (s - s')) as Hp by (apply Z.pow_pos_nonneg; lia).
  assert (10 ^ s = 10 ^ s' * 10 ^ (s - s')) as Ep by (rewrite <- pow10_split by lia; f_equal; lia).
  assert (Z.abs u = Z.abs u' * 10 ^ (s - s')) as Ea by (rewrite Eu, Z.abs_mul; f_equal; lia).
  assert ((MAX_VALUE_BIG * 10 ^ s <? Z.abs u) = (MAX_VALUE_BIG * 10 ^ s' <? Z.abs u')) as ->.
  { rewrite Ea, Ep. apply eq_true_iff_eq. rewrite !Z.ltb_lt. nia. }
  assert (rounded u (Some s) = make u' (Some s')) as ->.
  { unfold rounded. rewrite E. apply read_exp_text. lia. }
  assert (Z.abs u' < 10 ^ MAX_DIGITS) as Hu' by nia.
  assert (units (mkMini u' (Some s')) = u * 10 ^ (MAX_DECIMAL_PLACES - s)) as Eun.
  { unfold units. simpl. rewrite Eu, <- Z.mul_assoc, <- pow10_split by lia. do 2 f_equal. lia. }
  unfold make. destruct (Z.eqb_spec u' 0) as [->|Hne].
  - replace (_ <? Z.abs 0) with false.
    2:{ symmetry. apply Z.ltb_ge. simpl. apply Z.mul_nonneg_nonneg; [by vm_compute|lia]. }
    eexists _, s'. split; [done|]. split; [|done]. split; [done|lia|].
    simpl. apply Z.mul_nonneg_nonneg; [by vm_compute|lia].
  - destruct (round_exact u' s' ltac:(lia) Hu') as (u2 & s2 & E2 & Hs2 & Eu2 & _).
    assert (roundToDigits u' (Some s') MAX_DIGITS = (u', Some s')) as ->.
    { unfold roundToDigits. pose proof (digits_bound u' 64 ltac:(lia) Hu').
      replace (digits u' >? MAX_DIGITS) with false by (unfold MAX_DIGITS in *; lia).
      replace (s' >? MAX_DECIMAL_PLACES) with false by lia. by rewrite strip_zeros_done. }
    rewrite limits_spec by lia. destruct (Z.ltb_spec (MAX_VALUE_BIG * 10 ^ s') (Z.abs u')); [done|].
    eexists _, s'. split; [done|]. split; [|done]. split; simpl; [done|lia|lia].
Qed.

(** ** Addition and subtraction *)

Definition MAX_UNITS : Z := MAX_VALUE_BIG * 10 ^ MAX_DECIMAL_PLACES.
(** The result is [v], or the operation is refused because [v] is out of range. *)
Definition exact (r : Kiss MiniNumber) (v : Z) : Prop :=
  if MAX_UNITS <? Z.abs v then r = Err (JsError "MiniNumber too large")
  else ∃ m s, r = Ok m ∧ wf m s ∧ units m = v.

Lemma aligned m n s s' :
  wf m s → wf n s' →
  ∃ a b t, assertSameScale m n = Ok (a, b, t) ∧ 0 <= t <= MAX_DECIMAL_PLACES
  ∧ Z.abs a <= MAX_VALUE_BIG * 10 ^ t ∧ Z.abs b <= MAX_VALUE_BIG * 10 ^ t
  ∧ units m = a * 10 ^ (MAX_DECIMAL_PLACES - t) ∧ units n = b * 10 ^ (MAX_DECIMAL_PLACES - t).
Proof.
  intros [Es Hs Hl] [Es' Hs' Hl']. unfold assertSameScale, units. rewrite Es, Es'. cbn [default from_option id].
  destruct (Z.eqb_spec s s') as [->|Hne]; [by eexists _, _, _|].
  assert (∀ p q u, 0 <= p → p <= q <= MAX_DECIMAL_PLACES → Z.abs u <= MAX_VALUE_BIG * 10 ^ p →
    Z.abs (u * 10 ^ (q - p)) <= MAX_VALUE_BIG * 10 ^ q
    ∧ u * 10 ^ (MAX_DECIMAL_PLACES - p) = u * 10 ^ (q - p) * 10 ^ (MAX_DECIMAL_PLACES - q)) as H.
  { intros p q u Hp Hq Hu. assert (0 < 10 ^ (q - p)) by (apply Z.pow_pos_nonneg; lia).
    replace (10 ^ q) with (10 ^ p * 10 ^ (q - p)) by (rewrite <- pow10_split by lia; f_equal; lia).
    split; [rewrite Z.abs_mul; nia|]. rewrite <- Z.mul_assoc, <- pow10_split by lia. do 2 f_equal. lia. }
  destruct (s >? s') eqn:E.
  - apply Z.gtb_lt in E. destruct (H s' s (unscaled n)) as [H1 H2]; [lia..|]. by eexists _, _, _.
  - rewrite Z.gtb_ltb in E. apply Z.ltb_ge in E. destruct (H s s' (unscaled m)) as [H1 H2]; [lia..|]. by eexists _, _, _.
Qed.

Lemma rounded_is_exact u t :
  0 <= t <= MAX_DECIMAL_PLACES → Z.abs u <= 2 * (MAX_VALUE_BIG * 10 ^ t) →
  exact (rounded u (Some t)) (u * 10 ^ (MAX_DECIMAL_PLACES - t)).
Proof.
  intros Ht Hu. pose proof (rounded_exact u t Ht (limit_64_digits u t Ht Hu)) as H. unfold exact.
  assert ((MAX_UNITS <? Z.abs (u * 10 ^ (MAX_DECIMAL_PLACES - t))) = (MAX_VALUE_BIG * 10 ^ t <? Z.abs u)) as ->; [|done].
  assert (0 < 10 ^ (MAX_DECIMAL_PLACES - t)) by (apply Z.pow_pos_nonneg; lia).
  unfold MAX_UNITS. replace (10 ^ MAX_DECIMAL_PLACES) with (10 ^ t * 10 ^ (MAX_DECIMAL_PLACES - t))
    by (rewrite <- pow10_split by lia; f_equal; lia).
  rewrite Z.abs_mul, (Z.abs_eq (10 ^ _)) by lia. apply eq_true_iff_eq. rewrite !Z.ltb_lt. nia.
Qed.

(** C25. Addition and subtraction of decimals with at most 44 places and a magnitude
    up to 2^64 - 1 never round: the result is the exact sum or difference, again such a
    decimal, or the operation is refused because that value exceeds 2^64 - 1. *)
Theorem addition_is_exact m n s s' :
  wf m s → wf n s' → exact (add m n) (units m + units n) ∧ exact (sub m n) (units m - units n).
Proof.
  intros Hm Hn. destruct (aligned m n s s' Hm Hn) as (a & b & t & E & Ht & Ha & Hb & -> & ->).
  rewrite <- Z.mul_add_distr_r, <- Z.mul_sub_distr_r. unfold add, sub. rewrite E. cbn [mbind result_bind].
  split; apply rounded_is_exact; lia.
Qed.

(** One tenth, and the largest decimal there is. *)
Lemma addition_is_exact_witness :
  let tenth := mkMini 1 (Some 1) in let top := mkMini (MAX_VALUE_BIG * 10) (Some 1) in
  (exact (add tenth top) (units tenth + units top) ∧ exact (sub tenth top) (units tenth - units top))
  ∧ add tenth top = Err (JsError "MiniNumber too large").
Proof.
  split; [|by vm_compute]. apply (addition_is_exact _ _ 1 1); split; by vm_compute.
Defined.

End MnSpec.
