(* ===== verification/Lexer.v ===== *)
(** * KISSVM: the tokenizer (packages/kissvm/src/lexer.ts)

    A token's kind is a string of the source's union; keywords are the kinds
    spelled like them.  The scanner returns the rest of the text after each token;
    a token's position is the length of the text before it.  Every turn of the
    loop consumes a character, so the length of the text bounds the turns. *)

From Stdlib Require Import ZArith Lia Ascii String.
From stdpp Require Import base list strings.
From S2P Require Import Prelude JsBase MiniNumber.

Module Lx.
Import Js Mn.

Inductive TokenKind :=
| NUMBER | HEX | STRING | IDENT | TRUE | FALSE | RETURN | ASSERT | LET | IF | THEN | ELSE
   | ELSEIF | ENDIF | FOR | TO | BY | ENDFOR | FOREACH | IN | WHILE | DO | ENDWHILE | SWITCH
   | CASE | DEFAULT | ENDSWITCH | STORE | WITH | FUNC | ENDFUNC | EXEC | MAST | PROOF | AND
   | OR | XOR | NOT | NAND | NOR | NXOR | EQ | NEQ | GT | GTE | LT | LTE | ADD | SUB | MUL
   | DIV | MOD | LSHIFT | RSHIFT | BITAND | BITOR | BITXOR | BITNOT | LPAREN | RPAREN | LBRACE
   | RBRACE | COMMA | ASSIGN | SIGNEDBY | MULTISIG | CHECKSIG | SHA3 | SHA2 | HASH | STATE
   | PREVSTATE | SAMESTATE | SAMECOINS | COINDATA | VERIFYOUT | GETOUTAMT | GETOUTADDR
   | GETOUTTOK | GETOUTKEEPSTATE | SIGDIG | ATVAR | EOF.

Definition kind_name (k : TokenKind) : string :=
  match k with
  | NUMBER => "NUMBER" | HEX => "HEX" | STRING => "STRING" | IDENT => "IDENT" | TRUE => "TRUE"
   | FALSE => "FALSE" | RETURN => "RETURN" | ASSERT => "ASSERT" | LET => "LET" | IF => "IF"
   | THEN => "THEN" | ELSE => "ELSE" | ELSEIF => "ELSEIF" | ENDIF => "ENDIF" | FOR => "FOR"
   | TO => "TO" | BY => "BY" | ENDFOR => "ENDFOR" | FOREACH => "FOREACH" | IN => "IN"
   | WHILE => "WHILE" | DO => "DO" | ENDWHILE => "ENDWHILE" | SWITCH => "SWITCH"
   | CASE => "CASE" | DEFAULT => "DEFAULT" | ENDSWITCH => "ENDSWITCH" | STORE => "STORE"
   | WITH => "WITH" | FUNC => "FUNC" | ENDFUNC => "ENDFUNC" | EXEC => "EXEC" | MAST => "MAST"
   | PROOF => "PROOF" | AND => "AND" | OR => "OR" | XOR => "XOR" | NOT => "NOT"
   | NAND => "NAND" | NOR => "NOR" | NXOR => "NXOR" | EQ => "EQ" | NEQ => "NEQ" | GT => "GT"
   | GTE => "GTE" | LT => "LT" | LTE => "LTE" | ADD => "ADD" | SUB => "SUB" | MUL => "MUL"
   | DIV => "DIV" | MOD => "MOD" | LSHIFT => "LSHIFT" | RSHIFT => "RSHIFT" | BITAND => "BITAND"
   | BITOR => "BITOR" | BITXOR => "BITXOR" | BITNOT => "BITNOT" | LPAREN => "LPAREN"
   | RPAREN => "RPAREN" | LBRACE => "LBRACE" | RBRACE => "RBRACE" | COMMA => "COMMA"
   | ASSIGN => "ASSIGN" | SIGNEDBY => "SIGNEDBY" | MULTISIG => "MULTISIG"
   | CHECKSIG => "CHECKSIG" | SHA3 => "SHA3" | SHA2 => "SHA2" | HASH => "HASH"
   | STATE => "STATE" | PREVSTATE => "PREVSTATE" | SAMESTATE => "SAMESTATE"
   | SAMECOINS => "SAMECOINS" | COINDATA => "COINDATA" | VERIFYOUT => "VERIFYOUT"
   | GETOUTAMT => "GETOUTAMT" | GETOUTADDR => "GETOUTADDR" | GETOUTTOK => "GETOUTTOK"
   | GETOUTKEEPSTATE => "GETOUTKEEPSTATE" | SIGDIG => "SIGDIG" | ATVAR => "ATVAR"
   | EOF => "EOF"
  end.

Definition kind_eqb (a b : TokenKind) : bool := String.eqb (kind_name a) (kind_name b).

Record Token := mkToken { kind : TokenKind; value : string; pos : Z }.

(** What stops a computation: an exception, or the end of the model's fuel. *)
Inductive Halt := Raise (e : KissvmError) | OutOfFuel.
Notation Scan := (result Halt).
Definition fail {A} (m : string) : Scan A := Err (Raise (JsError m)).

Definition is_word (c : ascii) : bool := is_letter c || is_digit c || Ascii.eqb c "_".

Definition next_is (p : ascii → bool) (s : string) : bool :=
  match s with String c _ => p c | EmptyString => false end.

Definition KEYWORDS : list TokenKind :=
  [TRUE; FALSE; RETURN; ASSERT; LET; IF; THEN; ELSE; ELSEIF; ENDIF; FOR; TO; BY; ENDFOR; FOREACH;
   IN; WHILE; DO; ENDWHILE; SWITCH; CASE; DEFAULT; ENDSWITCH; STORE; WITH; FUNC; ENDFUNC; EXEC;
   MAST; PROOF; AND; OR; XOR; NOT; NAND; NOR; NXOR; EQ; NEQ; GT; GTE; LT; LTE; ADD; SUB; MUL;
   DIV; MOD; LSHIFT; RSHIFT; SIGNEDBY; MULTISIG; CHECKSIG; SHA3; SHA2; HASH; STATE; PREVSTATE;
   SAMESTATE; SAMECOINS; COINDATA; VERIFYOUT; GETOUTAMT; GETOUTADDR; GETOUTTOK;
   GETOUTKEEPSTATE; SIGDIG].

Definition keyword (word : string) : option TokenKind :=
  List.find (λ k, String.eqb (kind_name k) word) KEYWORDS.

(** Operators, by their first character and the one after it. *)
Definition operator (ch : ascii) (rest : string) : option (TokenKind * string) :=
  let at_ c := Ascii.eqb ch c in
  let then_ c := next_is (Ascii.eqb c) rest in
  if at_ "("%char then Some (LPAREN, "(") else if at_ ")"%char then Some (RPAREN, ")")
  else if at_ "{"%char then Some (LBRACE, "{") else if at_ "}"%char then Some (RBRACE, "}")
  else if at_ ","%char then Some (COMMA, ",") else if at_ "+"%char then Some (ADD, "+")
  else if at_ "-"%char then Some (SUB, "-") else if at_ "*"%char then Some (MUL, "*") else if at_ "%"%char then Some (MOD, "%")
  else if at_ "="%char then Some (if then_ "="%char then (EQ, "==") else (ASSIGN, "="))
  else if at_ "!"%char then Some (if then_ "="%char then (NEQ, "!=") else (NOT, "!"))
  else if at_ ">"%char then Some (if then_ ">"%char then (RSHIFT, ">>") else if then_ "="%char then (GTE, ">=") else (GT, ">"))
  else if at_ "<"%char then Some (if then_ "<"%char then (LSHIFT, "<<") else if then_ "="%char then (LTE, "<=") else (LT, "<"))
  else if at_ "/"%char then Some (DIV, "/")
  else if at_ "&"%char then Some (BITAND, "&") else if at_ "|"%char then Some (BITOR, "|")
  else if at_ "^"%char then Some (BITXOR, "^") else if at_ "~"%char then Some (BITNOT, "~")
  else None.

(** [\[ ... \]]: to the closing bracket or the end of the text. *)
Definition string_literal (start : Z) (rest : string) : Scan (option Token * string) :=
  let '(s, rest) := span_while (λ c, negb (Ascii.eqb c "]")) rest in
  if 65536 <? Z.of_nat (String.length (utf8 s))
  then fail ("String literal at pos " +:+ big_to_string start +:+ " exceeds 64 KB limit")
  else Ok (Some (mkToken STRING s start), drop_str 1 rest).

(** [0x ...], with the digits in lower case: half the digits bound the bytes. *)
Definition hex_literal (start : Z) (rest : string) : Scan (option Token * string) :=
  let '(h, rest) := span_while is_hex_digit rest in
  if 2 * 65536 <? Z.of_nat (String.length h)
  then fail ("Hex literal at pos " +:+ big_to_string start +:+ " exceeds 64 KB limit")
  else Ok (Some (mkToken HEX (toLowerCase ("0x" +:+ h)) start), rest).

Definition number_literal (start : Z) (s : string) : Token * string :=
  let '(n, rest) := span_while is_digit s in
  match rest with
  | String c r =>
      if Ascii.eqb c "." && next_is is_digit r
      then let '(f, rest) := span_while is_digit r in (mkToken NUMBER (n +:+ String "." f) start, rest)
      else (mkToken NUMBER n start, rest)
  | EmptyString => (mkToken NUMBER n start, rest)
  end.

Definition word_token (start : Z) (s : string) : Token * string :=
  let '(word, rest) := span_while is_word s in
  match keyword (toUpperCase word) with
  | Some k => (mkToken k (toUpperCase word) start, rest)
  | None => (mkToken IDENT word start, rest)
  end.

(** One turn of the loop at [ch :: rest]: the token it pushes, and the rest. *)
Definition scan (start : Z) (ch : ascii) (rest : string) : Scan (option Token * string) :=
  if is_space ch then Ok (None, rest)
  else if Ascii.eqb ch "/" && next_is (Ascii.eqb "/") rest
  then Ok (None, (span_while (λ c, negb (code c =? 10)) rest).2)
  else match operator ch rest with
  | Some (k, v) => Ok (Some (mkToken k v start), drop_str (String.length v - 1) rest)
  | None =>
      if Ascii.eqb ch "[" then string_literal start rest
      else if Ascii.eqb ch "0" && next_is (λ c, Ascii.eqb c "x" || Ascii.eqb c "X") rest
      then hex_literal start (drop_str 1 rest)
      else if is_digit ch then let '(t, r) := number_literal start (String ch rest) in Ok (Some t, r)
      else if Ascii.eqb ch "@"
      then let '(name, r) := span_while is_word rest in Ok (Some (mkToken ATVAR (toUpperCase name) start), r)
      else if is_letter ch || Ascii.eqb ch "_"
      then let '(t, r) := word_token start (String ch rest) in Ok (Some t, r)
      else fail ("Unexpected character '" +:+ String ch "" +:+ "' at position " +:+ big_to_string start)
  end.

(** [total] is the length of the source: the position of [s] is [total - length s]. *)
Fixpoint tokenize_loop (fuel : nat) (total : nat) (s : string) : Scan (list Token) :=
  let start := Z.of_nat (total - String.length s) in
  match s, fuel with
  | EmptyString, _ => Ok [mkToken EOF "" start]
  | _, O => Err OutOfFuel
  | String ch rest, S fuel =>
      r ← scan start ch rest;
      let '(t, rest) := r : option Token * string in
      ts ← tokenize_loop fuel total rest;
      Ok (option_list t ++ ts)
  end.

Definition tokenize (source : string) : Scan (list Token) :=
  tokenize_loop (String.length source) (String.length source) source.

End Lx.
