(* ===== verification/Parser.v ===== *)
(** * KISSVM: syntax trees and the parser (packages/kissvm/src/types.ts, parser.ts)

    Recursive descent over the tokens, which always end in EOF.  The parser's state
    is the list of tokens from [this.pos] on.  Fuel bounds the nesting of calls and
    the turns of each loop: all of them consume a token first, so the number of
    tokens is enough.  Spans and the [kind] of a literal, which no other code of
    the package reads, are left out. *)

From Stdlib Require Import ZArith Lia Ascii String.
From stdpp Require Import base list strings.
From S2P Require Import Prelude JsBase MiniNumber Lexer.

Module Ps.
Import Js Mn Lx.

(** ** types.ts *)

Inductive Value :=
| VNum (m : MiniNumber)
| VStr (s : string)
| VBool (b : bool)
| VBytes (bytes : string).

Inductive Scalar := SNumber (n : jsnum) | SValue (v : Value).

Inductive HashFn := FnSHA3 | FnSHA2 | FnHASH.
Inductive OutFn := OutAMT | OutADDR | OutTOK | OutKEEPSTATE.

(** An absent [elseifBranches] behaves as an empty one. *)
Inductive ASTNode :=
| ReturnNode (expr : ASTNode)
| AssertNode (expr : ASTNode)
| LetNode (name : string) (value : ASTNode)
| StoreStateNode (port value : ASTNode)
| StoreTupleNode (index value : ASTNode)
| IfNode (cond : ASTNode) (then_ : list ASTNode) (elseifBranches : list (ASTNode * list ASTNode))
    (else_ : option (list ASTNode))
| WhileNode (cond : ASTNode) (body : list ASTNode)
| ForNode (name : string) (from to : ASTNode) (by_ : option ASTNode) (body : list ASTNode)
| ForeachNode (name : string) (items : ASTNode) (body : list ASTNode)
| SwitchNode (expr : ASTNode) (cases : list (ASTNode * list ASTNode)) (defaultBody : option (list ASTNode))
| FuncDefNode (name : string) (params : list string) (body : list ASTNode)
| CallStmtNode (name : string) (args : list ASTNode)
| ExecNode (script : ASTNode)
| ExecMastNode
| MastStmtNode (rootHash : ASTNode)
| MastBlockNode (branches : list (string * list ASTNode))
| LiteralNode (value : Scalar)
| BuiltinVarNode (name : string)
| IdentNode (name : string)
| BinaryNode (op : TokenKind) (left right : ASTNode)
| UnaryNode (op : string) (expr : ASTNode)
| CallExprNode (name : string) (args : list ASTNode)
| StateNode (port : ASTNode)
| PrevStateNode (port : ASTNode)
| SamestateNode (from to : ASTNode)
| SamecoinsNode
| CoindataNode
| SignedbyNode (pubkey : ASTNode)
| MultisigNode (threshold : ASTNode) (keys : list ASTNode)
| ChecksigNode (args : list ASTNode)
| HashNode (fn : HashFn) (expr : ASTNode)
| VerifyoutNode (index address amount tokenId keepState : ASTNode)
| GetoutNode (fn : OutFn) (index : ASTNode)
| SigdigNode (digits expr : ASTNode)
| MastExprNode (rootHash : ASTNode)
| ProofNode (data leafSum rootHash rootSum proof : ASTNode).

(** ** parser.ts: validation *)

(** The nodes in the order [collectDeclarations] and [validateNodes] visit them. *)
Fixpoint subnodes (n : ASTNode) : list ASTNode :=
  let list_ l := flat_map subnodes l in
  let branches l := flat_map (λ b : ASTNode * list ASTNode, subnodes b.1 ++ list_ b.2) l in
  let option_ o := match o with Some l => list_ l | None => [] end in
  n :: match n with
  | ReturnNode e | AssertNode e | ExecNode e | MastStmtNode e | UnaryNode _ e | StateNode e | PrevStateNode e
  | SignedbyNode e | HashNode _ e | GetoutNode _ e | MastExprNode e | LetNode _ e => subnodes e
  | StoreStateNode a b | StoreTupleNode a b | BinaryNode _ a b | SamestateNode a b | SigdigNode a b =>
      subnodes a ++ subnodes b
  | IfNode c t bs e => subnodes c ++ list_ t ++ branches bs ++ option_ e
  | WhileNode c b => subnodes c ++ list_ b
  | ForNode _ a b o body =>
      subnodes a ++ subnodes b ++ match o with Some e => subnodes e | None => [] end ++ list_ body
  | ForeachNode _ l body => subnodes l ++ list_ body
  | SwitchNode e cs d => subnodes e ++ branches cs ++ option_ d
  | FuncDefNode _ _ body => list_ body
  | CallStmtNode _ l | CallExprNode _ l | ChecksigNode l => list_ l
  | MastBlockNode bs => flat_map (λ b, list_ b.2) bs
  | MultisigNode t ks => subnodes t ++ list_ ks
  | VerifyoutNode a b c d e | ProofNode a b c d e =>
      subnodes a ++ subnodes b ++ subnodes c ++ subnodes d ++ subnodes e
  | ExecMastNode | LiteralNode _ | BuiltinVarNode _ | IdentNode _ | SamecoinsNode | CoindataNode => []
  end.

Definition declares (n : ASTNode) : list string :=
  match n with
  | LetNode name _ | ForNode name _ _ _ _ | ForeachNode name _ _ => [name]
  | FuncDefNode _ params _ => params
  | _ => []
  end.
Definition collectDeclarations (nodes : list ASTNode) : list string :=
  flat_map declares (flat_map subnodes nodes).

Definition BUILTIN_FUNCTIONS : list string :=
  ["LEN"; "INT"; "STR"; "ABS"; "MIN"; "MAX"; "SUBSTR"; "CONCAT";
   "SIZE"; "REVERSE"; "INC"; "DEC"; "BITGET"; "BITSET"; "GET"; "FUNCTION"]%string.

Definition validate_node (declared funcNames : list string) (n : ASTNode) : Kiss unit :=
  match n with
  | IdentNode name =>
      throw_if (negb (mem_string name declared)) (KissvmParseError ("Unknown identifier: " +:+ name))
  | CallStmtNode name _ | CallExprNode name _ =>
      throw_if (negb (mem_string (toUpperCase name) BUILTIN_FUNCTIONS) && negb (mem_string name funcNames))
        (KissvmParseError ("Unknown function: " +:+ name))
  | _ => Ok tt
  end.
Definition validateNodes (nodes : list ASTNode) (declared funcNames : list string) : Kiss unit :=
  _ ← result_mapM (validate_node declared funcNames) (flat_map subnodes nodes); Ok tt.

(** Only functions defined at the top level can be called. *)
Definition func_names (ast : list ASTNode) : list string :=
  omap (λ n, match n with FuncDefNode name _ _ => Some name | _ => None end) ast.
Definition validateAst (ast : list ASTNode) (extraDeclared : list string) : Kiss unit :=
  validateNodes ast (extraDeclared ++ collectDeclarations ast) (func_names ast).

(** ** parser.ts: the token stream *)

Notation P := (M (list Token) Halt).
Definition perr {A} (e : KissvmError) : P A := mthrow (Raise e).
Definition no_fuel {A} : P A := mthrow OutOfFuel.

Definition peek : P Token := λ ts,
  (of_option (Raise (JsError "TypeError")) (head ts), ts).
Definition peek_kind : P TokenKind := t ← peek; mret (kind t).
Definition at_any (ks : list TokenKind) : P bool := k ← peek_kind; mret (existsb (kind_eqb k) ks).
Definition at_ (k : TokenKind) : P bool := at_any [k].

Definition advance : P unit := mmodify (@tl Token).
(** [this.eat()] and [this.eat(kind)] *)
Definition eat_any : P Token := t ← peek; _ ← advance; mret t.
Definition eat (k : TokenKind) : P Token :=
  t ← peek;
  if kind_eqb (kind t) k then _ ← advance; mret t
  else perr (JsError ("Expected " +:+ kind_name k +:+ " but got " +:+ kind_name (kind t) +:+ " ('"
                      +:+ value t +:+ "') at pos " +:+ big_to_string (pos t))).
Definition tryEat (k : TokenKind) : P bool :=
  b ← at_ k; if b : bool then _ ← advance; mret true else mret false.

(** [while (cont) acc = body(acc)], one turn per token at most. *)
Fixpoint while_ {A} (fuel : nat) (cont : P bool) (body : A → P A) (acc : A) : P A :=
  match fuel with
  | O => no_fuel
  | S fuel => b ← cont; if b : bool then acc ← body acc; while_ fuel cont body acc else mret acc
  end.
Definition ploop {A} (cont : P bool) (body : A → P A) (acc : A) : P A := λ ts,
  while_ (S (length ts)) cont body acc ts.
Definition not_at (ks : list TokenKind) : P bool := b ← at_any ks; mret (negb b).

(** ** parser.ts: expressions *)

(** Binary operators from the loosest level to the tightest: parseOr, parseNor,
    parseNand, parseAnd, parseXor, parseNxor, parseComparison, parseBitOr,
    parseBitXor, parseBitAnd, parseShift, parseAddSub, parseMulDiv. *)
Definition LEVELS : list (list TokenKind) :=
  [[OR]; [NOR]; [NAND]; [AND]; [XOR]; [NXOR]; [EQ; NEQ; GT; GTE; LT; LTE]; [BITOR]; [BITXOR]; [BITAND];
   [LSHIFT; RSHIFT]; [ADD; SUB]; [MUL; DIV; MOD]].

Fixpoint parseLevel (levels : list (list TokenKind)) (operand : P ASTNode) : P ASTNode :=
  match levels with
  | [] => operand
  | ops :: tighter =>
      left ← parseLevel tighter operand;
      ploop (at_any ops)
        (λ left, op ← eat_any; right ← parseLevel tighter operand; mret (BinaryNode (kind op) left right)) left
  end.

Section Primary.
(** [this.parseExpr()] *)
Context (parseExpr : P ASTNode).

Definition in_parens {A} (p : P A) : P A := _ ← eat LPAREN; a ← p; _ ← eat RPAREN; mret a.
(** An expression and the comma that may follow it. *)
Definition expr_comma : P ASTNode := e ← parseExpr; _ ← tryEat COMMA; mret e.

Definition parseSpaceArgList : P (list ASTNode) :=
  ploop (not_at [RPAREN; EOF]) (λ args, e ← expr_comma; mret (args ++ [e])) [].

(** The keys of MULTISIG: [break] at a parenthesis after a comma ends the loop
    whose test would end it too. *)
Definition parse_keys : P (list ASTNode) :=
  ploop (not_at [RPAREN; EOF])
    (λ keys, _ ← tryEat COMMA; stop ← at_ RPAREN;
             if stop : bool then mret keys else e ← parseExpr; mret (keys ++ [e])) [].

Definition call (f : ASTNode → ASTNode) : P ASTNode := _ ← eat_any; f <$> in_parens parseExpr.

Definition literal (v : Kiss Value) : P ASTNode :=
  _ ← eat_any;
  match v with Ok v => mret (LiteralNode (SValue v)) | Err e => perr e end.

Definition parsePrimary : P ASTNode :=
  tok ← peek;
  match kind tok with
  | NUMBER => literal (VNum <$> of_string (value tok))
  | HEX | STRING => literal (Ok (VStr (value tok)))
  | TRUE => literal (Ok (VBool true))
  | FALSE => literal (Ok (VBool false))
  | ATVAR => _ ← eat_any; mret (BuiltinVarNode (value tok))
  | LPAREN => in_parens parseExpr
  | EXEC => _ ← eat_any; _ ← eat MAST; mret ExecMastNode
  | STATE => call StateNode
  | PREVSTATE => call PrevStateNode
  | SAMESTATE => _ ← eat_any; in_parens (a ← parseExpr; b ← parseExpr; mret (SamestateNode a b))
  | SAMECOINS => _ ← eat_any; mret SamecoinsNode
  | COINDATA => _ ← eat_any; mret CoindataNode
  | SIGNEDBY => call SignedbyNode
  | MULTISIG => _ ← eat_any; in_parens (t ← parseExpr; ks ← parse_keys; mret (MultisigNode t ks))
  | CHECKSIG =>
      _ ← eat_any; b ← at_ LPAREN;
      if b : bool then ChecksigNode <$> in_parens parseSpaceArgList else mret (ChecksigNode [])
  | SHA3 => call (HashNode FnSHA3) | SHA2 => call (HashNode FnSHA2) | HASH => call (HashNode FnHASH)
  | VERIFYOUT =>
      _ ← eat_any;
      in_parens (i ← expr_comma; a ← expr_comma; m ← expr_comma; t ← expr_comma; k ← parseExpr;
                 mret (VerifyoutNode i a m t k))
  | GETOUTAMT => call (GetoutNode OutAMT) | GETOUTADDR => call (GetoutNode OutADDR)
  | GETOUTTOK => call (GetoutNode OutTOK) | GETOUTKEEPSTATE => call (GetoutNode OutKEEPSTATE)
  | SIGDIG => _ ← eat_any; in_parens (d ← expr_comma; e ← parseExpr; mret (SigdigNode d e))
  | PROOF =>
      _ ← eat_any;
      in_parens (d ← expr_comma; l ← expr_comma; r ← expr_comma; s ← expr_comma; p ← parseExpr;
                 mret (ProofNode d l r s p))
  | MAST => _ ← eat_any; MastExprNode <$> parseExpr
  | IDENT =>
      _ ← eat_any; b ← at_ LPAREN;
      if b : bool then CallExprNode (value tok) <$> in_parens parseSpaceArgList else mret (IdentNode (value tok))
  | k => perr (JsError ("Unexpected token " +:+ kind_name k +:+ " ('" +:+ value tok +:+ "') at pos "
                        +:+ big_to_string (pos tok)))
  end.

(** Only NOT takes another unary operator as its operand. *)
Fixpoint parseUnary (fuel : nat) : P ASTNode :=
  k ← peek_kind;
  match k, fuel with
  | SUB, _ => _ ← eat_any; UnaryNode "NEG" <$> parsePrimary
  | BITNOT, _ => _ ← eat_any; UnaryNode "BITNOT" <$> parsePrimary
  | NOT, O => no_fuel
  | NOT, S fuel => _ ← eat_any; UnaryNode "NOT" <$> parseUnary fuel
  | _, _ => parsePrimary
  end.
End Primary.

Fixpoint parse_expr (fuel : nat) : P ASTNode :=
  match fuel with
  | O => no_fuel
  | S fuel => parseLevel LEVELS (parseUnary (parse_expr fuel) fuel)
  end.
Definition parseExpr : P ASTNode := λ ts, parse_expr (S (length ts)) ts.

(** ** parser.ts: statements *)

Section Statement.
(** [this.parseStatement()] *)
Context (parseStatement : P ASTNode).

Definition parseBlock (terminals : list TokenKind) : P (list ASTNode) :=
  ploop (not_at (EOF :: terminals)) (λ stmts, s ← parseStatement; mret (stmts ++ [s])) [].

Definition parse_if : P ASTNode :=
  cond ← parseExpr; _ ← eat THEN;
  thenBlock ← parseBlock [ELSE; ELSEIF; ENDIF];
  branches ← ploop (tryEat ELSEIF)
    (λ bs, ec ← parseExpr; _ ← eat THEN; eb ← parseBlock [ELSE; ELSEIF; ENDIF]; mret (bs ++ [(ec, eb)])) [];
  b ← tryEat ELSE;
  elseBlock ← if b : bool then Some <$> parseBlock [ENDIF] else mret None;
  _ ← eat ENDIF;
  mret (IfNode cond thenBlock branches elseBlock).

Definition parse_for : P ASTNode :=
  name ← eat IDENT; _ ← eat ASSIGN;
  from ← parseExpr; _ ← eat TO; to ← parseExpr;
  b ← tryEat BY;
  by_ ← if b : bool then Some <$> parseExpr else mret None;
  body ← parseBlock [ENDFOR]; _ ← eat ENDFOR;
  mret (ForNode (value name) from to by_ body).

Definition parse_foreach : P ASTNode :=
  name ← eat IDENT; _ ← eat IN;
  items ← parseExpr;
  body ← parseBlock [ENDFOR]; _ ← eat ENDFOR;
  mret (ForeachNode (value name) items body).

(** The loop leaves at any token other than CASE and DEFAULT, by its test or its
    [break]. *)
Definition switch_turn (parts : list (ASTNode * list ASTNode) * option (list ASTNode)) :
    P (list (ASTNode * list ASTNode) * option (list ASTNode)) :=
  c ← tryEat CASE;
  if c : bool then
    v ← parsePrimary parseExpr; body ← parseBlock [CASE; DEFAULT; ENDSWITCH];
    mret (parts.1 ++ [(v, body)], parts.2)
  else _ ← eat DEFAULT; body ← parseBlock [ENDSWITCH]; mret (parts.1, Some body).
Definition parse_switch : P ASTNode :=
  expr ← parseExpr;
  parts ← ploop (at_any [CASE; DEFAULT]) switch_turn ([], None);
  _ ← eat ENDSWITCH;
  mret (SwitchNode expr parts.1 parts.2).

Definition parse_func : P ASTNode :=
  name ← eat IDENT;
  params ← in_parens (ploop (not_at [RPAREN; EOF])
    (λ ps, p ← eat IDENT; _ ← tryEat COMMA; mret (ps ++ [value p])) []);
  body ← parseBlock [ENDFUNC]; _ ← eat ENDFUNC;
  mret (FuncDefNode (value name) params body).

Definition parse_mast_branch (bs : list (string * list ASTNode)) : P (list (string * list ASTNode)) :=
  _ ← eat HASH; h ← eat HEX; _ ← eat ASSIGN; _ ← eat PROOF;
  _ ← eat LBRACE; body ← parseBlock [RBRACE]; _ ← eat RBRACE;
  mret (bs ++ [(value h, body)]).
Definition parse_mast : P ASTNode :=
  b ← at_ LBRACE;
  if b : bool then
    _ ← eat LBRACE;
    branches ← ploop (not_at [RBRACE; EOF]) parse_mast_branch [];
    _ ← eat RBRACE; mret (MastBlockNode branches)
  else MastStmtNode <$> parseExpr.

Definition parse_let : P ASTNode :=
  b ← at_ LPAREN;
  if b : bool then
    index ← in_parens parseExpr; _ ← eat ASSIGN; value ← parseExpr;
    mret (StoreTupleNode index value)
  else
    name ← eat IDENT; _ ← eat ASSIGN; v ← parseExpr; mret (LetNode (value name) v).

Definition parse_statement : P ASTNode :=
  tok ← peek;
  match kind tok with
  | RETURN =>
      _ ← eat_any; b ← at_ EXEC;
      if b : bool then _ ← eat_any; _ ← eat MAST; mret ExecMastNode else ReturnNode <$> parseExpr
  | ASSERT => _ ← eat_any; AssertNode <$> parseExpr
  | LET => _ ← eat_any; parse_let
  | STORE =>
      _ ← eat_any; _ ← eat STATE; port ← in_parens parseExpr; _ ← eat WITH; v ← parseExpr;
      mret (StoreStateNode port v)
  | IF => _ ← eat_any; parse_if
  | FOR => _ ← eat_any; parse_for
  | FOREACH => _ ← eat_any; parse_foreach
  | SWITCH => _ ← eat_any; parse_switch
  | WHILE =>
      _ ← eat_any; cond ← parseExpr; _ ← eat DO; body ← parseBlock [ENDWHILE]; _ ← eat ENDWHILE;
      mret (WhileNode cond body)
  | FUNC => _ ← eat_any; parse_func
  | EXEC =>
      _ ← eat_any; b ← tryEat MAST;
      if b : bool then mret ExecMastNode else ExecNode <$> parseExpr
  | MAST => _ ← eat_any; parse_mast
  | IDENT =>
      _ ← eat_any; b ← at_ LPAREN;
      if b : bool then CallStmtNode (value tok) <$> in_parens (parseSpaceArgList parseExpr)
      else perr (JsError ("Unexpected identifier '" +:+ value tok +:+ "' as statement at pos "
                          +:+ big_to_string (pos tok)))
  | k => perr (JsError ("Unexpected token " +:+ kind_name k +:+ " ('" +:+ value tok +:+ "') at pos "
                        +:+ big_to_string (pos tok)))
  end.
End Statement.

Fixpoint parseStatement (fuel : nat) : P ASTNode :=
  match fuel with O => no_fuel | S fuel => parse_statement (parseStatement fuel) end.

Definition parseProgram : P (list ASTNode) := λ ts, parseBlock (parseStatement (S (length ts))) [] ts.

Definition parseScript (source : string) (declared : list string) : Scan (list ASTNode) :=
  tokens ← tokenize source;
  ast ← (parseProgram tokens).1;
  match validateAst ast declared with Ok _ => Ok ast | Err e => Err (Raise e) end.

End Ps.
