(* ===== verification/ParserSpec.v ===== *)
(** * The KISSVM front end is total and well sorted

    Tokenizing and parsing never run out of fuel, and what the parser returns is
    well sorted: statements where statements are executed, expressions where
    expressions are evaluated, operators the evaluator knows. *)

From Stdlib Require Import ZArith Lia Ascii String.
From stdpp Require Import base list strings.
From S2P Require Import Prelude JsBase JsText MiniNumber Lexer Parser.

Module PsSpec.
Import Js JsText Mn Lx Ps.

(** ** The tokenizer *)

Lemma span_while_length p s : (String.length (span_while p s).2 <= String.length s)%nat.
Proof.
  induction s as [|c s IH]; simpl; [lia|]. destruct (p c); [|simpl; lia].
  destruct (span_while p s) as [a b]. simpl in *. lia.
Qed.

Lemma drop_str_length n s : (String.length (drop_str n s) <= String.length s)%nat.
Proof. revert s. induction n as [|n IH]; intros [|c s]; simpl; try lia. specialize (IH s). lia. Qed.

(** A first character in [p] is consumed. *)
Lemma span_while_cons p c s :
  p c = true → (String.length (span_while p (String c s)).2 <= String.length s)%nat.
Proof. intros E. simpl. rewrite E. pose proof (span_while_length p s). by destruct (span_while p s). Qed.

Lemma number_literal_length start c s :
  is_digit c = true → (String.length (number_literal start (String c s)).2 <= String.length s)%nat.
Proof.
  intros E. unfold number_literal. pose proof (span_while_cons is_digit c s E) as L.
  destruct (span_while is_digit (String c s)) as [n [|d r]]; simpl in *; [lia|].
  destruct (Ascii.eqb d "." && next_is is_digit r); simpl; [|lia].
  pose proof (span_while_length is_digit r). destruct (span_while is_digit r). simpl in *. lia.
Qed.

Lemma word_token_length start c s :
  is_word c = true → (String.length (word_token start (String c s)).2 <= String.length s)%nat.
Proof.
  intros E. unfold word_token. pose proof (span_while_cons is_word c s E) as L.
  destruct (span_while is_word (String c s)) as [w r]. by destruct (keyword (toUpperCase w)).
Qed.

Lemma string_literal_length start s t r :
  string_literal start s = Ok (t, r) → (String.length r <= String.length s)%nat.
Proof.
  unfold string_literal. pose proof (span_while_length (λ c, negb (Ascii.eqb c "]")) s) as L.
  destruct (span_while _ s) as [a b]. case (_ <? _); [done|]. intros [= _ <-].
  pose proof (drop_str_length 1 b). simpl in *. lia.
Qed.
Lemma hex_literal_length start s t r :
  hex_literal start s = Ok (t, r) → (String.length r <= String.length s)%nat.
Proof.
  unfold hex_literal. pose proof (span_while_length is_hex_digit s) as L.
  destruct (span_while _ s) as [a b]. case (_ <? _); [done|]. by intros [= _ <-].
Qed.

(** Each turn leaves no more than the text after its first character. *)
Lemma scan_consumes start ch rest t r :
  scan start ch rest = Ok (t, r) → (String.length r <= String.length rest)%nat.
Proof.
  unfold scan. case (is_space ch); [intros [= _ <-]; lia|].
  case (Ascii.eqb ch "/" && _); [intros [= _ <-]; apply span_while_length|].
  destruct (operator ch rest) as [[k v]|]; [intros [= _ <-]; apply drop_str_length|].
  case (Ascii.eqb ch "["); [apply string_literal_length|].
  case (Ascii.eqb ch "0" && _).
  { intros E. apply hex_literal_length in E. pose proof (drop_str_length 1 rest). lia. }
  destruct (is_digit ch) eqn:D.
  { pose proof (number_literal_length start ch rest D) as L.
    destruct (number_literal _ _) as [a b]. by intros [= _ <-]. }
  case (Ascii.eqb ch "@").
  { pose proof (span_while_length is_word rest) as L. destruct (span_while _ _) as [a b]. by intros [= _ <-]. }
  destruct (is_letter ch || Ascii.eqb ch "_") eqn:W; [|done].
  assert (is_word ch = true) as Hw by (unfold is_word; apply orb_true_iff in W as [-> | ->]; by rewrite ?orb_true_r).
  pose proof (word_token_length start ch rest Hw) as L. destruct (word_token _ _) as [a b]. by intros [= _ <-].
Qed.

(** A failure of the tokenizer is a plain error, never the end of its fuel. *)
Definition raises (e : Halt) : Prop := ∃ m, e = Raise (JsError m).
Lemma scan_raises start ch rest e : scan start ch rest = Err e → raises e.
Proof.
  unfold scan, string_literal, hex_literal, fail, raises.
  repeat first [ case_match; simplify_eq | intros [= <-]; by eexists | done ].
Qed.

Lemma tokenize_loop_raises fuel total s e :
  (String.length s <= fuel)%nat → tokenize_loop fuel total s = Err e → raises e.
Proof.
  revert s. induction fuel as [|fuel IH]; intros [|c s] L; simpl in *; try done; [lia|].
  destruct (scan _ c s) as [[t r]|e'] eqn:E; simpl; [|intros [= <-]; by eapply scan_raises].
  apply scan_consumes in E. specialize (IH r ltac:(lia)).
  destruct (tokenize_loop fuel total r); simpl; [done|exact IH].
Qed.
Lemma tokenize_raises source e : tokenize source = Err e → raises e.
Proof. by apply tokenize_loop_raises. Qed.

(** ** Well-sorted trees *)

Definition is_operator (op : TokenKind) : bool := existsb (kind_eqb op) (concat LEVELS).
Definition is_unary (op : string) : bool := mem_string op ["NOT"; "NEG"; "BITNOT"]%string.

Fixpoint wf_expr (n : ASTNode) : bool :=
  match n with
  | LiteralNode _ | BuiltinVarNode _ | IdentNode _ | SamecoinsNode | CoindataNode | ExecMastNode => true
  | BinaryNode op a b => is_operator op && wf_expr a && wf_expr b
  | UnaryNode op e => is_unary op && wf_expr e
  | CallExprNode _ l | ChecksigNode l => forallb wf_expr l
  | StateNode e | PrevStateNode e | SignedbyNode e | HashNode _ e | GetoutNode _ e | MastExprNode e => wf_expr e
  | SamestateNode a b | SigdigNode a b => wf_expr a && wf_expr b
  | MultisigNode t ks => wf_expr t && forallb wf_expr ks
  | VerifyoutNode a b c d e | ProofNode a b c d e =>
      wf_expr a && wf_expr b && wf_expr c && wf_expr d && wf_expr e
  | _ => false
  end.

Definition wf_option {A} (f : A → bool) (o : option A) : bool := match o with Some a => f a | None => true end.

Fixpoint wf_stmt (n : ASTNode) : bool :=
  let block := forallb wf_stmt in
  let branches := forallb (λ b : ASTNode * list ASTNode, wf_expr b.1 && block b.2) in
  match n with
  | ReturnNode e | AssertNode e | LetNode _ e | ExecNode e | MastStmtNode e => wf_expr e
  | StoreStateNode a b | StoreTupleNode a b => wf_expr a && wf_expr b
  | IfNode c t bs e => wf_expr c && block t && branches bs && wf_option block e
  | WhileNode c b | ForeachNode _ c b => wf_expr c && block b
  | ForNode _ a b o body => wf_expr a && wf_expr b && wf_option wf_expr o && block body
  | SwitchNode e cs d => wf_expr e && branches cs && wf_option block d
  | FuncDefNode _ _ body => block body
  | CallStmtNode _ l => forallb wf_expr l
  | ExecMastNode => true
  | MastBlockNode bs => forallb (λ b, block b.2) bs
  | _ => false
  end.

Notation Wf_expr n := (wf_expr n = true) (only parsing).
Notation Wf_block l := (forallb wf_stmt l = true) (only parsing).

Lemma wf_snoc {A} (f : A → bool) l a : forallb f l = true → f a = true → forallb f (l ++ [a]) = true.
Proof. intros Hl Ha. by rewrite forallb_app, Hl; simpl; rewrite Ha. Qed.

(** ** What a parser step keeps

    Started with fewer than [n] tokens, it ends within its fuel, throws a parse
    error or returns a value in [Q], and leaves no more tokens ([keeps]) or fewer ([consumes]). *)

Definition parse_error (e : KissvmError) : Prop :=
  match e with JsError _ | KissvmParseError _ => True | _ => False end.
Definition outcome {A} (Q : A → Prop) (bound : nat) (r : result Halt A * list Token) : Prop :=
  match r with
  | (Ok a, ts) => Q a ∧ (length ts < bound)%nat
  | (Err OutOfFuel, _) => False
  | (Err (Raise e), _) => parse_error e
  end.
Definition keeps {A} (n : nat) (Q : A → Prop) (p : P A) : Prop :=
  ∀ ts, (length ts < n)%nat → outcome Q (S (length ts)) (p ts).
Definition consumes {A} (n : nat) (Q : A → Prop) (p : P A) : Prop :=
  ∀ ts, (length ts < n)%nat → outcome Q (length ts) (p ts).

Lemma outcome_weaken {A} (Q R : A → Prop) m n r :
  (∀ a, Q a → R a) → (m <= n)%nat → outcome Q m r → outcome R n r.
Proof. intros HQ Hle. destruct r as [[a|[e|]] ts]; simpl; [intros []; split; [auto|lia]|done|done]. Qed.

Lemma outcome_bind {A B} (Q : A → Prop) (R : B → Prop) m n (p : P A) (f : A → P B) ts :
  outcome Q m (p ts) →
  (∀ a ts', Q a → (length ts' < m)%nat → outcome R n (f a ts')) → outcome R n ((p ≫= f) ts).
Proof.
  intros Hp Hf. unfold mbind, M_bind. destruct (p ts) as [[a|[e|]] ts']; simpl in *; [|done|done].
  destruct Hp. by apply Hf.
Qed.

Lemma consumes_keeps {A} n (Q : A → Prop) p : consumes n Q p → keeps n Q p.
Proof. intros H ts L. eapply outcome_weaken; [| |apply (H ts L)]; [done|lia]. Qed.
Lemma keeps_bind {A B} n (Q : A → Prop) (R : B → Prop) p (f : A → P B) :
  keeps n Q p → (∀ a, Q a → keeps n R (f a)) → keeps n R (p ≫= f).
Proof.
  intros Hp Hf ts L. eapply outcome_bind; [by apply Hp|]. intros a ts' Ha L'.
  eapply outcome_weaken; [| |apply (Hf a Ha ts')]; [done|lia|lia].
Qed.
Lemma consumes_bind {A B} n (Q : A → Prop) (R : B → Prop) p (f : A → P B) :
  consumes (S n) Q p → (∀ a, Q a → keeps n R (f a)) → consumes (S n) R (p ≫= f).
Proof.
  intros Hp Hf ts L. eapply outcome_bind; [by apply Hp|]. intros a ts' Ha L'.
  eapply outcome_weaken; [| |apply (Hf a Ha ts')]; [done|lia|lia].
Qed.
Lemma keeps_consumes_bind {A B} n (Q : A → Prop) (R : B → Prop) p (f : A → P B) :
  keeps n Q p → (∀ a, Q a → consumes n R (f a)) → consumes n R (p ≫= f).
Proof.
  intros Hp Hf ts L. eapply outcome_bind; [by apply Hp|]. intros a ts' Ha L'.
  eapply outcome_weaken; [| |apply (Hf a Ha ts')]; [done|lia|lia].
Qed.
Lemma consumes_keeps_bind {A B} n (Q : A → Prop) (R : B → Prop) p (f : A → P B) :
  consumes n Q p → (∀ a, Q a → keeps n R (f a)) → consumes n R (p ≫= f).
Proof.
  intros Hp Hf ts L. eapply outcome_bind; [by apply Hp|]. intros a ts' Ha L'.
  eapply outcome_weaken; [| |apply (Hf a Ha ts')]; [done|lia|lia].
Qed.

Lemma keeps_ret {A} n (Q : A → Prop) a : Q a → keeps n Q (mret a).
Proof. intros Ha ts L. split; [done|simpl; lia]. Qed.
Lemma raise_ok {A} n (Q : A → Prop) e : parse_error e → consumes n Q (perr e).
Proof. intros He ts L. exact He. Qed.
Lemma keeps_fmap {A B} n (Q : A → Prop) (R : B → Prop) (g : A → B) p :
  keeps n Q p → (∀ a, Q a → R (g a)) → keeps n R (g <$> p).
Proof. intros Hp Hg. unfold fmap, M_fmap. eapply keeps_bind; [done|]. intros a Ha. apply keeps_ret, Hg, Ha. Qed.

Lemma keeps_peek n : keeps n (λ _, True) peek.
Proof. intros [|t ts] L; simpl; [done|lia]. Qed.
Lemma keeps_at_any n ks : keeps n (λ _, True) (at_any ks).
Proof.
  unfold at_any, peek_kind. eapply keeps_bind; [|intros; by apply keeps_ret].
  eapply keeps_bind; [apply keeps_peek|intros; by apply (keeps_ret n (λ _, True))].
Qed.
Lemma keeps_at n k : keeps n (λ _, True) (at_ k).
Proof. apply keeps_at_any. Qed.
Lemma keeps_not_at n ks : keeps n (λ _, True) (not_at ks).
Proof. eapply keeps_bind; [apply keeps_at_any|intros; by apply keeps_ret]. Qed.
Lemma consumes_eat_any n : consumes n (λ _, True) eat_any.
Proof. intros [|t ts] L; simpl; [done|lia]. Qed.
Lemma consumes_eat n k : consumes n (λ _, True) (eat k).
Proof.
  intros [|t ts] L; [done|]. unfold eat, mbind, M_bind. simpl. case (kind_eqb _ _); simpl; [lia|done].
Qed.
Lemma keeps_tryEat n k : keeps n (λ _, True) (tryEat k).
Proof.
  intros [|t ts] L; [done|]. unfold tryEat, at_, at_any, peek_kind, mbind, M_bind. simpl.
  case (kind_eqb _ _); simpl; lia.
Qed.

(** A loop whose turns consume a token each, by the test or by the body. *)
Lemma keeps_ploop {A} n (Q : A → Prop) cont body acc :
  (∀ acc ts, Q acc → (length ts < n)%nat →
     match cont ts with
     | (Ok true, ts') => outcome Q (length ts) (body acc ts')
     | (Ok false, ts') => (length ts' <= length ts)%nat
     | (Err OutOfFuel, _) => False
     | (Err (Raise e), _) => parse_error e
     end) →
  Q acc → keeps n Q (ploop cont body acc).
Proof.
  intros Hturn Hacc ts L. unfold ploop.
  assert (∀ fuel acc ts', Q acc → (length ts' < fuel)%nat → (length ts' <= length ts)%nat →
            outcome Q (S (length ts)) (while_ fuel cont body acc ts')) as H.
  { induction fuel as [|fuel IH]; intros acc' ts' Ha Lf Lt; [lia|].
    simpl. unfold mbind, M_bind. specialize (Hturn acc' ts' Ha ltac:(lia)).
    destruct (cont ts') as [[[]|[e|]] ts1]; simpl in *; try done; [|split; [done|lia]].
    destruct (body acc' ts1) as [[b|[e|]] ts2]; simpl in *; try done.
    destruct Hturn. apply IH; [done|lia|lia]. }
  apply H; [done|lia|lia].
Qed.
Lemma ploop_body {A} n (Q : A → Prop) cont body acc :
  keeps n (λ _, True) cont → (∀ acc, Q acc → consumes n Q (body acc)) → Q acc → keeps n Q (ploop cont body acc).
Proof.
  intros Hc Hb. apply keeps_ploop. intros a ts Ha L. specialize (Hc ts L).
  destruct (cont ts) as [[[]|[e|]] ts']; simpl in *; try done; [|lia].
  eapply outcome_weaken; [| |apply (Hb a Ha ts')]; [done|lia|lia].
Qed.

#[local] Hint Resolve consumes_keeps keeps_peek keeps_at_any keeps_at keeps_not_at consumes_eat_any consumes_eat keeps_tryEat
  raise_ok keeps_ret : parse.

Lemma keeps_in_parens {A} n (Q : A → Prop) (p : P A) : keeps n Q p → keeps n Q (in_parens p).
Proof.
  intros Hp. unfold in_parens. eapply keeps_bind; [eauto with parse|intros _ _].
  eapply keeps_bind; [done|intros a Ha]. eapply keeps_bind; [eauto with parse|intros _ _]. by apply keeps_ret.
Qed.

(** One step along the sequence of a parser that need not consume any more. *)
Ltac kstep :=
  lazymatch goal with
  | |- keeps _ _ (mret _) => apply keeps_ret
  | |- keeps _ _ (perr _) => by apply consumes_keeps, raise_ok
  | |- keeps _ _ (_ ≫= _) => eapply keeps_bind; [kstep|intros ? ?]
  | |- keeps _ _ (_ <$> _) => eapply keeps_fmap; [kstep|intros ? ?]
  | |- keeps _ _ (if ?b then _ else _) => destruct b
  | |- keeps _ _ (in_parens _) => apply keeps_in_parens; kstep
  | |- keeps _ _ _ => solve [eauto with parse]
  end.
Ltac ksteps := repeat kstep.
Ltac wf_done := simpl in *; repeat match goal with H : _ = true |- _ => rewrite H; clear H end; done.
(** The first token is consumed. *)
Ltac cfirst := eapply consumes_bind; [solve [eauto with parse]|intros ? ?].

(** ** Expressions *)

(** A decimal literal fails with a plain error. *)
Definition plain_error {A} (r : Kiss A) : Prop := ∀ e, r = Err e → parse_error e.
Lemma plain_error_bind {A B} (m : Kiss A) (f : A → Kiss B) :
  plain_error m → (∀ a, plain_error (f a)) → plain_error (m ≫= f).
Proof. intros Hm Hf. destruct m as [a|e]; [apply Hf|]. intros e' [= <-]. by apply Hm. Qed.
Lemma plain_error_ok {A} (a : A) : plain_error (Ok a).
Proof. done. Qed.
Lemma plain_error_fmap {A B} (g : A → B) (m : Kiss A) : plain_error m → plain_error (g <$> m).
Proof. intros Hm. destruct m as [a|e]; [done|]. intros e' [= <-]. by apply Hm. Qed.
Lemma plain_error_js {A} m : plain_error (Err (JsError m) : Kiss A).
Proof. by intros e [= <-]. Qed.

Ltac plain_errors :=
  repeat first
    [ progress intros
    | solve [auto using plain_error_ok, plain_error_js]
    | lazymatch goal with
      | |- plain_error (_ ≫= _) => apply plain_error_bind
      | |- plain_error (if ?b then _ else _) => destruct b
      | |- plain_error match ?x with _ => _ end => destruct x
      end ].

Lemma make_error u s : plain_error (make u s).
Proof. unfold make, checkLimits, pow10, throw_if. plain_errors. Qed.
Lemma of_string_error s : plain_error (of_string s).
Proof.
  unfold of_string, parseDecimal, parse_mantissa, to_big, of_option.
  plain_errors; apply make_error.
Qed.

Section Primary.
Context (n : nat) (parseExpr : P ASTNode).
Hypothesis Hexpr : consumes n (λ e, Wf_expr e) parseExpr.

#[local] Hint Resolve Hexpr : parse.

Lemma consumes_expr_comma : consumes n (λ e, Wf_expr e) (expr_comma parseExpr).
Proof.
  unfold expr_comma. eapply consumes_keeps_bind; [done|intros e He]. simpl in He. ksteps. done.
Qed.
#[local] Hint Resolve consumes_expr_comma : parse.

Lemma keeps_args : keeps n (λ l, forallb wf_expr l = true) (parseSpaceArgList parseExpr).
Proof.
  apply ploop_body; [apply keeps_not_at| |done]. intros acc Hacc.
  eapply consumes_keeps_bind; [apply consumes_expr_comma|intros e He]. apply keeps_ret. by apply wf_snoc.
Qed.

Lemma keeps_keys : keeps n (λ l, forallb wf_expr l = true) (parse_keys parseExpr).
Proof.
  apply keeps_ploop; [|done]. intros acc [|t ts] Hacc L; [done|].
  unfold not_at, at_any, at_, peek_kind, tryEat, mbind, M_bind. simpl.
  destruct (kind_eqb (kind t) RPAREN || _) eqn:E; simpl; [lia|].
  apply orb_false_iff in E as [E _].
  assert (keeps n (λ l, forallb wf_expr l = true) (e ← parseExpr; mret (acc ++ [e]))) as Hk.
  { eapply keeps_bind; [apply consumes_keeps, Hexpr|intros e He]. apply keeps_ret. by apply wf_snoc. }
  unfold at_, at_any, peek_kind, mbind, M_bind. simpl.
  destruct (kind_eqb (kind t) COMMA); simpl.
  - destruct ts as [|t' ts]; simpl; [done|].
    destruct (kind_eqb (kind t') RPAREN); simpl; [split; [done|lia]|].
    eapply outcome_weaken; [| |apply (Hk (t' :: ts))]; simpl in *; [done|lia|lia].
  - rewrite E. simpl. specialize (Hexpr (t :: ts) L). destruct (parseExpr (t :: ts)) as [[e|[e|]] ts']; simpl in *; try done.
    destruct Hexpr. split; [by apply wf_snoc|lia].
Qed.
#[local] Hint Resolve keeps_args keeps_keys : parse.

Lemma consumes_literal v : plain_error v → consumes (S n) (λ e, Wf_expr e) (literal v).
Proof.
  intros Hv. unfold literal. cfirst. destruct v as [v|e]; [by apply keeps_ret|].
  by apply consumes_keeps, raise_ok, Hv.
Qed.

Lemma primary_spec : consumes (S n) (λ e, Wf_expr e) (parsePrimary parseExpr).
Proof.
  unfold parsePrimary. eapply keeps_consumes_bind; [apply keeps_peek|intros tok _].
  destruct (kind tok); try (by apply raise_ok).
  all: lazymatch goal with
  | |- consumes _ _ (literal (VNum <$> _)) => apply consumes_literal, plain_error_fmap, of_string_error
  | |- consumes _ _ (literal _) => by apply consumes_literal
  | _ => try (unfold call, in_parens; cfirst; ksteps; wf_done)
  end.
  all: cfirst; ksteps; wf_done.
Qed.

End Primary.

Lemma level_spec n levels operand :
  (∀ ops, ops ∈ levels → ∀ k, existsb (kind_eqb k) ops = true → is_operator k = true) →
  consumes n (λ e, Wf_expr e) operand → consumes n (λ e, Wf_expr e) (parseLevel levels operand).
Proof.
  intros Hops Ho. induction levels as [|ops levels IH]; [done|].
  assert (consumes n (λ e, Wf_expr e) (parseLevel levels operand)) as Ht.
  { apply IH. intros o Hin. apply Hops. by right. }
  simpl. eapply consumes_keeps_bind; [exact Ht|intros left Hleft].
  apply keeps_ploop; [|exact Hleft]. clear left Hleft. intros left [|t ts] Hleft L; [done|].
  unfold at_any, peek_kind, mbind, M_bind. simpl.
  destruct (existsb (kind_eqb (kind t)) ops) eqn:E; simpl; [|lia].
  specialize (Ht ts ltac:(simpl in L; lia)).
  destruct (parseLevel levels operand ts) as [[right|[e|]] ts']; simpl in *; try done.
  destruct Ht as [Hr ?]. split; [|lia]. rewrite Hleft, Hr, (Hops ops ltac:(left) _ E). done.
Qed.

Lemma levels_operators ops :
  ops ∈ LEVELS → ∀ k, existsb (kind_eqb k) ops = true → is_operator k = true.
Proof.
  intros Hin k E. unfold is_operator. rewrite existsb_exists in *. destruct E as (o & Ho & Ek).
  exists o. split; [|done]. apply in_concat. exists ops. split; [by apply list_elem_of_In|done].
Qed.

Lemma unary_spec n pe fuel :
  (fuel <= n)%nat → consumes n (λ e, Wf_expr e) pe → consumes (S fuel) (λ e, Wf_expr e) (parseUnary pe fuel).
Proof.
  intros Hle Hpe. induction fuel as [|fuel IH].
  { intros [|t ts] L; [done|simpl in L; lia]. }
  assert (∀ m, (m <= S n)%nat → consumes m (λ e, Wf_expr e) (parsePrimary pe)) as Hprim.
  { intros m Hm ts L. apply (primary_spec n pe Hpe). lia. }
  unfold parseUnary; fold parseUnary. eapply keeps_consumes_bind.
  { eapply keeps_bind; [apply keeps_peek|intros ? ?]. by apply (keeps_ret _ (λ _, True)). }
  intros k _. specialize (IH ltac:(lia)).
  destruct k; try (apply Hprim; lia).
  all: eapply consumes_bind; [apply consumes_eat_any|intros ? _].
  all: eapply keeps_fmap; [|intros ? He; exact He].
  all: try (apply consumes_keeps, Hprim; lia). by apply consumes_keeps.
Qed.

Lemma parse_expr_spec fuel : consumes fuel (λ e, Wf_expr e) (parse_expr fuel).
Proof.
  induction fuel as [|fuel IH]; [intros ts L; lia|].
  apply level_spec; [apply levels_operators|]. by apply (unary_spec fuel).
Qed.
Lemma parseExpr_spec n : consumes n (λ e, Wf_expr e) parseExpr.
Proof. intros ts _. apply parse_expr_spec. lia. Qed.

(** ** Statements *)

Lemma wf_branch_snoc (bs : list (ASTNode * list ASTNode)) c body :
  forallb (λ b : ASTNode * list ASTNode, wf_expr b.1 && forallb wf_stmt b.2) bs = true →
  Wf_expr c → Wf_block body →
  forallb (λ b : ASTNode * list ASTNode, wf_expr b.1 && forallb wf_stmt b.2) (bs ++ [(c, body)]) = true.
Proof. intros Hb Hc Hl. apply wf_snoc; [done|]. simpl. by rewrite Hc, Hl. Qed.

Lemma keeps_optional {A} (f : A → bool) n (b : bool) p :
  keeps n (λ a, f a = true) p → keeps n (λ o, wf_option f o = true) (if b then Some <$> p else mret None).
Proof. intros Hp. destruct b; [eapply keeps_fmap; [done|auto]|by apply keeps_ret]. Qed.

Section Statement.
Context (n : nat) (stmt : P ASTNode).
Hypothesis Hstmt : consumes n (λ e, wf_stmt e = true) stmt.

#[local] Hint Resolve parseExpr_spec : parse.

Lemma keeps_block ks : keeps n (λ l, Wf_block l) (parseBlock stmt ks).
Proof.
  apply ploop_body; [apply keeps_not_at| |done]. intros acc Hacc.
  eapply consumes_keeps_bind; [exact Hstmt|intros e He]. apply keeps_ret. by apply wf_snoc.
Qed.
Lemma keeps_call_args : keeps n (λ l, forallb wf_expr l = true) (parseSpaceArgList parseExpr).
Proof. apply keeps_args, parseExpr_spec. Qed.
#[local] Hint Resolve keeps_block keeps_call_args : parse.

Lemma keeps_let : keeps n (λ e, wf_stmt e = true) parse_let.
Proof. unfold parse_let. ksteps; wf_done. Qed.

Lemma keeps_elseif acc :
  forallb (λ b : ASTNode * list ASTNode, wf_expr b.1 && forallb wf_stmt b.2) acc = true →
  keeps n (λ bs, forallb (λ b : ASTNode * list ASTNode, wf_expr b.1 && forallb wf_stmt b.2) bs = true)
    (ploop (tryEat ELSEIF)
       (λ bs, ec ← parseExpr; _ ← eat THEN; eb ← parseBlock stmt [ELSE; ELSEIF; ENDIF]; mret (bs ++ [(ec, eb)])) acc).
Proof.
  intros Hacc. apply keeps_ploop; [|exact Hacc]. clear acc Hacc. intros bs [|t ts] Hbs L; [done|].
  unfold tryEat, at_, at_any, peek_kind, mbind, M_bind. simpl.
  destruct (kind_eqb (kind t) ELSEIF); simpl; [|lia].
  change (outcome (λ bs, forallb (λ b : ASTNode * list ASTNode, wf_expr b.1 && forallb wf_stmt b.2) bs = true)
    (S (length ts)) ((ec ← parseExpr; _ ← eat THEN; eb ← parseBlock stmt [ELSE; ELSEIF; ENDIF]; mret (bs ++ [(ec, eb)])) ts)).
  apply (fun H : keeps n _ _ => H ts ltac:(simpl in L; lia)).
  ksteps. simpl in *. by apply wf_branch_snoc.
Qed.

Lemma keeps_if : keeps n (λ e, wf_stmt e = true) (parse_if stmt).
Proof.
  unfold parse_if. do 3 (eapply keeps_bind; [kstep|intros ? ?]).
  eapply keeps_bind; [by apply keeps_elseif|intros bs Hbs].
  eapply keeps_bind; [kstep|intros b _].
  eapply keeps_bind; [by apply (keeps_optional (λ l, forallb wf_stmt l)), keeps_block|intros o Ho].
  ksteps. wf_done.
Qed.

Lemma keeps_for : keeps n (λ e, wf_stmt e = true) (parse_for stmt).
Proof.
  unfold parse_for. do 6 (eapply keeps_bind; [kstep|intros ? ?]).
  eapply keeps_bind; [by apply (keeps_optional wf_expr), consumes_keeps, parseExpr_spec|intros o Ho].
  ksteps. wf_done.
Qed.

Lemma keeps_foreach : keeps n (λ e, wf_stmt e = true) (parse_foreach stmt).
Proof. unfold parse_foreach. ksteps. wf_done. Qed.

Notation wf_parts parts :=
  (forallb (λ b : ASTNode * list ASTNode, wf_expr b.1 && forallb wf_stmt b.2) parts.1
   && wf_option (forallb wf_stmt) parts.2 = true).

Lemma switch_turn_spec parts : wf_parts parts → consumes n (λ parts, wf_parts parts) (switch_turn stmt parts).
Proof.
  intros Hp [|t ts] L; [done|]. apply andb_true_iff in Hp as [Hc Hd].
  unfold switch_turn, tryEat, at_, at_any, peek_kind. unfold mbind at 1, M_bind at 1. unfold mbind at 1, M_bind at 1. simpl.
  destruct (kind_eqb (kind t) CASE); simpl.
  - apply (λ H : keeps n _ _, H ts ltac:(simpl in L; lia)).
    eapply keeps_bind; [apply consumes_keeps; intros ts' _; apply (primary_spec (length ts')); [apply parseExpr_spec|lia]|].
    intros v Hv. ksteps. simpl in *. by rewrite wf_branch_snoc.
  - apply (λ H : consumes n _ _, H (t :: ts) L).
    eapply consumes_keeps_bind; [apply consumes_eat|intros ? _]. ksteps. simpl. by rewrite Hc.
Qed.

Lemma keeps_switch : keeps n (λ e, wf_stmt e = true) (parse_switch stmt).
Proof.
  unfold parse_switch. eapply keeps_bind; [kstep|intros e He].
  eapply keeps_bind.
  { apply (ploop_body n (λ parts, wf_parts parts)); [apply keeps_at_any|apply switch_turn_spec|done]. }
  intros [cs d] Hp. apply andb_true_iff in Hp as [Hc Hd]. ksteps. wf_done.
Qed.

Lemma keeps_func : keeps n (λ e, wf_stmt e = true) (parse_func stmt).
Proof.
  unfold parse_func. eapply keeps_bind; [kstep|intros ? ?].
  eapply keeps_bind.
  { apply keeps_in_parens. apply (ploop_body n (λ _, True)); [apply keeps_not_at| |done].
    intros acc _. eapply consumes_keeps_bind; [apply consumes_eat|intros ? ?]. by ksteps. }
  intros ? ?. ksteps. wf_done.
Qed.

Lemma keeps_mast : keeps n (λ e, wf_stmt e = true) (parse_mast stmt).
Proof.
  unfold parse_mast. eapply keeps_bind; [kstep|intros [] _]; [|ksteps; wf_done].
  eapply keeps_bind; [kstep|intros ? _]. eapply keeps_bind.
  { apply (ploop_body n (λ bs, forallb (λ b : string * list ASTNode, forallb wf_stmt b.2) bs = true));
      [apply keeps_not_at| |done].
    intros acc Hacc. eapply consumes_keeps_bind; [apply consumes_eat|intros ? ?].
    ksteps. simpl in *. by apply wf_snoc. }
  intros bs Hbs. ksteps. wf_done.
Qed.

Lemma statement_spec : consumes (S n) (λ e, wf_stmt e = true) (parse_statement stmt).
Proof.
  unfold parse_statement. eapply keeps_consumes_bind; [apply keeps_peek|intros tok _].
  destruct (kind tok); try (by apply raise_ok).
  all: eapply consumes_bind; [apply consumes_eat_any|intros ? _].
  all: lazymatch goal with
  | |- keeps _ _ parse_let => apply keeps_let
  | |- keeps _ _ (parse_if _) => apply keeps_if
  | |- keeps _ _ (parse_for _) => apply keeps_for
  | |- keeps _ _ (parse_foreach _) => apply keeps_foreach
  | |- keeps _ _ (parse_switch _) => apply keeps_switch
  | |- keeps _ _ (parse_func _) => apply keeps_func
  | |- keeps _ _ (parse_mast _) => apply keeps_mast
  | _ => idtac
  end.
  all: ksteps; wf_done.
Qed.

End Statement.

Lemma parseStatement_spec fuel : consumes fuel (λ e, wf_stmt e = true) (parseStatement fuel).
Proof. induction fuel as [|fuel IH]; [intros ts L; lia|]. by apply statement_spec. Qed.

Lemma parseProgram_spec ts : outcome (λ l, Wf_block l) (S (length ts)) (parseProgram ts).
Proof.
  unfold parseProgram. apply (keeps_block (S (length ts))); [|lia]. apply parseStatement_spec.
Qed.

Lemma validate_error nodes declared names e : validateNodes nodes declared names = Err e → parse_error e.
Proof.
  unfold validateNodes. assert (∀ n e, validate_node declared names n = Err e → parse_error e) as Hn.
  { intros n e'. destruct n; simpl; try done; unfold throw_if; case_match; by intros [= <-]. }
  induction (flat_map subnodes nodes) as [|n l IH]; simpl; [done|].
  pose proof (Hn n) as He. destruct (validate_node declared names n) as [u|e']; simpl.
  - destruct (result_mapM _ l); simpl in *; [done|exact IH].
  - intros [= <-]. by apply He.
Qed.

(** A parse ends: in a well-sorted program, or in a parse error. *)
Lemma parseScript_spec source declared :
  match parseScript source declared with
  | Ok ast => Wf_block ast
  | Err OutOfFuel => False
  | Err (Raise e) => parse_error e
  end.
Proof.
  unfold parseScript. pose proof (tokenize_raises source) as Ht.
  destruct (tokenize source) as [ts|e]; simpl; [|by destruct (Ht e eq_refl) as [m ->]].
  pose proof (parseProgram_spec ts) as Hp. destruct (parseProgram ts) as [[ast|[e|]] ts']; simpl in *; [|done|done].
  pose proof (validate_error ast (declared ++ collectDeclarations ast) (func_names ast)) as Hv.
  unfold validateAst. destruct (validateNodes _ _ _); [by destruct Hp|by apply Hv].
Qed.

End PsSpec.
