(* ===== verification/NodeScriptSpec.v ===== *)
(** * The canonical text keeps distinct variables distinct

    The names of letters are injective, so the search for a free one ends within one
    candidate more than there are names in use; every variable gets a name of
    lower-case letters that no other variable has. *)

From Stdlib Require Import ZArith Lia Ascii String.
From stdpp Require Import base list strings.
From S2P Require Import Prelude JsBase JsText JsMap NodeScript.

Module NsSpec.
Import Js JsText JsMap Ns.
#[local] Arguments String.append : simpl nomatch.

(** ** Names made of letters *)

Definition is_lower (c : ascii) : bool := in_range 97 122 c.

(** The number a name of letters stands for, after [acc]. *)
Fixpoint letters_value (acc : Z) (s : string) : Z :=
  match s with EmptyString => acc | String c s => letters_value (acc * 26 + (code c - 96)) s end.

Lemma code_letter r : 0 <= r < 26 → code (byte (97 + r)) = 97 + r.
Proof. intros. unfold code, byte. rewrite N_ascii_embedding by lia. lia. Qed.

Lemma letters_loop_value fuel : ∀ n s,
  0 <= n <= Z.of_nat fuel → letters_value 0 (letters_loop fuel n s) = letters_value n s.
Proof.
  induction fuel as [|fuel IH]; intros n s Hn; cbn [letters_loop]; [by replace n with 0 by lia|].
  destruct (n >? 0) eqn:E; [|rewrite Z.gtb_ltb in E; apply Z.ltb_ge in E; by replace n with 0 by lia].
  apply Z.gtb_lt in E. pose proof (Z.mod_pos_bound (n - 1) 26 ltac:(lia)). pose proof (Z.div_mod (n - 1) 26 ltac:(lia)).
  rewrite IH by lia. simpl. rewrite code_letter by lia. f_equal. lia.
Qed.
Lemma letters_loop_lower fuel : ∀ n s,
  str_forallb is_lower s = true → str_forallb is_lower (letters_loop fuel n s) = true.
Proof.
  induction fuel as [|fuel IH]; intros n s Hs; cbn [letters_loop]; [done|]. destruct (n >? 0); [|done].
  apply IH. simpl. rewrite Hs, andb_true_r. pose proof (Z.mod_pos_bound (n - 1) 26 ltac:(lia)).
  unfold is_lower, in_range. rewrite code_letter by lia. lia.
Qed.

Lemma letters_number n : letters_value 0 (letters n) = Z.of_nat n + 1.
Proof. unfold letters. by rewrite letters_loop_value by lia. Qed.
Lemma letters_inj m n : letters m = letters n → m = n.
Proof. intros E. pose proof (letters_number m). pose proof (letters_number n). rewrite E in *. lia. Qed.
Lemma letters_nonempty n : letters n ≠ "".
Proof. intros E. pose proof (letters_number n) as H. rewrite E in H. simpl in H. lia. Qed.
Lemma letters_lower n : str_forallb is_lower (letters n) = true.
Proof. by apply letters_loop_lower. Qed.

(** ** The search for a free name *)

Section Search.
Context (taken : list string) (base : string).

(** The candidates in the order they are tried. *)
Definition candidate (j : nat) : string := match j with O => base | S i => base +:+ letters i end.

Lemma candidate_inj j k : candidate j = candidate k → j = k.
Proof.
  destruct j as [|j], k as [|k]; simpl; intros E; [done|..].
  - rewrite <- (app_nil_r_str base) in E at 1. apply app_inj_head in E. by destruct (letters_nonempty k).
  - rewrite <- (app_nil_r_str base) in E at 2. apply app_inj_head in E. by destruct (letters_nonempty j).
  - apply app_inj_head, letters_inj in E. by subst.
Qed.

Lemma search_spec fuel : ∀ j,
  (∃ k, (j <= k < j + fuel)%nat ∧ candidate k ∉ taken) →
  ∃ k, free_name fuel taken base (candidate j) j = candidate k ∧ candidate k ∉ taken.
Proof.
  induction fuel as [|fuel IH]; intros j (k & Hk & Hf); [lia|]. cbn [free_name].
  destruct (mem_string (candidate j) taken) eqn:E.
  - apply (IH (S j)). exists k. split; [|done]. destruct (decide (k = j)) as [->|]; [|lia].
    exfalso. apply Hf. unfold mem_string in E. apply existsb_exists in E as (x & Hx & Ex).
    apply String.eqb_eq in Ex. subst x. by apply list_elem_of_In.
  - exists j. split; [done|]. intros Hin. unfold mem_string in E.
    apply not_true_iff_false in E. apply E, existsb_exists. exists (candidate j).
    split; [by apply list_elem_of_In|]. by apply String.eqb_eq.
Qed.

Lemma some_candidate_free : ∃ k, (k < S (length taken))%nat ∧ candidate k ∉ taken.
Proof.
  destruct (decide (Forall (λ k, candidate k ∈ taken) (seq 0 (S (length taken))))) as [Ha|Hn].
  - exfalso. assert (NoDup (map candidate (seq 0 (S (length taken))))) as Hd.
    { apply (NoDup_fmap_2_strong candidate); [|apply NoDup_seq]. intros ?? _ _. apply candidate_inj. }
    apply NoDup_submseteq with (k := taken) in Hd; [|].
    + apply submseteq_length in Hd. rewrite length_map, length_seq in Hd. lia.
    + intros x (k & -> & Hk)%list_elem_of_fmap. rewrite Forall_forall in Ha. by apply Ha.
  - apply not_Forall_Exists in Hn; [|apply _]. apply Exists_exists in Hn as (k & Hk & Hf).
    exists k. split; [|done]. apply elem_of_seq in Hk. lia.
Qed.

Lemma free_name_free : ∃ k, free_name (S (length taken)) taken base base 0 = candidate k ∧ candidate k ∉ taken.
Proof.
  destruct some_candidate_free as (k & Hk & Hf). apply (search_spec (S (length taken)) 0). exists k.
  split; [lia|done].
Qed.
End Search.

(** ** Names given in the first pass *)

Definition lower_name (s : string) : Prop := s ≠ "" ∧ str_forallb is_lower s = true.

Lemma keep_lower_lower s : str_forallb is_lower (keep_lower s) = true.
Proof. induction s as [|c s IH]; simpl; [done|]. destruct (in_range 97 122 c) eqn:E; [|done]. simpl. unfold is_lower at 1. by rewrite E. Qed.
Lemma base_name_lower tok : lower_name (base_name tok).
Proof.
  unfold base_name. destruct (String.eqb_spec (keep_lower (toLowerCase tok)) ""); [done|].
  split; [done|]. apply keep_lower_lower.
Qed.
Lemma candidate_lower base k : lower_name base → lower_name (candidate base k).
Proof.
  intros [Hn Hl]. destruct k as [|i]; [done|]. simpl. split; [by destruct base|].
  by rewrite str_forallb_app, Hl, letters_lower.
Qed.

Record names_ok (n : Names) : Prop := {
  ok_used : ∀ t x, map_get t (varMap n) = Some x → x ∈ used n ∧ lower_name x;
  ok_inj : ∀ t t' x, map_get t (varMap n) = Some x → map_get t' (varMap n) = Some x → t = t' }.

Lemma assign_ok n tok : names_ok n → names_ok (assign n tok).
Proof.
  intros [Hu Hi]. unfold assign. destruct (negb (is_variable tok) || map_has tok (varMap n)); [done|].
  destruct (free_name_free (used n) (base_name tok)) as (k & -> & Hf). set (x := candidate (base_name tok) k) in *.
  assert (∀ t y, map_get t (map_set tok x (varMap n)) = Some y → (t = tok ∧ y = x) ∨ map_get t (varMap n) = Some y) as H.
  { intros t y. destruct (decide (t = tok)) as [->|Hne]; [rewrite map_get_set_eq; intros [= <-]; by left|].
    rewrite map_get_set_ne by done. by right. }
  split; simpl.
  - intros t y [[-> ->]|[Hy Hl]%Hu]%H; [split; [by left|apply candidate_lower, base_name_lower]|].
    split; [by right|done].
  - intros t t' y [[-> ->]|Hy]%H [[-> Ey]|Hy']%H.
    + done.
    + by apply Hu in Hy' as [Hin _].
    + subst y. by apply Hu in Hy as [Hin _].
    + by eapply Hi.
Qed.

Lemma assign_named n tok t : map_get t (varMap n) ≠ None ∨ (t = tok ∧ is_variable tok = true) →
  map_get t (varMap (assign n tok)) ≠ None.
Proof.
  unfold assign, map_has. destruct (is_variable tok) eqn:Ev; simpl; [|by intros [|[_ ?]]].
  destruct (map_get tok (varMap n)) as [x|] eqn:Ex; simpl.
  - intros [H|[-> _]]; [done|by rewrite Ex].
  - intros H. destruct (decide (t = tok)) as [->|Hne]; [by rewrite map_get_set_eq|].
    rewrite map_get_set_ne by done. by destruct H as [|[]].
Qed.

Definition pass (names : Names) (l : list Piece) : Names :=
  foldl (λ names p, match p with Raw _ => names | Tok t => assign names t end) names l.
Lemma pass_ok l : ∀ n, names_ok n → names_ok (pass n l).
Proof. induction l as [|[c|t] l IH]; intros n Hn; [done|by apply IH|]. by apply IH, assign_ok. Qed.
Lemma pass_named l : ∀ n t,
  map_get t (varMap n) ≠ None ∨ (Tok t ∈ l ∧ is_variable t = true) → map_get t (varMap (pass n l)) ≠ None.
Proof.
  induction l as [|[c|u] l IH]; intros n t H.
  - by destruct H as [|[H%elem_of_nil _]].
  - apply IH. destruct H as [|[[H|H]%elem_of_cons Hv]]; [by left|done|by right].
  - apply IH. destruct H as [H|[[H|H]%elem_of_cons Hv]].
    + left. apply assign_named. by left.
    + left. injection H as <-. apply assign_named. by right.
    + by right.
Qed.

Lemma rewrite_variable n t x :
  is_variable t = true → map_get t (varMap n) = Some x → rewrite_token n t = x.
Proof.
  unfold is_variable, rewrite_token. rewrite andb_true_iff, negb_true_iff, !orb_false_iff. intros [[[-> ->] ->] Hc] Hx.
  destruct (classify t); [done|]. by rewrite Hx.
Qed.

(** Canonical text keeps variables apart: each variable of a script is written as
    a word of lower-case letters, and two variables written as one word are one. *)
Theorem distinct_variables_stay_distinct script t t' :
  let l := cut (strip_comments false script) in
  Tok t ∈ l → Tok t' ∈ l → is_variable t = true → is_variable t' = true →
  lower_name (rewrite_token (first_pass l) t)
  ∧ (rewrite_token (first_pass l) t = rewrite_token (first_pass l) t' → t = t').
Proof.
  intros l Ht Ht' Hv Hv'. assert (names_ok (first_pass l)) as [Hu Hi] by (apply (pass_ok l); by split).
  assert (∀ u, Tok u ∈ l → is_variable u = true → ∃ x, map_get u (varMap (first_pass l)) = Some x) as Hn.
  { intros u Hin Hvu. pose proof (pass_named l (mkNames [] []) u (or_intror (conj Hin Hvu))) as H.
    change (pass (mkNames [] []) l) with (first_pass l) in H. destruct (map_get u _) as [x|]; [by exists x|done]. }
  destruct (Hn t Ht Hv) as [x Ex], (Hn t' Ht' Hv') as [x' Ex'].
  rewrite (rewrite_variable _ t x Hv Ex), (rewrite_variable _ t' x' Hv' Ex'). split; [by apply (Hu t)|].
  intros ->. by eapply Hi.
Qed.

(** Three variables that differ in case or digits only. *)
Definition toy_text : string := "LET a1 = 1 LET A = 2 LET a2 = 3 RETURN a1 EQ A".
Lemma distinct_variables_stay_distinct_witness :
  (let l := cut (strip_comments false toy_text) in
   lower_name (rewrite_token (first_pass l) "a1")
   ∧ (rewrite_token (first_pass l) "a1" = rewrite_token (first_pass l) "a2" → "a1" = "a2"))
  ∧ toNodeScript toy_text = "LET a = 1 LET aa = 2 LET ab = 3 RETURN a EQ aa"%string.
Proof.
  split; [|by vm_compute]. apply (distinct_variables_stay_distinct toy_text); [| |by vm_compute|by vm_compute].
  - apply list_elem_of_In. vm_compute. tauto.
  - apply list_elem_of_In. vm_compute. tauto.
Defined.

End NsSpec.
