(* ===== verification/Wots.v ===== *)
(** * Winternitz one-time signatures (packages/core/src wots.ts, params.ts, javaStreamables.ts)

    Key expansion, the digits of a digest with their checksum, signing and
    verification for the one parameter set there is (w = 8, 34 chains).  A buffer of
    chain values is the concatenation of its 32-byte parts.  Debug logging, which
    changes nothing, and the deprecated wrappers are left out. *)

From Stdlib Require Import ZArith Lia QArith Ascii String.
From stdpp Require Import base list strings.
From S2P Require Import Prelude JsBase Mmr.

Module Wo.
Import Js Mm.

(** ** params.ts *)

Definition paramL : nat := 34.
Definition messageSize : Z := 32.
Definition w : Z := 8.
Definition checksumSize : Z := 14.
Definition maxDigit : Z := 255.

Definition assert32 (u label : string) : Res unit :=
  throw_if (negb (Nat.eqb (String.length u) 32))
    (label +:+ " must be exactly 32 bytes; got " +:+ dec (Z.of_nat (String.length u))).

(** ** GMSSRandom *)

(** [a = a + b], little-endian, in place; a byte missing from [b] counts as zero. *)
Fixpoint addByteArrays (a b : string) (overflow : Z) : string :=
  match a with
  | EmptyString => EmptyString
  | String c a =>
      let temp := code c + match b with String d _ => code d | EmptyString => 0 end + overflow in
      String (byte (temp mod 256)) (addByteArrays a (drop_str 1 b) (temp / 256))
  end.
Fixpoint addOne (a : string) (overflow : Z) : string :=
  match a with
  | EmptyString => EmptyString
  | String c a =>
      let temp := code c + overflow in
      String (byte (temp mod 256)) (if temp / 256 =? 0 then a else addOne a (temp / 256))
  end.

(** ** Digits *)

(** [n] digits of [w] bits, the least significant first. *)
Fixpoint checksum_digits (n : nat) (c : Z) : list Z :=
  match n with O => [] | S n => Z.land c maxDigit :: checksum_digits n (Z.shiftr c w) end.

(** [for (i = 0; i < checksumSize; i += w)] *)
Definition checksum_count : nat := Z.to_nat ((checksumSize + w - 1) / w).

Definition sum_digits (l : list Z) : Z := foldr Z.add 0 l.

Definition toWinternitzDigits (hash32 : string) : Res (list Z * list Z) :=
  _ ← assert32 hash32 "hash";
  let digits := map code (list_ascii_of_string hash32) in
  let c := Z.shiftl messageSize w - sum_digits digits in
  Ok (digits, checksum_digits checksum_count c).

Definition baseWWithChecksum (msgHash : string) : Res (list Z) :=
  d ← toWinternitzDigits msgHash;
  let result := d.1 ++ d.2 in
  _ ← throw_if (negb (Nat.eqb (length result) paramL))
        ("Invalid digit length: expected 34, got " +:+ dec (Z.of_nat (length result)));
  Ok result.

Definition concat_bytes (parts : list string) : string := foldr String.append "" parts.

(** [sig.subarray(j * 32, (j + 1) * 32)] for every chain. *)
Fixpoint sig_parts (n : nat) (sig : string) : list string :=
  match n with O => [] | S n => take_str 32 sig :: sig_parts n (drop_str 32 sig) end.

Section Hash.
Context (sha3_256 : string → string).

(** ** Key expansion *)

Definition nextSeed (state : string) : Res (string * string) :=
  _ ← assert32 state "state";
  let rand := sha3_256 state in
  Ok (rand, addOne (addByteArrays state rand 0) 1).

Fixpoint next_seeds (n : nat) (state : string) : Res (list string) :=
  match n with
  | O => Ok []
  | S n => r ← nextSeed state; let '(pk, state) := r : string * string in l ← next_seeds n state; Ok (pk :: l)
  end.
Definition expandPrivateKey (seed : string) : Res (list string) :=
  _ ← assert32 seed "seed"; next_seeds paramL seed.

(** [hashAllObjects(MiniNumber(index), MiniData(seed))] *)
Definition deriveChainSeedJava (privateSeed : string) (index : Z) : Res string :=
  i ← serializeMiniNumber (of_Z index); Ok (sha3_256 (i +:+ writeMiniData privateSeed)).
Definition deriveIndexedSeed (seed : string) (keyIndex : Z) : Res string :=
  _ ← assert32 seed "seed"; deriveChainSeedJava seed keyIndex.

(** ** Chains *)

Fixpoint hash_times (n : nat) (x : string) : string :=
  match n with O => x | S n => hash_times n (sha3_256 x) end.
Definition hashChain (x : string) (rounds : Z) : string :=
  if rounds <? 1 then x else hash_times (Z.to_nat rounds) x.

Definition private_keys (seed : string) (i : Z) : Res (list string) :=
  _ ← assert32 seed "seed"; indexedSeed ← deriveIndexedSeed seed i; expandPrivateKey indexedSeed.

Definition deriveFullPublicKey (seed : string) (i : Z) : Res string :=
  privateKeys ← private_keys seed i; Ok (concat_bytes (map (λ x, hashChain x maxDigit) privateKeys)).
Definition derivePKdigest (seed : string) (i : Z) : Res string :=
  privateKeys ← private_keys seed i; Ok (sha3_256 (concat_bytes (map (λ x, hashChain x maxDigit) privateKeys))).

(** ** Signing and verifying *)

Definition wotsSign (seed : string) (i : Z) (message : string) : Res string :=
  _ ← assert32 seed "seed"; _ ← assert32 message "message";
  indexedSeed ← deriveIndexedSeed seed i;
  privateKeys ← expandPrivateKey indexedSeed;
  d ← toWinternitzDigits (sha3_256 message);
  let allDigits := d.1 ++ d.2 in
  _ ← throw_if (negb (Nat.eqb (length allDigits) paramL))
        ("Digit length mismatch: got " +:+ dec (Z.of_nat (length allDigits)) +:+ ", want 34");
  Ok (concat_bytes (zip_with hashChain privateKeys allDigits)).

(** The tops of the chains of a signature, 34 parts of 32 bytes. *)
Definition chain_tops (sig message : string) : Res string :=
  allDigits ← baseWWithChecksum (sha3_256 message);
  Ok (concat_bytes (zip_with (λ part d, hashChain part (maxDigit - d)) (sig_parts paramL sig) allDigits)).

Definition wotsVerify (sig message pkFull : string) : Res bool :=
  _ ← throw_if (negb (Nat.eqb (String.length pkFull) (paramL * 32)))
        ("pkFull must be exactly 1088 bytes (L=34 " +:+ String (byte 215) " 32); got " +:+ dec (Z.of_nat (String.length pkFull)));
  if negb (Nat.eqb (String.length sig) (paramL * 32)) then Ok false else
  buf ← chain_tops sig message;
  Ok (String.eqb buf pkFull).

Definition wotsVerifyDigest (sig message pkDigest : string) : Res bool :=
  _ ← assert32 pkDigest "pkDigest";
  if negb (Nat.eqb (String.length sig) (paramL * 32)) then Ok false else
  buf ← chain_tops sig message;
  Ok (String.eqb (sha3_256 buf) pkDigest).

Definition wotsPublicKeyFromSeed (seed : string) (index : Z) : Res string := derivePKdigest seed index.

End Hash.
End Wo.
