(* ===== verification/TreeKey.v ===== *)
(** * Wallet key trees (packages/core/src treekey.ts, verify.ts, Streamable.ts, javaStreamables.ts)

    A node is a Merkle tree over the digests of its one-time keys; a key tree of
    several levels signs with the leaf its use counter names, each level signing the
    root of the next.  The cache of child nodes, which only saves computing a node
    again, the factories with progress reports and the debug logging are left out;
    the cache of parent signatures, which the caller can replace, is kept.  Use
    counters are integers; a negative one, which [setUses] does not refuse, keeps the
    conversion to a path from ending: [Endless]. *)

From Stdlib Require Import ZArith Lia QArith Ascii String.
From stdpp Require Import base list strings.
From S2P Require Import Prelude JsBase Mmr Wots.

Module Tk.
Import Js Mm Wo.

Definition DEFAULT_KEYS_PER_LEVEL : Z := 64.
Definition DEFAULT_LEVELS : nat := 3.

Record SignatureProof := mkSigProof { leafPubkey : string; signature : string; mmrProof : MMRProof }.
Notation TreeSignature := (list SignatureProof).

(** ** Signatures as bytes *)

Definition writeSignatureProof (p : SignatureProof) : Res string :=
  proofBytes ← serializeMMRProof (mmrProof p) 0;
  Ok (writeMiniData (leafPubkey p) +:+ writeMiniData (signature p) +:+ proofBytes).
Definition serializeTreeSignature (sig : TreeSignature) : Res string :=
  lengthBytes ← writeMiniNumber (Z.of_nat (length sig));
  parts ← result_mapM writeSignatureProof sig;
  Ok (lengthBytes +:+ concat_bytes parts).

(** [(n << 8) | byte] on 32-bit integers; a missing byte counts as zero. *)
Definition to_int32 (n : Z) : Z := let u := n mod 2 ^ 32 in if u <? 2 ^ 31 then u else u - 2 ^ 32.
Fixpoint read_count (n : nat) (bytes : string) (offset acc : Z) : Z :=
  match n with
  | O => acc
  | S n => read_count n bytes (offset + 1)
             (Z.lor (to_int32 (Z.shiftl acc 8)) (default 0 (byte_at bytes (Some offset))))
  end.

(** Comparisons with an offset that is NaN are false. *)
Definition past_end (offset : option Z) (n : Z) (data : string) : bool :=
  match offset with Some o => o + n >? Z.of_nat (String.length data) | None => false end.

(** A length prefix and as many bytes. *)
Definition read_field (data : string) (offset : option Z) (truncated bounds : string) : Res (string * option Z) :=
  _ ← throw_if (past_end offset 4 data) truncated;
  let len := read_int32 data offset in
  let offset := plus offset 4 in
  _ ← throw_if ((len <? 0) || past_end offset len data) bounds;
  Ok (slice data offset (plus offset len), plus offset len).

Fixpoint read_proofs (n : nat) (data : string) (offset : option Z) : Res TreeSignature :=
  match n with
  | O => Ok []
  | S n =>
      r ← read_field data offset "Malformed signature: truncated leaf pubkey length" "Malformed signature: leaf pubkey out of bounds";
      let '(leafPubkey, offset) := r : string * option Z in
      r ← read_field data offset "Malformed signature: truncated signature length" "Malformed signature: signature out of bounds";
      let '(signature, offset) := r : string * option Z in
      let parsed := parseMMRProofFromHex (slice data offset (Some (Z.of_nat (String.length data)))) in
      let offset := o ← offset; plus (pp_bytesRead parsed) o in
      proofs ← read_proofs n data offset;
      Ok (mkSigProof leafPubkey signature (pp_proof parsed) :: proofs)
  end.

Definition deserializeTreeSignature (data : string) : Res TreeSignature :=
  match byte_at data (Some 1) with
  | None => Err "Malformed signature: invalid proof-count length"
  | Some numBytesLen =>
      _ ← throw_if (numBytesLen >? 4) "Malformed signature: invalid proof-count length";
      let numProofs := read_count (Z.to_nat numBytesLen) data 2 0 in
      _ ← throw_if ((numProofs <? 1) || (numProofs >? 8))
            ("Malformed signature: impossible proof count (" +:+ big_to_string numProofs +:+ ")");
      read_proofs (Z.to_nat numProofs) data (Some (2 + numBytesLen))
  end.

Section Hash.
Context (sha3_256 : string → string).

Definition getRootPublicKey (proof : SignatureProof) : Res string :=
  leafData ← createMMRDataLeafNode sha3_256 (leafPubkey proof) 0;
  calculateProofRoot sha3_256 leafData (mmrProof proof).

(** ** TreeKeyNode *)

Record TreeKeyNode := mkNode {
  seed : string; childSeed : string; keysPerLevel : Z; publicKeyDigests : list string;
  mmrTree : MMRTree; rootPubkey : string }.

Definition hashObject (data : string) : string := sha3_256 (writeMiniData data).

Definition newTreeKeyNode (privateSeed : string) (keysPerLevel : Z) : Res TreeKeyNode :=
  _ ← throw_if (negb (Nat.eqb (String.length privateSeed) 32)) "Private seed must be 32 bytes";
  digests ← result_mapM (derivePKdigest sha3_256 privateSeed) (seqZ 0 keysPerLevel);
  tree ← fromPublicKeys sha3_256 digests;
  match getRoot tree with
  | None => Err "Failed to compute MMR root"
  | Some root => Ok (mkNode privateSeed (hashObject privateSeed) keysPerLevel digests tree (data root))
  end.

Definition out_of_range (what : string) (index : Z) (node : TreeKeyNode) : Res unit :=
  throw_if ((index <? 0) || (index >=? keysPerLevel node))
    (what +:+ " index " +:+ big_to_string index +:+ " out of range [0, " +:+ big_to_string (keysPerLevel node) +:+ ")").

Definition getPublicKey (node : TreeKeyNode) : string := rootPubkey node.
Definition getWOTSPublicKey (node : TreeKeyNode) (index : Z) : Res string :=
  _ ← out_of_range "Key" index node; deriveFullPublicKey sha3_256 (seed node) index.
(** An index in range has a digest. *)
Definition digest_at (node : TreeKeyNode) (index : Z) : string := default ""%string (publicKeyDigests node !! Z.to_nat index).
Definition getWOTSPublicKeyDigest (node : TreeKeyNode) (index : Z) : Res string :=
  _ ← out_of_range "Key" index node; Ok (digest_at node index).
Definition node_getProof (node : TreeKeyNode) (keyIndex : Z) : MMRProof := getProof (mmrTree node) keyIndex.

Definition node_sign (node : TreeKeyNode) (keyIndex : Z) (data : string) : Res SignatureProof :=
  _ ← out_of_range "Key" keyIndex node;
  signature ← wotsSign sha3_256 (seed node) keyIndex data;
  Ok (mkSigProof (digest_at node keyIndex) signature (node_getProof node keyIndex)).

Definition getChild (node : TreeKeyNode) (childIndex : Z) : Res TreeKeyNode :=
  _ ← out_of_range "Child" childIndex node;
  childSeed ← deriveChainSeedJava sha3_256 (childSeed node) childIndex;
  newTreeKeyNode childSeed (keysPerLevel node).

(** ** TreeKey *)

Record TreeKey := mkTreeKey {
  privateSeed : string; levels : nat; kpl : Z; root : TreeKeyNode; publicKey : string;
  uses : Z; parentChildSigCache : list (string * SignatureProof) }.

Definition newTreeKey (privateSeed : string) (keysPerLevel : Z) (levels : nat) : Res TreeKey :=
  _ ← throw_if (negb (Nat.eqb (String.length privateSeed) 32)) "Private seed must be 32 bytes";
  root ← newTreeKeyNode privateSeed keysPerLevel;
  Ok (mkTreeKey privateSeed levels keysPerLevel root (getPublicKey root) 0 []).

Definition getMaxUses (t : TreeKey) : Z := kpl t ^ Z.of_nat (levels t).
Definition set_uses (uses : Z) (t : TreeKey) : TreeKey :=
  mkTreeKey (privateSeed t) (levels t) (kpl t) (root t) (publicKey t) uses (parentChildSigCache t).
Definition set_cache (cache : list (string * SignatureProof)) (t : TreeKey) : TreeKey :=
  mkTreeKey (privateSeed t) (levels t) (kpl t) (root t) (publicKey t) (uses t) cache.

Inductive Stop := Thrown (m : string) | Endless.
Notation T := (M TreeKey Stop).
Definition thrown {A} (r : Res A) : T A := λ t, (match r with Ok a => Ok a | Err m => Err (Thrown m) end, t).

Definition setUses (uses : Z) : T unit := mmodify (set_uses uses).

Definition getCacheKey (path : list Z) : string := String.concat "," (map big_to_string path).
Definition hasParentChildSig (path : list Z) (t : TreeKey) : bool := map_has (getCacheKey path) (parentChildSigCache t).
Definition getParentChildSig (path : list Z) (t : TreeKey) : option SignatureProof :=
  map_get (getCacheKey path) (parentChildSigCache t).
Definition setParentChildSig (path : list Z) (sig : SignatureProof) : T unit :=
  mmodify (λ t, set_cache (map_set (getCacheKey path) sig (parentChildSigCache t)) t).
Definition getCachedSignatures (t : TreeKey) : list (string * SignatureProof) := parentChildSigCache t.
Definition restoreCachedSignatures (cache : list (string * SignatureProof)) : T unit := mmodify (set_cache cache).

(** The remainders by [k], the least significant first; none when [num] is negative. *)
Fixpoint base_digits (fuel : nat) (k num : Z) : option (list Z) :=
  if num =? 0 then Some [] else
  match fuel with
  | O => None
  | S fuel => let div := num / k in l ← base_digits fuel k div; Some (num - div * k :: l)
  end.
Definition baseConversion (t : TreeKey) (num : Z) : option (list Z) :=
  result ← base_digits (S (Z.to_nat (Z.log2 num))) (kpl t) num;
  Some (reverse (result ++ replicate (levels t - length result) 0)).

(** [getChild] along the path, from [node] on. *)
Fixpoint descend (node : TreeKeyNode) (path : list Z) : Res (list TreeKeyNode) :=
  match path with
  | [] => Ok [node]
  | i :: path => child ← getChild node i; nodes ← descend child path; Ok (node :: nodes)
  end.

(** The proofs above [proofs], whose first is at depth [depth]. *)
Fixpoint sign_parents (depth : nat) (nodes : list TreeKeyNode) (path : list Z) (child : SignatureProof)
    (proofs : TreeSignature) : T TreeSignature :=
  match depth with
  | O => mret (child :: proofs)
  | S depth =>
      childRoot ← thrown (getRootPublicKey child);
      let cachePath := take (depth + 2) path in
      t ← mget;
      sigProof ←
        match getParentChildSig cachePath t with
        | Some sig => mret sig
        | None =>
            parentNode ← thrown (of_option "TypeError" (nodes !! depth));
            keyIndex ← thrown (of_option "TypeError" (path !! depth));
            sig ← thrown (node_sign parentNode keyIndex childRoot);
            _ ← setParentChildSig cachePath sig; mret sig
        end;
      sign_parents depth nodes path sigProof (child :: proofs)
  end.

Definition sign (data : string) : T TreeSignature :=
  t ← mget;
  _ ← mthrow_if (uses t >=? getMaxUses t) (Thrown "No more keys available (tree exhausted)");
  match baseConversion t (uses t) with
  | None => mthrow Endless
  | Some path =>
      let leafDepth := (levels t - 1)%nat in
      nodes ← thrown (descend (root t) (take leafDepth path));
      leafNode ← thrown (of_option "TypeError" (nodes !! leafDepth));
      leafKeyIndex ← thrown (of_option "TypeError" (path !! leafDepth));
      leafProof ← thrown (node_sign leafNode leafKeyIndex data);
      proofs ← sign_parents leafDepth nodes path leafProof [];
      _ ← mmodify (λ t, set_uses (uses t + 1) t);
      mret proofs
  end.

Definition getAddressPublicKey (l1 : Z) (t : TreeKey) : Res string :=
  getPublicKey <$> getChild (root t) l1.
Definition getSigningNodePublicKey (l1 l2 : Z) (t : TreeKey) : Res string :=
  level1Node ← getChild (root t) l1; getPublicKey <$> getChild level1Node l2.

(** ** Verification *)

(** What a proof signs: the data on the last level, the root of the next above it. *)
Definition signed_data (data : string) (rest : TreeSignature) : Res string :=
  match rest with [] => Ok data | next :: _ => getRootPublicKey next end.

Fixpoint verify_levels (first : bool) (expectedPubkey data : string) (proofs : TreeSignature) : Res bool :=
  match proofs with
  | [] => Ok true
  | proof :: rest =>
      rootPubkey ← getRootPublicKey proof;
      if first && negb (starts_with expectedPubkey rootPubkey) then Ok false else
      signedData ← signed_data data rest;
      ok ← wotsVerifyDigest sha3_256 (signature proof) signedData (leafPubkey proof);
      if ok : bool then verify_levels false expectedPubkey data rest else Ok false
  end.
(** The loop over [expectedPubkey] compares no more bytes than it has. *)
Definition verifyTreeSignature (expectedPubkey data : string) (proofs : TreeSignature) : Res bool :=
  match proofs with [] => Ok false | _ => verify_levels true expectedPubkey data proofs end.

(** *** verify.ts *)

Record VerificationResult := mkVerification { valid : bool; error : option string }.
Definition invalid (m : string) : VerificationResult := mkVerification false (Some m).

Fixpoint verify_detailed (depth : nat) (expectedPubkey data : string) (proofs : TreeSignature) : Res VerificationResult :=
  match proofs with
  | [] => Ok (mkVerification true None)
  | proof :: rest =>
      rootPubkey ← getRootPublicKey proof;
      if Nat.eqb depth 0 && negb (String.eqb expectedPubkey rootPubkey)
      then Ok (invalid "Root public key does not match expected public key (wrong key or address)") else
      signedData ← signed_data data rest;
      ok ← wotsVerifyDigest sha3_256 (signature proof) signedData (leafPubkey proof);
      if ok : bool then verify_detailed (S depth) expectedPubkey data rest
      else Ok (invalid ("WOTS signature verification failed at depth " +:+ dec (Z.of_nat depth)
                        +:+ " (digest mismatch or corrupted signature)"))
  end.
Definition verifyTreeSignatureDetailed (expectedPubkey data : string) (proofs : TreeSignature) : Res VerificationResult :=
  match proofs with
  | [] => Ok (invalid "Signature contains no proofs")
  | _ => verify_detailed 0 expectedPubkey data proofs
  end.

(** ** Derivation of wallet seeds *)

(** For indices below 2^31. *)
Fixpoint index_bytes (fuel : nat) (n : Z) (bytes : string) : string :=
  match fuel with
  | O => bytes
  | S fuel => if n >? 0 then index_bytes fuel (Z.shiftr n 8) (String (byte (Z.land n 255)) bytes) else bytes
  end.
Definition indexToMiniDataBytes (index : Z) : string :=
  if index =? 0 then String (byte 0) "" else index_bytes 4 index "".

Definition derivePerAddressSeed (baseSeed : string) (addressIndex : Z) : string :=
  sha3_256 (writeMiniData baseSeed +:+ writeMiniData (indexToMiniDataBytes addressIndex)).
Definition deriveRootPrivSeed (baseSeed : string) : string :=
  sha3_256 (writeMiniData baseSeed +:+ writeMiniData "ROOT_IDENTITY").
Definition deriveUnifiedChildSeed (baseSeed : string) (index : Z) : string :=
  sha3_256 (writeMiniData (deriveRootPrivSeed baseSeed) +:+ writeMiniData (indexToMiniDataBytes index)).

Definition createUnifiedChildTreeKey (baseSeed : string) (index : Z) : Res TreeKey :=
  newTreeKey (deriveUnifiedChildSeed baseSeed index) 64 3.
Definition createUnifiedRootTreeKey (baseSeed : string) : Res TreeKey :=
  newTreeKey (deriveRootPrivSeed baseSeed) 64 3.
Definition deriveUnifiedAddressPublicKey (baseSeed : string) (index : Z) : Res string :=
  publicKey <$> createUnifiedChildTreeKey baseSeed index.
Definition createPerAddressTreeKey (baseSeed : string) (addressIndex : Z) : Res TreeKey :=
  newTreeKey (derivePerAddressSeed baseSeed addressIndex) 64 3.

End Hash.
End Tk.
