(* ===== verification/Settlement.v ===== *)
(** * Omnia: closing a channel (packages/omnia/src settlement.ts, witness.ts)

    The cooperative settlement, with the request that the counterparty signs, and the
    unilateral close: broadcast of the latest co-signed update, recording of its coin,
    replacement by a newer state, settlement after the contest.  The chain provider and
    the TxPoW package are parameters; every transaction that is handed to either is
    recorded with its witness. *)

From Stdlib Require Import ZArith Lia QArith Ascii String.
From stdpp Require Import base gmap list strings.
From S2P Require Import Prelude JsBase Watermark Guards Omnia Transactions Programs Sign Channel Draft.
From S2P Require Mmr.

Module Se.
Import Js Gd Om Tx Pg Sg Ch Dr.

(** ** witness.ts *)

(** Both members are optional in the argument of [assertBroadcastProofs]. *)
Record BroadcastProofs := mkProofs { opt_coinProofs : option (list Bytes); opt_scriptProofs : option (list Bytes) }.
Record WitnessProofs := mkWitnessProofs { coinProofs : list Bytes; scriptProofs : list Bytes }.

Definition assertBroadcastProofs (proofs : option BroadcastProofs) : result OmniaError WitnessProofs :=
  match proofs ≫= opt_coinProofs with
  | None | Some [] => Err (Plain "Missing serialized Minima coin proofs for Omnia broadcast")
  | Some coins =>
      scripts ← of_option (Plain "Missing serialized Minima script proofs for Omnia broadcast") (proofs ≫= opt_scriptProofs);
      Ok (mkWitnessProofs coins scripts)
  end.

Definition serializeProofList (items : list Bytes) : result OmniaError Bytes :=
  match Mmr.Mm.writeMiniNumber (Z.of_nat (length items)) with
  | Ok n => Ok (n +:+ foldr String.append "" items)
  | Err e => Err (Plain e)
  end.
Definition serializeOmniaWitness (signatures : list Bytes) (proofs : WitnessProofs) : result OmniaError Bytes :=
  a ← serializeProofList signatures; b ← serializeProofList (coinProofs proofs); c ← serializeProofList (scriptProofs proofs);
  Ok (a +:+ b +:+ c).

Inductive CloseTx := close_update | close_settlement.
Definition artifact_of (tx : CloseTx) (p : SignedClosePackage) : ClosePackageArtifact :=
  match tx with close_update => update p | close_settlement => settlement p end.
Definition closePackageSignatureBytes (state : SignedChannelState) (tx : CloseTx) (partyOrder : option (list string))
    : result OmniaError (list Bytes) :=
  p ← of_option (Plain "Missing close package for witness assembly") (closePackage state);
  let signatures := a_signatures (artifact_of tx p) in
  Ok (match partyOrder with
      | None => map snd signatures
      | Some order => omap (λ id, map_get id signatures) order
      end).

(** ** What closing is built on *)

(** The outcome of a broadcast; [success] may be absent. *)
Record BroadcastResult := mkBroadcast { success : option bool; txpowid : option string; message : option string }.

(** [getToken] gives the script of a token. *)
Class ChainStateProvider (C : Type) := {
  getTip : C → result OmniaError Z * C;
  getCoin : string → C → result OmniaError (option Coin) * C;
  getToken : string → C → result OmniaError (option string) * C;
  broadcastTxPoW : string → C → result OmniaError BroadcastResult * C;
  submitTransaction : option (Bytes → Bytes → C → result OmniaError BroadcastResult * C);
  resolveTxPowTarget : C → result OmniaError Bytes * C }.
(** The TxPoW package: the body of a transaction, and mining, which gives the header
    bytes and the id. *)
Class TxPow := {
  serializeTxBody : Bytes → Bytes → Bytes → Bytes;
  mineTxPoW : Bytes → Bytes → result OmniaError (Bytes * Bytes) }.

(** The process and the chain, and the transactions handed over so far with their
    witnesses. *)
Record Net (P C : Type) := mkNet { n_world : World P; n_chain : C; n_sent : list (Bytes * Bytes) }.
Arguments mkNet {P C}. Arguments n_world {P C}. Arguments n_chain {P C}. Arguments n_sent {P C}.

Section settlement.
Context `{Crypto} {P : Type} `{WotsLeaseProvider P} {C : Type} `{ChainStateProvider C} `{TxPow}
  (registry : list (string * ChannelProgram)).

Notation Settling := (M (Net P C) OmniaError).
Definition on_world {A} (m : M (World P) OmniaError A) : Settling A :=
  zoom n_world (λ w n, mkNet w (n_chain n) (n_sent n)) (λ e, e) m.
Definition on_chain {A} (m : M C OmniaError A) : Settling A :=
  zoom n_chain (λ c n, mkNet (n_world n) c (n_sent n)) (λ e, e) m.
Definition hand_over (draftBytes witness : Bytes) : Settling unit :=
  mmodify (λ n, mkNet (n_world n) (n_chain n) (n_sent n ++ [(draftBytes, witness)])).

(** ** The settlement draft *)

Definition default_state (c : OmniaChannel) : SignedChannelState :=
  mkState (currentSequence c) (c_balances c) (c_pendingHTLCs c)
    [mkSV 100 (SBool false) TBool; mkSV 101 (SBig (currentSequence c)) TNumber] "" [] [] None None.
Definition resolveSettlementState (c : OmniaChannel) : SignedChannelState :=
  let current := default (default_state c) (latestState c) in
  mkState (default 0 (onChainSequence c)) (balances current) (pendingHTLCs current) (stateVariables current)
    (transactionHex current) (signatures current) (signingIndices current) (closePackage current)
    (Om.programTransition current).

Record Claimed := mkClaimed {
  cl_sequence : option Z; cl_settlementTxHex : option string; cl_digestHex : option string;
  cl_partyAddresses : list (string * string) }.
Record VerifiedSettlementDraft := mkVerified {
  vs_state : SignedChannelState; vs_draft : OmniaTxDraft; vs_digest : Bytes; vs_digestHex : string;
  vs_txHex : string; vs_partyAddresses : list (string * string) }.

(** [claim !== undefined && claim !== value] *)
Definition differs (claim : option string) (value : string) : bool :=
  match claim with Some c => negb (String.eqb c value) | None => false end.

Definition buildVerifiedSettlementDraft (c : OmniaChannel) (claimed : Claimed) : result OmniaError VerifiedSettlementDraft :=
  let state := resolveSettlementState c in
  _ ← throw_if (match cl_sequence claimed with Some n => negb (n =? sequence state) | None => false end)
        (Plain ("Settlement sequence " +:+ seq_text (default 0 (cl_sequence claimed))
                +:+ " does not match the channel sequence " +:+ seq_text (sequence state)));
  partyAddresses ← resolveSettlementAddresses (parties c) (cl_partyAddresses claimed);
  draft ← buildSettlementTx sha3_256 c state partyAddresses (mkSettlementOpts false []);
  let txHex := serializeTxDraft draft in
  digest ← computeOmniaTxDigest sha3_256 draft;
  let digestHex := hex_of_bytes digest in
  _ ← throw_if (differs (cl_settlementTxHex claimed) txHex) (Plain "Settlement transaction does not match the channel state");
  _ ← throw_if (differs ((λ d, toLowerCase (strip_0x d)) <$> cl_digestHex claimed) digestHex)
        (Plain "Settlement digest does not match the channel state");
  Ok (mkVerified state draft digest digestHex txHex partyAddresses).

Record SettlementSigningRequest := mkSettlementRequest {
  rq_channelId : string; rq_sequence : Z; rq_settlementTxHex : string; rq_digestHex : string;
  rq_partyAddresses : list (string * string) }.

Definition buildSettlementSigningRequest (c : OmniaChannel) (partyAddresses : list (string * string))
    : result OmniaError SettlementSigningRequest :=
  v ← buildVerifiedSettlementDraft c (mkClaimed None None None partyAddresses);
  Ok (mkSettlementRequest (channelId c) (sequence (vs_state v)) (vs_txHex v) ("0x" +:+ vs_digestHex v) (vs_partyAddresses v)).

Definition settlement_sign_purpose (n : Z) : string := "settlement-sign-seq-" +:+ seq_text n.

Definition signSettlementRequest (c : OmniaChannel) (request : SettlementSigningRequest) (signer : option ChannelSigner)
    : Settling (string * ChannelSignature * Wm.SigningIndices) :=
  effectiveSigner ← mlift (resolveSignerOrThrow c signer);
  signerParty ← mlift (find_party c (s_publicKeyDigest effectiveSigner) not_participant);
  _ ← mthrow_if (negb (String.eqb (rq_channelId request) (channelId c)))
        (Plain "Settlement request channelId does not match the channel");
  v ← mlift (buildVerifiedSettlementDraft c
        (mkClaimed (Some (rq_sequence request)) (Some (rq_settlementTxHex request)) (Some (rq_digestHex request))
           (rq_partyAddresses request)));
  r ← on_world (signTxDraft c (vs_draft v) (settlement_sign_purpose (sequence (vs_state v))) (Some effectiveSigner));
  let '(signature, indices, _) := r : ChannelSignature * Wm.SigningIndices * string in
  mret (partyId signerParty, signature, indices).

(** ** Broadcast *)

Definition full_txpow (header body : Bytes) : string := hex_of_bytes ((header +:+ String (byte 1) "") +:+ body).
(** The mined transaction's id and the answer to its broadcast. *)
Definition mine_and_broadcast (draftBytes witness : Bytes) (failed : string) : Settling (string * BroadcastResult) :=
  target ← on_chain resolveTxPowTarget;
  let txBody := serializeTxBody draftBytes witness target in
  mined ← mlift (mineTxPoW txBody target);
  _ ← hand_over draftBytes witness;
  broadcast ← on_chain (broadcastTxPoW (full_txpow (mined : Bytes * Bytes).1 txBody));
  _ ← mthrow_if (bool_decide (success broadcast = Some false))
        (Plain (failed +:+ ": " +:+ default "unknown error" (message broadcast)));
  mret (hex_of_bytes mined.2, broadcast).

Definition mineAndBroadcastDraft (txHex : string) (witnessBytes : Bytes) : Settling string :=
  draft ← mlift (deserializeTxDraft txHex);
  draftBytes ← mlift (omniaDraftToCanonicalMinimaBytes sha3_256 draft);
  r ← mine_and_broadcast draftBytes witnessBytes "Settlement broadcast failed";
  mret (default (r : string * BroadcastResult).1 (txpowid r.2)).

(** ** The cooperative settlement *)

Record HTLCOutputRecord := mkHTLCOutput { ho_htlcId : string; ho_amount : Z; htlcTxHex : string }.
Record SettlementPayload := mkPayload {
  sp_channelId : string; sp_sequence : Z; sp_settlementTxHex : string; sp_balances : Balances;
  htlcOutputs : list HTLCOutputRecord; sp_txpowId : option string }.
Definition htlc_outputs (hs : list HTLCRecord) : list HTLCOutputRecord :=
  map (λ h, mkHTLCOutput (htlcId h) (amount h) "") (List.filter is_pending hs).

(** [onChain]: a chain provider was given. *)
Record ProposeSettlementOptions := mkOptions {
  op_signer : option ChannelSigner; op_partyAddresses : list (string * string); onChain : bool;
  op_broadcastProofs : option BroadcastProofs; op_settlementTxHex : option string;
  counterpartySignatures : list (string * ChannelSignature); localSignature : option ChannelSignature;
  localIndices : option Wm.SigningIndices; localPartyId : option string; leaseGiven : bool }.

Definition find_id (c : OmniaChannel) (id : string) : option ChannelParticipant :=
  List.find (λ p, String.eqb (partyId p) id) (parties c).
Definition settlement_signer (c : OmniaChannel) (o : ProposeSettlementOptions) : option ChannelSigner :=
  match op_signer o with Some s => Some s | None => localSigner c end.
Definition signer_party (c : OmniaChannel) (o : ProposeSettlementOptions) : option ChannelParticipant :=
  match localPartyId o with
  | Some (String _ _ as id) => find_id c id
  | _ => s ← settlement_signer c o; find_digest c (s_publicKeyDigest s)
  end.

(** The check of each signature that came from outside. *)
Fixpoint check_counterparties (c : OmniaChannel) (digest : Bytes) (l : list (string * ChannelSignature)) : result OmniaError unit :=
  match l with
  | [] => Ok tt
  | (id, sig) :: l =>
      party ← of_option (Plain ("Counterparty settlement signature party '" +:+ id +:+ "' is not a channel participant")) (find_id c id);
      _ ← throw_if (negb (verifyChannelSignature sig digest (publicKeyDigest party)))
            (Plain ("Invalid counterparty settlement signature for party " +:+ id));
      check_counterparties c digest l
  end.

(** The signature of this side: the one supplied, or a new one over a lease. *)
Definition local_signature (c : OmniaChannel) (o : ProposeSettlementOptions) (v : VerifiedSettlementDraft)
    (party : ChannelParticipant) : Settling (ChannelSignature * option Wm.SigningIndices) :=
  match localSignature o with
  | Some sig =>
      _ ← mthrow_if (negb (verifyChannelSignature sig (vs_digest v) (publicKeyDigest party)))
            (Plain ("Provided settlement signature is not valid for party " +:+ partyId party));
      mret (sig, localIndices o)
  | None =>
      s ← mlift (of_option no_signer (settlement_signer c o));
      _ ← mthrow_if (negb (leaseGiven o)) (Plain "No lease provider provided for settlement signing");
      r ← on_world (signTxDraft c (vs_draft v) ("settlement-seq-" +:+ seq_text (sequence (vs_state v))) (Some s));
      let '(signature, indices, _) := r : ChannelSignature * Wm.SigningIndices * string in
      mret (signature, Some indices)
  end.

(** Mining and broadcast, or submission through the node; the id of the transaction. *)
Definition broadcast_settlement (c : OmniaChannel) (o : ProposeSettlementOptions) (v : VerifiedSettlementDraft)
    (signatureByParty : list (string * ChannelSignature)) : Settling string :=
  proofs ← mlift (assertBroadcastProofs (op_broadcastProofs o));
  draftBytes ← mlift (omniaDraftToCanonicalMinimaBytes sha3_256 (vs_draft v));
  let signatures := omap (λ p, map_get (partyId p) signatureByParty) (parties c) in
  witnessBytes ← mlift (serializeOmniaWitness signatures proofs);
  match submitTransaction with
  | Some submit =>
      _ ← hand_over draftBytes witnessBytes;
      submitted ← on_chain (submit draftBytes witnessBytes);
      let failed := Plain ("Settlement submission failed: " +:+ default "no txpowid" (message submitted)) in
      _ ← mthrow_if (bool_decide (success submitted = Some false)) failed;
      match txpowid submitted with
      | Some (String _ _ as id) => mret id
      | _ => mthrow failed
      end
  | None =>
      r ← mine_and_broadcast draftBytes witnessBytes "Settlement broadcast failed";
      mret (r : string * BroadcastResult).1
  end.

Definition proposeSettlement (c : OmniaChannel) (o : ProposeSettlementOptions) : Settling (SettlementPayload * PartialState) :=
  _ ← mthrow_if (negb (bool_decide (c_status c = active)) && negb (bool_decide (c_status c = closing_mutual)))
        (ChannelStatusError "active|closing_mutual" (status_name (c_status c)));
  signerParty ← mlift (of_option not_participant (signer_party c o));
  _ ← mthrow_if (match localSignature o, settlement_signer c o with None, None => true | _, _ => false end) no_signer;
  v ← mlift (buildVerifiedSettlementDraft c (mkClaimed None (op_settlementTxHex o) None (op_partyAddresses o)));
  _ ← mlift (check_counterparties c (vs_digest v) (counterpartySignatures o));
  r ← local_signature c o v signerParty;
  let '(signature, indices) := r : ChannelSignature * option Wm.SigningIndices in
  let signatureByParty := spread [(partyId signerParty, signature)] (counterpartySignatures o) in
  txpowId ← if onChain o then Some <$> broadcast_settlement c o v signatureByParty else mret None;
  let state := vs_state v in
  mret (mkPayload (channelId c) (sequence state) (vs_txHex v) (balances state) (htlc_outputs (pendingHTLCs state)) txpowId,
        mkPartial (sequence state) (balances state) (pendingHTLCs state) (d_stateVariables (vs_draft v)) (vs_txHex v)
          signatureByParty (match indices with Some i => [(partyId signerParty, i)] | None => [] end) None None).

(** ** The unilateral close *)

(** [{ ...channel, status, unilateralClose, updatedAt }] *)
Definition with_close (c : OmniaChannel) (st : ChannelStatus) (u : option UnilateralCloseState) (updated : jsnum) : OmniaChannel :=
  mkChannel (channelId c) (fundingTxId c) (fundingCoinId c) (fundingScript c) (programId c) (programVersion c)
    (fundingAddress c) (tokenId c) (tokenScale c) (totalValue c) (parties c) (c_balances c) (c_pendingHTLCs c)
    (currentSequence c) (onChainSequence c) (latestState c) (stateLog c) st (virtual c) (contestDelayBlocks c)
    (factoryRef c) (localSigner c) (pendingProposal c) (latestCoinId c) u (createdAt c) updated.
(** [{ ...channel, latestState, currentSequence, balances }] *)
Definition with_newer (c : OmniaChannel) (st : SignedChannelState) : OmniaChannel :=
  with_state c (balances st) (c_pendingHTLCs c) (sequence st) (Some st) (stateLog c) (pendingProposal c) (updatedAt c).

Definition markChannelClosing (now : Z) (c : OmniaChannel) (mutual : bool) : OmniaChannel :=
  with_chain c (if mutual then closing_mutual else closing_unilateral) (onChainSequence c) (latestCoinId c) (of_Z now).
Definition markChannelClosed (now : Z) (c : OmniaChannel) : OmniaChannel :=
  with_chain
    (with_state c (c_balances c) (c_pendingHTLCs c) (currentSequence c) (latestState c)
       (stateLog c ++ [mkLog (currentSequence c) (of_Z now) (c_balances c) 0 settle_event]) (pendingProposal c) (updatedAt c))
    closed (onChainSequence c) (latestCoinId c) (of_Z now).

Record DisputePayload := mkDispute {
  dp_channelId : string; latestSequence : Z; dp_updateTxHex : string; dp_stateLog : list ChannelLogEntry; evidence : string }.

(** [JSON.stringify(stateVariables)], which throws on a bigint. *)
Definition stringify_state_values (l : list StateValue) : result OmniaError string :=
  _ ← throw_if (existsb (λ sv, match value sv with SBig _ => true | _ => false end) l) (External "TypeError");
  Ok (state_values_text l).
Definition buildDisputePayload (c : OmniaChannel) (given : option string) : result OmniaError DisputePayload :=
  latest ← of_option (Plain "Cannot build dispute payload: no signed state available") (latestState c);
  ev ← match given with Some e => Ok e | None => stringify_state_values (stateVariables latest) end;
  Ok (mkDispute (channelId c) (sequence latest) (transactionHex latest) (stateLog c) ev).

(** A state whose close package is complete, and the package. *)
Definition complete_package (c : OmniaChannel) (st : SignedChannelState) (what : string) : result OmniaError SignedClosePackage :=
  errors ← verifyClosePackage registry c st;
  _ ← throw_if (negb (length errors =? 0)%nat) (Plain (what +:+ ": " +:+ join_with "; " errors));
  of_option (External "TypeError") (closePackage st).

(** The broadcast of one of the two transactions, with the signatures of all parties. *)
Definition broadcast_artifact (c : OmniaChannel) (st : SignedChannelState) (tx : CloseTx) (p : SignedClosePackage)
    (proofs : WitnessProofs) : Settling string :=
  signatures ← mlift (closePackageSignatureBytes st tx (Some (map partyId (parties c))));
  witness ← mlift (serializeOmniaWitness signatures proofs);
  mineAndBroadcastDraft (txHex (artifact_of tx p)) witness.

Record UnilateralCloseStartResult := mkStart {
  st_channel : OmniaChannel; disputePayload : DisputePayload; st_contestStartBlock : Z; st_contestDeadlineBlock : Z;
  st_updateTxpowId : string }.

Definition evidence_text (p : SignedClosePackage) : string :=
  json_object [("stateCommitmentV2", Some (json_string (stateCommitmentV2 p)));
               ("updateTxDigest", Some (json_string (txDigest (update p))));
               ("settlementTxDigest", Some (json_string (txDigest (settlement p))))]%string.
Definition close_record (c : OmniaChannel) (id : string) (st : SignedChannelState) (p : SignedClosePackage) (tip : Z)
    (txpow : string) : UnilateralCloseState :=
  mkUnilateral id (sequence st) (txHex (update p)) (txHex (settlement p)) tip
    (tip + channelContestDelay (contestDelayBlocks c)) false (Some txpow) None None.

Definition startUnilateralClose (now : Z) (c : OmniaChannel) (broadcastProofs : option BroadcastProofs)
    : Settling UnilateralCloseStartResult :=
  _ ← mthrow_if (negb (bool_decide (c_status c = active)) && negb (bool_decide (c_status c = closing_unilateral))
                 && negb (bool_decide (c_status c = disputing)))
        (ChannelStatusError "active|closing_unilateral|disputing" (status_name (c_status c)));
  latest ← mlift (of_option (Plain "Cannot start unilateral close: no signed state available") (latestState c));
  p ← mlift (complete_package c latest "Cannot start unilateral close");
  proofs ← mlift (assertBroadcastProofs broadcastProofs);
  tip ← on_chain getTip;
  updateTxpowId ← broadcast_artifact c latest close_update p proofs;
  dispute ← mlift (buildDisputePayload c (Some (evidence_text p)));
  let u := close_record c (channelId c) latest p tip updateTxpowId in
  mret (mkStart (with_close c closing_unilateral (Some u) (of_Z now)) dispute tip (contestDeadlineBlock u) updateTxpowId).

(** [chainGiven]: a chain provider was given. *)
Definition recordUnilateralUpdateCoin (now : Z) (c : OmniaChannel) (coinId : string) (chainGiven : bool) (minConfirmations : Z)
    : Settling OmniaChannel :=
  u ← mlift (of_option (Plain "Cannot record the update coin: no unilateral close in progress") (unilateralClose c));
  _ ← mthrow_if (String.eqb (fundingAddress c) "") (Plain "Channel fundingAddress is required to record the update coin");
  _ ← mthrow_if (negb chainGiven) (Plain "A chain provider is required to record the update coin");
  found ← on_chain (getCoin coinId);
  coin ← mlift (of_option (Plain ("Update output coin " +:+ coinId +:+ " not found on chain")) found);
  _ ← mthrow_if (co_spent coin) (Plain ("Update output coin " +:+ coinId +:+ " is already spent"));
  _ ← mthrow_if (negb (String.eqb (co_address coin) (fundingAddress c)))
        (Plain ("Update output address " +:+ co_address coin +:+ " is not the channel script address " +:+ fundingAddress c));
  _ ← (if minConfirmations >? 0 then
         tip ← on_chain getTip;
         let confirmations := confirmationsAt (co_created coin) tip in
         mthrow_if (match confirmations with Some n => n <? minConfirmations | None => true end)
           (Plain ("Update output coin " +:+ coinId +:+ " has "
                   +:+ match confirmations with Some n => seq_text n | None => "unknown" end
                   +:+ " confirmations; " +:+ seq_text minConfirmations +:+ " required"))
       else mret tt);
  includedAt ← mlift (of_option (Plain ("Cannot determine the inclusion height of update output coin " +:+ coinId))
                        (coinCreatedBlock (co_created coin)));
  mret (with_close c (c_status c)
          (Some (mkUnilateral (u_channelId u) (u_sequence u) (updateTxHex u) (settlementTxHex u) includedAt
                   (includedAt + channelContestDelay (contestDelayBlocks c)) (settlement_broadcast u) (updateTxpowId u)
                   (Some coinId) (settlementTxpowId u))) (of_Z now)).

(** The checks of [finalizeUnilateralClose] against the chain. *)
Definition contest_elapsed (c : OmniaChannel) (u : UnilateralCloseState) : Settling unit :=
  let delay := channelContestDelay (contestDelayBlocks c) in
  tip ← on_chain getTip;
  _ ← mthrow_if (tip <? contestDeadlineBlock u)
        (Plain ("Contest delay not elapsed: current block " +:+ seq_text tip +:+ ", deadline " +:+ seq_text (contestDeadlineBlock u)));
  coinId ← mlift (match updateCoinId u with
                  | Some (String _ _ as id) => Ok id
                  | _ => Err (Plain "Contest delay not elapsed: the unilateral update output coin has not been recorded. Call recordUnilateralUpdateCoin() after the update is mined.")
                  end);
  found ← on_chain (getCoin coinId);
  coin ← mlift (of_option (Plain "Contest delay not elapsed: the unilateral update output is not on chain") found);
  includedAt ← mlift (of_option (Plain "Contest delay not elapsed: cannot determine the update inclusion height")
                        (coinCreatedBlock (co_created coin)));
  mthrow_if (tip - includedAt <? delay)
    (Plain ("Contest delay not elapsed: update included at " +:+ seq_text includedAt +:+ ", current block " +:+ seq_text tip
            +:+ ", delay " +:+ seq_text delay)).

Definition finalizeUnilateralClose (now : Z) (c : OmniaChannel) (broadcastProofs : option BroadcastProofs)
    : Settling (OmniaChannel * SettlementPayload) :=
  _ ← mthrow_if (negb (bool_decide (c_status c = closing_unilateral)) && negb (bool_decide (c_status c = disputing)))
        (ChannelStatusError "closing_unilateral|disputing" (status_name (c_status c)));
  u ← mlift (of_option (Plain "Cannot finalize unilateral close: no unilateral close in progress") (unilateralClose c));
  latest ← mlift (of_option (Plain "Cannot finalize unilateral close: no signed state available") (latestState c));
  _ ← mthrow_if (negb (sequence latest =? u_sequence u))
        (Plain ("Unilateral close state is stale: latest signed state is " +:+ seq_text (sequence latest)
                +:+ ", close package is " +:+ seq_text (u_sequence u) +:+ ". Replace it before finalizing."));
  p ← mlift (complete_package c latest "Cannot finalize unilateral close");
  _ ← contest_elapsed c u;
  proofs ← mlift (assertBroadcastProofs broadcastProofs);
  txpow ← broadcast_artifact c latest close_settlement p proofs;
  let u' := mkUnilateral (u_channelId u) (u_sequence u) (updateTxHex u) (settlementTxHex u) (contestStartBlock u)
              (contestDeadlineBlock u) true (updateTxpowId u) (updateCoinId u) (Some txpow) in
  mret (markChannelClosed now (with_close c (c_status c) (Some u') (of_Z now)),
        mkPayload (channelId c) (sequence latest) (txHex (settlement p)) (balances latest) (htlc_outputs (pendingHTLCs latest))
          (Some txpow)).

Definition replaceUnilateralCloseState (now : Z) (c : OmniaChannel) (newerState : SignedChannelState)
    (broadcastProofs : option BroadcastProofs) : Settling OmniaChannel :=
  u ← mlift (of_option (Plain "Cannot replace unilateral close state: no unilateral close in progress") (unilateralClose c));
  _ ← mthrow_if (sequence newerState <=? u_sequence u)
        (Plain ("Replacement state must have newer sequence: " +:+ seq_text (sequence newerState) +:+ " <= " +:+ seq_text (u_sequence u)));
  p ← mlift (complete_package c newerState "Cannot replace unilateral close state");
  proofs ← mlift (assertBroadcastProofs broadcastProofs);
  tip ← on_chain getTip;
  updateTxpowId ← broadcast_artifact c newerState close_update p proofs;
  mret (with_close (with_newer c newerState) disputing (Some (close_record c (u_channelId u) newerState p tip updateTxpowId)) (of_Z now)).

End settlement.
End Se.
