(* ===== verification/Opening.v ===== *)
(** * Omnia: opening a channel (packages/omnia/src channel.ts, transactions.ts, core mmr.ts)

    The plan of an opening with its funding transaction, the broadcast of the plan, and
    the other side's acceptance of the proposal.  The wait for the funding coin is a
    number of further readings of the chain, those that its deadline allows. *)

From Stdlib Require Import ZArith Lia QArith Ascii String.
From stdpp Require Import base gmap list strings.
From S2P Require Import Prelude JsBase Watermark Guards Omnia Transactions Eltoo Programs Sign Channel Settlement.
From S2P Require NodeScript Mmr.

Module Og.
Import Js Gd Om Tx El Pg Sg Ch Se.

Definition TOKENID_MINIMA : string := "0x00".

(** ** The funding draft (transactions.ts) *)

(** Amounts, addresses and states of the inputs are arrays beside the coin ids, and may
    be shorter. *)
Record InputState := mkInputState { is_storeState : option bool; is_stateVariables : option (list StateValue) }.

Definition funding_input (tokenId : string) (tokenScale : Z) (inputAmounts : list Z) (inputAddresses : list string)
    (inputStates : list InputState) (i : nat) (coinId : string) : result OmniaError TxInputDraft :=
  amount ← toRawMinima (default 0 (inputAmounts !! i)) tokenScale;
  Ok (mkInput coinId (default ""%string (inputAddresses !! i)) amount tokenId ""
        (Some (default false (inputStates !! i ≫= is_storeState))) (Some (default [] (inputStates !! i ≫= is_stateVariables))) None).

Definition buildFundingTx (fundingScriptAddress : string) (totalValue : Z) (tokenId : string) (tokenScale : Z)
    (inputCoinIds : list string) (inputAmounts : list Z) (inputAddresses : list string)
    (extraStateVariables : list StateValue) (inputStates : list InputState) : result OmniaError OmniaTxDraft :=
  inputs ← result_mapM (λ ic, funding_input tokenId tokenScale inputAmounts inputAddresses inputStates ic.1 ic.2)
             (zip (seq 0 (length inputCoinIds)) inputCoinIds);
  rawTotal ← toRawMinima totalValue tokenScale;
  let stateVariables := channelStateVars false 0 ++ extraStateVariables in
  Ok (mkDraft funding_tx inputs [mkOutput fundingScriptAddress rawTotal tokenId true stateVariables] true stateVariables).

(** ** Types *)

Record CreateChannelParams := mkCreate {
  cp_localParty : ChannelParticipant; cp_remoteParty : ChannelParticipant; cp_localAmount : Z; cp_remoteAmount : Z;
  cp_tokenId : option string; cp_tokenScale : option Z; cp_fundingCoinId : string;
  fundingWitnessBytes : option Bytes; fundingProofs : option WitnessProofs; cp_fundingScript : option string;
  fundingSigner : option (Bytes → result OmniaError Bytes); cp_virtual : bool; cp_factoryRef : option string;
  cp_program : option ChannelProgram; cp_contestDelayBlocks : option Z }.

Record ChannelProposal := mkChannelProposal {
  pp_channelId : string; localParty : ChannelParticipant; remoteParty : ChannelParticipant;
  localAmount : Z; remoteAmount : Z; pp_tokenId : string; pp_tokenScale : option Z; pp_fundingScript : string;
  pp_programId : option string; pp_programVersion : option Z; pp_fundingAddress : option string;
  pp_fundingTxId : string; pp_fundingCoinId : string; pp_contestDelayBlocks : option Z }.

Record ChannelOpeningPlan := mkPlan {
  pl_channel : OmniaChannel; pl_proposal : ChannelProposal; fundingTxBytes : Bytes; fundingDigest : Bytes;
  inputCoinId : string; outputCoinId : string; pl_fundingScript : string; pl_fundingAddress : string }.

Record FinalizeChannelOpeningOptions := mkFinalize {
  fo_fundingWitnessBytes : option Bytes; fundingSignature : option Bytes; fo_fundingProofs : option WitnessProofs;
  fo_fundingScript : option string }.

Record AcceptChannelOptions := mkAccept { allowShortContestDelay : bool; minContestDelayBlocks : option Z }.

(** The balance object of the two parties. *)
Definition initial_balances (local remote : ChannelParticipant) (a b : Z) : Balances :=
  map_set (partyId remote) b (map_set (partyId local) a []).
(** The channel that both sides make, with its first log entry. *)
Definition new_channel (now : Z) (channelId fundingTxId fundingCoinId script : string) (program : ChannelProgram)
    (address tokenId : string) (tokenScale : Z) (local remote : ChannelParticipant) (a b : Z) (st : ChannelStatus)
    (virt : bool) (delay : option Z) (factory : option string) : OmniaChannel :=
  let bal := initial_balances local remote a b in
  mkChannel channelId fundingTxId fundingCoinId script (id program) (version program) address tokenId tokenScale (a + b)
    [local; remote] bal [] 0 (Some 0) None [mkLog 0 (of_Z now) bal 0 open_event] st virt delay factory None None None None
    (of_Z now) (of_Z now).

(** [buildScriptProof]: the canonical script with the empty proof. *)
Definition buildScriptProof (script : string) : result OmniaError Bytes :=
  match Mmr.Mm.serializeMMRProof [] 0 with
  | Ok proof => Ok (Mmr.Mm.writeMiniString (NodeScript.Ns.toNodeScript script) +:+ proof)
  | Err e => Err (Plain e)
  end.

Section opening.
Context `{Crypto} {P : Type} {C : Type} `{ChainStateProvider C} `{TxPow} (registry : list (string * ChannelProgram)).
Notation Opening := (M (Net P C) OmniaError).

(** A coin that is on the chain and unspent. *)
Definition unspent_funding (coinId : string) : Opening Coin :=
  found ← on_chain (getCoin coinId);
  coin ← mlift (of_option (Plain ("Funding coin " +:+ coinId +:+ " not found on chain")) found);
  _ ← mthrow_if (co_spent coin) (Plain ("Funding coin " +:+ coinId +:+ " is already spent"));
  mret coin.

(** [randomId] is the random channel id. *)
Definition buildChannelOpening (now : Z) (randomId : string) (params : CreateChannelParams) : Opening ChannelOpeningPlan :=
  let program := default (DefaultEltooPaymentProgram) (cp_program params) in
  let local := cp_localParty params in let remote := cp_remoteParty params in
  script ← mlift (buildScript program [local; remote] (cp_contestDelayBlocks params));
  let address := scriptAddress sha3_256 script in
  let tokenId := default TOKENID_MINIMA (cp_tokenId params) in
  let tokenScale := default 0 (cp_tokenScale params) in
  _ ← mthrow_if ((cp_localAmount params <=? 0) || (cp_remoteAmount params <=? 0)) (Plain "Initial channel amounts must be positive");
  let totalValue := cp_localAmount params + cp_remoteAmount params in
  fundingCoin ← unspent_funding (cp_fundingCoinId params);
  amount ← mlift (BigInt (co_amount fundingCoin));
  _ ← mthrow_if (tokenScale <? 0) (External "RangeError");
  fundingDraft ← mlift (buildFundingTx address totalValue tokenId tokenScale [cp_fundingCoinId params] [amount * 10 ^ tokenScale]
                          [co_address fundingCoin] [] [mkInputState (Some (co_storestate fundingCoin)) (Some [])]);
  fundingTx ← mlift (omniaDraftToCanonicalMinimaBytes sha3_256 fundingDraft);
  ids ← mlift (minimaOutputCoinIdsForDraft sha3_256 fundingDraft);
  let outputId := default ""%string (head ids) in
  _ ← (if negb (String.eqb (default ""%string (cp_tokenId params)) "") && negb (String.eqb tokenId TOKENID_MINIMA)
       then _ ← on_chain (getToken tokenId); mret tt else mret tt);
  mret (mkPlan
    (new_channel now randomId "" outputId script program address tokenId tokenScale local remote
       (cp_localAmount params) (cp_remoteAmount params) opening (cp_virtual params) (cp_contestDelayBlocks params) (cp_factoryRef params))
    (mkChannelProposal randomId local remote (cp_localAmount params) (cp_remoteAmount params) tokenId (Some tokenScale) script
       (Some (id program)) (Some (version program)) (Some address) "" outputId (cp_contestDelayBlocks params))
    fundingTx (sha3_256 fundingTx) (cp_fundingCoinId params) outputId script address).

(** The witness: the caller's, or one around the funding signature. *)
Definition funding_witness (opts : FinalizeChannelOpeningOptions) : result OmniaError Bytes :=
  match fo_fundingWitnessBytes opts with
  | Some (String _ _ as w) => Ok w
  | _ =>
      sig ← of_option (Plain "finalizeChannelOpening requires fundingWitnessBytes or fundingSignature") (fundingSignature opts);
      proofs ← of_option (Plain "finalizeChannelOpening requires fundingProofs with fundingSignature") (fo_fundingProofs opts);
      sps ← match fo_fundingScript opts with
            | Some (String _ _ as script) => p ← buildScriptProof script; Ok [p]
            | _ => Ok (scriptProofs proofs)
            end;
      _ ← throw_if (length sps =? 0)%nat (Plain "finalizeChannelOpening requires fundingScript or fundingProofs.scriptProofs");
      serializeOmniaWitness [sig] (mkWitnessProofs (coinProofs proofs) sps)
  end.

(** Readings of the chain until the coin appears; [patience] of them fit before the
    deadline. *)
Fixpoint await_coin (patience : nat) (coinId : string) : Opening (option Coin) :=
  found ← on_chain (getCoin coinId);
  match found : option Coin, patience with
  | None, S patience => await_coin patience coinId
  | _, _ => mret found
  end.

Definition broadcast_funding (draftBytes witness : Bytes) : Opening string :=
  match submitTransaction with
  | Some submit =>
      _ ← hand_over draftBytes witness;
      submitted ← on_chain (submit draftBytes witness);
      let failed := Plain ("Funding transaction submission failed: " +:+ default "no txpowid" (message submitted)) in
      _ ← mthrow_if (bool_decide (success submitted = Some false)) failed;
      match txpowid submitted with
      | Some (String _ _ as id) => mret id
      | _ => mthrow failed
      end
  | None =>
      r ← mine_and_broadcast draftBytes witness "Funding TxPoW broadcast failed";
      mret (default (r : string * BroadcastResult).1 (txpowid r.2))
  end.

(** [{ ...channel, fundingTxId, status, updatedAt }] and [{ ...proposal, fundingTxId }] *)
Definition with_funding (now : Z) (c : OmniaChannel) (fundingTx : string) (st : ChannelStatus) : OmniaChannel :=
  mkChannel (channelId c) fundingTx (fundingCoinId c) (fundingScript c) (programId c) (programVersion c)
    (fundingAddress c) (tokenId c) (tokenScale c) (totalValue c) (parties c) (c_balances c) (c_pendingHTLCs c)
    (currentSequence c) (onChainSequence c) (latestState c) (stateLog c) st (virtual c) (contestDelayBlocks c)
    (factoryRef c) (localSigner c) (pendingProposal c) (latestCoinId c) (unilateralClose c) (createdAt c) (of_Z now).
Definition proposal_with_funding (p : ChannelProposal) (fundingTx : string) : ChannelProposal :=
  mkChannelProposal (pp_channelId p) (localParty p) (remoteParty p) (localAmount p) (remoteAmount p) (pp_tokenId p)
    (pp_tokenScale p) (pp_fundingScript p) (pp_programId p) (pp_programVersion p) (pp_fundingAddress p) fundingTx
    (pp_fundingCoinId p) (pp_contestDelayBlocks p).

Definition finalizeChannelOpening (now : Z) (patience : nat) (plan : ChannelOpeningPlan) (opts : FinalizeChannelOpeningOptions)
    : Opening (OmniaChannel * ChannelProposal * string) :=
  _ ← unspent_funding (inputCoinId plan);
  fundingWitness ← mlift (funding_witness opts);
  fundingTxId ← broadcast_funding (fundingTxBytes plan) fundingWitness;
  fundingOnChain ← await_coin patience (outputCoinId plan);
  let initialStatus := match fundingOnChain : option Coin with
                       | Some coin => if co_spent coin then opening else active
                       | None => opening end in
  mret (with_funding now (pl_channel plan) fundingTxId initialStatus, proposal_with_funding (pl_proposal plan) fundingTxId, fundingTxId).

Definition createChannel (now : Z) (patience : nat) (randomId : string) (params : CreateChannelParams)
    : Opening (OmniaChannel * ChannelProposal) :=
  plan ← buildChannelOpening now randomId params;
  opts ← match fundingWitnessBytes params with
         | Some (String _ _ as w) => mret (mkFinalize (Some w) None None None)
         | _ =>
             match fundingSigner params, fundingProofs params with
             | Some signer, Some proofs =>
                 signature ← mlift (signer (fundingDigest plan));
                 mret (mkFinalize None (Some signature) (Some proofs) (cp_fundingScript params))
             | _, _ => mthrow (Plain "createChannel requires serialized fundingWitnessBytes for broadcast")
             end
         end;
  r ← finalizeChannelOpening now patience plan opts;
  mret (r : OmniaChannel * ChannelProposal * string).1.

(** ** Acceptance *)

(** The funding coin as the proposal describes it; whether it has the confirmations. *)
Definition check_funding (patience : nat) (proposal : ChannelProposal) (address : string) (minConfirmations : Z) : Opening bool :=
  found ← await_coin patience (pp_fundingCoinId proposal);
  coin ← mlift (of_option (Plain ("Funding coin " +:+ pp_fundingCoinId proposal +:+ " not found on chain")) found);
  _ ← mthrow_if (co_spent coin) (Plain ("Funding coin " +:+ pp_fundingCoinId proposal +:+ " is already spent"));
  _ ← mthrow_if (negb (String.eqb (co_address coin) address))
        (Plain ("Funding coin address " +:+ co_address coin +:+ " is not the channel script address " +:+ address));
  let expectedAmount := localAmount proposal + remoteAmount proposal in
  amount ← mlift (BigInt (co_amount coin));
  _ ← mthrow_if (negb (amount =? expectedAmount))
        (Plain ("Funding coin amount " +:+ co_amount coin +:+ " does not match proposal total " +:+ big_to_string expectedAmount));
  _ ← mthrow_if (negb (String.eqb (co_tokenid coin) (pp_tokenId proposal)))
        (Plain ("Funding coin token " +:+ co_tokenid coin +:+ " does not match proposal token " +:+ pp_tokenId proposal));
  if minConfirmations >? 0 then
    tip ← on_chain getTip;
    mret (match confirmationsAt (co_created coin) tip with Some n => minConfirmations <=? n | None => false end)
  else mret true.

(** [providerGiven]: a chain provider was given. *)
Definition acceptChannel (now : Z) (patience : nat) (proposal : ChannelProposal) (providerGiven : bool) (minConfirmations : Z)
    (options : AcceptChannelOptions) : Opening OmniaChannel :=
  let floor := default ELTOO_CONTEST_DELAY_BLOCKS (minContestDelayBlocks options) in
  _ ← mthrow_if (negb (allowShortContestDelay options) &&
                 match pp_contestDelayBlocks proposal with Some d => d <? floor | None => false end)
        (Plain ("Contest delay " +:+ match pp_contestDelayBlocks proposal with Some d => seq_text d | None => "" end
                +:+ " is below the " +:+ seq_text floor +:+ "-block minimum; a shorter window weakens unilateral-close protection. Pass { allowShortContestDelay: true } only for test/dev channels."));
  program ← mlift (resolveChannelProgram registry (pp_programId proposal, pp_programVersion proposal));
  script ← mlift (buildScript program [localParty proposal; remoteParty proposal] (pp_contestDelayBlocks proposal));
  let address := scriptAddress sha3_256 script in
  _ ← mthrow_if (negb (String.eqb script (pp_fundingScript proposal))) (Plain "Script mismatch: recomputed script does not match proposal");
  _ ← mthrow_if (match pp_fundingAddress proposal with Some (String _ _ as a) => negb (String.eqb a address) | _ => false end)
        (Plain "Proposal fundingAddress does not match the eltoo script address");
  fundingConfirmed ← if providerGiven then check_funding patience proposal address minConfirmations else mret false;
  mret (new_channel now (pp_channelId proposal) (pp_fundingTxId proposal) (pp_fundingCoinId proposal) (pp_fundingScript proposal)
          program address (pp_tokenId proposal) (default 0 (pp_tokenScale proposal)) (localParty proposal) (remoteParty proposal)
          (localAmount proposal) (remoteAmount proposal) (if fundingConfirmed : bool then active else funding_pending) false
          (pp_contestDelayBlocks proposal) None).

End opening.
End Og.
