(* ===== verification/SettlementSpec.v ===== *)
(** * What closing a channel promises

    A draft reads back from its text; a settlement request is signed only over the
    draft that the channel itself gives; and a unilateral close broadcasts the very
    transactions that all parties signed, the settlement after the contest only. *)

From Stdlib Require Import ZArith Lia Ascii String.
From stdpp Require Import base gmap list strings.
From S2P Require Import Prelude JsBase JsText JsMap NumSpec Watermark Guards Omnia Transactions TransactionsSpec Programs Sign Channel ChannelSpec SigningSpec Json JsonSpec Draft Settlement.

Module SeSpec.
Import Js JsText JsMap Gd Om Tx Pg Sg Ch ChSpec Json JsonSpec Dr Se.
#[local] Arguments String.append : simpl nomatch.

(** ** A draft reads back from its text *)

(** A text that is not taken for a bigint, and a port that prints as a whole number. *)
Definition text_ok (s : string) : bool := negb (starts_with BIGINT_PREFIX s).
Definition scalar_ok (v : Scalar) : bool := match v with SStr s => text_ok s | _ => true end.
Definition state_ok (sv : StateValue) : bool := (0 <=? port sv) && (port sv <=? MAX_SAFE_INTEGER) && scalar_ok (value sv).
Definition input_ok (i : TxInputDraft) : bool :=
  text_ok (i_coinId i) && text_ok (i_address i) && text_ok (i_tokenId i) && text_ok (scriptHex i)
  && forallb state_ok (default [] (i_stateVariables i)).
Definition output_ok (o : TxOutputDraft) : bool :=
  text_ok (o_address o) && text_ok (o_tokenId o) && forallb state_ok (o_stateVariables o).
Definition draft_ok (d : OmniaTxDraft) : bool :=
  forallb input_ok (d_inputs d) && forallb output_ok (d_outputs d) && forallb state_ok (d_stateVariables d).

(** The value of a draft, with its bigints as [big] writes them. *)
Section Value.
Context (big : Z → jsval).
Definition members (ms : list (string * option jsval)) : jsval := JObj 1 (omap (λ kv, (kv.1,.) <$> kv.2) ms).
Definition scalar_val (v : Scalar) : jsval := match v with SStr s => JStr s | SBig z => big z | SBool b => JBool b end.
Definition state_val (sv : StateValue) : jsval :=
  members [("port", Some (JNum (of_Z (port sv)))); ("value", Some (scalar_val (value sv))); ("type", Some (JStr (type_name (type sv))))]%string.
Definition states_val (l : list StateValue) : jsval := JArr 1 (map state_val l).
Definition input_val (i : TxInputDraft) : jsval :=
  members [("coinId", Some (JStr (i_coinId i))); ("address", Some (JStr (i_address i))); ("amount", Some (big (i_amount i)));
           ("tokenId", Some (JStr (i_tokenId i))); ("scriptHex", Some (JStr (scriptHex i))); ("storeState", JBool <$> i_storeState i);
           ("stateVariables", states_val <$> i_stateVariables i); ("mmrEntry", big <$> mmrEntry i)]%string.
Definition output_val (o : TxOutputDraft) : jsval :=
  members [("address", Some (JStr (o_address o))); ("amount", Some (big (o_amount o))); ("tokenId", Some (JStr (o_tokenId o)));
           ("storeState", Some (JBool (o_storeState o))); ("stateVariables", Some (states_val (o_stateVariables o)))]%string.
Definition draft_val (d : OmniaTxDraft) : jsval :=
  members [("type", Some (JStr (tx_type_name (d_type d)))); ("inputs", Some (JArr 1 (map input_val (d_inputs d))));
           ("outputs", Some (JArr 1 (map output_val (d_outputs d)))); ("storeState", Some (JBool (d_storeState d)));
           ("stateVariables", Some (states_val (d_stateVariables d)))]%string.
End Value.
Definition tagged (z : Z) : jsval := JStr (BIGINT_PREFIX +:+ big_to_string z).

(** *** The text *)

Lemma members_text ms : json_text (members ms) = json_object (map (λ kv, (kv.1, json_text <$> kv.2)) ms).
Proof.
  unfold members. rewrite json_text_obj. unfold json_object. f_equal. f_equal. f_equal.
  induction ms as [|[k [v|]] ms IH]; [done| |exact IH]. cbn. f_equal. exact IH.
Qed.
Lemma array_text_map {A} (f : A → jsval) l : json_text (JArr 1 (map f l)) = array_text (map (λ x, json_text (f x)) l).
Proof. cbn [json_text]. unfold array_text. by rewrite map_map. Qed.
Lemma scalar_val_text v : json_text (scalar_val tagged v) = scalar_text v.
Proof. destruct v as [s|z|[]]; done. Qed.
Lemma state_val_text sv : json_text (state_val tagged sv) = state_value_text sv.
Proof. unfold state_val. rewrite members_text. cbn [map fst snd fmap option_fmap option_map]. by rewrite scalar_val_text. Qed.
Lemma states_val_text l : json_text (states_val tagged l) = state_values_text l.
Proof.
  unfold states_val. rewrite array_text_map. unfold state_values_text. f_equal. apply map_ext. apply state_val_text.
Qed.
Lemma bool_val_text b : json_text (JBool b) = bool_text b.
Proof. by destruct b. Qed.
Lemma input_val_text i : json_text (input_val tagged i) = input_text i.
Proof.
  unfold input_val. rewrite members_text. cbn [map fst snd]. unfold input_text.
  assert (json_text <$> (JBool <$> i_storeState i) = bool_text <$> i_storeState i) as E1 by by destruct (i_storeState i) as [[]|].
  assert (json_text <$> (states_val tagged <$> i_stateVariables i) = state_values_text <$> i_stateVariables i) as E2.
  { destruct (i_stateVariables i) as [l|]; [|done]. change (Some (json_text (states_val tagged l)) = Some (state_values_text l)). by rewrite states_val_text. }
  assert (json_text <$> (tagged <$> mmrEntry i) = big_text <$> mmrEntry i) as E3 by by destruct (mmrEntry i).
  by rewrite E1, E2, E3.
Qed.
Lemma output_val_text o : json_text (output_val tagged o) = output_text o.
Proof. unfold output_val. rewrite members_text. cbn [map fst snd fmap option_fmap option_map]. by rewrite bool_val_text, states_val_text. Qed.
Lemma draft_val_text d : json_text (draft_val tagged d) = draft_text d.
Proof.
  unfold draft_val. rewrite members_text. cbn [map fst snd fmap option_fmap option_map].
  rewrite !array_text_map, bool_val_text, states_val_text. unfold draft_text.
  by rewrite (map_ext _ _ input_val_text), (map_ext _ _ output_val_text).
Qed.

(** *** It is plain data *)

Definition opt_plain (o : option jsval) : Prop := match o with Some v => json_plain v | None => True end.
Lemma plain_members ms : NoDup ms.*1 → Forall (λ kv, opt_plain kv.2) ms → json_plain (members ms).
Proof.
  intros Hn Hv. unfold members. constructor.
  - clear Hv. induction ms as [|[k [v|]] ms IH]; [constructor| |]; cbn in *; apply NoDup_cons in Hn as [Hk Hn]; [|by apply IH].
    constructor; [|by apply IH]. intros Hin. apply Hk. clear -Hin.
    induction ms as [|[k' [v'|]] ms IH]; cbn in *; [by apply elem_of_nil in Hin| |right; by apply IH].
    apply elem_of_cons in Hin as [->|Hin]; [left|right; by apply IH].
  - clear Hn. induction Hv as [|[k [v|]] ms Hv _ IH]; [constructor| |exact IH]. by constructor.
Qed.
Ltac plain_object := apply plain_members; [repeat (constructor; [set_solver|]); constructor|]; repeat (apply Forall_cons; split; cbn [snd opt_plain]);
  try apply Forall_nil; try (by constructor).
Lemma plain_list {A} (f : A → jsval) (ok : A → bool) l : (∀ x, ok x = true → json_plain (f x)) → forallb ok l = true → json_plain (JArr 1 (map f l)).
Proof. intros Hf Hl. constructor. induction l as [|x l IH]; [constructor|]. cbn in *. apply andb_true_iff in Hl as [? ?]. constructor; auto. Qed.
Lemma plain_state_val sv : state_ok sv = true → json_plain (state_val tagged sv).
Proof.
  intros [[H1 H2]%andb_true_iff _]%andb_true_iff. plain_object.
  - constructor. apply whole_survives. lia.
  - destruct (value sv) as [s|z|b]; constructor.
Qed.
Lemma plain_states l : forallb state_ok l = true → json_plain (states_val tagged l).
Proof. apply plain_list, plain_state_val. Qed.
Lemma plain_input i : input_ok i = true → json_plain (input_val tagged i).
Proof.
  intros [_ Hs]%andb_true_iff. plain_object.
  - destruct (i_storeState i); [constructor|done].
  - destruct (i_stateVariables i); [by apply plain_states|done].
  - destruct (mmrEntry i); [constructor|done].
Qed.
Lemma plain_output_val o : output_ok o = true → json_plain (output_val tagged o).
Proof. intros [_ Hs]%andb_true_iff. plain_object. by apply plain_states. Qed.
Lemma plain_draft d : draft_ok d = true → json_plain (draft_val tagged d).
Proof.
  intros [[Hi Ho]%andb_true_iff Hs]%andb_true_iff. plain_object.
  - exact (plain_list _ input_ok _ plain_input Hi).
  - exact (plain_list _ output_ok _ plain_output_val Ho).
  - by apply plain_states.
Qed.

(** *** Reviving its bigints *)

Notation revive := (json_revive bigintReviver).
Lemma revive_arr i l : revive (JArr i l) = (l' ← result_mapM revive l; Ok (JArr i l')).
Proof.
  cbn [json_revive]. f_equal. induction l as [|x l IH]; [done|]. cbn [result_mapM]. destruct (revive x); [|done]. cbn [mbind result_bind]. by rewrite IH.
Qed.
Lemma revive_obj i fs : revive (JObj i fs) = (fs' ← result_mapM (λ kv, y ← revive kv.2; Ok (kv.1, y)) fs; Ok (JObj i fs')).
Proof.
  cbn [json_revive]. f_equal. induction fs as [|[k x] fs IH]; [done|]. cbn [result_mapM fst snd]. destruct (revive x); [|done].
  cbn [mbind result_bind]. by rewrite IH.
Qed.
Definition revives (o o' : option jsval) : Prop := match o, o' with Some v, Some v' => revive v = Ok v' | None, None => True | _, _ => False end.
Lemma revive_members ms ms' : Forall2 (λ kv kv', kv.1 = kv'.1 ∧ revives kv.2 kv'.2) ms ms' → revive (members ms) = Ok (members ms').
Proof.
  intros H. unfold members. rewrite revive_obj.
  assert (result_mapM (λ kv, y ← revive kv.2; Ok (kv.1, y)) (omap (λ kv : string * option jsval, (kv.1,.) <$> kv.2) ms)
    = Ok (omap (λ kv : string * option jsval, (kv.1,.) <$> kv.2) ms')) as ->; [|done].
  induction H as [|[k o] [k' o'] ms ms' [Hk Ho] _ IH]; [done|]. cbn in Hk, Ho. subst k'. destruct o as [v|], o' as [v'|]; try done.
  change (omap (λ kv : string * option jsval, (kv.1,.) <$> kv.2) ((k, Some v) :: ms)) with ((k, v) :: omap (λ kv : string * option jsval, (kv.1,.) <$> kv.2) ms).
  change (omap (λ kv : string * option jsval, (kv.1,.) <$> kv.2) ((k, Some v') :: ms')) with ((k, v') :: omap (λ kv : string * option jsval, (kv.1,.) <$> kv.2) ms').
  cbn [result_mapM fst snd]. rewrite Ho. cbn [mbind result_bind]. by rewrite IH.
Qed.
Lemma revive_text s : text_ok s = true → revive (JStr s) = Ok (JStr s).
Proof. intros Hs. cbn [json_revive bigintReviver]. apply negb_true_iff in Hs. by rewrite Hs. Qed.
Lemma revive_big z : revive (tagged z) = Ok (JBig z).
Proof.
  unfold tagged. cbn [json_revive bigintReviver]. rewrite starts_with_app.
  change (drop_str 10 (BIGINT_PREFIX +:+ big_to_string z)) with (big_to_string z). by rewrite big_of_string_big.
Qed.
Ltac revive_object := apply revive_members; repeat (apply Forall2_cons; split; [split; [done|]; cbn [snd revives]|]); try apply Forall2_nil;
  try (by apply revive_text || apply revive_big || reflexivity).
Lemma revive_list {A} (f g : A → jsval) (ok : A → bool) l : (∀ x, ok x = true → revive (f x) = Ok (g x)) → forallb ok l = true →
  revive (JArr 1 (map f l)) = Ok (JArr 1 (map g l)).
Proof.
  intros Hf Hl. rewrite revive_arr. assert (result_mapM revive (map f l) = Ok (map g l)) as ->; [|done].
  induction l as [|x l IH]; [done|]. cbn in Hl. apply andb_true_iff in Hl as [Hx Hl]. cbn [map result_mapM]. rewrite Hf by done.
  cbn [mbind result_bind]. by rewrite IH.
Qed.
Lemma revive_state sv : state_ok sv = true → revive (state_val tagged sv) = Ok (state_val JBig sv).
Proof.
  intros [_ Hv]%andb_true_iff. revive_object.
  - destruct (value sv) as [s|z|b]; [by apply revive_text|apply revive_big|done].
  - apply revive_text. by destruct (type sv).
Qed.
Lemma revive_states l : forallb state_ok l = true → revive (states_val tagged l) = Ok (states_val JBig l).
Proof. apply revive_list, revive_state. Qed.
Lemma revive_input i : input_ok i = true → revive (input_val tagged i) = Ok (input_val JBig i).
Proof.
  intros [[[[H1 H2]%andb_true_iff H3]%andb_true_iff H4]%andb_true_iff Hs]%andb_true_iff. revive_object.
  - by destruct (i_storeState i).
  - destruct (i_stateVariables i); [by apply revive_states|done].
  - destruct (mmrEntry i); [apply revive_big|done].
Qed.
Lemma revive_output o : output_ok o = true → revive (output_val tagged o) = Ok (output_val JBig o).
Proof. intros [[H1 H2]%andb_true_iff Hs]%andb_true_iff. revive_object. by apply revive_states. Qed.
Lemma revive_draft d : draft_ok d = true → revive (draft_val tagged d) = Ok (draft_val JBig d).
Proof.
  intros [[Hi Ho]%andb_true_iff Hs]%andb_true_iff. revive_object.
  - apply revive_text. by destruct (d_type d).
  - exact (revive_list _ _ input_ok _ revive_input Hi).
  - exact (revive_list _ _ output_ok _ revive_output Ho).
  - by apply revive_states.
Qed.

(** *** The draft a value is *)

Lemma read_list {A} (f : A → jsval) (read : jsval → result OmniaError A) l : (∀ x, read (f x) = Ok x) → as_list read (JArr 1 (map f l)) = Ok l.
Proof. intros H. cbn [as_list]. induction l as [|x l IH]; [done|]. cbn [map result_mapM]. rewrite H. cbn [mbind result_bind]. by rewrite IH. Qed.
Lemma read_state sv : as_state_value (state_val JBig sv) = Ok sv.
Proof. destruct sv as [p [s|z|b] []]; unfold as_state_value, field; cbn -[of_Z as_whole]; unfold as_whole; by rewrite num_integer_of_Z. Qed.
Lemma read_states l : as_list as_state_value (states_val JBig l) = Ok l.
Proof. apply read_list, read_state. Qed.
Lemma read_input i : as_input (input_val JBig i) = Ok i.
Proof.
  destruct i as [id ad am tok scr st vars en]. unfold as_input, field.
  pose proof read_states as R. unfold states_val in R.
  destruct st as [b|], vars as [l|], en as [z|]; cbn -[as_list states_val]; unfold states_val; cbn -[as_list map]; rewrite ?R; done.
Qed.
Lemma read_output o : as_output (output_val JBig o) = Ok o.
Proof. destruct o as [ad am tok st vars]. unfold as_output, field. cbn -[as_list states_val]. by rewrite read_states. Qed.
Lemma read_draft d : as_draft (draft_val JBig d) = Ok d.
Proof.
  destruct d as [t i o s v]. unfold as_draft, field. cbn -[as_list states_val as_tx_type].
  assert (as_tx_type (JStr (tx_type_name t)) = Ok t) as -> by by destruct t.
  cbn -[as_list states_val]. by rewrite (read_list _ _ _ read_input), (read_list _ _ _ read_output), read_states.
Qed.

Lemma buffer_hex s : buffer_of_hex (hex_of_bytes s) = s.
Proof.
  induction s as [|c s IH]; [done|]. rewrite hex_of_bytes_cons. transitivity (String c (buffer_of_hex (hex_of_bytes s))); [|by rewrite IH].
  destruct c as [[] [] [] [] [] [] [] []]; reflexivity.
Qed.

Lemma draft_round_trip d : draft_ok d = true → deserializeTxDraft (serializeTxDraft d) = Ok d.
Proof.
  intros Hd. unfold deserializeTxDraft, serializeTxDraft. rewrite buffer_hex, utf8_round, <- draft_val_text.
  rewrite json_round_trip by by apply plain_draft. cbn [language mbind result_bind]. rewrite revive_draft by done.
  cbn [language mbind result_bind]. apply read_draft.
Qed.

(** ** Logs of what was done *)

Section log.
Context {S E X : Type} (log : S → list X).

(** A step that logs nothing. *)
Definition silent {A} (m : M S E A) : Prop := ∀ l, preserves (λ s, log s = l) m.
(** [m] logs nothing, or one entry that [Q] holds of; one when it returns. *)
Definition logs {A} (Q : X → Prop) (m : M S E A) : Prop := ∀ l,
  ensures (λ s, log s = l) m (λ r s, (is_ok r = false ∧ log s = l) ∨ ∃ x, Q x ∧ log s = l ++ [x]).

Lemma silent_lift {A} (r : result E A) : silent (mlift r).
Proof. intros l. apply preserves_lift. Qed.
Lemma silent_ret {A} (a : A) : silent (mret a).
Proof. intros l. apply preserves_ret. Qed.
Lemma silent_throw_if b (e : E) : silent (mthrow_if b e).
Proof. apply silent_lift. Qed.
Lemma silent_bind {A B} (m : M S E A) (f : A → M S E B) : silent m → (∀ a, silent (f a)) → silent (m ≫= f).
Proof. intros Hm Hf l. apply preserves_bind; [apply Hm|]. intros a. apply Hf. Qed.
(** A step on another part of the state. *)
Lemma silent_zoom {T E' A} (get : S → T) (put : T → S → S) (inj : E' → E) (m : M T E' A) :
  (∀ t s, log (put t s) = log s) → silent (zoom get put inj m).
Proof. intros Hp l. apply (preserves_zoom _ _ _ m (λ _, True)); [by intros ? ?|done|]. intros t s Hs _. by rewrite Hp. Qed.

Lemma logs_weaken {A} (Q R : X → Prop) (m : M S E A) : (∀ x, Q x → R x) → logs Q m → logs R m.
Proof. intros HQ Hm l s Hs. destruct (Hm l s Hs) as [?|(x & Hx & ?)]; [by left|]. right. exists x. auto. Qed.
(** A silent step before. *)
Lemma logs_step {A B} Q (m : M S E A) (f : A → M S E B) :
  silent m → (∀ a s s1, m s = (Ok a, s1) → logs Q (f a)) → logs Q (m ≫= f).
Proof.
  intros Hm Hf l s Hs. specialize (Hm l s Hs). unfold mbind, M_bind.
  destruct (m s) as [[a|e] s1] eqn:E1; cbn [fst snd] in *; [by apply (Hf a s s1 E1)|left; done].
Qed.
Lemma logs_lift {A B} Q (r : result E A) (f : A → M S E B) : (∀ a, r = Ok a → logs Q (f a)) → logs Q (mlift r ≫= f).
Proof. intros Hf. apply logs_step; [apply silent_lift|]. intros a s s1 [E1 _]%mlift_Ok. by apply Hf. Qed.
Lemma logs_throw_if {B} Q b (e : E) (f : unit → M S E B) : (b = false → logs Q (f tt)) → logs Q (mthrow_if b e ≫= f).
Proof. intros Hf. apply logs_lift. intros [] Hb%throw_if_Ok. by apply Hf. Qed.
(** A silent step after. *)
Lemma logs_then {A B} Q (m : M S E A) (f : A → M S E B) : logs Q m → (∀ a, silent (f a)) → logs Q (m ≫= f).
Proof.
  intros Hm Hf l s Hs. specialize (Hm l s Hs). unfold mbind, M_bind.
  destruct (m s) as [[a|e] s1]; cbn [fst snd] in *; [|exact Hm].
  destruct Hm as [[? _]|(x & Hx & Hl)]; [done|]. right. exists x. split; [done|]. by apply (Hf a).
Qed.
Lemma logs_none {A} (m : M S E A) s : logs (λ _, False) m → log (m s).2 = log s.
Proof. intros Hm. by destruct (Hm (log s) s eq_refl) as [[_ ?]|(x & ? & _)]. Qed.
End log.
(** A part of the state with the log. *)
Lemma logs_zoom {S T E E' X A} (log : S → list X) (log' : T → list X) (get : S → T) (put : T → S → S) (inj : E' → E) Q (m : M T E' A) :
  (∀ s, log s = log' (get s)) → (∀ t s, log (put t s) = log' t) → logs log' Q m → logs log Q (zoom get put inj m).
Proof.
  intros Hg Hp Hm l s Hs. rewrite Hg in Hs. specialize (Hm l (get s) Hs). unfold zoom.
  destruct (m (get s)) as [[a|e] t]; cbn [fst snd] in *; rewrite Hp; exact Hm.
Qed.

Create HintDb closing.
#[export] Hint Resolve silent_lift silent_ret silent_throw_if silent_bind : closing.

(** ** What the steps hand over *)

Section closing.
Context {Cr : Crypto} {P : Type} {Wl : WotsLeaseProvider P} {C : Type} {Cp : ChainStateProvider C} {Tp : TxPow}
  (registry : list (string * ChannelProgram)).
Notation Settling := (M (Net P C) OmniaError).
Notation silent := (silent (@n_sent P C)).
Notation hands := (logs (@n_sent P C)).

Lemma silent_chain {A} (m : M C OmniaError A) : silent (on_chain m : Settling A).
Proof. by apply silent_zoom. Qed.
Hint Resolve silent_chain : closing.
Lemma hands_over (Q : Bytes * Bytes → Prop) d w : Q (d, w) → hands Q (hand_over d w : Settling unit).
Proof. intros HQ sent n Hn. right. exists (d, w). cbn. by rewrite Hn. Qed.

Lemma mine_hands d w failed : hands (λ x, x = (d, w)) (mine_and_broadcast d w failed : Settling _).
Proof.
  unfold mine_and_broadcast. apply logs_step; [auto with closing|]. intros target _ _ _. cbv zeta. apply logs_lift. intros mined _.
  apply logs_then; [by apply hands_over|]. auto with closing.
Qed.
Lemma draft_hands txHex w : hands (λ x, x.2 = w ∧ ∃ d, deserializeTxDraft txHex = Ok d ∧ omniaDraftToCanonicalMinimaBytes sha3_256 d = Ok x.1)
  (mineAndBroadcastDraft txHex w : Settling _).
Proof.
  unfold mineAndBroadcastDraft. apply logs_lift. intros d Hd. apply logs_lift. intros b Hb.
  apply logs_then; [|auto with closing]. intros sent n Hn. destruct (mine_hands b w "Settlement broadcast failed" sent n Hn) as [H|(x & -> & H)]; [by left|].
  right. exists (b, w). split; [|done]. split; [done|]. by exists d.
Qed.
(** ** The transactions of a close *)

(** The draft of the channel itself for one of the two transactions of a state. *)
Definition close_draft (c : OmniaChannel) (st : SignedChannelState) (tx : CloseTx) : result OmniaError OmniaTxDraft :=
  addresses ← resolveSettlementAddresses (parties c) [];
  program ← resolveChannelProgram registry (Some (programId c), Some (programVersion c));
  match tx with
  | close_update =>
      vars ← program_vars program c (sequence st) (balances st) (pendingHTLCs st) false (Om.programTransition st);
      buildUpdateTx sha3_256 c (sequence st) (balances st) (pendingHTLCs st) vars
  | close_settlement =>
      vars ← program_vars program c (sequence st) (balances st) (pendingHTLCs st) true (Om.programTransition st);
      buildSettlementTx sha3_256 c
        (mkState (sequence st) (balances st) (pendingHTLCs st) (stateVariables st) "" [] [] None None)
        addresses (mkSettlementOpts true vars)
  end.

(** The bytes of a transaction with a witness that holds the valid signature of each
    party over their hash, in the order of the parties. *)
Definition signed_by_all (c : OmniaChannel) (proofs : WitnessProofs) (d : OmniaTxDraft) (x : Bytes * Bytes) : Prop :=
  omniaDraftToCanonicalMinimaBytes sha3_256 d = Ok x.1 ∧
  ∃ sigs, serializeOmniaWitness sigs proofs = Ok x.2 ∧
    Forall2 (λ p sig, verifyChannelSignature sig (sha3_256 x.1) (publicKeyDigest p) = true) (parties c) sigs.

Lemma artifact_Ok d a : artifact d = Ok a → txHex a = serializeTxDraft d ∧
  ∃ b, omniaDraftToCanonicalMinimaBytes sha3_256 d = Ok b ∧ txDigest a = hex_of_bytes (sha3_256 b).
Proof.
  unfold artifact, computeOmniaTxDigest. intros (h & (b & Hb & [= <-])%result_bind_Ok & [= <-])%result_bind_Ok.
  split; [done|]. by exists b.
Qed.

(** The package that a channel builds holds the drafts that it builds. *)
Lemma package_drafts c st p tx :
  buildUnsignedClosePackage registry c (sequence st) (balances st) (pendingHTLCs st) (stateVariables st) (Om.programTransition st) = Ok p →
  ∃ d, close_draft c st tx = Ok d ∧ artifact d = Ok (artifact_of tx p).
Proof.
  unfold buildUnsignedClosePackage. intros H.
  apply result_bind_Ok in H as (ads & Ha & H). apply result_bind_Ok in H as (prog & Hp & H).
  apply result_bind_Ok in H as (uv & Hu & H). apply result_bind_Ok in H as (ud & Hud & H).
  apply result_bind_Ok in H as (sv & Hs & H). apply result_bind_Ok in H as (sd & Hsd & H).
  apply result_bind_Ok in H as (k & _ & H). apply result_bind_Ok in H as (ua & Hua & H).
  apply result_bind_Ok in H as (sa & Hsa & H). injection H as <-.
  unfold close_draft. rewrite Ha, Hp. cbn [mbind result_bind]. destruct tx; [exists ud; rewrite Hu|exists sd; rewrite Hs]; done.
Qed.

(** *** What a verified package says *)

Lemma eqb_nil a b e : err (negb (String.eqb a b)) e = [] → a = b.
Proof. intros H%err_nil%negb_false_iff. by apply String.eqb_eq. Qed.

Lemma package_errors_nil c st p tx : package_errors registry c st p = Ok [] →
  ∃ d, close_draft c st tx = Ok d ∧ txHex (artifact_of tx p) = serializeTxDraft d ∧
    ∃ b, omniaDraftToCanonicalMinimaBytes sha3_256 d = Ok b ∧ txDigest (artifact_of tx p) = hex_of_bytes (sha3_256 b).
Proof.
  unfold package_errors. intros H. apply result_bind_Ok in H as (k & _ & H). apply result_bind_Ok in H as (e & He & H).
  injection H as H. repeat (apply app_eq_nil in H as [? H]).
  destruct (package_drafts c st e tx He) as (d & Hd & Ha). apply artifact_Ok in Ha as [Ht (b & Hb & Hg)]. exists d. split; [done|].
  destruct tx; cbn in *; repeat match goal with E : err (negb (String.eqb _ _)) _ = [] |- _ => apply eqb_nil in E end;
    (split; [congruence|]); exists b; (split; [done|congruence]).
Qed.

Lemma party_errors_nil p party tx : party_errors p party = [] →
  ∃ sig d, map_get (partyId party) (a_signatures (artifact_of tx p)) = Some sig ∧ hexToBytes (txDigest (artifact_of tx p)) = Ok d ∧
    verifyChannelSignature sig d (publicKeyDigest party) = true.
Proof.
  unfold party_errors. intros [Hu%err_nil [Hs%err_nil He]%app_eq_nil]%app_eq_nil. revert He. unfold signature_errors.
  unfold fully_signed, has_signature, present in Hu, Hs. apply negb_false_iff, andb_true_iff in Hu as [[us Eu]%bool_decide_eq_true _].
  apply negb_false_iff, andb_true_iff in Hs as [[ss Es]%bool_decide_eq_true _]. rewrite Eu, Es.
  destruct (hexToBytes (txDigest (update p))) as [du|] eqn:Du; [|done].
  destruct (hexToBytes (txDigest (settlement p))) as [ds|] eqn:Ds; cbn [mbind result_bind]; [|by intros [_ ?]%app_eq_nil].
  intros [Vu%err_nil%negb_false_iff Vs%err_nil%negb_false_iff]%app_eq_nil.
  destruct tx; [by exists us, du|by exists ss, ds].
Qed.

Lemma complete_package_Ok c st what p : complete_package registry c st what = Ok p →
  closePackage st = Some p ∧ package_errors registry c st p = Ok [] ∧ Forall (λ party, party_errors p party = []) (parties c).
Proof.
  unfold complete_package. intros H. apply result_bind_Ok in H as (es & He & H).
  apply result_bind_Ok in H as ([] & Hl & H). apply throw_if_Ok in Hl. unfold verifyClosePackage in He.
  destruct (closePackage st) as [p'|] eqn:Ep; [|done]. injection H as ->. split; [done|].
  apply result_bind_Ok in He as (pe & Hpe & [= <-]). destruct (pe ++ _) as [|? ?] eqn:Ez; [|done].
  apply app_eq_nil in Ez as [-> Hz]. split; [done|]. apply concat_nil_Forall in Hz. by rewrite Forall_map in Hz.
Qed.
Lemma hex_reads_back b : hexToBytes (hex_of_bytes b) = Ok b.
Proof.
  unfold hexToBytes. rewrite hex_of_bytes_no_prefix, hex_of_bytes_even, hex_of_bytes_digits. cbn [negb throw_if mbind result_bind].
  by rewrite hex_of_bytes_pairs.
Qed.

(** The signatures of a verified package, in the order of the parties. *)
Lemma package_signatures c p tx d :
  Forall (λ party, party_errors p party = []) (parties c) → hexToBytes (txDigest (artifact_of tx p)) = Ok d →
  Forall2 (λ party sig, verifyChannelSignature sig d (publicKeyDigest party) = true) (parties c)
    (omap (λ id, map_get id (a_signatures (artifact_of tx p))) (map partyId (parties c))).
Proof.
  intros HF Hd. induction HF as [|party l Hp _ IH]; [constructor|].
  apply (party_errors_nil _ _ tx) in Hp as (sig & d' & Hs & Hd' & Hv). rewrite Hd in Hd'. apply Ok_inj in Hd' as ->.
  cbn [map omap list_omap]. rewrite Hs. by constructor.
Qed.

Lemma broadcast_hands c st what p tx proofs :
  complete_package registry c st what = Ok p → (∀ d, close_draft c st tx = Ok d → draft_ok d = true) →
  hands (λ x, ∃ d, close_draft c st tx = Ok d ∧ signed_by_all c proofs d x) (broadcast_artifact c st tx p proofs : Settling string).
Proof.
  intros (Hp & He & Hs)%complete_package_Ok Hok. apply (package_errors_nil _ _ _ tx) in He as (d & Hd & Ht & b & Hb & Hg).
  unfold broadcast_artifact. apply logs_lift. unfold closePackageSignatureBytes. rewrite Hp. cbn [of_option mbind result_bind].
  intros sigs [= <-]. apply logs_lift. intros w Hw. eapply logs_weaken; [|apply draft_hands]. intros x (<- & d' & Hd' & Hb').
  rewrite Ht, draft_round_trip in Hd' by by apply Hok. apply Ok_inj in Hd' as <-. rewrite Hb in Hb'. apply Ok_inj in Hb' as Ex.
  exists d. split; [done|]. split; [by rewrite Hb, Ex|]. eexists. split; [exact Hw|].
  apply package_signatures; [done|]. rewrite Hg, <- Ex. apply hex_reads_back.
Qed.

(** ** The calls of a close *)

Inductive close_call :=
| StartClose (now : Z) (proofs : option BroadcastProofs)
| RecordCoin (now : Z) (coinId : string) (chainGiven : bool) (minConfirmations : Z)
| FinalizeClose (now : Z) (proofs : option BroadcastProofs)
| ReplaceState (now : Z) (newer : SignedChannelState) (proofs : option BroadcastProofs).
Definition run_close (k : close_call) (c : OmniaChannel) : Settling OmniaChannel :=
  match k with
  | StartClose now proofs => r ← startUnilateralClose registry now c proofs; mret (st_channel r)
  | RecordCoin now coinId given m => recordUnilateralUpdateCoin now c coinId given m
  | FinalizeClose now proofs => r ← finalizeUnilateralClose registry now c proofs; mret (r : OmniaChannel * SettlementPayload).1
  | ReplaceState now newer proofs => replaceUnilateralCloseState registry now c newer proofs
  end.
(** The transaction and the state that a call is to broadcast. *)
Definition to_broadcast (k : close_call) (c : OmniaChannel) : option (CloseTx * SignedChannelState) :=
  match k with
  | StartClose _ _ => (close_update,.) <$> latestState c
  | RecordCoin _ _ _ _ => None
  | FinalizeClose _ _ => (close_settlement,.) <$> latestState c
  | ReplaceState _ newer _ => Some (close_update, newer)
  end.

Definition broadcasts (c : OmniaChannel) (tx : CloseTx) (st : SignedChannelState) (x : Bytes * Bytes) : Prop :=
  ∃ d proofs, close_draft c st tx = Ok d ∧ signed_by_all c proofs d x.
Lemma broadcast_step {B} c st what p tx proofs (f : string → Settling B) :
  complete_package registry c st what = Ok p → (∀ d, close_draft c st tx = Ok d → draft_ok d = true) → (∀ a, silent (f a)) →
  hands (broadcasts c tx st) (broadcast_artifact c st tx p proofs ≫= f).
Proof.
  intros Hp Hok Hf. apply logs_then; [|exact Hf]. eapply logs_weaken; [|by eapply broadcast_hands].
  intros x (d & Hd & Hs). by exists d, proofs.
Qed.

Lemma silent_contest c u : silent (contest_elapsed c u : Settling unit).
Proof. unfold contest_elapsed. auto 20 with closing. Qed.
Hint Resolve silent_contest : closing.
Lemma record_silent now c coinId given m : silent (recordUnilateralUpdateCoin now c coinId given m : Settling OmniaChannel).
Proof.
  unfold recordUnilateralUpdateCoin. repeat (apply silent_bind; [auto with closing|intros ?]); auto with closing.
  case_match; auto with closing.
Qed.

Lemma call_hands k c tx st : to_broadcast k c = Some (tx, st) → (∀ d, close_draft c st tx = Ok d → draft_ok d = true) →
  hands (broadcasts c tx st) (run_close k c).
Proof.
  destruct k as [now proofs|now coinId given m|now proofs|now newer proofs]; cbn [to_broadcast run_close]; intros Ht Hok.
  - apply logs_then; [|auto with closing]. unfold startUnilateralClose. apply logs_throw_if. intros _. apply logs_lift. intros l Hl.
    destruct (latestState c) as [s|]; [|done]. injection Ht as <- <-. injection Hl as <-. apply logs_lift. intros p Hp.
    apply logs_lift. intros pr _. apply logs_step; [auto with closing|]. intros tip _ _ _. eapply broadcast_step; [done..|]. auto with closing.
  - done.
  - apply logs_then; [|auto with closing]. unfold finalizeUnilateralClose. apply logs_throw_if. intros _. apply logs_lift. intros u _.
    apply logs_lift. intros l Hl. destruct (latestState c) as [s|]; [|done]. injection Ht as <- <-. injection Hl as <-.
    apply logs_throw_if. intros _. apply logs_lift. intros p Hp. apply logs_step; [auto with closing|]. intros _ _ _ _.
    apply logs_lift. intros pr _. eapply broadcast_step; [done..|]. auto with closing.
  - injection Ht as <- <-. unfold replaceUnilateralCloseState. apply logs_lift. intros u _. apply logs_throw_if. intros _.
    apply logs_lift. intros p Hp. apply logs_lift. intros pr _. apply logs_step; [auto with closing|]. intros tip _ _ _.
    eapply broadcast_step; [done..|]. auto with closing.
Qed.
Lemma call_silent k c n : to_broadcast k c = None → n_sent (run_close k c n).2 = n_sent n.
Proof.
  destruct k as [now proofs|now coinId given m|now proofs|now newer proofs]; cbn [to_broadcast run_close]; intros Ht; [| | |done].
  - apply logs_none, logs_then; [|auto with closing]. apply logs_throw_if. intros _. apply logs_lift. by destruct (latestState c).
  - exact (record_silent now c coinId given m (n_sent n) n eq_refl).
  - apply logs_none, logs_then; [|auto with closing]. apply logs_throw_if. intros _. apply logs_lift. intros u _.
    apply logs_lift. by destruct (latestState c).
Qed.
(** ** Histories of a close *)

Inductive event := Updated (sequence : Z) | Recorded (coinId : string) (height : Z) | Settled (sequence : Z).
Definition no_update (e : event) : Prop := match e with Updated _ => False | _ => True end.
(** What a call that returned the channel [c'] has done. *)
Definition events_of (k : close_call) (c c' : OmniaChannel) : list event :=
  match k, latestState c, unilateralClose c' with
  | StartClose _ _, Some st, _ => [Updated (sequence st)]
  | ReplaceState _ newer _, _, _ => [Updated (sequence newer)]
  | RecordCoin _ coinId _ _, _, Some u => [Recorded coinId (contestStartBlock u)]
  | FinalizeClose _ _, Some st, _ => [Settled (sequence st)]
  | _, _, _ => []
  end.

(** Calls of a close on any chain and in any process, between other calls on the channel;
    a call that throws gives no channel. *)
Inductive history (c0 : OmniaChannel) : list event → OmniaChannel → Prop :=
| history_begins : history c0 [] c0
| history_works l c c' : history c0 l c → ChSpec.next (P := P) registry c c' → history c0 l c'
| history_calls l c k n c' n' : history c0 l c → run_close k c n = (Ok c', n') → history c0 (l ++ events_of k c c') c'.

(** The record names the last update and a coin recorded since, with its deadline. *)
Definition record_fits (delay : Z) (l : list event) (c : OmniaChannel) : Prop :=
  channelContestDelay (contestDelayBlocks c) = delay ∧
  ∀ u, unilateralClose c = Some u → contestDeadlineBlock u = contestStartBlock u + delay ∧
    ∃ l1 l2, l = l1 ++ Updated (u_sequence u) :: l2 ∧ Forall no_update l2 ∧
      ∀ id, updateCoinId u = Some id → Recorded id (contestStartBlock u) ∈ l2.

Lemma next_frame c c' : ChSpec.next (P := P) registry c c' → unilateralClose c' = unilateralClose c ∧ contestDelayBlocks c' = contestDelayBlocks c.
Proof.
  intros (o & w & w' & Ha & Hr). apply run_op_effect in Hr; [|done].
  destruct Hr as [ [(? & ? & ? & ? & ->)| ->] |? ? ? (? & ? & ? & ->)|? ? ? ? ? ? (? & ? & ? & ->)
         |? ? ? ? ? ? ? ? ? (? & ? & ? & ->)|? ? ? ? ? ? ? ? ? ? ? ? ->]; done.
Qed.

Lemma some_Ok {E A} (e : E) (o : option A) a : of_option e o = Ok a → o = Some a.
Proof. destruct o; by intros [= ->]. Qed.
(** Read off the steps of a returning call. *)
Ltac run_steps H :=
  inv_M; repeat match goal with
  | E : mlift _ _ = (Ok _, _) |- _ => apply mlift_Ok in E as [E ->]
  | E : mthrow_if _ _ _ = (Ok _, _) |- _ => apply mthrow_if_Ok in E as [E ->]
  | E : of_option _ _ = Ok _ |- _ => apply some_Ok in E
  end.
Lemma start_Ok now c proofs (n : Net P C) r n' : startUnilateralClose registry now c proofs n = (Ok r, n') →
  ∃ st p tip txpow, latestState c = Some st ∧
    st_channel r = with_close c closing_unilateral (Some (close_record c (channelId c) st p tip txpow)) (of_Z now).
Proof.
  unfold startUnilateralClose. intros H. run_steps H.
  destruct (latestState c) as [st|]; [|done]. simplify_eq/=. by repeat eexists.
Qed.
Lemma replace_Ok now c newer proofs (n : Net P C) c' n' : replaceUnilateralCloseState registry now c newer proofs n = (Ok c', n') →
  ∃ u p tip txpow, unilateralClose c = Some u ∧ u_sequence u < sequence newer ∧
    c' = with_close (with_newer c newer) disputing (Some (close_record c (u_channelId u) newer p tip txpow)) (of_Z now).
Proof.
  unfold replaceUnilateralCloseState. intros H. run_steps H.
  destruct (unilateralClose c) as [u|]; [|done]. simplify_eq/=. do 4 eexists. split; [done|]. split; [lia|]. reflexivity.
Qed.
Lemma record_Ok now c coinId given m (n : Net P C) c' n' : recordUnilateralUpdateCoin now c coinId given m n = (Ok c', n') →
  ∃ u i, unilateralClose c = Some u ∧
    c' = with_close c (c_status c) (Some (mkUnilateral (u_channelId u) (u_sequence u) (updateTxHex u) (settlementTxHex u) i
           (i + channelContestDelay (contestDelayBlocks c)) (settlement_broadcast u) (updateTxpowId u) (Some coinId) (settlementTxpowId u))) (of_Z now).
Proof.
  unfold recordUnilateralUpdateCoin. intros H. run_steps H.
  destruct (unilateralClose c) as [u|]; [|done]. simplify_eq/=. by repeat eexists.
Qed.
(** The checks of a settlement against the chain, with the answers they were made on. *)
Definition waited (c : OmniaChannel) (u : UnilateralCloseState) (n : Net P C) : Prop :=
  ∃ tip k id coin k' i, getTip (n_chain n) = (Ok tip, k) ∧ updateCoinId u = Some id ∧ getCoin id k = (Ok (Some coin), k') ∧
    coinCreatedBlock (co_created coin) = Some i ∧ contestDeadlineBlock u <= tip ∧ i + channelContestDelay (contestDelayBlocks c) <= tip.

Lemma chain_Ok {A} (m : M C OmniaError A) (n : Net P C) a n' : on_chain m n = (Ok a, n') →
  m (n_chain n) = (Ok a, n_chain n').
Proof. unfold on_chain, zoom. destruct (m (n_chain n)) as [[b|e] k]; intros [= <- <-]; by cbn. Qed.
Lemma contest_Ok c u (n : Net P C) v n' : contest_elapsed c u n = (Ok v, n') → waited c u n.
Proof.
  unfold contest_elapsed. intros H. run_steps H. destruct (updateCoinId u) as [[|a id]|] eqn:Eu; [done| |done].
  repeat match goal with E : on_chain _ _ = _ |- _ => apply chain_Ok in E end. cbn [n_chain] in *.
  run_steps H. simplify_eq/=. unfold waited. do 6 eexists. split; [eassumption|]. split; [done|]. split; [eassumption|]. split; [eassumption|]. split; lia.
Qed.
Lemma finalize_Ok now c proofs (n : Net P C) r n' : finalizeUnilateralClose registry now c proofs n = (Ok r, n') →
  ∃ u st p txpow, unilateralClose c = Some u ∧ latestState c = Some st ∧ sequence st = u_sequence u ∧
    waited c u n ∧
    r = (markChannelClosed now (with_close c (c_status c) (Some (mkUnilateral (u_channelId u) (u_sequence u) (updateTxHex u) (settlementTxHex u)
           (contestStartBlock u) (contestDeadlineBlock u) true (updateTxpowId u) (updateCoinId u) (Some txpow))) (of_Z now)),
         mkPayload (channelId c) (sequence st) (txHex (settlement p)) (balances st) (htlc_outputs (pendingHTLCs st)) (Some txpow)).
Proof.
  unfold finalizeUnilateralClose. intros H. run_steps H.
  match goal with E : contest_elapsed _ _ _ = _ |- _ => apply contest_Ok in E end.
  destruct (unilateralClose c) as [u|]; [|done]. destruct (latestState c) as [st|]; [|done]. simplify_eq/=.
  do 4 eexists. split; [done|]. split; [done|]. split; [lia|]. split; [done|]. reflexivity.
Qed.

Lemma record_fits_call delay l k c n c' n' :
  record_fits delay l c → run_close k c n = (Ok c', n') → record_fits delay (l ++ events_of k c c') c'.
Proof.
  intros [Hd Hf] Hr. destruct k as [now proofs|now coinId given m|now proofs|now newer proofs]; cbn [run_close] in Hr.
  - apply mbind_Ok in Hr as (r & n1 & Hr & [= <- <-]). apply start_Ok in Hr as (st & p & tip & txpow & El & ->).
    cbn [events_of]. rewrite El. split; [exact Hd|]. intros u [= <-]. cbn. split; [by rewrite Hd|].
    exists l, []. split; [done|]. split; [constructor|done].
  - apply record_Ok in Hr as (u & i & Eu & ->). destruct (Hf u Eu) as (_ & l1 & l2 & -> & Hn & _).
    split; [exact Hd|]. intros u' [= <-]. cbn. split; [by rewrite Hd|]. exists l1, (l2 ++ [Recorded coinId i]).
    split; [by rewrite <- app_assoc|]. split; [apply Forall_app; split; [done|by constructor]|]. intros id [= ->]. set_solver.
  - apply mbind_Ok in Hr as (r & n1 & Hr & [= <- <-]). apply finalize_Ok in Hr as (u & st & p & txpow & Eu & El & _ & _ & ->).
    destruct (Hf u Eu) as (He & l1 & l2 & -> & Hn & Hc). cbn [events_of]. rewrite El.
    split; [exact Hd|]. intros u' [= <-]. cbn. split; [done|]. exists l1, (l2 ++ [Settled (sequence st)]).
    split; [by rewrite <- app_assoc|]. split; [apply Forall_app; split; [done|by constructor]|]. intros id Hid. apply Hc in Hid. set_solver.
  - apply replace_Ok in Hr as (u & p & tip & txpow & Eu & _ & ->). cbn [events_of].
    split; [exact Hd|]. intros u' [= <-]. cbn. split; [by rewrite Hd|]. exists l, []. split; [done|]. split; [constructor|done].
Qed.
Lemma history_fits c0 l c : unilateralClose c0 = None → history c0 l c → record_fits (channelContestDelay (contestDelayBlocks c0)) l c.
Proof.
  intros H0 Hh. induction Hh as [|l c c' _ IH [Hu Hd]%next_frame|l c k n c' n' _ IH Hr].
  - split; [done|]. intros u Hu. by rewrite H0 in Hu.
  - destruct IH as [Hd' Hf]. split; [by rewrite Hd|]. by rewrite Hu.
  - by eapply record_fits_call.
Qed.

(** Nothing starts or settles on a closed channel. *)
Lemma closed_refuses k c n : c_status c = closed → match k with StartClose _ _ | FinalizeClose _ _ => True | _ => False end →
  is_ok (run_close k c n).1 = false.
Proof.
  intros Hc Hk. destruct k; try done; cbn [run_close].
  - destruct (startUnilateralClose registry now c proofs n) as [[r|e] n1] eqn:E; [|by unfold mbind, M_bind; rewrite E].
    unfold startUnilateralClose in E. rewrite Hc in E. by run_steps E.
  - destruct (finalizeUnilateralClose registry now c proofs n) as [[r|e] n1] eqn:E; [|by unfold mbind, M_bind; rewrite E].
    unfold finalizeUnilateralClose in E. rewrite Hc in E. by run_steps E.
Qed.
(** ** What a settlement signature covers *)

(** A signature over a draft, with a leaf of the channel's tree. *)
Definition signs (c : OmniaChannel) (d : OmniaTxDraft) (x : string * Wm.SigningIndices * Bytes) : Prop :=
  ∃ i b, omniaDraftToCanonicalMinimaBytes sha3_256 d = Ok b ∧ x = (tree_of c, i, sha3_256 b).

Lemma silent_lease {A} (m : P → result OmniaError A * P) : SeSpec.silent (@w_signed P) (on_lease m).
Proof. by apply silent_zoom. Qed.
Lemma draft_signs c d purpose s : logs (@w_signed P) (signs c d) (signTxDraft c d purpose s).
Proof.
  unfold signTxDraft. apply logs_lift. intros signer _. apply logs_lift. intros h Hh. apply result_bind_Ok in Hh as (b & Hb & [= <-]).
  apply logs_step; [apply silent_lease|]. intros r _ _ _. apply logs_then.
  - unfold sign_with. apply logs_lift. intros sig _. apply logs_then; [|auto with closing].
    intros l w Hw. right. eexists. split; [by exists (indices r), b|]. cbn. by rewrite Hw.
  - intros sig. apply silent_bind; [apply silent_lease|auto with closing].
Qed.
Lemma on_world_logs {A} (Q : string * Wm.SigningIndices * Bytes → Prop) (m : M (World P) OmniaError A) :
  logs (@w_signed P) Q m → logs (λ n : Net P C, w_signed (n_world n)) Q (on_world m).
Proof. by apply logs_zoom. Qed.

(** The share of each party goes to the address the channel knows for it, and every
    open payment to its contract. *)
Definition pays_out (c : OmniaChannel) (st : SignedChannelState) (d : OmniaTxDraft) : Prop :=
  ∃ shares locked, d_outputs d = concat shares ++ locked ∧
    Forall2 (λ p outs, ∃ raw, toRawMinima (default 0 (map_get (partyId p) (balances st))) (tokenScale c) = Ok raw ∧
      outs = if raw >? 0 then [mkOutput (canonicalSettlementAddress p) raw (tokenId c) false []] else []) (parties c) shares ∧
    Forall2 (λ h o, htlc_output c h = Ok o) (List.filter is_pending (pendingHTLCs st)) locked.

Lemma resolve_addresses_Ok ps supplied resolved ads : resolve_addresses ps supplied resolved = Ok ads → NoDup (map partyId ps) →
  (∀ p, p ∈ ps → map_get (partyId p) ads = Some (canonicalSettlementAddress p)) ∧
  ∀ k, k ∉ map partyId ps → map_get k ads = map_get k resolved.
Proof.
  revert resolved. induction ps as [|p ps IH]; intros resolved H Hn.
  - injection H as <-. split; [by intros p ?%elem_of_nil|done].
  - cbn [resolve_addresses] in H. apply result_bind_Ok in H as (u & _ & H). cbn [map] in Hn. apply NoDup_cons in Hn as [Hp Hn].
    destruct (IH _ H Hn) as [IHp IHk]. split.
    + intros q [->|Hq]%elem_of_cons; [|by apply IHp]. rewrite IHk by done. apply map_get_set_eq.
    + intros k Hk. cbn [map] in Hk. rewrite IHk by set_solver. apply map_get_set_ne. set_solver.
Qed.

Lemma settlement_pays_out c st supplied ads opts d : NoDup (map partyId (parties c)) →
  resolveSettlementAddresses (parties c) supplied = Ok ads → buildSettlementTx sha3_256 c st ads opts = Ok d → pays_out c st d.
Proof.
  intros Hn Ha H. destruct (resolve_addresses_Ok _ _ _ _ Ha Hn) as [Hp _]. clear Hn Ha. unfold buildSettlementTx in H.
  do 5 (apply result_bind_Ok in H as (? & _ & H)). apply result_bind_Ok in H as (outs & Ho & H).
  apply result_bind_Ok in H as (hs & Hh & [= <-]). apply result_mapM_Ok in Ho, Hh. exists outs, hs. cbn. split; [done|]. split; [|done].
  revert outs Ho Hp. induction (parties c) as [|p ps IH]; intros outs Ho Hp; inversion Ho as [|? o ? outs' Hpo Ho']; subst; constructor.
  - unfold party_output in Hpo. rewrite Hp in Hpo by set_solver. apply result_bind_Ok in Hpo as (raw & Hr & Hpo). exists raw. split; [done|].
    destruct (canonicalSettlementAddress p); [done|]. by injection Hpo as <-.
  - apply IH; [done|]. intros q Hq. apply Hp. set_solver.
Qed.

Lemma verified_Ok c cl v : buildVerifiedSettlementDraft c cl = Ok v →
  vs_state v = resolveSettlementState c ∧
  (∃ ads, resolveSettlementAddresses (parties c) (cl_partyAddresses cl) = Ok ads ∧
    buildSettlementTx sha3_256 c (resolveSettlementState c) ads (mkSettlementOpts false []) = Ok (vs_draft v)) ∧
  (∃ b, omniaDraftToCanonicalMinimaBytes sha3_256 (vs_draft v) = Ok b ∧ vs_digest v = sha3_256 b) ∧
  (∀ n, cl_sequence cl = Some n → n = default 0 (onChainSequence c)) ∧
  (∀ t, cl_settlementTxHex cl = Some t → t = serializeTxDraft (vs_draft v)) ∧
  (∀ d, cl_digestHex cl = Some d → toLowerCase (strip_0x d) = hex_of_bytes (vs_digest v)).
Proof.
  unfold buildVerifiedSettlementDraft. intros H. apply result_bind_Ok in H as ([] & Hs%throw_if_Ok & H).
  apply result_bind_Ok in H as (ads & Ha & H). apply result_bind_Ok in H as (d & Hd & H). apply result_bind_Ok in H as (h & Hh & H).
  apply result_bind_Ok in H as ([] & Ht%throw_if_Ok & H). apply result_bind_Ok in H as ([] & Hg%throw_if_Ok & [= <-]).
  apply result_bind_Ok in Hh as (b & Hb & [= <-]). cbn [vs_state vs_draft vs_digest].
  split; [done|]. split; [by exists ads|]. split; [by exists b|]. split_and!.
  - intros n Hn. rewrite Hn in Hs. apply negb_false_iff in Hs. by apply Z.eqb_eq in Hs.
  - intros t Hn. rewrite Hn in Ht. apply negb_false_iff in Ht. by apply String.eqb_eq in Ht.
  - intros t Hn. rewrite Hn in Hg. apply negb_false_iff in Hg. by apply String.eqb_eq in Hg.
Qed.
Lemma verified_pays c cl v : NoDup (map partyId (parties c)) → buildVerifiedSettlementDraft c cl = Ok v →
  pays_out c (resolveSettlementState c) (vs_draft v).
Proof. intros Hn (_ & (ads & Ha & Hd) & _)%verified_Ok. by eapply settlement_pays_out. Qed.

(** The request that is answered is the one the channel itself would make. *)
Definition own_request (c : OmniaChannel) (rq : SettlementSigningRequest) (d : OmniaTxDraft) (b : Bytes) : Prop :=
  rq_channelId rq = channelId c ∧ rq_sequence rq = default 0 (onChainSequence c) ∧
  rq_settlementTxHex rq = serializeTxDraft d ∧ toLowerCase (strip_0x (rq_digestHex rq)) = hex_of_bytes (sha3_256 b).

Lemma answer_signs c rq signer : NoDup (map partyId (parties c)) →
  logs (λ n : Net P C, w_signed (n_world n))
    (λ x, ∃ d b i, x = (tree_of c, i, sha3_256 b) ∧ omniaDraftToCanonicalMinimaBytes sha3_256 d = Ok b ∧
       own_request c rq d b ∧ pays_out c (resolveSettlementState c) d)
    (signSettlementRequest c rq signer : Settling _).
Proof.
  intros Hn. unfold signSettlementRequest. apply logs_lift. intros s _. apply logs_lift. intros party _.
  apply logs_throw_if. intros Hc%negb_false_iff%String.eqb_eq. apply logs_lift. intros v Hv.
  pose proof (verified_pays _ _ _ Hn Hv) as Hp. apply verified_Ok in Hv as (_ & _ & (b & Hb & Hd) & Hs & Ht & Hg).
  apply logs_then; [|by intros [[? ?] ?]; auto with closing]. apply on_world_logs. eapply logs_weaken; [|apply draft_signs].
  intros x (i & b' & Hb' & ->). rewrite Hb in Hb'. apply Ok_inj in Hb' as <-. exists (vs_draft v), b, i.
  split; [done|]. split; [done|]. split; [|done]. split; [done|]. split; [by apply Hs|]. split; [by apply Ht|].
  rewrite <- Hd. by apply Hg.
Qed.

(** *** The proposal *)

Definition signature_bytes (c : OmniaChannel) (sigs : list (string * ChannelSignature)) : list Bytes :=
  omap (λ p, map_get (partyId p) sigs) (parties c).
Lemma settlement_hands c o v sigs : hands
  (λ x, omniaDraftToCanonicalMinimaBytes sha3_256 (vs_draft v) = Ok x.1 ∧
     ∃ proofs, assertBroadcastProofs (op_broadcastProofs o) = Ok proofs ∧ serializeOmniaWitness (signature_bytes c sigs) proofs = Ok x.2)
  (broadcast_settlement c o v sigs : Settling string).
Proof.
  unfold broadcast_settlement. apply logs_lift. intros proofs Hp. apply logs_lift. intros b Hb. apply logs_lift. intros w Hw.
  assert (HQ : ∀ x : Bytes * Bytes, x = (b, w) → omniaDraftToCanonicalMinimaBytes sha3_256 (vs_draft v) = Ok x.1 ∧
     ∃ proofs, assertBroadcastProofs (op_broadcastProofs o) = Ok proofs ∧ serializeOmniaWitness (signature_bytes c sigs) proofs = Ok x.2).
  { intros x ->. split; [done|]. by exists proofs. }
  destruct submitTransaction as [submit|].
  - apply logs_then; [by apply hands_over, HQ|]. intros _. apply silent_bind; [auto with closing|]. intros r.
    apply silent_bind; [auto with closing|]. intros _. destruct (txpowid r) as [[|? ?]|]; auto with closing; apply silent_lift.
  - apply logs_then; [|auto with closing]. eapply logs_weaken; [exact HQ|]. apply mine_hands.
Qed.

Lemma check_counterparties_Ok c d l : check_counterparties c d l = Ok tt →
  Forall (λ kv, ∃ p, find_id c kv.1 = Some p ∧ verifyChannelSignature kv.2 d (publicKeyDigest p) = true) l.
Proof.
  induction l as [|[id sig] l IH]; intros H; [constructor|]. cbn [check_counterparties] in H.
  apply result_bind_Ok in H as (p & Hp%some_Ok & H). apply result_bind_Ok in H as ([] & Hv%throw_if_Ok & H).
  constructor; [|by apply IH]. exists p. split; [done|]. by apply negb_false_iff.
Qed.

Lemma silent_local c o v party : silent (local_signature c o v party : Settling _).
Proof.
  unfold local_signature. destruct (localSignature o); [auto with closing|]. apply silent_bind; [auto with closing|]. intros s.
  apply silent_bind; [auto with closing|]. intros _. apply silent_bind; [by apply silent_zoom|]. intros [[? ?] ?]. auto with closing.
Qed.

Lemma propose_Ok c o n payload ps n' : NoDup (map partyId (parties c)) → proposeSettlement c o n = (Ok (payload, ps), n') →
  ∃ d b, omniaDraftToCanonicalMinimaBytes sha3_256 d = Ok b ∧ sp_settlementTxHex payload = serializeTxDraft d ∧
    pays_out c (resolveSettlementState c) d ∧
    Forall (λ kv, ∃ p, find_id c kv.1 = Some p ∧ verifyChannelSignature kv.2 (sha3_256 b) (publicKeyDigest p) = true) (counterpartySignatures o) ∧
    if onChain o then ∃ proofs w, assertBroadcastProofs (op_broadcastProofs o) = Ok proofs ∧
      serializeOmniaWitness (signature_bytes c (ps_signatures ps)) proofs = Ok w ∧ n_sent n' = n_sent n ++ [(b, w)]
    else n_sent n' = n_sent n.
Proof.
  intros Hn H. unfold proposeSettlement in H. run_steps H.
  match goal with E : buildVerifiedSettlementDraft _ _ = Ok ?v |- _ => rename E into Hv, v into v' end.
  match goal with E : local_signature _ _ _ _ _ = (Ok ?r, ?n1) |- _ => destruct r as [sig ind]; rename E into Hl, n1 into n2 end.
  match goal with E : check_counterparties _ _ _ = Ok ?u |- _ => destruct u; rename E into Hc end.
  pose proof (verified_pays _ _ _ Hn Hv) as Hp. pose proof Hv as (_ & _ & (b & Hb & Hd) & _)%verified_Ok.
  assert (Hs : n_sent n2 = n_sent n) by (pose proof (silent_local c o v' x1 (n_sent n) n eq_refl) as Hs; by rewrite Hl in Hs).
  apply mbind_Ok in H as (id & n3 & Hi & [= <- <- <-]). exists (vs_draft v'), b. split; [done|].
  split; [unfold buildVerifiedSettlementDraft in Hv; by run_steps Hv|]. split; [done|].
  split; [rewrite <- Hd; by apply check_counterparties_Ok|]. cbn [ps_signatures].
  destruct (onChain o); [|by injection Hi as _ <-].
  pose proof (settlement_hands c o v' (spread [(partyId x1, sig)] (counterpartySignatures o)) _ n2 Hs) as Hh.
  apply mbind_Ok in Hi as (id' & n4 & Hi & [= <- <-]). rewrite Hi in Hh.
  destruct Hh as [[? _]|([b' w] & (Hb' & proofs & Hpr & Hw) & Hn')]; [done|]. cbn [fst snd] in *. rewrite Hb in Hb'.
  apply Ok_inj in Hb' as <-. by exists proofs, w.
Qed.
End closing.

(** ** A channel that is closed *)

#[local] Instance toy_txpow : TxPow := {
  serializeTxBody := λ a b c, a +:+ b +:+ c;
  mineTxPoW := λ _ _, Ok ("header", "id")%string }.
(** A chain that grows by 40 blocks at every reading of its tip; each coin on it was made
    at block 50 and pays to the toy channel. *)
#[local] Instance toy_chain : ChainStateProvider Z := {
  getTip := λ tip, (Ok tip, tip + 40);
  getCoin := λ _ tip, (Ok (Some (mkCoin false "0xabcd" (Some (JNum (of_Z 50))) [] "100" "0x00" true)), tip);
  getToken := λ _ tip, (Ok None, tip);
  broadcastTxPoW := λ _ tip, (Ok (mkBroadcast None (Some "0x77"%string) None), tip);
  submitTransaction := None;
  resolveTxPowTarget := λ tip, (Ok "target"%string, tip) }.

Definition toy_key (c : ascii) : string := repeat_char 64 c.
Definition close_channel (latest : option SignedChannelState) : OmniaChannel :=
  mkChannel "0xc1" "0xf1" "0x1234" "RETURN TRUE" "eltoo-payment" 1 "0xabcd" "0x00" 0 100
    [mkParty "alice" (toy_key "a") None; mkParty "bob" (toy_key "b") None] [("alice", 60); ("bob", 40)]%string [] 3 (Some 0) latest []
    active false (Some 30) None None None None None (of_Z 0) (of_Z 0).
Notation toy_programs := (programs TxSpec.toy_sha).
Definition toy_vars : list StateValue := [mkSV STATE_COMMITMENT_V2_PORT (SStr "00") THex].
Definition toy_package : option SignedClosePackage :=
  match buildUnsignedClosePackage toy_programs (close_channel None) 3 [("alice", 60); ("bob", 40)]%string [] toy_vars None with
  | Ok p => let sign p party := addClosePackageSignature p party "u" (toy_leaf 0) "s" (toy_leaf 1) in
            Some (sign (sign p "alice"%string) "bob"%string)
  | Err _ => None
  end.
Definition toy_latest : SignedChannelState :=
  mkState 3 [("alice", 60); ("bob", 40)]%string [] toy_vars "0xaa" [] [] toy_package None.
Definition toy_closing : OmniaChannel := close_channel (Some toy_latest).
Definition toy_net : Net Z Z := mkNet toy_world 20 [].
Definition toy_proofs : option BroadcastProofs := Some (mkProofs (Some ["coin"%string]) (Some ["script"%string])).
(** The close of the toy channel: start, record the coin, settle. *)
Definition toy_calls : list close_call :=
  [StartClose 1 toy_proofs; RecordCoin 2 "0x99" true 1; FinalizeClose 3 toy_proofs].
Fixpoint run_calls (ks : list close_call) (c : OmniaChannel) (n : Net Z Z) : result OmniaError OmniaChannel * Net Z Z :=
  match ks with
  | [] => (Ok c, n)
  | k :: ks => match run_close toy_programs k c n with (Ok c', n') => run_calls ks c' n' | r => r end
  end.

Definition toy_closed : OmniaChannel :=
  match (run_calls toy_calls toy_closing toy_net).1 with Ok c => c | Err _ => toy_closing end.
Definition toy_recorded : result OmniaError OmniaChannel * Net Z Z := run_calls (take 2 toy_calls) toy_closing toy_net.
Definition toy_recorded_channel : OmniaChannel := match toy_recorded.1 with Ok c => c | Err _ => toy_closing end.
Definition toy_started : result OmniaError OmniaChannel * Net Z Z := run_close toy_programs (StartClose 1 toy_proofs) toy_closing toy_net.
Definition toy_started_channel : OmniaChannel := match toy_started.1 with Ok c => c | Err _ => toy_closing end.

(** ** Properties *)

(** C9. A unilateral close broadcasts what all parties signed and nothing else.  The start
    and the replacement hand over the update of their state and the settlement hands over
    its settlement, rebuilt by the channel from the sequence, balances and payments of the
    state; the witness holds, in the order of the parties, a valid signature of each over
    the hash of the very bytes handed over.  A call that throws has handed over nothing or
    that; recording a coin hands over nothing.  The texts of the draft must not begin with
    the tag of bigints, which its reader would take them for. *)
Theorem a_close_broadcasts_what_all_signed {Cr : Crypto} {P : Type} {C : Type} {Cp : ChainStateProvider C} {Tp : TxPow}
    registry k c (n : Net P C) :
  (∀ tx st d, to_broadcast k c = Some (tx, st) → close_draft registry c st tx = Ok d → draft_ok d = true) →
  let sent := n_sent (run_close registry k c n).2 in
  match to_broadcast k c with
  | None => sent = n_sent n
  | Some (tx, st) => (is_ok (run_close registry k c n).1 = false ∧ sent = n_sent n) ∨
      ∃ d proofs x, sent = n_sent n ++ [x] ∧ close_draft registry c st tx = Ok d ∧ signed_by_all c proofs d x
  end.
Proof.
  intros Hok sent. destruct (to_broadcast k c) as [[tx st]|] eqn:Et; [|by apply call_silent].
  destruct (call_hands registry k c tx st Et (λ d, Hok tx st d eq_refl) (n_sent n) n eq_refl) as [?|(x & (d & proofs & Hd & Hs) & Hx)]; [by left|].
  right. by exists d, proofs, x.
Qed.
Lemma a_close_broadcasts_what_all_signed_witness :
  let final := run_close toy_programs (FinalizeClose 3 toy_proofs) toy_recorded_channel toy_recorded.2 in
  is_ok final.1 = true ∧ length (n_sent final.2) = 2%nat ∧
  ((is_ok final.1 = false ∧ n_sent final.2 = n_sent toy_recorded.2) ∨
   ∃ d proofs x, n_sent final.2 = n_sent toy_recorded.2 ++ [x] ∧ close_draft toy_programs toy_recorded_channel toy_latest close_settlement = Ok d ∧
     signed_by_all toy_recorded_channel proofs d x).
Proof.
  split; [vm_compute; reflexivity|]. split; [vm_compute; reflexivity|].
  assert (El : latestState toy_recorded_channel = Some toy_latest) by (vm_compute; reflexivity).
  pose proof (a_close_broadcasts_what_all_signed toy_programs (FinalizeClose 3 toy_proofs) toy_recorded_channel toy_recorded.2) as H.
  cbv zeta in H. unfold to_broadcast in H. rewrite El in H. apply H. intros tx st d [= <- <-] Hd.
  assert (match close_draft toy_programs toy_recorded_channel toy_latest close_settlement with Ok d => draft_ok d | Err _ => true end = true) as Hok
    by (vm_compute; reflexivity).
  by rewrite Hd in Hok.
Defined.

(** C10. The settlement of a channel waits out the contest of its last update.  Whatever
    calls of the close and of the channel came before, from a channel with no close in
    progress, when the settlement returns, its state is the one whose update was broadcast
    last; a coin was recorded since, and the contest delay has passed at the tip of the
    chain both since the recorded height and since the height that the coin has now; the
    channel is closed, and no start and no further settlement of it succeeds. *)
Theorem settlement_waits_out_the_contest {Cr : Crypto} {P : Type} {Wl : WotsLeaseProvider P} {C : Type} {Cp : ChainStateProvider C} {Tp : TxPow}
    registry c0 l c now proofs (n : Net P C) c' payload n' :
  unilateralClose c0 = None → history (P := P) (C := C) registry c0 l c →
  finalizeUnilateralClose registry now c proofs n = (Ok (c', payload), n') →
  let delay := channelContestDelay (contestDelayBlocks c0) in
  (∃ st l1 l2 id h tip chain coin chain' i,
     latestState c = Some st ∧ sp_sequence payload = sequence st ∧ sp_balances payload = balances st ∧
     l = l1 ++ Updated (sequence st) :: l2 ∧ Forall no_update l2 ∧ Recorded id h ∈ l2 ∧
     getTip (n_chain n) = (Ok tip, chain) ∧ getCoin id chain = (Ok (Some coin), chain') ∧
     coinCreatedBlock (co_created coin) = Some i ∧ h + delay <= tip ∧ i + delay <= tip) ∧
  c_status c' = closed ∧
  ∀ k (m : Net P C), match k with StartClose _ _ | FinalizeClose _ _ => True | _ => False end → is_ok (run_close registry k c' m).1 = false.
Proof.
  intros H0 Hh Hf delay. pose proof (history_fits registry c0 l c H0 Hh) as [Hd Hr].
  apply finalize_Ok in Hf as (u & st & p & txpow & Eu & El & Es & (tip & chain & id & coin & chain' & i & Ht & Hi & Hg & Hc & H1 & H2) & [= -> ->]).
  destruct (Hr u Eu) as (He & l1 & l2 & Hl & Hn & Hid). rewrite Hd in H2. split; [|split; [done|]; intros k m Hk; by apply closed_refuses].
  exists st, l1, l2, id, (contestStartBlock u), tip, chain, coin, chain', i. rewrite Es.
  split_and!; try done; [by apply Hid|]. subst delay. lia.
Qed.
Lemma settlement_waits_out_the_contest_witness : ∃ c' payload n',
  finalizeUnilateralClose toy_programs 3 toy_recorded_channel toy_proofs toy_recorded.2 = (Ok (c', payload), n') ∧
  sp_balances payload = [("alice", 60); ("bob", 40)]%string ∧ c_status c' = closed ∧
  is_ok (run_close toy_programs (StartClose 4 toy_proofs) c' toy_net).1 = false.
Proof.
  destruct (finalizeUnilateralClose toy_programs 3 toy_recorded_channel toy_proofs toy_recorded.2) as [[[c' payload]|e] n'] eqn:E;
    [|vm_compute in E; discriminate E].
  exists c', payload, n'. split; [done|].
  assert (Hp : match (finalizeUnilateralClose toy_programs 3 toy_recorded_channel toy_proofs toy_recorded.2).1 with
    | Ok r => sp_balances r.2 | Err _ => [] end = [("alice", 60); ("bob", 40)]%string) by (vm_compute; reflexivity).
  rewrite E in Hp. split; [exact Hp|]. clear Hp.
  assert (E1 : run_close toy_programs (StartClose 1 toy_proofs) toy_closing toy_net = (Ok toy_started_channel, toy_started.2)) by (vm_compute; reflexivity).
  assert (E2 : run_close toy_programs (RecordCoin 2 "0x99" true 1) toy_started_channel toy_started.2 = (Ok toy_recorded_channel, toy_recorded.2))
    by (vm_compute; reflexivity).
  pose proof (history_calls _ _ _ _ _ _ _ _ (history_calls _ _ _ _ _ _ _ _ (history_begins toy_programs toy_closing) E1) E2) as Hh.
  destruct (settlement_waits_out_the_contest toy_programs toy_closing _ toy_recorded_channel 3 toy_proofs toy_recorded.2 c' payload n' eq_refl Hh E)
    as (_ & Hc & Hk). split; [exact Hc|]. by apply Hk.
Defined.

(** C11. A settlement request is answered with at most one signature, with a leaf of the
    channel's tree and over the channel's own settlement: the request names this channel,
    its on-chain sequence, and the text and digest of the transaction that pays each party
    its balance at the address the channel knows for it and each open payment to its
    contract.  Any other request is refused before anything is signed. *)
Theorem requests_are_signed_for_the_own_settlement_only {Cr : Crypto} {P : Type} {Wl : WotsLeaseProvider P} {C : Type}
    c rq signer (n : Net P C) :
  NoDup (map partyId (parties c)) →
  let signed := w_signed (n_world (signSettlementRequest c rq signer n).2) in
  (is_ok (signSettlementRequest c rq signer n).1 = false ∧ signed = w_signed (n_world n)) ∨
  ∃ d b i, signed = w_signed (n_world n) ++ [(tree_of c, i, sha3_256 b)] ∧
    omniaDraftToCanonicalMinimaBytes sha3_256 d = Ok b ∧ own_request c rq d b ∧ pays_out c (resolveSettlementState c) d.
Proof.
  intros Hn signed. destruct (answer_signs c rq signer Hn (w_signed (n_world n)) n eq_refl) as [?|(x & (d & b & i & -> & ?) & Hx)]; [by left|].
  right. by exists d, b, i.
Qed.
Definition toy_request : SettlementSigningRequest :=
  match buildSettlementSigningRequest toy_closing [] with Ok r => r | Err _ => mkSettlementRequest "" 0 "" "" [] end.
Definition toy_key_signer (key : string) : ChannelSigner := mkSigner key (λ _ _, Ok "signature"%string).
Lemma requests_are_signed_for_the_own_settlement_only_witness :
  let run := signSettlementRequest toy_closing toy_request (Some (toy_key_signer (toy_key "b"))) toy_net in
  is_ok run.1 = true ∧ length (w_signed (n_world run.2)) = 1%nat ∧
  ((is_ok run.1 = false ∧ w_signed (n_world run.2) = w_signed (n_world toy_net)) ∨
   ∃ d b i, w_signed (n_world run.2) = w_signed (n_world toy_net) ++ [(tree_of toy_closing, i, sha3_256 b)] ∧
     omniaDraftToCanonicalMinimaBytes sha3_256 d = Ok b ∧ own_request toy_closing toy_request d b ∧
     pays_out toy_closing (resolveSettlementState toy_closing) d).
Proof.
  split; [vm_compute; reflexivity|]. split; [vm_compute; reflexivity|].
  apply (requests_are_signed_for_the_own_settlement_only toy_closing toy_request (Some (toy_key_signer (toy_key "b"))) toy_net).
  apply TxSpec.keys_NoDup. by vm_compute.
Defined.

(** C12. A settlement that is proposed pays the balances of the channel.  The transaction in
    the payload is the channel's own settlement, whatever text or addresses were supplied;
    every signature from another party is that party's, and valid over the hash of the
    bytes; with a chain provider exactly those bytes are handed over, with the signatures
    in the order of the parties, and without one nothing is. *)
Theorem proposed_settlement_pays_the_balances {Cr : Crypto} {P : Type} {Wl : WotsLeaseProvider P} {C : Type}
    {Cp : ChainStateProvider C} {Tp : TxPow} c o (n : Net P C) payload ps n' :
  NoDup (map partyId (parties c)) → proposeSettlement c o n = (Ok (payload, ps), n') →
  ∃ d b, omniaDraftToCanonicalMinimaBytes sha3_256 d = Ok b ∧ sp_settlementTxHex payload = serializeTxDraft d ∧
    pays_out c (resolveSettlementState c) d ∧
    Forall (λ kv, ∃ p, find_id c kv.1 = Some p ∧ verifyChannelSignature kv.2 (sha3_256 b) (publicKeyDigest p) = true) (counterpartySignatures o) ∧
    if onChain o then ∃ proofs w, assertBroadcastProofs (op_broadcastProofs o) = Ok proofs ∧
      serializeOmniaWitness (signature_bytes c (ps_signatures ps)) proofs = Ok w ∧ n_sent n' = n_sent n ++ [(b, w)]
    else n_sent n' = n_sent n.
Proof. apply propose_Ok. Qed.
Definition toy_options : ProposeSettlementOptions :=
  mkOptions (Some (toy_key_signer (toy_key "a"))) [] true toy_proofs (Some (rq_settlementTxHex toy_request)) [("bob", "signature")]%string None None None true.
Lemma proposed_settlement_pays_the_balances_witness : ∃ payload ps n',
  proposeSettlement toy_closing toy_options toy_net = (Ok (payload, ps), n') ∧ length (n_sent n') = 1%nat ∧
  ∃ d b, omniaDraftToCanonicalMinimaBytes sha3_256 d = Ok b ∧ pays_out toy_closing (resolveSettlementState toy_closing) d.
Proof.
  destruct (proposeSettlement toy_closing toy_options toy_net) as [[[payload ps]|e] n'] eqn:E; [|vm_compute in E; discriminate E].
  exists payload, ps, n'. split; [done|]. split.
  - assert (Hl : length (n_sent (proposeSettlement toy_closing toy_options toy_net).2) = 1%nat) by (vm_compute; reflexivity). by rewrite E in Hl.
  - destruct (proposed_settlement_pays_the_balances toy_closing toy_options toy_net payload ps n') as (d & b & Hb & _ & Hp & _);
      [apply TxSpec.keys_NoDup; by vm_compute|exact E|].
    exact (ex_intro _ d (ex_intro _ b (conj Hb Hp))).
Defined.

End SeSpec.
