(* ===== verification/OpeningSpec.v ===== *)
(** * What opening a channel promises

    The opener broadcasts a transaction that pays the whole value to the script of the
    two keys; the side that accepts the proposal holds the same channel, consistent from
    its first state on, and one that it holds active is backed by a coin on the chain. *)

From Stdlib Require Import ZArith Lia Ascii String.
From stdpp Require Import base gmap list strings.
From S2P Require Import Prelude JsBase JsText JsMap Watermark Guards Omnia Transactions TransactionsSpec Eltoo Programs Sign Channel ChannelSpec SigningSpec Json JsonSpec Draft Settlement SettlementSpec Opening.

Module OgSpec.
Import Js JsText JsMap Gd Om Tx El Pg Sg Ch ChSpec Se SeSpec Og.

Section opening.
Context {Cr : Crypto} {P : Type} {C : Type} {Cp : ChainStateProvider C} {Tp : TxPow} (registry : list (string * ChannelProgram)).
Notation Opening := (M (Net P C) OmniaError).
Notation silent := (SeSpec.silent (@n_sent P C)).
Notation hands := (logs (@n_sent P C)).

(** What both sides must hold alike. *)
Definition terms (c : OmniaChannel) :=
  ((channelId c, fundingTxId c, fundingCoinId c, fundingScript c, programId c, programVersion c, fundingAddress c),
   (tokenId c, tokenScale c, totalValue c, parties c, c_balances c, c_pendingHTLCs c),
   (currentSequence c, onChainSequence c, latestState c, contestDelayBlocks c)).

(** The plan of an opening: its script, transaction, channel and proposal. *)
Definition plan_of (now : Z) (randomId : string) (params : CreateChannelParams) (pl : ChannelOpeningPlan) : Prop :=
  let program := default DefaultEltooPaymentProgram (cp_program params) in
  let local := cp_localParty params in let remote := cp_remoteParty params in
  let a := cp_localAmount params in let b := cp_remoteAmount params in
  let token := default TOKENID_MINIMA (cp_tokenId params) in let scale := default 0 (cp_tokenScale params) in
  ∃ script draft raw out,
    buildScript program [local; remote] (cp_contestDelayBlocks params) = Ok script ∧ 0 < a ∧ 0 < b ∧
    toRawMinima (a + b) scale = Ok raw ∧
    d_outputs draft = [mkOutput (scriptAddress sha3_256 script) raw token true (channelStateVars false 0)] ∧
    omniaDraftToCanonicalMinimaBytes sha3_256 draft = Ok (fundingTxBytes pl) ∧ fundingDigest pl = sha3_256 (fundingTxBytes pl) ∧
    pl_channel pl = new_channel now randomId "" out script program (scriptAddress sha3_256 script) token scale local remote a b
                      opening (cp_virtual params) (cp_contestDelayBlocks params) (cp_factoryRef params) ∧
    pl_proposal pl = mkChannelProposal randomId local remote a b token (Some scale) script (Some (id program)) (Some (version program))
                       (Some (scriptAddress sha3_256 script)) "" out (cp_contestDelayBlocks params).

Lemma buildFundingTx_Ok address total token scale ids amounts addrs states d :
  buildFundingTx address total token scale ids amounts addrs [] states = Ok d →
  ∃ raw, toRawMinima total scale = Ok raw ∧ d_outputs d = [mkOutput address raw token true (channelStateVars false 0)].
Proof. unfold buildFundingTx. intros H. inv_M. by eexists. Qed.

Lemma build_Ok now rid params (n : Net P C) pl n' : buildChannelOpening now rid params n = (Ok pl, n') → plan_of now rid params pl.
Proof.
  unfold buildChannelOpening. intros H. apply mbind_Ok in H as (script & n1 & [Hs ->]%mlift_Ok & H). cbv zeta in H.
  apply mbind_Ok in H as (u & n1 & [Hp ->]%mthrow_if_Ok & H). apply mbind_Ok in H as (coin & n2 & _ & H).
  apply mbind_Ok in H as (amount & n3 & _ & H). apply mbind_Ok in H as (u1 & n4 & _ & H).
  apply mbind_Ok in H as (d & n5 & [Hd ->]%mlift_Ok & H). apply mbind_Ok in H as (b & n6 & [Hb ->]%mlift_Ok & H).
  apply mbind_Ok in H as (ids & n7 & _ & H). apply mbind_Ok in H as (u2 & n8 & _ & [= <- _]).
  apply buildFundingTx_Ok in Hd as (raw & Hr & Ho). apply orb_false_iff in Hp as [Ha Hb'].
  exists script, d, raw, (default ""%string (head ids)). cbn [fundingTxBytes fundingDigest pl_channel pl_proposal]. split_and!; try done; lia.
Qed.
Lemma build_silent now rid params : silent (buildChannelOpening now rid params).
Proof.
  unfold buildChannelOpening, unspent_funding. repeat (apply silent_bind; [|intros ?]); auto with closing; try (by apply silent_zoom).
  destruct (_ && _); [|auto with closing]. apply silent_bind; [by apply silent_zoom|auto with closing].
Qed.

(** *** The broadcast *)

Lemma await_silent patience coinId : silent (await_coin patience coinId).
Proof.
  induction patience as [|k IH]; cbn [await_coin]; (apply silent_bind; [by apply silent_zoom|intros [coin|]]); auto with closing.
Qed.
Lemma unspent_silent coinId : silent (unspent_funding coinId : Opening Coin).
Proof. unfold unspent_funding. apply silent_bind; [by apply silent_zoom|]. auto with closing. Qed.
Lemma funding_hands d w : hands (λ x, x = (d, w)) (broadcast_funding d w).
Proof.
  unfold broadcast_funding. destruct submitTransaction as [submit|].
  - apply logs_then; [by apply hands_over|]. intros _. apply silent_bind; [by apply silent_zoom|]. intros r.
    apply silent_bind; [auto with closing|]. intros _. destruct (txpowid r) as [[|? ?]|]; auto with closing; apply silent_lift.
  - apply logs_then; [|auto with closing]. apply mine_hands.
Qed.
Lemma finalize_hands now patience pl opts : hands (λ x, x.1 = fundingTxBytes pl) (finalizeChannelOpening now patience pl opts).
Proof.
  unfold finalizeChannelOpening. apply logs_step; [apply unspent_silent|]. intros _ _ _ _. apply logs_lift. intros w _.
  apply logs_then; [|intros txid; apply silent_bind; [apply await_silent|auto with closing]].
  eapply logs_weaken; [|apply funding_hands]. by intros x ->.
Qed.
Lemma finalize_opening_Ok now patience pl opts (n : Net P C) c p t n' : finalizeChannelOpening now patience pl opts n = (Ok (c, p, t), n') →
  ∃ st, (st = opening ∨ st = active) ∧ c = with_funding now (pl_channel pl) t st ∧ p = proposal_with_funding (pl_proposal pl) t.
Proof.
  unfold finalizeChannelOpening. intros H. inv_M. eexists. split; [|split; reflexivity]. repeat case_match; auto.
Qed.

Lemma create_Ok now patience rid params (n : Net P C) c p n' : createChannel now patience rid params n = (Ok (c, p), n') →
  ∃ pl t st w, plan_of now rid params pl ∧ (st = opening ∨ st = active) ∧ c = with_funding now (pl_channel pl) t st ∧
    p = proposal_with_funding (pl_proposal pl) t ∧ n_sent n' = n_sent n ++ [(fundingTxBytes pl, w)].
Proof.
  unfold createChannel. intros H. apply mbind_Ok in H as (pl & n1 & Hb & H). apply mbind_Ok in H as (opts & n2 & Ho & H).
  apply mbind_Ok in H as ([[c' p'] t] & n3 & Hf & [= <- <- <-]).
  assert (n_sent n1 = n_sent n) as H1 by (pose proof (build_silent now rid params _ n eq_refl) as Hs; by rewrite Hb in Hs).
  assert (n2 = n1) as ->.
  { destruct (fundingWitnessBytes params) as [[|? ?]|], (fundingSigner params), (fundingProofs params); inv_M; try done;
      by match goal with E : mlift _ _ = _ |- _ => apply mlift_Ok in E as [_ ->] end. }
  pose proof (finalize_hands now patience pl opts _ n1 H1) as Hh. rewrite Hf in Hh.
  destruct Hh as [[? _]|([b w] & Hx & Hn)]; [done|]. cbn in Hx. subst b. apply finalize_opening_Ok in Hf as (st & Hst & -> & ->).
  exists pl, t, st, w. split; [by eapply build_Ok|]. done.
Qed.
(** *** Acceptance *)

(** The coin behind a channel: unspent at the script's address, with the whole value, and
    as deep in the chain as was asked for. *)
Definition backed (c : OmniaChannel) (m : Z) : Prop :=
  ∃ k coin k', getCoin (fundingCoinId c) k = (Ok (Some coin), k') ∧ co_spent coin = false ∧ co_address coin = fundingAddress c ∧
    BigInt (co_amount coin) = Ok (totalValue c) ∧ co_tokenid coin = tokenId c ∧
    (m <= 0 ∨ ∃ tip k'', getTip k' = (Ok tip, k'') ∧ ∃ h, coinCreatedBlock (co_created coin) = Some h ∧ m <= tip - h).

Lemma await_Ok patience coinId (n : Net P C) coin n' : await_coin patience coinId n = (Ok (Some coin), n') →
  ∃ k, getCoin coinId k = (Ok (Some coin), n_chain n').
Proof.
  revert n. induction patience as [|j IH]; intros n H; cbn [await_coin] in H; apply mbind_Ok in H as (found & n1 & Hc%chain_Ok & H);
    destruct found as [coin'|].
  1,3: injection H as <- <-; by exists (n_chain n).
  - done.
  - by apply IH in H.
Qed.
Lemma confirmations_Ok created tip n : confirmationsAt created tip = Some n → ∃ h, coinCreatedBlock created = Some h ∧ n = tip - h.
Proof. unfold confirmationsAt. destruct (coinCreatedBlock created) as [h|]; [|done]. case_match; [done|]. intros [= <-]. by exists h. Qed.

Lemma check_funding_Ok patience p address m (n : Net P C) n' : check_funding patience p address m n = (Ok true, n') →
  ∃ k coin k', getCoin (pp_fundingCoinId p) k = (Ok (Some coin), k') ∧ co_spent coin = false ∧ co_address coin = address ∧
    BigInt (co_amount coin) = Ok (localAmount p + remoteAmount p) ∧ co_tokenid coin = pp_tokenId p ∧
    (m <= 0 ∨ ∃ tip k'', getTip k' = (Ok tip, k'') ∧ ∃ h, coinCreatedBlock (co_created coin) = Some h ∧ m <= tip - h).
Proof.
  unfold check_funding. intros H. apply mbind_Ok in H as (found & n1 & Hf & H). apply mbind_Ok in H as (coin & n2 & [Hc%some_Ok ->]%mlift_Ok & H).
  subst found. apply await_Ok in Hf as (k & Hg). apply mbind_Ok in H as (u & n2' & [Hsp ->]%mthrow_if_Ok & H).
  apply mbind_Ok in H as (u1 & n3 & [Ha ->]%mthrow_if_Ok & H). cbv zeta in H. apply mbind_Ok in H as (amount & n4 & [Hb ->]%mlift_Ok & H).
  apply mbind_Ok in H as (u2 & n5 & [Hv ->]%mthrow_if_Ok & H). apply mbind_Ok in H as (u3 & n6 & [Ht ->]%mthrow_if_Ok & H).
  apply negb_false_iff in Ha, Hv, Ht. apply String.eqb_eq in Ha, Ht. apply Z.eqb_eq in Hv. subst amount.
  exists k, coin, (n_chain n1). split_and!; try done. destruct (m >? 0) eqn:Em; [right|left; lia].
  apply mbind_Ok in H as (tip & n7 & Hg'%chain_Ok & [= Hq _]). exists tip, (n_chain n7). split; [done|].
  destruct (confirmationsAt _ _) as [q|] eqn:Eq; [|done]. apply confirmations_Ok in Eq as (h & Hh & ->). exists h. split; [done|lia].
Qed.

Lemma accept_Ok now patience p given m opts (n : Net P C) c n' :
  acceptChannel registry now patience p given m opts n = (Ok c, n') →
  ∃ program st, resolveChannelProgram registry (pp_programId p, pp_programVersion p) = Ok program ∧
    buildScript program [localParty p; remoteParty p] (pp_contestDelayBlocks p) = Ok (pp_fundingScript p) ∧
    c = new_channel now (pp_channelId p) (pp_fundingTxId p) (pp_fundingCoinId p) (pp_fundingScript p) program
          (scriptAddress sha3_256 (pp_fundingScript p)) (pp_tokenId p) (default 0 (pp_tokenScale p)) (localParty p) (remoteParty p)
          (localAmount p) (remoteAmount p) st false (pp_contestDelayBlocks p) None ∧
    ((st = active ∧ given = true ∧ backed c m) ∨ st = funding_pending).
Proof.
  unfold acceptChannel. intros H. apply mbind_Ok in H as (u & n1 & _ & H). apply mbind_Ok in H as (program & n2 & [Hp ->]%mlift_Ok & H).
  apply mbind_Ok in H as (script & n3 & [Hs ->]%mlift_Ok & H). cbv zeta in H.
  apply mbind_Ok in H as (u1 & n4 & [He%negb_false_iff%String.eqb_eq ->]%mthrow_if_Ok & H). subst script.
  apply mbind_Ok in H as (u2 & n5 & _ & H). apply mbind_Ok in H as (b & n6 & Hb & [= <- _]).
  exists program, (if b then active else funding_pending). split; [done|]. split; [done|]. split; [done|].
  destruct b; [left|by right]. destruct given; [|done]. split; [done|]. split; [done|].
  apply check_funding_Ok in Hb as (k & coin & k' & H1 & H2 & H3 & H4 & H5 & H6). exists k, coin, k'. by split_and!.
Qed.

(** Nothing stands against a proposal that was made from the same programs, with a delay
    that the other side takes. *)
Lemma accepts now patience p program opts (n : Net P C) m :
  resolveChannelProgram registry (pp_programId p, pp_programVersion p) = Ok program →
  buildScript program [localParty p; remoteParty p] (pp_contestDelayBlocks p) = Ok (pp_fundingScript p) →
  pp_fundingAddress p = Some (scriptAddress sha3_256 (pp_fundingScript p)) →
  (allowShortContestDelay opts = true ∨ default ELTOO_CONTEST_DELAY_BLOCKS (minContestDelayBlocks opts)
     <= default (default ELTOO_CONTEST_DELAY_BLOCKS (minContestDelayBlocks opts)) (pp_contestDelayBlocks p)) →
  is_ok (acceptChannel registry now patience p false m opts n).1 = true.
Proof.
  intros Hp Hs Ha Hd. unfold acceptChannel. cbv zeta. unfold mbind at 1, M_bind at 1, mthrow_if, mlift at 1, throw_if.
  replace (negb (allowShortContestDelay opts) && _) with false.
  2:{ symmetry. destruct Hd as [->|Hd]; [done|]. apply andb_false_iff. right. destruct (pp_contestDelayBlocks p); [cbn in Hd; lia|done]. }
  unfold mlift. rewrite Hp. unfold mbind, M_bind. rewrite Hs, String.eqb_refl, Ha. cbn [negb].
  assert (∀ a, match a with ""%string => false | String _ _ => negb (String.eqb a a) end = false) as ->; [|done].
  intros [|? ?]; [done|]. by rewrite String.eqb_refl.
Qed.

(** *** The first state *)

Lemma new_channel_sound now i t o s pr ad tk sc l r a b st v d f : partyId l ≠ partyId r → 0 <= a → 0 <= b →
  sound (new_channel now i t o s pr ad tk sc l r a b st v d f).
Proof.
  intros Hn Ha Hb. assert (initial_balances l r a b = [(partyId l, a); (partyId r, b)]) as E.
  { unfold initial_balances. cbn. case_match eqn:E; [|done]. apply String.eqb_eq in E. congruence. }
  unfold new_channel. rewrite E. constructor; [constructor|]; cbn.
  - constructor.
  - apply NoDup_cons. split; [set_solver|apply NoDup_singleton].
  - repeat constructor; cbn; lia.
  - constructor.
  - lia.
Qed.
Lemma same_terms now now' i t o s pr ad tk sc l r a b st v d f now2 st' v' f' :
  terms (with_funding now' (new_channel now i "" o s pr ad tk sc l r a b opening v d f) t st)
  = terms (new_channel now2 i t o s pr ad tk sc l r a b st' v' d f').
Proof. done. Qed.
Lemma with_funding_sound now c t st : sound c → sound (with_funding now c t st).
Proof. intros [[? ? ? ?] ?]. by repeat constructor. Qed.

Lemma open_agrees now patience rid params (n : Net P C) c p n' :
  createChannel now patience rid params n = (Ok (c, p), n') → partyId (cp_localParty params) ≠ partyId (cp_remoteParty params) →
  let program := default DefaultEltooPaymentProgram (cp_program params) in
  resolveChannelProgram registry (Some (id program), Some (version program)) = Ok program →
  (fundingAddress c = scriptAddress sha3_256 (fundingScript c) ∧
   ∃ draft raw bytes w, n_sent n' = n_sent n ++ [(bytes, w)] ∧ omniaDraftToCanonicalMinimaBytes sha3_256 draft = Ok bytes ∧
     toRawMinima (totalValue c) (tokenScale c) = Ok raw ∧
     d_outputs draft = [mkOutput (fundingAddress c) raw (tokenId c) true (channelStateVars false 0)]) ∧
  sound c ∧
  (∀ now2 patience2 given m opts (n2 : Net P C) c2 n2', acceptChannel registry now2 patience2 p given m opts n2 = (Ok c2, n2') →
     terms c2 = terms c ∧ sound c2) ∧
  ∀ now2 patience2 m opts (n2 : Net P C),
    (allowShortContestDelay opts = true ∨ default ELTOO_CONTEST_DELAY_BLOCKS (minContestDelayBlocks opts)
       <= default (default ELTOO_CONTEST_DELAY_BLOCKS (minContestDelayBlocks opts)) (contestDelayBlocks c)) →
    is_ok (acceptChannel registry now2 patience2 p false m opts n2).1 = true.
Proof.
  intros H Hne program Hprog.
  apply create_Ok in H as (pl & t & st & w & (script & draft & raw & out & Hs & Ha & Hb & Hr & Ho & Hby & _ & Hc & Hp) & _ & -> & -> & Hsent).
  rewrite Hc, Hp. split; [|split; [|split]].
  - split; [done|]. by exists draft, raw, (fundingTxBytes pl), w.
  - apply with_funding_sound, new_channel_sound; [done|lia|lia].
  - intros now2 patience2 given m opts n2 c2 n2' Hacc. apply accept_Ok in Hacc as (pr & st2 & Hpr & _ & -> & _).
    cbn [proposal_with_funding pp_programId pp_programVersion] in Hpr. fold program in Hpr. rewrite Hprog in Hpr. injection Hpr as <-.
    split; [symmetry; apply same_terms|]. apply new_channel_sound; [done|cbn; lia|cbn; lia].
  - intros now2 patience2 m opts n2 Hd. by eapply accepts.
Qed.

End opening.
(** ** Properties *)

(** C4. Opening a channel gives both sides one channel.  When [createChannel] returns, it
    has handed over one transaction, which pays the whole value to the address of the
    channel's script with the first state variables; the channel is consistent; whoever
    accepts the proposal, with or without a chain, holds the same channel up to its
    status and times; and the proposal is accepted whenever its delay is not too short
    for the other side.  The parties must have different ids, which nothing checks. *)
Theorem opening_gives_both_sides_one_channel {Cr : Crypto} {P : Type} {C : Type} {Cp : ChainStateProvider C} {Tp : TxPow}
    registry now patience rid params (n : Net P C) c p n' :
  createChannel now patience rid params n = (Ok (c, p), n') → partyId (cp_localParty params) ≠ partyId (cp_remoteParty params) →
  let program := default DefaultEltooPaymentProgram (cp_program params) in
  resolveChannelProgram registry (Some (id program), Some (version program)) = Ok program →
  (fundingAddress c = scriptAddress sha3_256 (fundingScript c) ∧
   ∃ draft raw bytes w, n_sent n' = n_sent n ++ [(bytes, w)] ∧ omniaDraftToCanonicalMinimaBytes sha3_256 draft = Ok bytes ∧
     toRawMinima (totalValue c) (tokenScale c) = Ok raw ∧
     d_outputs draft = [mkOutput (fundingAddress c) raw (tokenId c) true (channelStateVars false 0)]) ∧
  sound c ∧
  (∀ now2 patience2 given m opts (n2 : Net P C) c2 n2', acceptChannel registry now2 patience2 p given m opts n2 = (Ok c2, n2') →
     terms c2 = terms c ∧ sound c2) ∧
  ∀ now2 patience2 m opts (n2 : Net P C),
    (allowShortContestDelay opts = true ∨ default ELTOO_CONTEST_DELAY_BLOCKS (minContestDelayBlocks opts)
       <= default (default ELTOO_CONTEST_DELAY_BLOCKS (minContestDelayBlocks opts)) (contestDelayBlocks c)) →
    is_ok (acceptChannel registry now2 patience2 p false m opts n2).1 = true.
Proof. apply open_agrees. Qed.

(** A chain on which every coin is at the address of the toy channel's script. *)
Definition open_parties : list ChannelParticipant := [mkParty "alice" (toy_key "a") None; mkParty "bob" (toy_key "b") None].
Definition open_address : string :=
  match buildEltooScript open_parties (Some 300) with Ok script => scriptAddress TxSpec.toy_sha script | Err _ => "" end.
#[local] Instance open_chain : ChainStateProvider Z := {
  getTip := λ tip, (Ok tip, tip + 40);
  getCoin := λ _ tip, (Ok (Some (mkCoin false open_address (Some (JNum (of_Z 5))) [] "100" "0x00" true)), tip);
  getToken := λ _ tip, (Ok None, tip);
  broadcastTxPoW := λ _ tip, (Ok (mkBroadcast None (Some "0x77"%string) None), tip);
  submitTransaction := None;
  resolveTxPowTarget := λ tip, (Ok "target"%string, tip) }.
#[local] Instance open_txpow : TxPow := {
  serializeTxBody := λ a b c, a +:+ b +:+ c;
  mineTxPoW := λ _ _, Ok ("header", "id")%string }.
Definition open_params : CreateChannelParams :=
  mkCreate (mkParty "alice" (toy_key "a") None) (mkParty "bob" (toy_key "b") None) 60 40 None None "0x1234"
    (Some "witness"%string) None None None false None None (Some 300).
Definition open_net : Net Z Z := mkNet toy_world 20 [].
Definition open_options : AcceptChannelOptions := mkAccept false None.
Definition opened : result OmniaError (OmniaChannel * ChannelProposal) * Net Z Z := createChannel 1 0 "0xc1" open_params open_net.
Definition open_proposal : ChannelProposal :=
  match opened.1 with Ok r => r.2
  | Err _ => mkChannelProposal "" (mkParty "" "" None) (mkParty "" "" None) 0 0 "" None "" None None None "" "" None end.

Lemma opening_gives_both_sides_one_channel_witness : ∃ c n',
  opened = (Ok (c, open_proposal), n') ∧ totalValue c = 100 ∧ sound c ∧ length (n_sent n') = 1%nat ∧
  is_ok (acceptChannel (programs TxSpec.toy_sha) 2 0 open_proposal false 1 open_options open_net).1 = true.
Proof.
  destruct opened as [[[c p]|e] n'] eqn:E; [|vm_compute in E; discriminate E].
  assert (p = open_proposal) as -> by (unfold open_proposal; by rewrite E). exists c, n'.
  assert (totalValue c = 100 ∧ length (n_sent n') = 1%nat ∧ contestDelayBlocks c = Some 300) as (Ht & Hl & Hd).
  { assert (match opened.1 with Ok r => totalValue r.1 | _ => 0 end = 100) as E1 by (vm_compute; reflexivity).
    assert (length (n_sent opened.2) = 1%nat) as E2 by (vm_compute; reflexivity).
    assert (match opened.1 with Ok r => contestDelayBlocks r.1 | _ => None end = Some 300) as E3 by (vm_compute; reflexivity).
    rewrite E in E1, E2, E3. exact (conj E1 (conj E2 E3)). }
  split; [done|]. split; [exact Ht|].
  destruct (opening_gives_both_sides_one_channel (programs TxSpec.toy_sha) 1 0 "0xc1" open_params open_net c open_proposal n' E ltac:(done) eq_refl)
    as (_ & Hs & _ & Hacc).
  split; [exact Hs|]. split; [exact Hl|]. apply Hacc. right. rewrite Hd. vm_compute. discriminate.
Defined.

(** C5. A channel that is active when it is accepted is backed.  Its script is the one
    that its program writes for the two parties and its delay, and the chain has shown a
    coin that is unspent, lies at the address of that script, holds the whole value of
    the channel in its token, and is as deep as was asked for. *)
Theorem an_active_acceptance_is_backed {Cr : Crypto} {P : Type} {C : Type} {Cp : ChainStateProvider C} {Tp : TxPow}
    registry now patience p given m opts (n : Net P C) c n' :
  acceptChannel registry now patience p given m opts n = (Ok c, n') →
  (∃ program, resolveChannelProgram registry (pp_programId p, pp_programVersion p) = Ok program ∧
     buildScript program (parties c) (contestDelayBlocks c) = Ok (fundingScript c)) ∧
  fundingAddress c = scriptAddress sha3_256 (fundingScript c) ∧ totalValue c = localAmount p + remoteAmount p ∧
  match c_status c with
  | active => given = true ∧ backed c m
  | funding_pending => True
  | _ => False
  end.
Proof.
  intros (program & st & Hp & Hs & -> & Hst)%accept_Ok. split; [by exists program|]. split; [done|]. split; [done|].
  destruct Hst as [(-> & -> & Hb)| ->]; done.
Qed.
Lemma an_active_acceptance_is_backed_witness : ∃ c n',
  acceptChannel (programs TxSpec.toy_sha) 2 0 open_proposal true 3 open_options open_net = (Ok c, n') ∧
  c_status c = active ∧ backed c 3.
Proof.
  destruct (acceptChannel (programs TxSpec.toy_sha) 2 0 open_proposal true 3 open_options open_net) as [[c|e] n'] eqn:E;
    [|vm_compute in E; discriminate E].
  exists c, n'. split; [done|].
  assert (c_status c = active) as Ha.
  { assert (match (acceptChannel (programs TxSpec.toy_sha) 2 0 open_proposal true 3 open_options open_net).1 with
            | Ok c => c_status c | Err _ => closed end = active) as E1 by (vm_compute; reflexivity).
    rewrite E in E1. exact E1. }
  split; [exact Ha|]. pose proof (an_active_acceptance_is_backed (programs TxSpec.toy_sha) 2 0 open_proposal true 3 open_options open_net c n' E)
    as (_ & _ & _ & H). rewrite Ha in H. exact (proj2 H).
Defined.

End OgSpec.
