(* ===== verification/MinimaTx.v ===== *)
(** * Minima transactions (packages/core/src transaction.ts, Streamable.ts)

    Coins, tokens and state variables as bytes, the digest that is signed, the coin ids
    of the outputs, and the reader.  The reader's cursor is the state of its monad.
    Ports, token scales and counts are integers; a token's scale or a count is read
    into a Number, exactly below 2^53. *)

From Stdlib Require Import ZArith Lia QArith Ascii String.
From stdpp Require Import base list strings.
From S2P Require Import Prelude JsBase Mmr Wots.

Module Mt.
Import Js Mm.

Definition ZERO_TXPOWID : string := String (byte 0) "".
Definition STATETYPE_HEX : Z := 1.
Definition STATETYPE_NUMBER : Z := 2.
Definition STATETYPE_STRING : Z := 4.
Definition STATETYPE_BOOL : Z := 8.

(** The [value] of a state variable: string, bigint, boolean or Uint8Array. *)
Inductive StateValue := VText (s : string) | VBig (n : Z) | VBool (b : bool) | VBytes (s : string).
Inductive StateType := TBool | TNumber | THex | TString.
Record StateVariable := mkSV { port : Z; value : StateValue; type : StateType }.
Record RawStateVariable := mkRaw { rawPort : Z; rawType : Z; rawData : string }.
(** [StateVariable | RawStateVariable], told apart by ['rawData' in sv]. *)
Inductive CoinState := Rich (sv : StateVariable) | Raw (raw : RawStateVariable).

Record MinimaToken := mkToken {
  tkCoinId : string; tkScale : Z; totalAmount : Z; name : string; script : string;
  tkCreated : option Z; totalAmountScale : option Z }.
Record MinimaCoin := mkCoin {
  coinId : string; address : string; amount : string; tokenId : string; token : option MinimaToken;
  storeState : bool; state : list CoinState; mmrEntryNumber : Z; spent : bool; created : Z;
  rawAmountBytes : option string; rawMmrEntryBytes : option string; rawBlockCreatedBytes : option string;
  rawTokenData : option string }.
Record MinimaTransaction := mkTx {
  linkHash : string; inputs : list MinimaCoin; outputs : list MinimaCoin; txState : list StateVariable }.

(** ** Decimals *)

Record ParsedMiniNumber := mkParsedNumber { scale : Z; unscaledValue : Z }.

(** [s.replace(/^0+/, '')] *)
Fixpoint strip_zeros (s : string) : string :=
  match s with String c r => if Ascii.eqb c "0" then strip_zeros r else s | EmptyString => "" end.

Definition parseDecimalToMiniNumber (decimal : string) : Res ParsedMiniNumber :=
  if String.eqb decimal "" then Ok (mkParsedNumber 0 0) else
  _ ← throw_if (includes_char "e" decimal || includes_char "E" decimal)
        ("Scientific notation not supported: " +:+ String dquote (decimal +:+ String dquote ". Convert to plain decimal first."));
  let cleaned := trim decimal in
  let isNegative := starts_with "-" cleaned in
  let cleaned := if isNegative then drop_str 1 cleaned else cleaned in
  let '(whole, frac) := break_at (Ascii.eqb ".") cleaned in
  let scale := match frac with Some f => Z.of_nat (String.length f) | None => 0 end in
  let unscaledStr := whole +:+ default "" frac in
  let unscaledStr := match strip_zeros unscaledStr with EmptyString => "0"%string | s => s end in
  v ← of_option ("Cannot convert " +:+ unscaledStr +:+ " to a BigInt") (big_of_string unscaledStr);
  Ok (mkParsedNumber scale (if isNegative then - v else v)).

(** [writeMiniNumber(value, scale)]; without a scale it is [Mm.writeMiniNumber]. *)
Definition writeScaledNumber (value scale : Z) : Res string :=
  _ ← throw_if (value <? 0) ("writeMiniNumber does not support negative values: " +:+ big_to_string value);
  unscaled ← bigIntToByteArray value;
  let n := Z.of_nat (String.length unscaled) in
  _ ← throw_if (n >? 255) ("MiniNumber data too large: " +:+ dec n +:+ " bytes (max 255)");
  Ok (String (byte (Z.land scale 255)) (String (byte n) unscaled)).
Definition encodeParsedMiniNumber (parsed : ParsedMiniNumber) : Res string :=
  writeScaledNumber (unscaledValue parsed) (scale parsed).

(** ** Writing *)

Definition writeMiniByte (b : bool) : string := String (byte (if b then 1 else 0)) "".
Definition writeHashToStream (hash : string) : string := writeMiniData hash.
(** For integer entry numbers: scale zero. *)
Definition writeMMREntryNumber (value : Z) : Res string :=
  _ ← throw_if (value <? 0) ("writeMMREntryNumber does not support negative values: " +:+ big_to_string value);
  scaleBytes ← writeMiniNumber 0;
  unscaledBytes ← bigIntToByteArray value;
  Ok (scaleBytes +:+ writeMiniData unscaledBytes).

Definition normalizeAddressToHex (addr : string) : Res string :=
  if String.eqb addr "" then Ok "0x00"%string else
  let trimmed := trim addr in
  let hexAddr := if starts_with "0x" trimmed then trimmed else "0x" +:+ trimmed in
  let cleanHex := drop_str 2 hexAddr in
  _ ← throw_if (negb (str_forallb is_hex_digit cleanHex)) "Invalid hex address: contains non-hex characters";
  _ ← throw_if (Nat.odd (String.length cleanHex))
        ("Invalid hex address: odd length (" +:+ dec (Z.of_nat (String.length cleanHex)) +:+ " chars)");
  Ok hexAddr.

Definition value_text (v : StateValue) : string :=
  match v with
  | VText s => s
  | VBig n => big_to_string n
  | VBool b => if b then "true" else "false"
  | VBytes s => join_comma (map (λ c, dec (code c)) (list_ascii_of_string s))
  end.
Definition invalid_value (kind : string) (v : StateValue) : string :=
  "Invalid " +:+ kind +:+ " StateVariable value: " +:+ value_text v.

Definition type_byte (t : StateType) : Z :=
  match t with TBool => STATETYPE_BOOL | TNumber => STATETYPE_NUMBER | THex => STATETYPE_HEX | TString => STATETYPE_STRING end.
Definition state_data (sv : StateVariable) : Res string :=
  match type sv with
  | TBool =>
      match value sv with
      | VBool b => Ok (writeMiniByte b)
      | VText s => Ok (writeMiniByte (String.eqb (toUpperCase s) "TRUE"))
      | v => Err (invalid_value "bool" v)
      end
  | TNumber =>
      match value sv with
      | VBig n => writeMiniNumber n
      | VText s => n ← of_option ("Cannot convert " +:+ s +:+ " to a BigInt") (big_of_string s); writeMiniNumber n
      | v => Err (invalid_value "number" v)
      end
  | THex =>
      match value sv with
      | VText s => normalizedHex ← normalizeAddressToHex s; Ok (writeMiniData (hex_pairs (drop_str 2 normalizedHex)))
      | VBytes s => Ok (writeMiniData s)
      | v => Err (invalid_value "hex" v)
      end
  | TString =>
      match value sv with
      | VText s => Ok (writeMiniData (utf8 s))
      | v => Err (invalid_value "string" v)
      end
  end.
Definition serializeStateVariable (sv : StateVariable) : Res string :=
  _ ← throw_if ((port sv <? 0) || (port sv >? 255)) ("StateVariable port must be 0-255, got " +:+ big_to_string (port sv));
  dataBytes ← state_data sv;
  Ok (String (byte (port sv)) (String (byte (type_byte (type sv))) dataBytes)).

Definition serializeToken (token : MinimaToken) : Res string :=
  scaleBytes ← writeMiniNumber (tkScale token);
  amountBytes ← writeScaledNumber (totalAmount token) (default 44 (totalAmountScale token));
  createdBytes ← writeMiniNumber (default 0 (tkCreated token));
  Ok (writeHashToStream (tkCoinId token) +:+ writeMiniData (script token) +:+ scaleBytes +:+ amountBytes
      +:+ writeMiniData (name token) +:+ createdBytes).

(** Raw bytes are used when there are any. *)
Definition raw_or (raw : option string) (bytes : Res string) : Res string :=
  match raw with Some (String c r) => Ok (String c r) | _ => bytes end.
Definition amount_bytes (coin : MinimaCoin) : Res string :=
  raw_or (rawAmountBytes coin) (parsedAmount ← parseDecimalToMiniNumber (amount coin); encodeParsedMiniNumber parsedAmount).
Definition mmr_bytes (coin : MinimaCoin) : Res string :=
  raw_or (rawMmrEntryBytes coin) (writeMMREntryNumber (mmrEntryNumber coin)).
Definition created_bytes (coin : MinimaCoin) : Res string :=
  raw_or (rawBlockCreatedBytes coin) (writeMiniNumber (created coin)).
Definition coin_state_bytes (sv : CoinState) : Res string :=
  match sv with
  | Raw raw => Ok (String (byte (rawPort raw mod 256)) (String (byte (rawType raw mod 256)) (rawData raw)))
  | Rich sv => serializeStateVariable sv
  end.
Definition token_bytes (coin : MinimaCoin) : Res string :=
  match rawTokenData coin with
  | Some (String c r) => Ok (writeMiniByte true +:+ String c r)
  | _ =>
      match token coin with
      | Some t => b ← serializeToken t; Ok (writeMiniByte true +:+ b)
      | None => Ok (writeMiniByte false)
      end
  end.

Definition serializeCoin (coin : MinimaCoin) : Res string :=
  amountBytes ← amount_bytes coin;
  mmrBytes ← mmr_bytes coin;
  createdBytes ← created_bytes coin;
  stateCountBytes ← writeMiniNumber (Z.of_nat (length (state coin)));
  svBytes ← result_mapM coin_state_bytes (state coin);
  tokenBytes ← token_bytes coin;
  Ok (writeHashToStream (coinId coin) +:+ writeHashToStream (address coin) +:+ amountBytes
      +:+ writeMiniData (tokenId coin) +:+ writeMiniByte (storeState coin) +:+ mmrBytes
      +:+ writeMiniByte (spent coin) +:+ createdBytes +:+ stateCountBytes +:+ Wo.concat_bytes svBytes +:+ tokenBytes).

Definition serializeTransaction (tx : MinimaTransaction) : Res string :=
  inputCount ← writeMiniNumber (Z.of_nat (length (inputs tx)));
  inputBytes ← result_mapM serializeCoin (inputs tx);
  outputCount ← writeMiniNumber (Z.of_nat (length (outputs tx)));
  outputBytes ← result_mapM serializeCoin (outputs tx);
  stateCount ← writeMiniNumber (Z.of_nat (length (txState tx)));
  stateBytes ← result_mapM serializeStateVariable (txState tx);
  Ok (inputCount +:+ Wo.concat_bytes inputBytes +:+ outputCount +:+ Wo.concat_bytes outputBytes
      +:+ stateCount +:+ Wo.concat_bytes stateBytes +:+ writeHashToStream (linkHash tx)).

(** ** Reading *)

Section Reader.
Context (data : string).
Notation T := (M Z string).

Definition txReadBytes (n : Z) : T string :=
  offset ← mget;
  _ ← mthrow_if ((n <? 0) || (offset + n >? Z.of_nat (String.length data)))
        ("deserializeTransaction: unexpected end of input at offset " +:+ dec offset +:+ " (need " +:+ big_to_string n +:+ ")");
  _ ← mput (offset + n);
  mret (take_str (Z.to_nat n) (drop_str (Z.to_nat offset) data)).
(** [txReadBytes(data, c, 1)\[0\]] *)
Definition txReadMiniByte : T Z :=
  b ← txReadBytes 1; mret (match b with String c _ => code c | EmptyString => 0 end).
(** The length is an unsigned 32-bit integer. *)
Definition txReadMiniData : T string :=
  lenBytes ← txReadBytes 4; txReadBytes (from_bytes 0 lenBytes).
Definition high_bit (bytes : string) : bool :=
  match bytes with String c _ => negb (Z.land (code c) 128 =? 0) | EmptyString => false end.
(** The value and its scale. *)
Definition txReadMiniNumber : T (Z * Z) :=
  scale ← txReadMiniByte;
  len ← txReadMiniByte;
  bytes ← txReadBytes len;
  let value := from_bytes 0 bytes in
  mret (if high_bit bytes then value - 2 ^ (8 * Z.of_nat (String.length bytes)) else value, scale).
Definition txReadMMREntryNumber : T Z :=
  _ ← txReadMiniNumber; from_bytes 0 <$> txReadMiniData.

Definition miniNumberToDecimal (value scale : Z) : string :=
  if scale =? 0 then big_to_string value else
  let digits := pad_start (Z.to_nat (scale + 1)) "0" (big_to_string value) in
  let n := (String.length digits - Z.to_nat scale)%nat in
  take_str n digits +:+ "." +:+ drop_str n digits.

Definition txReadStateVariable : T StateVariable :=
  port ← txReadMiniByte;
  type ← txReadMiniByte;
  if type =? STATETYPE_HEX then (λ s, mkSV port (VBytes s) THex) <$> txReadMiniData
  else if type =? STATETYPE_NUMBER then (λ n : Z * Z, mkSV port (VBig n.1) TNumber) <$> txReadMiniNumber
  else if type =? STATETYPE_STRING then (λ s, mkSV port (VText (utf8_decode s)) TString) <$> txReadMiniData
  else if type =? STATETYPE_BOOL then (λ b, mkSV port (VBool (b =? 1)) TBool) <$> txReadMiniByte
  else mthrow ("deserializeTransaction: unknown StateVariable type " +:+ dec type).

Definition txReadToken : T MinimaToken :=
  coinId ← txReadMiniData;
  script ← txReadMiniData;
  scale ← txReadMiniNumber;
  total ← txReadMiniNumber;
  name ← txReadMiniData;
  created ← txReadMiniNumber;
  mret (mkToken coinId scale.1 total.1 name script (Some created.1) (Some total.2)).

(** [for (i = 0; i < count; i++) list.push(read())] *)
Fixpoint read_list {A} (n : nat) (read : T A) : T (list A) :=
  match n with O => mret [] | S n => a ← read; l ← read_list n read; mret (a :: l) end.
Definition read_counted {A} (read : T A) : T (list A) :=
  count ← txReadMiniNumber; read_list (Z.to_nat count.1) read.

Definition txReadCoin : T MinimaCoin :=
  coinId ← txReadMiniData;
  address ← txReadMiniData;
  amount ← txReadMiniNumber;
  tokenId ← txReadMiniData;
  storeState ← txReadMiniByte;
  mmrEntryNumber ← txReadMMREntryNumber;
  spent ← txReadMiniByte;
  created ← txReadMiniNumber;
  state ← read_counted txReadStateVariable;
  hasToken ← txReadMiniByte;
  token ← if hasToken =? 1 then Some <$> txReadToken else mret None;
  mret (mkCoin coinId address (miniNumberToDecimal amount.1 amount.2) tokenId token (storeState =? 1)
          (map Rich state) mmrEntryNumber (spent =? 1) created.1 None None None None).

Definition txReadTransaction : T MinimaTransaction :=
  inputs ← read_counted txReadCoin;
  outputs ← read_counted txReadCoin;
  state ← read_counted txReadStateVariable;
  linkHash ← txReadMiniData;
  offset ← mget;
  let len := Z.of_nat (String.length data) in
  _ ← mthrow_if (negb (offset =? len))
        ("deserializeTransaction: " +:+ big_to_string (len - offset) +:+ " trailing byte(s) after transaction");
  mret (mkTx linkHash inputs outputs state).
Definition deserializeTransaction : Res MinimaTransaction := (txReadTransaction 0).1.
End Reader.

(** ** Identifiers *)

Section Hash.
Context (sha3_256 : string → string).

Definition computeTransactionDigest (tx : MinimaTransaction) : Res string :=
  serialized ← serializeTransaction tx; Ok (sha3_256 serialized).
Definition computeTokenId (token : MinimaToken) : Res string :=
  b ← serializeToken token; Ok (sha3_256 (writeMiniData b)).
Definition serializeTokenDescriptor (token : MinimaToken) : Res string := serializeToken token.

Definition set_coinId (id : string) (c : MinimaCoin) : MinimaCoin :=
  mkCoin id (address c) (amount c) (tokenId c) (token c) (storeState c) (state c) (mmrEntryNumber c) (spent c)
    (created c) (rawAmountBytes c) (rawMmrEntryBytes c) (rawBlockCreatedBytes c) (rawTokenData c).
(** The id of output [i]. *)
Definition output_coin_id (baseCoinId : string) (i : nat) : Res string :=
  outputIndexStream ← writeMiniNumber (Z.of_nat i); Ok (sha3_256 (writeMiniData baseCoinId +:+ outputIndexStream)).
Fixpoint set_output_ids (baseCoinId : string) (i : nat) (outputs : list MinimaCoin) : Res (list MinimaCoin) :=
  match outputs with
  | [] => Ok []
  | c :: outputs => id ← output_coin_id baseCoinId i; rest ← set_output_ids baseCoinId (S i) outputs; Ok (set_coinId id c :: rest)
  end.
Definition precomputeTransactionCoinID (tx : MinimaTransaction) : Res MinimaTransaction :=
  match inputs tx with
  | [] => Ok tx
  | first :: _ =>
      let baseCoinId := coinId first in
      _ ← throw_if (Nat.ltb (String.length baseCoinId) 2)
            ("Cannot precompute output coinIDs: input[0].coinId is " +:+ dec (Z.of_nat (String.length baseCoinId)) +:+ " byte(s) "
             +:+ "(placeholder?). Real coinId from CoinProof required for signing.");
      outputs ← set_output_ids baseCoinId 0 (outputs tx);
      Ok (mkTx (linkHash tx) (inputs tx) outputs (txState tx))
  end.
End Hash.

(** ** Building *)

Definition createDefaultTransaction : MinimaTransaction := mkTx ZERO_TXPOWID [] [] [].

Record CoinProofData := mkProofData {
  cpCoinId : string; cpAddress : string; cpRawAmountBytes : string; cpTokenId : string; cpStoreState : bool;
  cpMmrEntryNumber : Z; cpRawMmrEntryBytes : string; cpSpent : bool; cpBlockCreated : Z;
  cpRawBlockCreatedBytes : string; cpState : list RawStateVariable }.
Record CoinOptions := mkCoinOptions {
  oCoinId : option string; oAddress : string; oAmount : string; oTokenId : option string; oStoreState : option bool;
  oState : option (list StateVariable); oMmrEntryNumber : option Z; oSpent : option bool; oCreated : option Z;
  oRawAmountBytes : option string; oRawMmrEntryBytes : option string; oRawBlockCreatedBytes : option string;
  oCoinProofData : option CoinProofData }.

Definition buildMinimaCoin (opts : CoinOptions) : MinimaCoin :=
  match oCoinProofData opts with
  | Some cpd =>
      mkCoin (cpCoinId cpd) (cpAddress cpd) (oAmount opts) (cpTokenId cpd) None (cpStoreState cpd) (map Raw (cpState cpd))
        (cpMmrEntryNumber cpd) (cpSpent cpd) (cpBlockCreated cpd) (Some (cpRawAmountBytes cpd))
        (Some (cpRawMmrEntryBytes cpd)) (Some (cpRawBlockCreatedBytes cpd)) None
  | None =>
      mkCoin (default ZERO_TXPOWID (oCoinId opts)) (oAddress opts) (oAmount opts) (default ZERO_TXPOWID (oTokenId opts))
        None (default false (oStoreState opts)) (map Rich (default [] (oState opts))) (default 0 (oMmrEntryNumber opts))
        (default false (oSpent opts)) (default 0 (oCreated opts)) (oRawAmountBytes opts) (oRawMmrEntryBytes opts)
        (oRawBlockCreatedBytes opts) None
  end.

End Mt.
