(* ===== verification/Address.v ===== *)
(** * Addresses and message signatures (packages/core/src minima32.ts, script.ts, derive.ts, address-derivation.ts, verify.ts)

    The Mx text of a script's root, the address of a public key, and the verification
    of a signed message against an address. *)

From Stdlib Require Import ZArith Lia QArith Ascii String.
From stdpp Require Import base list strings.
From S2P Require Import Prelude JsBase Mmr Wots TreeKey.

Module Ad.
Import Js Mm Wo Tk.

(** ** Hexadecimal text *)

(** [parseInt(pair, 16)] stored in a byte: white space and a sign are skipped, reading stops
    at the first other character, and NaN is zero. *)
Definition hex_digit_or (z : Z) (c : ascii) : Z :=
  match digit_val c with Some d => if d <? 16 then d else z | None => z end.
Definition parse_pair (a b : ascii) : Z :=
  if is_space a || Ascii.eqb a "+" then hex_digit_or 0 b
  else if Ascii.eqb a "-" then - hex_digit_or 0 b
  else if is_hex_digit a then (if is_hex_digit b then 16 * hex_digit_or 0 a + hex_digit_or 0 b else hex_digit_or 0 a)
  else 0.
Fixpoint lenient_pairs (s : string) : string :=
  match s with
  | String a (String b s) => String (byte (parse_pair a b mod 256)) (lenient_pairs s)
  | _ => ""
  end.

(** verify.ts *)
Definition normalizeHex (hex : string) : string :=
  toLowerCase (if starts_with "0x" hex then drop_str 2 hex else hex).
Definition hexToBytes (hex : string) : Res string :=
  let h := normalizeHex hex in
  _ ← throw_if (Nat.odd (String.length h)) "Invalid hex string: odd length";
  Ok (lenient_pairs h).
(** minima32.ts: an odd text gets a leading zero. *)
Definition hexToBytes_padded (hex : string) : string :=
  let h := if starts_with "0x" hex then drop_str 2 hex else hex in
  lenient_pairs (if Nat.odd (String.length h) then String "0" h else h).
Definition bytesToHexUpper (bytes : string) : string := toUpperCase (hex_of_bytes bytes).

(** ** minima32.ts *)

Definition bytesToBigInt (bytes : string) : Z := from_bytes 0 bytes.
Definition bigIntToBytes (x : Z) : string := big_endian x.

(** [x.toString(32)] for [x >= 0] *)
Definition digit32 (d : Z) : ascii := byte (if d <? 10 then 48 + d else 87 + d).
Fixpoint radix32_acc (fuel : nat) (n : Z) (s : string) : string :=
  match fuel with
  | O => s
  | S fuel => let s := String (digit32 (n mod 32)) s in if n <? 32 then s else radix32_acc fuel (n / 32) s
  end.
Definition radix32_text (n : Z) : string := radix32_acc (S (Z.to_nat (Z.log2 n))) n "".

(** [s.replace(/a/g, 'b')] *)
Definition replace_char (a b : ascii) (s : string) : string := str_map (λ c, if Ascii.eqb c a then b else c) s.

Definition encodeMxRadix32Frame (frame : string) : string :=
  let s := toLowerCase (radix32_text (bytesToBigInt frame)) in
  "Mx" +:+ toUpperCase (replace_char "o" "z" (replace_char "l" "y" (replace_char "i" "w" s))).

(** [for (const ch of s) x = x * 32 + parseInt(ch, 32)] *)
Fixpoint decode32 (s : string) (x : Z) : Res Z :=
  match s with
  | EmptyString => Ok x
  | String c s =>
      match digit_val c with
      | Some v => if v <? 32 then decode32 s (x * 32 + v) else Err ("Invalid base32 character: " +:+ String c "")
      | None => Err ("Invalid base32 character: " +:+ String c "")
      end
  end.
Definition decodeMxRadix32Frame (mx : string) : Res string :=
  let s := toLowerCase (trim mx) in
  let s := if starts_with "mx" s then drop_str 2 s else s in
  x ← decode32 (replace_char "z" "o" (replace_char "y" "l" (replace_char "w" "i" s))) 0;
  Ok (bigIntToBytes x).

Section Hash.
Context (sha3_256 : string → string).

Definition makeMxAddress (root32 : string) : Res string :=
  _ ← throw_if (negb (Nat.eqb (String.length root32) 32)) ("Expected 32 bytes, got " +:+ dec (Z.of_nat (String.length root32)));
  let frame := String (byte 1) (String (byte 0) (String (byte 32) root32)) +:+ take_str 4 (sha3_256 root32) in
  Ok (encodeMxRadix32Frame frame).

(** A byte that is not there is undefined: unequal to one, zero in the length. *)
Definition parseMxAddress (mx : string) : Res string :=
  frame ← decodeMxRadix32Frame mx;
  let b i := default 0 (byte_at frame (Some i)) in
  _ ← throw_if (negb (b 0 =? 1)) ("Invalid sentinel byte: " +:+ dec (b 0));
  let len := Z.lor (Z.shiftl (b 1) 8) (b 2) in
  _ ← throw_if (negb (len =? 32)) ("Invalid length: " +:+ dec len +:+ ", expected 32");
  let root32 := slice frame (Some 3) (Some 35) in
  let checksum := slice frame (Some 35) (Some 39) in
  let expected := take_str 4 (sha3_256 root32) in
  _ ← throw_if (negb (forallb (λ i, bool_decide (byte_at checksum (Some i) = byte_at expected (Some i))) [0; 1; 2; 3])) "Invalid checksum";
  Ok root32.

Definition hexToMx (hex : string) : Res string := makeMxAddress (hexToBytes_padded hex).
Definition mxToHex (mx : string) : Res string := bytesToHexUpper <$> parseMxAddress mx.

(** ** script.ts, derive.ts *)

Definition scriptFromWotsPk (pkDigest32 : string) : string := "RETURN SIGNEDBY(0x" +:+ bytesToHexUpper pkDigest32 +:+ ")".
Definition scriptToAddress (script : string) : Res string := makeMxAddress (mmrLeafExact sha3_256 script).
Definition addressToRoot (mx : string) : Res string := parseMxAddress mx.

(** ** verify.ts *)

Definition public_key_length (pkBytes : string) : string :=
  "Public key must be 32 bytes (64 hex chars), got " +:+ dec (Z.of_nat (String.length pkBytes)) +:+ " bytes".
Definition deriveAddressFromPublicKey (publicKeyHex : string) : Res string :=
  pkBytes ← hexToBytes publicKeyHex;
  _ ← throw_if (negb (Nat.eqb (String.length pkBytes) 32)) (public_key_length pkBytes);
  scriptToAddress (scriptFromWotsPk pkBytes).

(** The body of the [try]. *)
Definition verify_message (address message signatureHex publicKeyHex : string) : Res VerificationResult :=
  pkBytes ← hexToBytes publicKeyHex;
  if negb (Nat.eqb (String.length pkBytes) 32) then Ok (invalid (public_key_length pkBytes)) else
  derivedAddress ← deriveAddressFromPublicKey publicKeyHex;
  if negb (String.eqb (toLowerCase derivedAddress) (toLowerCase address))
  then Ok (invalid ("Public key does not match claimed address. Expected " +:+ address +:+ ", derived " +:+ derivedAddress)) else
  sigBytes ← hexToBytes signatureHex;
  match deserializeTreeSignature sigBytes with
  | Err m => Ok (invalid ("Malformed signature: " +:+ m))
  | Ok treeSignature => verifyTreeSignatureDetailed sha3_256 pkBytes (sha3_256 (utf8 message)) treeSignature
  end.
Definition verifySignatureDetailed (address message signatureHex publicKeyHex : string) : VerificationResult :=
  match verify_message address message signatureHex publicKeyHex with
  | Ok r => r
  | Err m => invalid ("Verification error: " +:+ m)
  end.
Definition verifySignature (address message signatureHex publicKeyHex : string) : bool :=
  valid (verifySignatureDetailed address message signatureHex publicKeyHex).

(** ** address-derivation.ts *)

Inductive AddressScheme := PerAddress | Unified.
Record DerivedAddress := mkDerived { addressIndex : Z; derivedPublicKey : string; derivedAddress : string; scheme : AddressScheme }.

(** For integer indices. *)
Definition assertIndex (addressIndex : Z) : Res unit :=
  throw_if (addressIndex <? 0) ("addressIndex must be a non-negative integer, got " +:+ big_to_string addressIndex).
Definition toDerived (addressIndex : Z) (scheme : AddressScheme) (publicKeyBytes : string) : Res DerivedAddress :=
  let publicKey := "0x" +:+ bytesToHexUpper publicKeyBytes in
  address ← deriveAddressFromPublicKey publicKey;
  Ok (mkDerived addressIndex publicKey address scheme).
Definition deriveDeterministicAddress (baseSeed : string) (addressIndex : Z) : Res DerivedAddress :=
  _ ← assertIndex addressIndex;
  key ← newTreeKey sha3_256 (derivePerAddressSeed sha3_256 baseSeed addressIndex) 64 3;
  toDerived addressIndex PerAddress (publicKey key).
Definition deriveUnifiedAddress (baseSeed : string) (addressIndex : Z) : Res DerivedAddress :=
  _ ← assertIndex addressIndex;
  key ← createUnifiedChildTreeKey sha3_256 baseSeed addressIndex;
  toDerived addressIndex Unified (publicKey key).
Definition deriveAddress (baseSeed : string) (addressIndex : Z) (scheme : AddressScheme) : Res DerivedAddress :=
  match scheme with
  | Unified => deriveUnifiedAddress baseSeed addressIndex
  | PerAddress => deriveDeterministicAddress baseSeed addressIndex
  end.
Definition verifyDeterministicAddress (baseSeed : string) (addressIndex : Z) (expectedAddress : string) (scheme : AddressScheme) : Res bool :=
  d ← deriveAddress baseSeed addressIndex scheme; Ok (String.eqb (derivedAddress d) expectedAddress).
End Hash.
End Ad.
