(* ===== verification/Vm.v ===== *)
(** * KISSVM: values, operators and the machine state (packages/kissvm/src types.ts, vm.ts, eval.ts)

    The machine's state is one record; the transaction context in it is the
    caller's object, which every sub-machine shares and STORE STATE writes to.
    Signature schemes are parameters. *)

From Stdlib Require Import ZArith Lia QArith Ascii String.
From stdpp Require Import base list strings.
From S2P Require Import Prelude JsBase MiniNumber Lexer Parser Mmr.

Module Vm.
Import Js Mn Lx Ps.

(** ** Signatures and hashes outside the package *)

(** [wotsVerifyDigest], [verifyTreeSignature] and the hashes.  [proof_count] is the
    length of a tree signature's [proofs], if that is an array. *)
Class Platform := {
  sha3_256 : string → string;
  sha256 : string → string;
  TreeSignature : Type;
  proof_count : TreeSignature → option Z;
  wotsVerifyDigest : string → string → string → result string bool;
  verifyTreeSignature : string → string → TreeSignature → result string bool }.

(** ** types.ts *)

Inductive Signature `{Platform} := Flat (bytes : string) | Tree (sig : TreeSignature).

Record ScriptProof := mkScriptProof { sp_script : string; proofHex : string }.
Record ScriptWitness `{Platform} := mkWitness {
  signatures : list (string * Signature); scriptProofs : list ScriptProof }.
Arguments Flat {_} _.
Arguments Tree {_} _.
Arguments mkWitness {_} _ _.

Record CoinData := mkCoin {
  c_amount : jsnum; c_tokenId : string; coinId : string; c_address : string;
  coinCreatedBlock : option jsnum; scriptHash : option string }.
Record OutputData := mkOut { o_address : string; o_amount : jsnum; o_tokenId : string; o_keepState : bool }.

(** Ports of [state] are the property names of numbers.  Absent lists of the
    context that read as empty are empty here. *)
Record TxContext := mkCtx {
  block : jsnum; blockMilli : option jsnum; inputIndex : jsnum;
  inputs : list CoinData; outputs : list OutputData;
  state : list (string * string); prevState : list (string * string);
  txDigest : option string; mastBranches : list (string * string); allowLegacyMastBranches : bool;
  prevCoins : option (list CoinData); simulationMode : bool }.

(** ** Values *)

Definition is_0x (s : string) : bool := starts_with "0x" s || starts_with "0X" s.
Definition strip_0x (s : string) : string := if is_0x s then drop_str 2 s else s.

Definition runtime {A} (m : string) : Kiss A := Err (KissvmRuntimeError (Message m)).
Definition js {A} (r : result string A) : Kiss A := match r with Ok a => Ok a | Err m => Err (JsError m) end.

Definition asMiniNumber (v : Value) : Kiss MiniNumber :=
  match v with
  | VNum m => Ok m
  | VBool b => Ok (if b then ONE else ZERO)
  | VStr s =>
      if String.eqb s "" then Ok ZERO
      else if is_0x s then
        let hex := drop_str 2 s in
        let digits := negb (String.eqb hex "") && str_forallb is_hex_digit hex in
        let shown := String dquote (take_str 20 s +:+ String dquote "") in
        if digits && (String.length hex <=? 64)%nat
        then n ← to_big ("0x" +:+ hex); of_string (big_to_string n)
        else if digits then runtime ("Hex value " +:+ shown +:+ " exceeds MiniNumber precision")
        else runtime ("Cannot convert hex data " +:+ shown +:+ " to a number")
      else of_string s
  | VBytes _ => runtime "Cannot convert object to number"
  end.
Definition asPortInt (v : Value) : Kiss jsnum := toNumber <$> asMiniNumber v.

(** [String(v)], also the text of a value in a template. *)
Definition string_of (v : Value) : string :=
  match v with
  | VNum m => toString m
  | VStr s => s
  | VBool b => if b then "true" else "false"
  | VBytes s => join_comma (map (λ c, dec (code c)) (list_ascii_of_string s))
  end.
Definition miniNumberToString (v : Value) : string :=
  match v with
  | VNum m => toString m
  | VBool b => if b then "1" else "0"
  | VBytes s => "0x" +:+ hex_of_bytes s
  | VStr s => s
  end.
(** The text an operator on strings or hex reads. *)
Definition text_of (v : Value) : string := miniNumberToString v.

Definition isTruthy (v : Value) : Kiss bool :=
  match v with
  | VBool b => Ok b
  | VNum m => negb <$> isEqual m ZERO
  | VStr s => Ok (negb (String.eqb s "") && negb (String.eqb (toLowerCase s) "false"))
  | VBytes s => Ok (negb (String.eqb s ""))
  end.

Definition normalizeHex (s : string) : string :=
  let lower := toLowerCase s in if starts_with "0x" lower then drop_str 2 lower else lower.

Definition kissvmEq (a b : Value) : Kiss bool :=
  match a, b with
  | VNum x, VNum y => isEqual x y
  | VStr x, VStr y => Ok (String.eqb (normalizeHex x) (normalizeHex y))
  | VBool x, VBool y => Ok (Bool.eqb x y)
  | VBool _, _ | _, VBool _ => x ← isTruthy a; y ← isTruthy b; Ok (Bool.eqb x y)
  | _, _ => match (x ← asMiniNumber a; y ← asMiniNumber b; isEqual x y) with Ok r => Ok r | Err _ => Ok false end
  end.

Definition MAX_INSTRUCTIONS : Z := 1024.
Definition MAX_STACK_DEPTH : Z := 64.
Definition MAX_PARAMS : Z := 32.
Definition MAX_STRING_BYTES : Z := 65536.
Definition MAX_SHIFT_BITS : Z := 256.

(** Half the digits of hex text may exceed the bound by half a byte. *)
Definition checkStringSize (s : string) : Kiss unit :=
  let len s := Z.of_nat (String.length s) in
  throw_if (if is_0x s then len s - 2 >? 2 * MAX_STRING_BYTES else len (utf8 s) >? MAX_STRING_BYTES)
    (KissvmLimitError ("String/hex value exceeds " +:+ dec MAX_STRING_BYTES +:+ "-byte limit")).
Definition sized (s : string) : Kiss Value := _ ← checkStringSize s; Ok (VStr s).

(** [isNaN(parseFloat(s))]: no number starts the text. *)
Definition parse_float_is_nan (s : string) : bool :=
  let t := trim_start s in
  let t := if next_is (λ c, Ascii.eqb c "+" || Ascii.eqb c "-") t then drop_str 1 t else t in
  negb (starts_with "Infinity" t || next_is is_digit t
        || (starts_with "." t && next_is is_digit (drop_str 1 t))).

Definition parseStateValue (raw : string) : Kiss Value :=
  if String.eqb raw "" then Ok (VNum ZERO)
  else if is_0x raw then Ok (VStr raw)
  else if parse_float_is_nan raw then Ok (VStr raw)
  else VNum <$> of_string raw.

Definition toArray (v : Value) : list Value :=
  match v with VStr s => map (λ s, VStr (trim s)) (split_on "," s) | _ => [v] end.

Definition toBytes (v : Value) : Kiss string :=
  match v with
  | VBytes s => Ok s
  | VStr s => if is_0x s then js (Mm.hexToBytes (drop_str 2 s)) else Ok (utf8 s)
  | VNum m =>
      n ← to_big (toString m);
      let hex := hex_text n in
      js (Mm.hexToBytes (if Nat.odd (String.length hex) then String "0" hex else hex))
  | VBool b => Ok (String (byte (if b then 1 else 0)) "")
  end.

(** ** Operators *)

Definition bool_op (op : TokenKind) (x y : bool) : bool :=
  match op with
  | XOR => xorb x y | NXOR => Bool.eqb x y | NAND => negb (x && y) | _ => negb (x || y)
  end.
Definition truth_op (op : TokenKind) (a b : Value) : Kiss Value :=
  match op with
  | XOR | NXOR => x ← isTruthy a; y ← isTruthy b; Ok (VBool (bool_op op x y))
  | NAND => x ← isTruthy a; y ← if x : bool then isTruthy b else Ok false; Ok (VBool (bool_op op x y))
  | _ => x ← isTruthy a; y ← if x : bool then Ok true else isTruthy b; Ok (VBool (bool_op op x y))
  end.

Definition numbers {A} (f : MiniNumber → MiniNumber → Kiss A) (a b : Value) : Kiss A :=
  x ← asMiniNumber a; y ← asMiniNumber b; f x y.

Definition add_values (a b : Value) : Kiss Value :=
  match a, b with
  | VStr _, _ | _, VStr _ => sized (text_of a +:+ text_of b)
  | _, _ => VNum <$> numbers add a b
  end.

(** LSHIFT and RSHIFT of the integer part. *)
Definition shift (f : Z → Z → Z) (a b : Value) : Kiss Value :=
  x ← asMiniNumber a; y ← asMiniNumber b;
  let amount := toNumber y in
  _ ← throw_if (num_lt amount (of_Z 0)) (KissvmRuntimeError (Message "Negative shift amount"));
  _ ← throw_if (num_lt (of_Z MAX_SHIFT_BITS) amount)
        (KissvmLimitError ("Shift " +:+ num_to_string amount +:+ " exceeds max " +:+ dec MAX_SHIFT_BITS));
  n ← to_big (getAsBigInteger x);
  k ← of_option (JsError "RangeError") (num_integer amount);
  VNum <$> of_string (big_to_string (f n k)).

Definition bitwise (op : TokenKind) (f : Z → Z → Z) (a b : Value) : Kiss Value :=
  let l := strip_0x (text_of a) in
  let r := strip_0x (text_of b) in
  _ ← throw_if (negb (str_forallb is_hex_digit l) || negb (str_forallb is_hex_digit r))
        (KissvmRuntimeError (Message ("Bitwise " +:+ kind_name op +:+ " requires hex values")));
  let maxLen := Nat.max (String.length l) (String.length r) in
  x ← to_big ("0x" +:+ pad_start maxLen "0" l);
  y ← to_big ("0x" +:+ pad_start maxLen "0" r);
  sized ("0x" +:+ pad_start (2 * Nat.div2 (S maxLen)) "0" (hex_text (f x y))).

(** Both operands evaluated: every operator but AND and OR. *)
Definition apply_binary (op : TokenKind) (a b : Value) : Kiss Value :=
  match op with
  | XOR | NXOR | NAND | NOR => truth_op op a b
  | EQ => VBool <$> kissvmEq a b
  | NEQ => (λ r, VBool (negb r)) <$> kissvmEq a b
  | GT => VBool <$> numbers isMore a b
  | GTE => VBool <$> numbers isMoreEqual a b
  | LT => VBool <$> numbers isLess a b
  | LTE => VBool <$> numbers isLessEqual a b
  | ADD => add_values a b
  | SUB => VNum <$> numbers sub a b
  | MUL => VNum <$> numbers mult a b
  | DIV => VNum <$> numbers div a b
  | MOD => VNum <$> numbers modulo a b
  | LSHIFT => shift Z.shiftl a b
  | RSHIFT => shift Z.shiftr a b
  | BITAND => bitwise op Z.land a b
  | BITOR => bitwise op Z.lor a b
  | BITXOR => bitwise op Z.lxor a b
  | _ => Err (KissvmRuntimeError (Stuck ("Unknown binary operator: " +:+ kind_name op)))
  end.

(** Two digits, or the last one, to the complement of their byte. *)
Fixpoint complement (hex : string) : string :=
  let flip n := hex_byte (byte (255 - n)) in
  match hex with
  | String a (String b r) => flip (16 * default 0 (digit_val a) + default 0 (digit_val b)) +:+ complement r
  | String a EmptyString => flip (default 0 (digit_val a))
  | EmptyString => ""
  end.
Definition bitnot (v : Value) : Kiss Value :=
  let hex := strip_0x (text_of v) in
  _ ← throw_if (negb (str_forallb is_hex_digit hex)) (KissvmRuntimeError (Message "BITNOT requires hex value"));
  if String.eqb hex "" then Ok (VStr "0xff") else
  let msbSet := default 0 (parse_radix 16 (take_str 2 hex)) >=? 128 in
  sized ("0x" +:+ complement (if msbSet then "00" +:+ hex else hex)).

(** ** Functions of evaluated arguments *)

Fixpoint pairs (s : string) : list string :=
  match s with String a (String b r) => String a (String b "") :: pairs r | _ => [] end.
(** Bytes of hex text from the last to the first; an odd first digit is dropped. *)
Definition reverse_value (v : Value) : Value :=
  let str := text_of v in
  if is_0x str then
    let raw := drop_str 2 str in
    let raw := if Nat.odd (String.length raw) then drop_str 1 raw else raw in
    VStr ("0x" +:+ foldr String.append "" (rev (pairs raw)))
  else VStr (rev_str "" str).

Definition half (n : Z) : jsnum := num_div (of_Z n) (of_Z 2).
Definition len_value (v : Value) : Kiss Value :=
  VNum <$> of_number (half (Z.of_nat (String.length (strip_0x (text_of v))))).
Definition size_value (v : Value) : Kiss Value :=
  let str := text_of v in
  let bytes := match v with
               | VBytes s => of_Z (Z.of_nat (String.length s))
               | _ => if is_0x str then half (Z.of_nat (String.length str) - 2)
                      else of_Z (Z.of_nat (String.length (utf8 str)))
               end in
  VNum <$> of_string (num_to_string bytes).

Definition str_value (v : Value) : Value :=
  VStr match v with VBool b => if b then "TRUE" else "FALSE" | _ => text_of v end.

Definition substr_value (str : string) (start : jsnum) (len : option jsnum) : Value :=
  let sub := slice_str (strip_0x str) start (num_add start <$> len) in
  VStr (if is_0x str then "0x" +:+ sub else sub).

Definition bit_index (pos : jsnum) : Kiss Z := of_option (JsError "RangeError") (num_integer pos).
Definition bitget (bits : MiniNumber) (pos : jsnum) : Kiss Value :=
  k ← bit_index pos;
  Ok (VNum (if Z.land (Z.shiftr (unscaled bits) k) 1 =? 1 then ONE else ZERO)).
Definition bitset (bits : MiniNumber) (pos : jsnum) (set : bool) : Kiss Value :=
  _ ← throw_if (num_lt pos (of_Z 0)) (KissvmRuntimeError (Message "BITSET position must be non-negative"));
  k ← bit_index pos;
  let mask := Z.shiftl 1 k in
  VNum <$> of_string (big_to_string (if set then Z.lor (unscaled bits) mask
                                     else Z.land (unscaled bits) (Z.lnot mask))).

(** [scriptlet.replace(/\$(\d+)/g, ...)] *)
Fixpoint name_arguments (fuel : nat) (s : string) : string :=
  match fuel, s with
  | S fuel, String c r =>
      if Ascii.eqb c "$" && next_is is_digit r
      then let '(d, r) := span_while is_digit r in "__fn_arg_" +:+ d +:+ name_arguments fuel r
      else String c (name_arguments fuel r)
  | _, _ => s
  end.
Definition arg_name (i : nat) : string := "__fn_arg_" +:+ dec (Z.of_nat i + 1).

(** ** vm.ts *)

(** A piece of a trace line: text, or a sign outside this alphabet. *)
Inductive Glyph := Text (s : string) | Ellipsis | Arrow.
Notation Frame := (list (string * Value)).
Record UserFunction := mkFunc { params : list string; fbody : list ASTNode; closureEnv : Frame }.

(** [envStack] has the innermost frame first. *)
Record VMState `{Platform} := mkVM {
  instructionCount : Z; tuples : list (jsnum * Value); envStack : list Frame; callDepth : Z;
  funcs : list (string * UserFunction); trace : list (list Glyph);
  mastBlock : list (string * list ASTNode);
  witness : ScriptWitness; txCtx : TxContext }.

Arguments mkVM {_} _ _ _ _ _ _ _ _ _.

Definition new_vm `{Platform} (w : ScriptWitness) (ctx : TxContext) : VMState :=
  mkVM 0 [] [[]] 0 [] [] [] w ctx.

(** What stops an evaluation: an exception, a [ReturnSignal], a SAMESTATE loop that
    outlasts the bound it is given (with the next port, and the last), or the end of
    the model's fuel. *)
Inductive Signal := Throw (e : KissvmError) | ReturnSignal (v : Value) | Endless (port to : jsnum) | NoFuel.

Section State.
Context `{Platform}.
Notation K := (M VMState Signal).

Definition kthrow {A} (e : KissvmError) : K A := mthrow (Throw e).
Definition kruntime {A} (m : string) : K A := kthrow (KissvmRuntimeError (Message m)).
Definition kiss {A} (r : Kiss A) : K A := λ s, (match r with Ok a => Ok a | Err e => Err (Throw e) end, s).
(** [try { m } finally { f }] *)
Definition finally {A} (m : K A) (f : VMState → VMState) : K A := λ s, let '(r, s) := m s in (r, f s).

Definition set_count (n : Z) (s : VMState) : VMState :=
  mkVM n (tuples s) (envStack s) (callDepth s) (funcs s) (trace s) (mastBlock s) (witness s) (txCtx s).
Definition set_tuples t (s : VMState) : VMState :=
  mkVM (instructionCount s) t (envStack s) (callDepth s) (funcs s) (trace s) (mastBlock s) (witness s) (txCtx s).
Definition set_env e (s : VMState) : VMState :=
  mkVM (instructionCount s) (tuples s) e (callDepth s) (funcs s) (trace s) (mastBlock s) (witness s) (txCtx s).
Definition set_depth d (s : VMState) : VMState :=
  mkVM (instructionCount s) (tuples s) (envStack s) d (funcs s) (trace s) (mastBlock s) (witness s) (txCtx s).
Definition set_funcs f (s : VMState) : VMState :=
  mkVM (instructionCount s) (tuples s) (envStack s) (callDepth s) f (trace s) (mastBlock s) (witness s) (txCtx s).
Definition set_trace t (s : VMState) : VMState :=
  mkVM (instructionCount s) (tuples s) (envStack s) (callDepth s) (funcs s) t (mastBlock s) (witness s) (txCtx s).
Definition set_mast b (s : VMState) : VMState :=
  mkVM (instructionCount s) (tuples s) (envStack s) (callDepth s) (funcs s) (trace s) b (witness s) (txCtx s).
Definition set_ctx c (s : VMState) : VMState :=
  mkVM (instructionCount s) (tuples s) (envStack s) (callDepth s) (funcs s) (trace s) (mastBlock s) (witness s) c.

Definition tick (n : Z) : K unit :=
  _ ← mmodify (λ s, set_count (instructionCount s + n) s);
  s ← mget;
  mthrow_if (instructionCount s >? MAX_INSTRUCTIONS)
    (Throw (KissvmLimitError ("Instruction limit exceeded (max " +:+ dec MAX_INSTRUCTIONS +:+ ")"))).

Definition addTrace (line : list Glyph) : K unit := mmodify (λ s, set_trace (trace s ++ [line]) s).

(** *** Scopes *)

Fixpoint env_get (name : string) (env : list Frame) : option Value :=
  match env with
  | [] => None
  | f :: env => match map_get name f with Some v => Some v | None => env_get name env end
  end.
Definition get (name : string) (s : VMState) : option Value := env_get name (envStack s).

(** Update the innermost frame that has the name. *)
Fixpoint env_update (name : string) (v : Value) (env : list Frame) : option (list Frame) :=
  match env with
  | [] => None
  | f :: env => if map_has name f then Some (map_set name v f :: env) else (cons f) <$> env_update name v env
  end.
Definition env_set (name : string) (v : Value) (env : list Frame) : list Frame :=
  match env_update name v env with
  | Some env => env
  | None => match env with f :: env => map_set name v f :: env | [] => [] end
  end.
Definition set (name : string) (v : Value) : K unit := mmodify (λ s, set_env (env_set name v (envStack s)) s).

Definition enter (what : string) : K unit :=
  _ ← mmodify (λ s, set_depth (callDepth s + 1) s);
  s ← mget;
  mthrow_if (callDepth s >? MAX_STACK_DEPTH)
    (Throw (KissvmLimitError (what +:+ " depth exceeded (max " +:+ dec MAX_STACK_DEPTH +:+ ")"))).
Definition leave (s : VMState) : VMState := set_depth (Z.max 0 (callDepth s - 1)) s.

Definition pushCallFrame : K unit := _ ← enter "Call stack"; mmodify (λ s, set_env ([] :: envStack s) s).
Definition popCallFrame (s : VMState) : VMState :=
  let s := leave s in
  set_env match envStack s with _ :: ((_ :: _) as rest) => rest | env => env end s.
Definition pushBlockScope : K unit := enter "Stack".
Definition popBlockScope : VMState → VMState := leave.

(** A frame's bindings over those of the frames outside it. *)
Definition snapshotEnv (s : VMState) : Frame :=
  foldl (λ snap f, foldl (λ snap kv, map_set kv.1 kv.2 snap) snap f) [] (rev (envStack s)).

End State.
End Vm.
