(* ===== verification/Eval.v ===== *)
(** * KISSVM: the evaluator (packages/kissvm/src/eval.ts)

    One definition per opcode, over the evaluator of subexpressions and of
    statements; [evalExpr] and [execStatement] tie the knot on a fuel.  Every
    expression, statement and loop turn counts an instruction, so a fuel above
    MAX_INSTRUCTIONS is enough.  The loop of SAMESTATE counts none: it is given
    [patience] turns. *)

From Stdlib Require Import ZArith Lia QArith Ascii String.
From stdpp Require Import base list strings.
From S2P Require Import Prelude JsBase MiniNumber Lexer Parser NodeScript Mmr Vm.

Module Ev.
Import Js Mn Lx Ps Vm.

Section Evaluator.
Context `{Platform} (patience : nat).
Notation K := (M VMState Signal).

(** A parse inside the evaluator. *)
Definition kparse {A} (r : Scan A) : K A :=
  match r with
  | Ok a => mret a
  | Err (Raise e) => kthrow e
  | Err OutOfFuel => mthrow NoFuel
  end.
(** [try { r } catch { line; false }] *)
Definition guarded {A} (r : result string A) (line : list Glyph) (ok : A → K bool) : K bool :=
  match r with Ok a => ok a | Err _ => _ ← addTrace line; mret false end.

Definition bool_text (b : bool) : string := if b then "true" else "false".

(** ** SIGNEDBY *)

Definition MAX_KEY_LEVELS : Z := 8.

Definition verifyWitnessSignature (entry : Signature) (digest expectedKey : string) : result string bool :=
  match entry with
  | Flat sig => wotsVerifyDigest sig digest expectedKey
  | Tree sig =>
      match proof_count sig with
      | Some n => if (n =? 0) || (n >? MAX_KEY_LEVELS) then Ok false else verifyTreeSignature expectedKey digest sig
      | None => Ok false
      end
  end.

Definition verifySignedBy (pkVal : string) : K bool :=
  s ← mget;
  let stripped := normalizeHex pkVal in
  let line l := Text ("SIGNEDBY(" +:+ take_str 10 stripped) :: Ellipsis :: Text ") " :: Arrow :: l in
  match map_get stripped (signatures (witness s)) with
  | None => _ ← addTrace (line [Text " no sig"]); mret false
  | Some sig =>
      match txDigest (txCtx s) with
      | None =>
          if simulationMode (txCtx s)
          then _ ← addTrace (line [Text " present (simulation mode)"]); mret true
          else _ ← addTrace (line [Text " false (no txDigest; provide TxContext.txDigest for real verification)"]);
               mret false
      | Some digest =>
          guarded (key ← Mm.hexToBytes stripped; verifyWitnessSignature sig digest key)
            (line [Text " verify error"])
            (λ ok, _ ← addTrace (line [Text (" " +:+ bool_text ok)]); mret ok)
      end
  end.

(** ** PROOF *)

Definition quoted_root (s : string) : string := normalizeHex ("0x" +:+ hex_of_bytes s).

Definition evalProof (dataVal : string) (leafSumVal : MiniNumber) (rootHashVal : string)
    (rootSumVal : MiniNumber) (proofVal : string) (isHex : bool) : K bool :=
  let normRoot := normalizeHex rootHashVal in
  let shown := (if isHex then "0x" else "") +:+ take_str 12 dataVal in
  guarded (bytes ← if isHex then Mm.hexToBytes (strip_0x dataVal) else Ok (utf8 dataVal);
           Mm.createMMRDataLeafNode sha3_256 bytes (unscaled leafSumVal))
    [Text "PROOF: leaf data construction failed "; Arrow; Text " false"]
    (λ leafData,
      let proofHex := strip_0x proofVal in
      if String.eqb proofHex "" then
        let hashOk := String.eqb (quoted_root (Mm.data leafData)) normRoot in
        let sumOk := unscaled leafSumVal =? unscaled rootSumVal in
        _ ← addTrace [Text ("PROOF(data=" +:+ shown); Ellipsis;
              Text (", isHex=" +:+ bool_text isHex +:+ ") empty-proof trivial=" +:+ bool_text (hashOk && sumOk)
                    +:+ " (hash=" +:+ bool_text hashOk +:+ ", sum=" +:+ bool_text sumOk +:+ ")")];
        mret (hashOk && sumOk)
      else
        guarded (proofBytes ← Mm.hexToBytes proofHex;
                 Mm.calculateRootMMRData sha3_256 leafData (Mm.pp_proof (Mm.parseMMRProofFromHex proofBytes)))
          [Text "PROOF: verification error "; Arrow; Text " false"]
          (λ root,
            let hashOk := String.eqb (quoted_root (Mm.data root)) normRoot in
            let sumOk := Mm.value root =? unscaled rootSumVal in
            _ ← addTrace [Text ("PROOF(data=" +:+ shown); Ellipsis;
                  Text (", isHex=" +:+ bool_text isHex +:+ ") canonical-MMR root="
                        +:+ take_str 12 ("0x" +:+ hex_of_bytes (Mm.data root))); Ellipsis;
                  Text (" hash-match=" +:+ bool_text hashOk +:+ " sum-match=" +:+ bool_text sumOk)];
            mret (hashOk && sumOk))).

(** ** MAST: script proofs *)

Definition verifyScriptProof (sp : ScriptProof) (expectedRoot : string) : K bool :=
  let shown := take_str 20 (sp_script sp) in
  let leaf := Mm.mmrLeafExact sha3_256 (sp_script sp) in
  guarded
    (proofBytes ← Mm.hexToBytes (if is_0x (proofHex sp) then drop_str 2 (proofHex sp) else proofHex sp);
     if String.eqb proofBytes "" then Ok (true, leaf)
     else root ← Mm.calculateProofRoot sha3_256 (Mm.mkData leaf 0) (Mm.pp_proof (Mm.parseMMRProofFromHex proofBytes));
          Ok (false, root))
    [Text ("MAST: ScriptProof verification error for " +:+ shown); Ellipsis]
    (λ r, if String.eqb (quoted_root r.2) expectedRoot then mret true else
          _ ← addTrace [Text ((if r.1 : bool then "MAST: empty-proof ScriptProof root mismatch for "
                               else "MAST: ScriptProof root mismatch for ") +:+ shown); Ellipsis];
          mret false).

(** The first script proof that verifies against the root. *)
Fixpoint find_verified (proofs : list ScriptProof) (root : string) : K (option ScriptProof) :=
  match proofs with
  | [] => mret None
  | sp :: proofs => ok ← verifyScriptProof sp root; if ok : bool then mret (Some sp) else find_verified proofs root
  end.

(** The legacy branches, when the context opts in. *)
Definition legacy_branches (ctx : TxContext) : list (string * string) :=
  if allowLegacyMastBranches ctx then mastBranches ctx else [].

Definition branch_revealed (w : ScriptWitness) (norm : string) : bool :=
  existsb (λ sp, String.eqb (quoted_root (Mm.mmrLeafExact sha3_256 (sp_script sp))) norm) (scriptProofs w).
Definition branch_named (branches : list (string * string)) (norm : string) : bool :=
  existsb (λ kv, String.eqb (normalizeHex kv.1) norm) branches.

(** The body of the first inline branch the spender revealed, and whether a script
    proof revealed it. *)
Fixpoint select_branch (w : ScriptWitness) (legacy : list (string * string))
    (defined : list (string * list ASTNode)) : option (bool * string * list ASTNode) :=
  match defined with
  | [] => None
  | (hash, body) :: defined =>
      let norm := normalizeHex hash in
      if branch_revealed w norm then Some (true, norm, body)
      else if branch_named legacy norm then Some (false, norm, body)
      else select_branch w legacy defined
  end.

(** ** Built-in variables *)

Definition sized_field (f : CoinData → string) (coin : option CoinData) : Kiss Value :=
  sized (match coin with Some c => f c | None => "" end).
Definition created_block (coin : option CoinData) : jsnum :=
  default (of_Z 0) (c ← coin; coinCreatedBlock c).

Definition resolveBuiltin (name : string) (ctx : TxContext) : Kiss Value :=
  let coin := nth_num (inputs ctx) (inputIndex ctx) in
  let number n := VNum <$> of_number n in
  let count (n : nat) := number (of_Z (Z.of_nat n)) in
  if String.eqb name "BLOCK" then number (block ctx)
  else if String.eqb name "ADDRESS" then sized_field c_address coin
  else if String.eqb name "AMOUNT" then number (default (of_Z 0) (c_amount <$> coin))
  else if String.eqb name "TOKENID" then sized_field c_tokenId coin
  else if String.eqb name "INPUT" then number (inputIndex ctx)
  else if String.eqb name "SCRIPT" then sized_field (λ c, default ""%string (scriptHash c)) coin
  else if String.eqb name "COINAGE" then number (num_max (of_Z 0) (num_sub (block ctx) (created_block coin)))
  else if String.eqb name "BLOCKMILLI" then
    match blockMilli ctx with
    | None => runtime "@BLOCKMILLI requires txCtx.blockMilli to be set"
    | Some n => number n
    end
  else if String.eqb name "CREATED" then number (created_block coin)
  else if String.eqb name "COINID" then sized_field coinId coin
  else if String.eqb name "TOTIN" then count (length (inputs ctx))
  else if String.eqb name "TOTOUT" then count (length (outputs ctx))
  else runtime ("Unknown built-in variable: @" +:+ name).

(** ** Transaction opcodes *)

Definition port_value (ports : list (string * string)) (port : jsnum) : string :=
  default ""%string (map_get (num_to_string port) ports).

(** [for (p = from; p <= to; p++)] *)
Fixpoint samestate_loop (turns : nat) (ctx : TxContext) (p to : jsnum) : K bool :=
  if negb (num_le p to) then mret true else
  match turns with
  | O => mthrow (Endless p to)
  | S turns =>
      if negb (String.eqb (port_value (state ctx) p) (port_value (prevState ctx) p)) then mret false
      else samestate_loop turns ctx (num_add p (of_Z 1)) to
  end.
Definition samestate (from to : jsnum) : K bool :=
  _ ← mthrow_if (num_lt to from)
        (Throw (KissvmRuntimeError (Message ("SAMESTATE: from (" +:+ num_to_string from +:+ ") must be <= to ("
                                             +:+ num_to_string to +:+ ")"))));
  s ← mget; samestate_loop patience (txCtx s) from to.

Definition same_coin (a b : CoinData) : bool :=
  String.eqb (coinId a) (coinId b) && String.eqb (c_tokenId a) (c_tokenId b)
  && num_eqb (c_amount a) (c_amount b) && String.eqb (c_address a) (c_address b).
Definition samecoins (ctx : TxContext) : bool :=
  match prevCoins ctx with
  | None => true
  | Some prev => Nat.eqb (length (inputs ctx)) (length prev)
                 && forallb (λ ab, same_coin ab.1 ab.2) (combine (inputs ctx) prev)
  end.
Definition coindata (ctx : TxContext) : string :=
  match nth_num (inputs ctx) (inputIndex ctx) with
  | None => ""
  | Some c => coinId c +:+ ":" +:+ num_to_string (c_amount c) +:+ ":" +:+ c_tokenId c +:+ ":" +:+ c_address c
  end.

(** The comparisons stop at the first that fails. *)
Definition output_matches (out : OutputData) (addr : string) (amt : MiniNumber) (tokId : string) (keep : bool) :
    Kiss bool :=
  if negb (String.eqb (normalizeHex (o_address out)) addr) then Ok false else
  n ← of_number (o_amount out);
  same ← isEqual n amt;
  Ok (same && String.eqb (normalizeHex (o_tokenId out)) tokId && Bool.eqb (o_keepState out) keep).

Definition getout (fn : OutFn) (out : OutputData) : Kiss Value :=
  match fn with
  | OutAMT => VNum <$> of_number (o_amount out)
  | OutADDR => Ok (VStr (o_address out))
  | OutTOK => Ok (VStr (o_tokenId out))
  | OutKEEPSTATE => Ok (VBool (o_keepState out))
  end.

(** ** Expressions and statements, over their own evaluators *)

Section Nodes.
(** [evalExpr] and [execStatements] *)
Context (ev : ASTNode → K Value) (ex : list ASTNode → K unit) (turns : nat).

Definition ev_number (n : ASTNode) : K MiniNumber := v ← ev n; kiss (asMiniNumber v).
Definition ev_port (n : ASTNode) : K jsnum := v ← ev n; kiss (asPortInt v).
Definition ev_string (n : ASTNode) : K string := string_of <$> ev n.
Definition ev_truth (n : ASTNode) : K bool := v ← ev n; kiss (isTruthy v).
Fixpoint ev_all (l : list ASTNode) : K (list Value) :=
  match l with [] => mret [] | n :: l => v ← ev n; vs ← ev_all l; mret (v :: vs) end.

(** [evalExpr(argNodes\[i\])]: reading the type of a missing node throws. *)
Definition ev_arg (args : list ASTNode) (i : nat) : K Value :=
  match args !! i with
  | Some n => ev n
  | None => _ ← tick 1; kthrow (JsError "TypeError")
  end.
Definition arg_number (args : list ASTNode) (i : nat) : K MiniNumber := v ← ev_arg args i; kiss (asMiniNumber v).
Definition arg_port (args : list ASTNode) (i : nat) : K jsnum := v ← ev_arg args i; kiss (asPortInt v).

(** *** Sub-machines *)

(** The value of a [ReturnSignal], or what [m] leaves. *)
Definition catch_return {A} (m : K A) (ret : Value → K A) : K A :=
  mcatch m (λ e, match e with ReturnSignal v => ret v | e => mthrow e end).

Definition indent (label : string) (lines : list (list Glyph)) : list (list Glyph) :=
  map (cons (Text label)) lines.

(** The sub-machine inherits the count and the functions; the context is the
    same object. *)
Definition executeSubScript (script : string) : K bool := λ s,
  match parseScript script [] with
  | Err (Raise e) => (Err (Throw e), s)
  | Err OutOfFuel => (Err NoFuel, s)
  | Ok ast =>
      let sub := set_funcs (funcs s) (set_count (instructionCount s) (new_vm (witness s) (txCtx s))) in
      let '(r, sub) := catch_return (_ ← ex ast; mret false) (λ v, kiss (isTruthy v)) sub in
      let s := set_ctx (txCtx sub) (set_count (instructionCount sub) s) in
      match r with
      | Ok b => (Ok b, set_trace (trace s ++ indent "  [sub] " (trace sub)) s)
      | Err e => (Err e, s)
      end
  end.

Definition execInlineBody (body : list ASTNode) : K bool :=
  _ ← pushCallFrame;
  finally (catch_return (_ ← ex body; mret false) (λ v, kiss (isTruthy v))) popCallFrame.

Definition set_arguments (names : list string) (values : list Value) : K unit :=
  mfor (λ nv, set nv.1 nv.2) (combine names values).

(** *** User functions *)

Definition validateArgCount (fn : UserFunction) (provided : nat) (name : string) : K unit :=
  let n := length (params fn) in
  mthrow_if (negb (Nat.eqb provided n))
    (Throw (KissvmRuntimeError (Message ("Function " +:+ name +:+ " expects " +:+ dec (Z.of_nat n)
                                         +:+ " arg(s), got " +:+ dec (Z.of_nat provided))))).

Definition call_user {A} (fn : UserFunction) (argNodes : list ASTNode) (fall : A) (ret : Value → K A) : K A :=
  args ← ev_all argNodes;
  _ ← pushCallFrame;
  _ ← set_arguments (params fn) args;
  finally (catch_return (_ ← ex (fbody fn); mret fall) ret) popCallFrame.
Definition callUserFunc (fn : UserFunction) (args : list ASTNode) : K unit := call_user fn args tt (λ _, mret tt).
Definition callUserFuncExpr (fn : UserFunction) (args : list ASTNode) : K Value :=
  call_user fn args (VBool false) mret.

Definition user_function (name : string) (args : list ASTNode) : K UserFunction :=
  s ← mget;
  match map_get name (funcs s) with
  | None => kruntime ("Unknown function: " +:+ name)
  | Some fn => _ ← validateArgCount fn (length args) name; mret fn
  end.

(** *** FUNCTION *)

Definition adoptLimitsFrom (parent s : VMState) : VMState :=
  set_depth (callDepth parent) (set_count (instructionCount parent) s).
Definition flushLimitsTo (s parent : VMState) : VMState :=
  set_depth (Z.max (callDepth parent) (callDepth s)) (set_count (instructionCount s) parent).

(** A body that ends in LET has its expression evaluated once more. *)
Definition function_body (ast : list ASTNode) : K Value :=
  catch_return
    (_ ← ex ast;
     match last ast with Some (LetNode _ value) => ev value | _ => mret (VNum ZERO) end)
    mret.

Definition run_function (scriptlet : string) (args : list Value) : K Value := λ s,
  let names := map arg_name (seq 0 (length args)) in
  match parseScript (name_arguments (String.length scriptlet) scriptlet) names with
  | Err (Raise e) => (Err (Throw e), s)
  | Err OutOfFuel => (Err NoFuel, s)
  | Ok ast =>
      let sub := adoptLimitsFrom s (new_vm (witness s) (txCtx s)) in
      match (_ ← pushCallFrame; _ ← set_arguments names args; mmodify (set_funcs (funcs s))) sub with
      | (Err e, _) => (Err e, s)
      | (Ok _, sub) =>
          let '(r, sub) := finally (function_body ast) popCallFrame sub in
          let s := set_ctx (txCtx sub) (flushLimitsTo sub s) in
          (r, set_trace (trace s ++ indent "  [FUNCTION] " (trace sub)) s)
      end
  end.

(** *** Built-in functions *)

Definition pick (better : MiniNumber → MiniNumber → Kiss bool) (args : list ASTNode) : K Value :=
  a ← arg_number args 0; b ← arg_number args 1;
  r ← kiss (better a b); mret (VNum (if r : bool then a else b)).

Definition resolveBuiltinFunction (name : string) (args : list ASTNode) : option (K Value) :=
  let up := toUpperCase name in
  if String.eqb up "LEN" then Some (v ← ev_arg args 0; kiss (len_value v))
  else if String.eqb up "INT" then Some (VNum <$> arg_number args 0)
  else if String.eqb up "STR" then Some (str_value <$> ev_arg args 0)
  else if String.eqb up "ABS" then
    Some (n ← arg_number args 0;
          neg ← kiss (isLess n ZERO);
          if neg : bool then VNum <$> kiss (negate n) else mret (VNum n))
  else if String.eqb up "MIN" then Some (pick isLess args)
  else if String.eqb up "MAX" then Some (pick isMore args)
  else if String.eqb up "SUBSTR" then
    Some (v ← ev_arg args 0; start ← arg_port args 1;
          len ← if (2 <? length args)%nat then Some <$> arg_port args 2 else mret None;
          mret (substr_value (string_of v) start len))
  else if String.eqb up "CONCAT" then
    Some (vs ← ev_all args; kiss (sized (foldr String.append ""%string (map string_of vs))))
  else if String.eqb up "SIZE" then Some (v ← ev_arg args 0; kiss (size_value v))
  else if String.eqb up "REVERSE" then Some (reverse_value <$> ev_arg args 0)
  else if String.eqb up "INC" then Some (n ← arg_number args 0; VNum <$> kiss (add n ONE))
  else if String.eqb up "DEC" then Some (n ← arg_number args 0; VNum <$> kiss (sub n ONE))
  else if String.eqb up "BITGET" then Some (n ← arg_number args 0; p ← arg_port args 1; kiss (bitget n p))
  else if String.eqb up "BITSET" then
    Some (n ← arg_number args 0; p ← arg_port args 1;
          v ← ev_arg args 2; b ← kiss (isTruthy v); kiss (bitset n p b))
  else if String.eqb up "GET" then
    Some (i ← arg_port args 0; s ← mget;
          mret (default (VNum ZERO) (snd <$> List.find (λ kv, num_same kv.1 i) (tuples s))))
  else if String.eqb up "FUNCTION" then
    Some (_ ← mthrow_if (Nat.eqb (length args) 0)
                (Throw (KissvmRuntimeError (Message "FUNCTION requires at least a body argument")));
          body ← ev_arg args 0;
          vs ← ev_all (tail args);
          run_function (string_of body) vs)
  else None.

(** *** MULTISIG, CHECKSIG *)

Fixpoint count_signers (keys : list ASTNode) (threshold : jsnum) (sigCount : Z) : K bool :=
  match keys with
  | [] => mret (num_le threshold (of_Z sigCount))
  | k :: keys =>
      pk ← ev_string k; ok ← verifySignedBy pk;
      let sigCount := if ok : bool then sigCount + 1 else sigCount in
      if num_le threshold (of_Z sigCount) then mret true else count_signers keys threshold sigCount
  end.
Definition multisig (threshold : ASTNode) (keys : list ASTNode) : K bool :=
  t ← ev_port threshold;
  if num_le t (of_Z 0) then mret false else count_signers keys t 0.

Definition zero_key : string := String.concat "" (repeat (String (byte 0) "") 32).
Definition evalChecksig (args : list ASTNode) : K bool :=
  _ ← tick 9;
  s ← mget;
  match txDigest (txCtx s) with
  | None =>
      if simulationMode (txCtx s)
      then mret (negb (Nat.eqb (length args) 0) || negb (Nat.eqb (length (signatures (witness s))) 0))
      else _ ← addTrace [Text "CHECKSIG "; Arrow; Text " false (no txDigest)"]; mret false
  | Some digest =>
      match args with
      | [] => mret (existsb (λ kv, match kv.2 with
                                   | Flat sig => match wotsVerifyDigest sig digest zero_key with
                                                 | Ok b => b | Err _ => false end
                                   | Tree _ => false
                                   end) (signatures (witness s)))
      | a :: _ =>
          pk ← ev_string a;
          let stripped := strip_0x (normalizeHex pk) in
          key ← kiss (js (Mm.hexToBytes stripped));
          s ← mget;
          match map_get stripped (signatures (witness s)) with
          | None => _ ← addTrace [Text "CHECKSIG "; Arrow; Text (" no signature for " +:+ take_str 10 stripped); Ellipsis];
                    mret false
          | Some sig =>
              let line l := Text ("CHECKSIG(" +:+ take_str 10 stripped) :: Ellipsis :: Text ") " :: Arrow :: l in
              guarded (verifyWitnessSignature sig digest key) (line [Text " verify error"])
                (λ ok, _ ← addTrace (line [Text (" " +:+ bool_text ok)]); mret ok)
          end
      end
  end.

(** *** MAST *)

Definition evalMastExpr (rootHash : string) : K bool :=
  let norm := normalizeHex rootHash in
  s ← mget;
  match scriptProofs (witness s) with
  | (_ :: _) as proofs =>
      found ← find_verified proofs norm;
      match found with
      | Some sp =>
          _ ← addTrace [Text ("MAST: verified ScriptProof for " +:+ take_str 14 norm); Ellipsis];
          executeSubScript (sp_script sp)
      | None => kthrow (KissvmRuntimeError (Message ("MAST: no verified ScriptProof found for root " +:+ take_str 20 norm)))
      end
  | [] =>
      let branches := legacy_branches (txCtx s) in
      match map_get norm branches with
      | Some script =>
          _ ← addTrace [Text ("MAST branch found (legacy mastBranches) for " +:+ take_str 14 norm); Ellipsis];
          executeSubScript script
      | None =>
          match List.find (λ kv, String.eqb (normalizeHex kv.1) norm) branches with
          | Some kv =>
              _ ← addTrace [Text ("MAST branch found (legacy normalized) for " +:+ take_str 14 norm); Ellipsis];
              executeSubScript kv.2
          | None => kthrow (KissvmRuntimeError (Message ("MAST: no branch found for root " +:+ take_str 20 norm)))
          end
      end
  end.

Definition execMastBlockVm : K bool :=
  s ← mget;
  let legacy := legacy_branches (txCtx s) in
  match mastBlock s with
  | [] =>
      match scriptProofs (witness s), legacy with
      | _ :: _, _ => kruntime "EXEC MAST: cannot bind ScriptProofs without inline branch hashes"
      | [], (_, script) :: _ =>
          _ ← addTrace [Text "EXEC MAST (legacy mastBranches)"]; executeSubScript script
      | [], [] => kruntime "EXEC MAST: no inline branches, verified ScriptProof, or enabled legacy mastBranches"
      end
  | defined =>
      match select_branch (witness s) legacy defined with
      | Some (verified, norm, body) =>
          _ ← addTrace [Text ((if verified : bool then "EXEC MAST: executing verified inline branch "
                               else "EXEC MAST: executing inline branch (legacy) ") +:+ take_str 14 norm); Ellipsis];
          execInlineBody body
      | None => kruntime "EXEC MAST: no matching branch revealed"
      end
  end.

(** *** Expressions *)

Definition evalBinary (op : TokenKind) (left right : ASTNode) : K Value :=
  match op with
  | AND => a ← ev_truth left; if a : bool then VBool <$> ev_truth right else mret (VBool false)
  | OR => a ← ev_truth left; if a : bool then mret (VBool true) else VBool <$> ev_truth right
  | _ => a ← ev left; b ← ev right; kiss (apply_binary op a b)
  end.

Definition evalUnary (op : string) (e : ASTNode) : K Value :=
  if String.eqb op "NOT" then (λ b, VBool (negb b)) <$> ev_truth e
  else if String.eqb op "NEG" then n ← ev_number e; VNum <$> kiss (negate n)
  else if String.eqb op "BITNOT" then v ← ev e; kiss (bitnot v)
  else kthrow (KissvmRuntimeError (Stuck ("Unknown unary op: " +:+ op))).

Definition read_port (ports : TxContext → list (string * string)) (n : ASTNode) : K Value :=
  p ← ev_port n; s ← mget;
  let raw := port_value (ports (txCtx s)) p in
  kiss (_ ← checkStringSize raw; parseStateValue raw).

Definition out_index (v : Value) : K jsnum :=
  s ← mget;
  match v with
  | VStr t => if str_includes "INPUT" (toUpperCase t) then mret (inputIndex (txCtx s)) else kiss (asPortInt v)
  | _ => kiss (asPortInt v)
  end.
Definition verifyout (index address amount tokenId keepState : ASTNode) : K bool :=
  idx ← ev index;
  addr ← normalizeHex <$> ev_string address;
  amt ← ev_number amount;
  tok ← normalizeHex <$> ev_string tokenId;
  keep ← ev_truth keepState;
  i ← out_index idx;
  s ← mget;
  match nth_num (outputs (txCtx s)) i with
  | None => mret false
  | Some out =>
      r ← kiss (output_matches out addr amt tok keep);
      _ ← addTrace [Text ("VERIFYOUT[" +:+ num_to_string i +:+ "] "); Arrow; Text (" " +:+ bool_text r)];
      mret r
  end.

Definition eval_proof_node (data leafSum rootHash rootSum proof : ASTNode) : K bool :=
  dataRaw ← ev_string data;
  leafSumVal ← ev_number leafSum;
  rootHashVal ← ev_string rootHash;
  rootSumVal ← ev_number rootSum;
  proofVal ← ev_string proof;
  let bracketed := starts_with "[" dataRaw && starts_with "]" (rev_str "" dataRaw) in
  let dataVal := if bracketed then slice_str dataRaw (of_Z 1) (Some (of_Z (-1))) else dataRaw in
  evalProof dataVal leafSumVal rootHashVal rootSumVal proofVal (negb bracketed && is_0x dataRaw).

Definition type_name (n : ASTNode) : string :=
  match n with
  | ReturnNode _ => "RETURN" | AssertNode _ => "ASSERT" | LetNode _ _ => "LET" | StoreStateNode _ _ => "STORE_STATE"
  | StoreTupleNode _ _ => "STORE_TUPLE" | IfNode _ _ _ _ => "IF" | WhileNode _ _ => "WHILE"
  | ForNode _ _ _ _ _ => "FOR" | ForeachNode _ _ _ => "FOREACH" | SwitchNode _ _ _ => "SWITCH"
  | FuncDefNode _ _ _ => "FUNC_DEF" | CallStmtNode _ _ => "CALL_STMT" | ExecNode _ => "EXEC"
  | ExecMastNode => "EXEC_MAST" | MastStmtNode _ => "MAST_STMT" | MastBlockNode _ => "MAST_BLOCK"
  | LiteralNode _ => "LITERAL" | BuiltinVarNode _ => "BUILTIN" | IdentNode _ => "IDENT"
  | BinaryNode _ _ _ => "BINARY" | UnaryNode _ _ => "UNARY" | CallExprNode _ _ => "CALL_EXPR"
  | StateNode _ => "STATE" | PrevStateNode _ => "PREVSTATE" | SamestateNode _ _ => "SAMESTATE"
  | SamecoinsNode => "SAMECOINS" | CoindataNode => "COINDATA" | SignedbyNode _ => "SIGNEDBY"
  | MultisigNode _ _ => "MULTISIG" | ChecksigNode _ => "CHECKSIG" | HashNode _ _ => "HASH"
  | VerifyoutNode _ _ _ _ _ => "VERIFYOUT" | GetoutNode _ _ => "GETOUT" | SigdigNode _ _ => "SIGDIG"
  | MastExprNode _ => "MAST_EXPR" | ProofNode _ _ _ _ _ => "PROOF"
  end.

Definition eval_node (node : ASTNode) : K Value :=
  _ ← tick 1;
  match node with
  | LiteralNode (SNumber n) => VNum <$> kiss (of_string (num_to_string n))
  | LiteralNode (SValue v) => mret v
  | BuiltinVarNode name => s ← mget; kiss (resolveBuiltin name (txCtx s))
  | IdentNode name =>
      s ← mget;
      match get name s with Some v => mret v | None => kruntime ("Undefined variable: " +:+ name) end
  | BinaryNode op l r => evalBinary op l r
  | UnaryNode op e => evalUnary op e
  | StateNode port => read_port state port
  | PrevStateNode port => read_port prevState port
  | SamestateNode from to => a ← ev_port from; b ← ev_port to; VBool <$> samestate a b
  | SamecoinsNode => s ← mget; mret (VBool (samecoins (txCtx s)))
  | CoindataNode => s ← mget; mret (VStr (coindata (txCtx s)))
  | SignedbyNode pk => k ← ev_string pk; VBool <$> verifySignedBy k
  | MultisigNode t ks => VBool <$> multisig t ks
  | ChecksigNode args => VBool <$> evalChecksig args
  | HashNode fn e =>
      v ← ev e; bytes ← kiss (toBytes v);
      kiss (sized ("0x" +:+ hex_of_bytes match fn with FnSHA2 => sha256 bytes | _ => sha3_256 bytes end))
  | VerifyoutNode i a m t k => VBool <$> verifyout i a m t k
  | GetoutNode fn index =>
      i ← ev_port index; s ← mget;
      match nth_num (outputs (txCtx s)) i with
      | None => mret (VNum ZERO)
      | Some out => kiss (getout fn out)
      end
  | SigdigNode d e => n ← ev_number d; v ← ev_number e; VNum <$> kiss (setSignificantDigits v (toNumber n))
  | CallExprNode name args =>
      match resolveBuiltinFunction name args with
      | Some m => m
      | None => fn ← user_function name args; callUserFuncExpr fn args
      end
  | MastExprNode root => r ← ev_string root; VBool <$> evalMastExpr r
  | ExecMastNode => VBool <$> execMastBlockVm
  | ProofNode d l r s p => VBool <$> eval_proof_node d l r s p
  | n => kthrow (KissvmRuntimeError (Stuck ("Cannot evaluate " +:+ type_name n +:+ " as expression")))
  end.

(** *** Statements *)

Definition scoped {A} (m : K A) : K A := _ ← pushBlockScope; finally m popBlockScope.

(** The first ELSEIF whose condition holds, or the ELSE block. *)
Fixpoint exec_elseif (branches : list (ASTNode * list ASTNode)) (else_ : option (list ASTNode)) : K unit :=
  match branches with
  | [] => match else_ with Some l => ex l | None => mret tt end
  | (c, body) :: branches => b ← ev_truth c; if b : bool then ex body else exec_elseif branches else_
  end.

Fixpoint while_loop (turns : nat) (cond : ASTNode) (body : list ASTNode) : K unit :=
  match turns with
  | O => mthrow NoFuel
  | S turns =>
      b ← ev_truth cond;
      if b : bool then _ ← tick 1; _ ← scoped (ex body); while_loop turns cond body else mret tt
  end.

(** The loop variable is set inside the scope, before the body. *)
Definition loop_body (name : string) (v : Value) (body : list ASTNode) : K unit :=
  _ ← tick 1; _ ← pushBlockScope; _ ← set name v; finally (ex body) popBlockScope.
Fixpoint for_loop (turns : nat) (name : string) (i to by_ : MiniNumber) (up : bool) (body : list ASTNode) : K unit :=
  match turns with
  | O => mthrow NoFuel
  | S turns =>
      b ← kiss (if up then isLessEqual i to else isMoreEqual i to);
      if b : bool then
        _ ← loop_body name (VNum i) body;
        i ← kiss (add i by_);
        for_loop turns name i to by_ up body
      else mret tt
  end.
Definition exec_for (name : string) (from to : ASTNode) (by_ : option ASTNode) (body : list ASTNode) : K unit :=
  i ← ev_number from; t ← ev_number to;
  b ← match by_ with Some n => ev_number n | None => mret ONE end;
  zero ← kiss (isEqual b ZERO);
  _ ← mthrow_if zero (Throw (KissvmRuntimeError (Message "FOR loop step cannot be zero")));
  up ← kiss (isMore b ZERO);
  for_loop turns name i t b up body.

Fixpoint exec_cases (sv : Value) (cases : list (ASTNode * list ASTNode)) (default_ : option (list ASTNode)) : K unit :=
  match cases with
  | [] => match default_ with Some body => scoped (ex body) | None => mret tt end
  | (c, body) :: cases =>
      cv ← ev c; same ← kiss (kissvmEq sv cv);
      if same : bool then scoped (ex body) else exec_cases sv cases default_
  end.

Fixpoint tuple_set (i : jsnum) (v : Value) (l : list (jsnum * Value)) : list (jsnum * Value) :=
  match l with
  | [] => [(i, v)]
  | (j, w) :: l => if num_same j i then (j, v) :: l else (j, w) :: tuple_set i v l
  end.

Definition store_state (port : jsnum) (v : Value) : K unit :=
  mmodify (λ s, let c := txCtx s in
    set_ctx (mkCtx (block c) (blockMilli c) (inputIndex c) (inputs c) (outputs c)
               (map_set (num_to_string port) (miniNumberToString v) (state c)) (prevState c) (txDigest c)
               (mastBranches c) (allowLegacyMastBranches c) (prevCoins c) (simulationMode c)) s).

Definition exec_node (node : ASTNode) : K unit :=
  _ ← tick 1;
  match node with
  | ReturnNode e =>
      v ← ev e; _ ← addTrace [Text ("RETURN " +:+ string_of v)]; mthrow (ReturnSignal v)
  | AssertNode e =>
      v ← ev e; _ ← addTrace [Text ("ASSERT " +:+ string_of v)];
      b ← kiss (isTruthy v);
      if b : bool then mret tt else kruntime ("ASSERT failed: " +:+ string_of v)
  | LetNode name e =>
      v ← ev e; _ ← addTrace [Text ("LET " +:+ name +:+ " = " +:+ string_of v)]; set name v
  | StoreStateNode port e =>
      p ← ev_port port; v ← ev e;
      _ ← addTrace [Text ("STORE STATE(" +:+ num_to_string p +:+ ") WITH " +:+ string_of v)];
      store_state p v
  | StoreTupleNode index e =>
      i ← ev_port index; v ← ev e;
      _ ← addTrace [Text ("STORE TUPLE(" +:+ num_to_string i +:+ ") WITH " +:+ string_of v)];
      mmodify (λ s, set_tuples (tuple_set i v (tuples s)) s)
  | IfNode c then_ branches else_ =>
      v ← ev c; _ ← addTrace [Text ("IF " +:+ string_of v)];
      scoped (b ← kiss (isTruthy v); if b : bool then ex then_ else exec_elseif branches else_)
  | WhileNode c body => _ ← addTrace [Text "WHILE"]; while_loop turns c body
  | ForNode name from to by_ body => exec_for name from to by_ body
  | ForeachNode name items body => v ← ev items; mfor (λ item, loop_body name item body) (toArray v)
  | SwitchNode e cases default_ =>
      sv ← ev e; _ ← addTrace [Text ("SWITCH " +:+ string_of sv)]; exec_cases sv cases default_
  | FuncDefNode name ps body =>
      _ ← mthrow_if (Z.of_nat (length ps) >? MAX_PARAMS)
            (Throw (KissvmLimitError ("Function " +:+ name +:+ " exceeds max " +:+ dec MAX_PARAMS +:+ " params")));
      _ ← mmodify (λ s, set_funcs (map_set name (mkFunc ps body (snapshotEnv s)) (funcs s)) s);
      addTrace [Text ("FUNC " +:+ name +:+ " defined")]
  | CallStmtNode name args =>
      match resolveBuiltinFunction name args with
      | Some m => _ ← m; mret tt
      | None => fn ← user_function name args; callUserFunc fn args
      end
  | MastBlockNode branches =>
      _ ← mmodify (set_mast branches);
      addTrace [Text ("MAST_BLOCK: " +:+ dec (Z.of_nat (length branches)) +:+ " branch(es) defined")]
  | ExecNode script =>
      str ← ev_string script;
      text ← kiss (if is_0x str then utf8_decode <$> js (Mm.hexToBytes (drop_str 2 str)) else Ok str);
      _ ← addTrace [Text ("EXEC " +:+ take_str 40 text); Ellipsis];
      passed ← executeSubScript text;
      mthrow (ReturnSignal (VBool passed))
  | ExecMastNode => r ← execMastBlockVm; mthrow (ReturnSignal (VBool r))
  | MastStmtNode root =>
      r ← ev_string root;
      if String.eqb r "" then mret tt else b ← evalMastExpr r; mthrow (ReturnSignal (VBool b))
  | n => kthrow (KissvmRuntimeError (Stuck ("Cannot execute " +:+ type_name n +:+ " as statement")))
  end.
End Nodes.

Fixpoint evalExpr (fuel : nat) (node : ASTNode) : K Value :=
  match fuel with
  | O => mthrow NoFuel
  | S fuel => eval_node (evalExpr fuel) (mfor (execStatement fuel)) node
  end
with execStatement (fuel : nat) (node : ASTNode) : K unit :=
  match fuel with
  | O => mthrow NoFuel
  | S fuel => exec_node (evalExpr fuel) (mfor (execStatement fuel)) fuel node
  end.
Definition execStatements (fuel : nat) (stmts : list ASTNode) : K unit := mfor (execStatement fuel) stmts.

(** ** evaluateScript *)

Record EvalResult := mkResult {
  passed : bool; success : bool; r_trace : list (list Glyph); r_error : option string; instructionsUsed : Z }.

Definition error_message (e : KissvmError) : string :=
  match e with
  | KissvmLimitError m | KissvmParseError m | JsError m => m
  | KissvmRuntimeError f => fault_text f
  end.

Definition script_ended (s : VMState) (passed : bool) (error : option string) : EvalResult :=
  mkResult passed passed (trace s) error (instructionCount s).

(** Limit errors, and errors of [isTruthy] in the handler, are thrown. *)
Definition evaluateScript (fuel : nat) (script : string) (w : ScriptWitness) (ctx : TxContext) :
    result Signal EvalResult * TxContext :=
  let run := ast ← kparse (parseScript (Ns.toNodeScript script) []); execStatements fuel ast in
  let '(r, s) := run (new_vm w ctx) in
  (match r with
   | Ok _ => Ok (script_ended s false (Some "Script ended without RETURN"))
   | Err (ReturnSignal v) =>
       match isTruthy v with
       | Ok b => Ok (script_ended (set_trace (trace s ++ [[Text "RETURN "; Arrow; Text (" " +:+ bool_text b)]]) s) b None)
       | Err e => Err (Throw e)
       end
   | Err (Throw (KissvmLimitError m)) => Err (Throw (KissvmLimitError m))
   | Err (Throw e) => Ok (script_ended s false (Some (error_message e)))
   | Err (Endless p to) => Err (Endless p to)
   | Err NoFuel => Err NoFuel
   end, txCtx s).

End Evaluator.
End Ev.
