(* ===== verification/KissChannel.v ===== *)
(** * Omnia: pre-validation of a state by the script (packages/omnia/src/kissvm.ts)

    The channel script is run over the transaction of a state, with the signatures of the
    state as its witness and the state variables before and after as its ports. *)

From Stdlib Require Import ZArith Lia QArith Ascii String.
From stdpp Require Import base gmap list strings.
From S2P Require Import Prelude JsBase MiniNumber Guards Omnia Transactions Programs Sign Draft Vm Eval.

Module Kc.
Import Js Gd Om Tx.
Import Sg(seq_text).

Record KissvmValidationOptions := mkValidation {
  v_block : option jsnum; previousCreatedBlock : option jsnum; v_settlement : bool;
  partyAddresses : option (list (string * string)) }.


(** The message of a thrown error. *)
Definition omnia_message (e : OmniaError) : string :=
  match e with
  | ChannelCapacityError used capacity => "Channel WOTS capacity exhausted: " +:+ seq_text used +:+ "/" +:+ seq_text capacity +:+ " signing slots used"
  | DoubleSignError s => "Double-sign detected: sequence " +:+ seq_text s +:+ " already signed with a different payload"
  | BalanceConservationError expected got =>
      "Balance conservation violated: totalValue=" +:+ big_to_string expected +:+ ", sum(balances+htlcs)=" +:+ big_to_string got
  | SequenceError current proposed =>
      "Sequence must be strictly greater than current: current=" +:+ seq_text current +:+ ", proposed=" +:+ seq_text proposed
  | SigningIndexMonotonicityError p i prev =>
      "Signing index reuse for party " +:+ p +:+ ": flatIndex=" +:+ seq_text i +:+ " <= previous=" +:+ seq_text prev
  | ChannelStatusError expected actual => "Channel status mismatch: expected " +:+ expected +:+ ", got " +:+ actual
  | Plain m | External m => m
  end.

Definition stateValuesToContext (values : list StateValue) : list (string * string) :=
  foldl (λ m sv, map_set (num_to_string (of_Z (port sv))) (scalar_string (value sv)) m) [] values.

Definition previousUpdateState (channel : OmniaChannel) : list (string * string) :=
  match latestState channel with
  | Some st => stateValuesToContext (stateVariables st)
  | None => stateValuesToContext (channelStateVars false (currentSequence channel))
  end.

Section prevalidation.
Context {Pl : Vm.Platform} (registry : list (string * Pg.ChannelProgram)) (patience fuel : nat).

Definition signatureWitness (channel : OmniaChannel) (state : SignedChannelState) : Vm.ScriptWitness :=
  Vm.mkWitness
    (foldl (λ m p, match map_get (partyId p) (signatures state) with
                   | Some s => map_set (toLowerCase (strip_0x (publicKeyDigest p))) (Vm.Flat s) m
                   | None => m
                   end) [] (parties channel)) [].

Definition txContextForDraft (channel : OmniaChannel) (state : SignedChannelState) (draft : OmniaTxDraft) (opts : KissvmValidationOptions)
    : result OmniaError Vm.TxContext :=
  let number z := to_number (JBig z) in
  _ ← throw_if (negb (num_is_safe_integer (number (totalValue channel))))
        (Plain ("KISSVM validation requires safe integer channel totalValue, got " +:+ big_to_string (totalValue channel)));
  let transitionBlock := t ← programTransition state; i ← inputs t; map_get "currentBlock" i in
  let block := match v_block opts with
               | Some b => b
               | None => match transitionBlock with Some v => to_number (scalar_value v) | None => of_Z 0 end
               end in
  digest ← computeOmniaTxDigest Vm.sha3_256 draft;
  Ok (Vm.mkCtx block None (of_Z 0)
        (map (λ i, Vm.mkCoin (number (i_amount i)) (i_tokenId i) (i_coinId i) (i_address i)
                     (Some (default (of_Z 0) (previousCreatedBlock opts))) None) (d_inputs draft))
        (map (λ o, Vm.mkOut (o_address o) (number (o_amount o)) (o_tokenId o) (o_storeState o)) (d_outputs draft))
        (stateValuesToContext (d_stateVariables draft))
        (if v_settlement opts then stateValuesToContext (stateVariables state) else previousUpdateState channel)
        (Some digest) [] false None false).

(** The transaction of the state. *)
Definition state_draft (channel : OmniaChannel) (state : SignedChannelState) (opts : KissvmValidationOptions) : result OmniaError OmniaTxDraft :=
  if v_settlement opts then
    buildSettlementTx Vm.sha3_256 channel state
      (default (foldl (λ m p, map_set (partyId p) (publicKeyDigest p) m) [] (parties channel)) (partyAddresses opts)) (mkSettlementOpts true [])
  else if negb (String.eqb (transactionHex state) "") then Dr.deserializeTxDraft (transactionHex state)
  else Pg.buildProgramUpdateTx Vm.sha3_256 registry channel (sequence state) (balances state) (pendingHTLCs state)
         (transition_value (programTransition state)).

(** The error, if the state is not valid; [Err] for an evaluation that does not end. *)
Definition validateChannelStateWithKissvm (channel : OmniaChannel) (state : SignedChannelState) (opts : KissvmValidationOptions)
    : result Vm.Signal (option string) :=
  match (draft ← state_draft channel state opts; txContextForDraft channel state draft opts) with
  | Err e => Ok (Some (omnia_message e))
  | Ok ctx =>
      match (Ev.evaluateScript patience fuel (fundingScript channel) (signatureWitness channel state) ctx).1 with
      | Ok r => Ok (if Ev.passed r then None else Some (default "script returned false" (Ev.r_error r)))
      | Err (Vm.Throw (Mn.KissvmLimitError m)) => Ok (Some ("kissvm limit: " +:+ m))
      | Err (Vm.Throw e) => Ok (Some (Ev.error_message e))
      | Err e => Err e
      end
  end.

End prevalidation.
End Kc.
