(* ===== verification/FrameSpec.v ===== *)
(** * KISSVM texts with holes

    A script that a program writes is a fixed text around keys and numbers.  Both the
    canonical text and the tokens of such a script are those of its parts, as long as a
    part begins with a space or a closing parenthesis and has no bracket or slash. *)

From Stdlib Require Import ZArith Lia Ascii String.
From stdpp Require Import base list strings.
From S2P Require Import Prelude JsBase JsText MiniNumber NodeScript Lexer.

Module FrSpec.
Import Js JsText Ns.
#[local] Arguments String.append : simpl nomatch.

(** ** Parts *)

Definition is_break (c : ascii) : bool := is_space c || Ascii.eqb c ")".
Definition breaks (v : string) : bool := match v with EmptyString => true | String c _ => is_break c end.
(** Neither a literal in brackets nor a comment. *)
Definition plain_char (c : ascii) : bool := negb (Ascii.eqb c "[") && negb (Ascii.eqb c "/").
Definition plain_text (s : string) : bool := str_forallb plain_char s.

Ltac each_char c := destruct c as [[] [] [] [] [] [] [] []]; vm_compute; try done; try discriminate.

Lemma break_not_name c : is_break c = true → is_name c = false.
Proof. each_char c. Qed.
Lemma break_not_hex c : is_break c = true → is_hex_digit c = false.
Proof. each_char c. Qed.
Lemma break_not_alnum c : is_break c = true → is_letter c || is_digit c = false.
Proof. each_char c. Qed.
Lemma hex_is_plain c : is_hex_digit c = true → plain_char c = true.
Proof. each_char c. Qed.

Lemma span_app p u v : (∀ c, is_break c = true → p c = false) → breaks v = true →
  span_while p (u +:+ v) = ((span_while p u).1, (span_while p u).2 +:+ v).
Proof.
  intros Hp Hv. induction u as [|c u IH]; simpl.
  - destruct v as [|c v]; [done|]. simpl. by rewrite Hp.
  - destruct (p c); [|done]. rewrite IH. by destruct (span_while p u).
Qed.
Lemma span_all p s : str_forallb p s = true → span_while p s = (s, EmptyString).
Proof. induction s as [|c s IH]; simpl; [done|]. intros [-> H]%andb_true_iff. by rewrite IH. Qed.
Lemma span_rest p s : (String.length (span_while p s).2 <= String.length s)%nat.
Proof. induction s as [|c s IH]; simpl; [done|]. destruct (p c); [|simpl; lia]. destruct (span_while p s). simpl in *. lia. Qed.
Lemma span_rest_all p q s : str_forallb q s = true → str_forallb q (span_while p s).2 = true.
Proof.
  induction s as [|c s IH]; simpl; [done|]. intros [Hc H]%andb_true_iff. destruct (p c); [|simpl; by rewrite Hc].
  specialize (IH H). by destruct (span_while p s).
Qed.

(** ** The canonical text *)

Lemma token_app u v : u ≠ EmptyString → plain_text u = true → breaks v = true →
  token (u +:+ v) = (λ tr, (tr.1, tr.2 +:+ v)) <$> token u.
Proof.
  destruct u as [|c u]; [done|]. unfold plain_text. cbn [str_forallb]. intros _ [Hc Hu]%andb_true_iff Hv. simpl.
  destruct (Ascii.eqb_spec c "[") as [->|_]; [done|]. destruct (Ascii.eqb c "0").
  { destruct u as [|x u]; simpl.
    - destruct v as [|x v]; [done|]. assert (Ascii.eqb x "x" || Ascii.eqb x "X" = false) as ->; [|done].
      simpl in Hv. revert Hv. each_char x.
    - destruct (_ || _); [|done]. rewrite span_app by (done || apply break_not_hex).
      by destruct (span_while is_hex_digit u) as [[|d h] b]. }
  destruct (Ascii.eqb c "@").
  { destruct u as [|x u]; simpl.
    - destruct v as [|x v]; [done|]. assert (is_letter x = false) as ->; [|done]. simpl in Hv. revert Hv. each_char x.
    - destruct (is_letter x); [|done]. rewrite span_app by (done || apply break_not_alnum).
      by destruct (span_while _ u). }
  destruct (is_name_start c); [|done]. rewrite span_app by (done || apply break_not_name). by destruct (span_while is_name u).
Qed.

Lemma token_shorter s t r : token s = Some (t, r) → (String.length r < String.length s)%nat.
Proof.
  destruct s as [|c s]; [done|]. simpl. destruct (Ascii.eqb c "[").
  { pose proof (span_rest (λ c, negb (Ascii.eqb c "]")) s) as H. destruct (span_while _ s) as [a [|d b]]; [done|]. intros [= <- <-]. simpl in H. lia. }
  destruct (Ascii.eqb c "0").
  { destruct s as [|x s]; [done|]. destruct (_ || _); [|done]. pose proof (span_rest is_hex_digit s) as H.
    destruct (span_while is_hex_digit s) as [[|d h] b]; [done|]. intros [= <- <-]. simpl in *. lia. }
  destruct (Ascii.eqb c "@").
  { destruct s as [|x s]; [done|]. destruct (is_letter x); [|done]. pose proof (span_rest (λ c, is_letter c || is_digit c) s) as H.
    destruct (span_while _ s) as [a b]. intros [= <- <-]. simpl in *. lia. }
  destruct (is_name_start c); [|done]. pose proof (span_rest is_name s) as H. destruct (span_while is_name s) as [a b].
  intros [= <- <-]. simpl in *. lia.
Qed.
Lemma token_plain s t r : plain_text s = true → token s = Some (t, r) → plain_text r = true.
Proof.
  unfold plain_text. destruct s as [|c s]; [done|]. cbn [str_forallb]. intros [Hc Hs]%andb_true_iff. simpl.
  destruct (Ascii.eqb_spec c "[") as [->|_]; [done|]. destruct (Ascii.eqb c "0").
  { destruct s as [|x s]; [done|]. apply andb_true_iff in Hs as [_ Hs]. destruct (_ || _); [|done].
    pose proof (span_rest_all is_hex_digit _ s Hs) as H. destruct (span_while is_hex_digit s) as [[|d h] b]; [done|]. by intros [= <- <-]. }
  destruct (Ascii.eqb c "@").
  { destruct s as [|x s]; [done|]. apply andb_true_iff in Hs as [_ Hs]. destruct (is_letter x); [|done].
    pose proof (span_rest_all (λ c, is_letter c || is_digit c) _ s Hs) as H. destruct (span_while _ s) as [a b]. by intros [= <- <-]. }
  destruct (is_name_start c); [|done]. pose proof (span_rest_all is_name _ s Hs) as H. destruct (span_while is_name s) as [a b].
  by intros [= <- <-].
Qed.

Lemma pieces_more n : ∀ s m, (String.length s <= n)%nat → (String.length s <= m)%nat → pieces n s = pieces m s.
Proof.
  induction n as [|n IH]; intros [|c s] [|m] Hn Hm; simpl in Hn, Hm; try lia; try done. cbn [pieces].
  destruct (token (String c s)) as [[t r]|] eqn:E.
  - apply token_shorter in E. simpl in E. f_equal. apply IH; lia.
  - f_equal. apply IH; lia.
Qed.
Lemma cut_cons c s : cut (String c s) = match token (String c s) with Some (t, r) => Tok t :: cut r | None => Raw c :: cut s end.
Proof.
  unfold cut at 1. cbn [String.length pieces]. destruct (token (String c s)) as [[t r]|] eqn:E; [|done].
  apply token_shorter in E. simpl in E. f_equal. apply pieces_more; lia.
Qed.
Lemma cut_app u v : plain_text u = true → breaks v = true → cut (u +:+ v) = cut u ++ cut v.
Proof.
  remember (String.length u) as n eqn:En. assert (String.length u <= n)%nat as Hn by lia. clear En. revert u Hn.
  induction n as [|n IH]; intros [|c u] Hn Hu Hv; [done|simpl in Hn; lia|done|]. cbn [String.append].
  pose proof (token_app (String c u) v ltac:(done) Hu Hv) as Ht. cbn [String.append] in Ht.
  rewrite !cut_cons, Ht. destruct (token (String c u)) as [[t r]|] eqn:E; cbn [fmap option_fmap option_map fst snd].
  - pose proof (token_plain _ _ _ Hu E). apply token_shorter in E. simpl in E, Hn. cbn [app]. f_equal. apply IH; [lia|done|done].
  - simpl in Hn, Hu. unfold plain_text in Hu. apply andb_true_iff in Hu as [_ Hu]. cbn [app]. f_equal. apply IH; [lia|done|done].
Qed.

Lemma cut_space s : cut (String " " s) = Raw " " :: cut s.
Proof. by rewrite cut_cons. Qed.

(** A key, and a number, after a space. *)
Lemma cut_hex h : h ≠ EmptyString → str_forallb is_hex_digit h = true → cut (" 0x" +:+ h) = [Raw " "; Tok ("0x" +:+ h)].
Proof.
  intros Hn Hh. cbn [String.append]. rewrite cut_space.
  rewrite cut_cons. simpl token. rewrite (span_all is_hex_digit h Hh). by destruct h.
Qed.
Lemma cut_digits s : str_forallb is_digit s = true → cut s = map Raw (list_ascii_of_string s).
Proof.
  induction s as [|c s IH]; [done|]. simpl. intros [Hc Hs]%andb_true_iff. rewrite cut_cons.
  assert (token (String c s) = None) as ->; [|by rewrite IH]. simpl.
  replace (Ascii.eqb c "[") with false by (clear -Hc; revert Hc; each_char c). replace (Ascii.eqb c "@") with false by (revert Hc; each_char c).
  replace (is_name_start c) with false by (revert Hc; each_char c). destruct (Ascii.eqb c "0"); [|done].
  destruct s as [|x s]; [done|]. simpl in Hs. apply andb_true_iff in Hs as [Hx _].
  by replace (Ascii.eqb x "x" || Ascii.eqb x "X") with false by (revert Hx; each_char x).
Qed.

Lemma strip_plain s : plain_text s = true → strip_comments false s = s.
Proof.
  unfold plain_text. induction s as [|c s IH]; simpl; [done|]. intros [Hc Hs]%andb_true_iff.
  apply andb_true_iff in Hc as [_ Hc%negb_true_iff]. rewrite Hc. simpl. by rewrite IH.
Qed.

Definition written (names : Names) (l : list Piece) : string := foldr (λ p text, write_piece names p +:+ text) "" l.
Lemma written_app names a b : written names (a ++ b) = written names a +:+ written names b.
Proof. induction a as [|p a IH]; [done|]. cbn. unfold written in IH. by rewrite IH, app_assoc_str. Qed.
Lemma written_hex names h : written names [Raw " "; Tok ("0x" +:+ h)] = " 0x" +:+ h.
Proof. assert (written names [Raw " "; Tok ("0x" +:+ h)] = " 0x" +:+ (h +:+ "")) as -> by by destruct h. by rewrite app_nil_r_str. Qed.
Lemma written_raw names s : written names (map Raw (list_ascii_of_string s)) = s.
Proof. induction s as [|c s IH]; [done|]. cbn. unfold written in IH. by rewrite IH. Qed.

(** The pieces that can name a variable. *)
Definition names_of (l : list Piece) (names : Names) : Names :=
  foldl (λ names p, match p with Raw _ => names | Tok t => assign names t end) names l.
Lemma names_app a b n : names_of (a ++ b) n = names_of b (names_of a n).
Proof. unfold names_of. by rewrite foldl_app. Qed.
Lemma names_hex h n : names_of [Raw " "; Tok ("0x" +:+ h)] n = n.
Proof. by destruct h. Qed.
Lemma names_raw s n : names_of (map Raw (list_ascii_of_string s)) n = n.
Proof. unfold names_of. induction s; [done|]. by simpl. Qed.

(** Two keys and a number in a fixed text. *)
Definition frame (p1 p2 p3 a b d : string) : string := p1 +:+ (" 0x" +:+ a) +:+ (" 0x" +:+ b) +:+ p2 +:+ (" " +:+ d) +:+ p3.
Definition is_key (a : string) : bool := negb (String.eqb a "") && str_forallb is_hex_digit a.
Definition is_number (d : string) : bool := negb (String.eqb d "") && str_forallb is_digit d.
Definition frame_names (p1 p2 p3 : string) : Names := names_of (cut p3) (names_of (cut p2) (names_of (cut p1) (mkNames [] []))).
Definition frames (p1 p2 p3 : string) : bool := plain_text p1 && plain_text p2 && plain_text p3 && breaks p2 && breaks p3.

Lemma plain_frame p1 p2 p3 a b d : frames p1 p2 p3 = true → is_key a = true → is_key b = true → is_number d = true →
  plain_text (frame p1 p2 p3 a b d) = true.
Proof.
  unfold frames, is_key, is_number, plain_text, frame. intros [[[[H1 H2]%andb_true_iff H3]%andb_true_iff _]%andb_true_iff _]%andb_true_iff.
  intros [_ Ha]%andb_true_iff [_ Hb]%andb_true_iff [_ Hd]%andb_true_iff.
  rewrite !str_forallb_app, H1, H2, H3. apply (str_forallb_impl _ _ _ hex_is_plain) in Ha, Hb.
  apply (str_forallb_impl _ plain_char) in Hd; [|intros c; each_char c]. cbn. by rewrite Ha, Hb, Hd.
Qed.
Lemma cut_frame p1 p2 p3 a b d : frames p1 p2 p3 = true → is_key a = true → is_key b = true → is_number d = true →
  cut (frame p1 p2 p3 a b d)
  = cut p1 ++ [Raw " "; Tok ("0x" +:+ a)] ++ [Raw " "; Tok ("0x" +:+ b)] ++ cut p2 ++ map Raw (list_ascii_of_string (" " +:+ d)) ++ cut p3.
Proof.
  unfold frames, is_key, is_number, frame.
  intros [[[[H1 H2]%andb_true_iff H3]%andb_true_iff B2]%andb_true_iff B3]%andb_true_iff [Na Ha]%andb_true_iff [Nb Hb]%andb_true_iff [Nd Hd]%andb_true_iff.
  apply negb_true_iff, String.eqb_neq in Na, Nb, Nd.
  assert (plain_text (" 0x" +:+ a) = true) by (apply (str_forallb_impl _ _ _ hex_is_plain) in Ha; exact Ha).
  assert (plain_text (" 0x" +:+ b) = true) by (apply (str_forallb_impl _ _ _ hex_is_plain) in Hb; exact Hb).
  assert (plain_text (" " +:+ d) = true) by (apply (str_forallb_impl _ plain_char) in Hd; [exact Hd|intros c; each_char c]).
  rewrite cut_app by done. rewrite (cut_app (" 0x" +:+ a)) by done.
  rewrite (cut_app (" 0x" +:+ b)) by (done || (clear -B2; by destruct p2)). rewrite (cut_app p2) by done.
  rewrite (cut_app (" " +:+ d)) by done. rewrite !cut_hex by done.
  change (" " +:+ d) with (String " " d). rewrite cut_space. by rewrite (cut_digits d).
Qed.

(** The canonical text of a framed text is framed by the canonical text of the parts. *)
Lemma canonical_frame p1 p2 p3 a b d : frames p1 p2 p3 = true → is_key a = true → is_key b = true → is_number d = true →
  let w := λ p, written (frame_names p1 p2 p3) (cut p) in
  toNodeScript (frame p1 p2 p3 a b d) = frame (w p1) (w p2) (w p3) a b d.
Proof.
  intros Hf Ha Hb Hd w. unfold toNodeScript. rewrite strip_plain by by apply plain_frame. rewrite cut_frame by done.
  set (l := _ ++ _ ++ _). assert (first_pass l = frame_names p1 p2 p3) as ->.
  { change (first_pass l) with (names_of l (mkNames [] [])). unfold l. rewrite !names_app, !names_hex, names_raw. reflexivity. }
  change (foldr _ _ l) with (written (frame_names p1 p2 p3) l). unfold l.
  rewrite !written_app, !written_hex, written_raw. reflexivity.
Qed.

(** ** The tokens *)

(** What a parser reads of a token, apart from its position. *)
Definition erase (t : Lx.Token) : Lx.TokenKind * string := (Lx.kind t, Lx.value t).
Definition scan_erased (c : ascii) (r : string) : option (option (Lx.TokenKind * string) * string) :=
  match Lx.scan 0 c r with Ok (t, rest) => Some (erase <$> t, rest) | Err _ => None end.
Fixpoint lex (fuel : nat) (s : string) : option (list (Lx.TokenKind * string)) :=
  match s, fuel with
  | EmptyString, _ => Some []
  | _, O => None
  | String c r, S fuel => kr ← scan_erased c r; ks ← lex fuel kr.2; Some (option_list kr.1 ++ ks)
  end.

Lemma break_not_word c : is_break c = true → Lx.is_word c = false.
Proof. each_char c. Qed.
Lemma break_not_digit c : is_break c = true → is_digit c = false.
Proof. each_char c. Qed.

Lemma next_app p u v : (∀ c, is_break c = true → p c = false) → breaks v = true → Lx.next_is p (u +:+ v) = Lx.next_is p u.
Proof. intros Hp Hv. destruct u as [|c u]; [|done]. destruct v as [|c v]; [done|]. simpl in *. by apply Hp. Qed.

Lemma scan_position start c r k rest : scan_erased c r = Some (k, rest) → ∃ t, Lx.scan start c r = Ok (t, rest) ∧ erase <$> t = k.
Proof.
  unfold scan_erased, Lx.scan, Lx.string_literal, Lx.hex_literal, Lx.number_literal, Lx.word_token, Lx.fail.
  repeat case_match; intros; simplify_eq; eauto.
Qed.

Lemma lex_tokenize total fuel : ∀ s ks, lex fuel s = Some ks →
  ∃ ts, Lx.tokenize_loop fuel total s = Ok ts ∧ map erase ts = ks ++ [(Lx.EOF, EmptyString)].
Proof.
  induction fuel as [|fuel IH]; intros [|c r] ks; cbn [lex Lx.tokenize_loop]; [intros [= <-]; by eexists|done|intros [= <-]; by eexists|].
  intros H. destruct (scan_erased c r) as [[k rest]|] eqn:Es; [|done]. cbn [mbind option_bind fst snd] in H.
  destruct (lex fuel rest) as [ks'|] eqn:El; [|done]. injection H as <-.
  apply (scan_position (Z.of_nat (total - String.length (String c r)))) in Es as (t & -> & <-).
  apply IH in El as (ts & E & Hm). cbn [mbind result_bind]. rewrite E. eexists. split; [reflexivity|]. by destruct t; simpl; rewrite Hm.
Qed.

Lemma lex_more n : ∀ s m ks, (n <= m)%nat → lex n s = Some ks → lex m s = Some ks.
Proof.
  induction n as [|n IH]; intros [|c r] [|m] ks Hm; cbn [lex]; try done; [lia|].
  intros H. destruct (scan_erased c r) as [[k rest]|]; [|done]. cbn [mbind option_bind fst snd] in *.
  destruct (lex n rest) as [ks'|] eqn:El; [|done]. by rewrite (IH rest m ks') by (done || lia).
Qed.

Lemma operator_app c r v k t : breaks v = true → Lx.operator c r = Some (k, t) →
  Lx.operator c (r +:+ v) = Some (k, t) ∧ drop_str (String.length t - 1) (r +:+ v) = drop_str (String.length t - 1) r +:+ v.
Proof.
  intros Hv. assert (∀ d, is_break d = false → Lx.next_is (Ascii.eqb d) (r +:+ v) = Lx.next_is (Ascii.eqb d) r) as Hn.
  { intros d Hd. apply next_app; [|done]. intros x Hx. destruct (Ascii.eqb_spec d x); [congruence|done]. }
  unfold Lx.operator. rewrite !Hn by done.
  assert (∀ d, Lx.next_is (Ascii.eqb d) r = true → drop_str 1 (r +:+ v) = drop_str 1 r +:+ v) as Hd by by destruct r.
  repeat (case_match; [intros [= <- <-]; simpl; eauto; fail|]);
    repeat (case_match; try (intros [= <- <-]; simpl; eauto)); try done.
Qed.
Lemma operator_none c r v : breaks v = true → Lx.operator c r = None → Lx.operator c (r +:+ v) = None.
Proof.
  intros Hv. unfold Lx.operator. repeat (case_match; [done|]). done.
Qed.

Lemma number_app c u v : is_digit c = true → breaks v = true →
  Lx.number_literal 0 (String c u +:+ v) = ((Lx.number_literal 0 (String c u)).1, (Lx.number_literal 0 (String c u)).2 +:+ v).
Proof.
  intros Hc Hv. unfold Lx.number_literal. rewrite span_app by (done || apply break_not_digit).
  destruct (span_while is_digit (String c u)) as [n [|d r]]; cbn [fst snd].
  - destruct v as [|d v]; [done|]. cbn [String.append]. assert (Ascii.eqb d "." = false) as ->; [|done]. simpl in Hv. clear -Hv. revert Hv. each_char d.
  - cbn [String.append]. rewrite next_app by (done || apply break_not_digit). destruct (_ && _); [|done].
    rewrite span_app by (done || apply break_not_digit). by destruct (span_while is_digit r).
Qed.

Lemma scan_app c u v : plain_char c = true → plain_text u = true → breaks v = true →
  scan_erased c (u +:+ v) = (λ kr, (kr.1, kr.2 +:+ v)) <$> scan_erased c u.
Proof.
  intros [Hb%negb_true_iff Hs%negb_true_iff]%andb_true_iff Hu Hv. unfold scan_erased, Lx.scan. rewrite Hs, Hb. cbn [andb].
  destruct (is_space c); [done|]. destruct (Lx.operator c u) as [[k t]|] eqn:Eo.
  { apply (operator_app c u v) in Eo as [-> E]; [|done]. by rewrite E. }
  rewrite (operator_none c u v) by done. rewrite next_app.
  2: { intros x. each_char x. } 2: done.
  destruct (Ascii.eqb c "0" && _) eqn:E0.
  { destruct u as [|x u]; [by rewrite andb_false_r in E0|]. unfold Lx.hex_literal. simpl drop_str. cbn [String.append drop_str].
    rewrite span_app by (done || apply break_not_hex). destruct (span_while is_hex_digit u) as [h b]. cbn [fst snd]. by destruct (_ <? _). }
  destruct (is_digit c) eqn:Ed.
  { pose proof (number_app c u v Ed Hv) as E. cbn [String.append] in E. rewrite E. by destruct (Lx.number_literal 0 (String c u)). }
  destruct (Ascii.eqb c "@").
  { rewrite span_app by (done || apply break_not_word). by destruct (span_while Lx.is_word u). }
  destruct (is_letter c || Ascii.eqb c "_") eqn:El; [|done]. unfold Lx.word_token.
  pose proof (span_app Lx.is_word (String c u) v break_not_word Hv) as E. cbn [String.append] in E. rewrite E.
  destruct (span_while Lx.is_word (String c u)) as [w b]. cbn [fst snd]. by destruct (Lx.keyword (toUpperCase w)).
Qed.

Lemma plain_drop n s : plain_text s = true → plain_text (drop_str n s) = true.
Proof.
  unfold plain_text. revert s. induction n as [|n IH]; intros [|c s]; try done. simpl. intros [_ H]%andb_true_iff. by apply IH.
Qed.
Lemma plain_span p s a b : plain_text s = true → span_while p s = (a, b) → plain_text b = true.
Proof. intros H E. pose proof (span_rest_all p plain_char s H) as Hb. by rewrite E in Hb. Qed.
Lemma scan_plain c u k rest : plain_char c = true → plain_text u = true → scan_erased c u = Some (k, rest) → plain_text rest = true.
Proof.
  intros Hc Hu. assert (plain_text (String c u) = true) as Hcu by (unfold plain_text in *; simpl; by rewrite Hc).
  pose proof Hc as [Hb%negb_true_iff Hs%negb_true_iff]%andb_true_iff. unfold scan_erased, Lx.scan. rewrite Hs, Hb. cbn [andb].
  destruct (is_space c); [by intros [= _ <-]|]. destruct (Lx.operator c u) as [[op t]|]; [intros [= _ <-]; by apply plain_drop|].
  destruct (_ && _).
  { unfold Lx.hex_literal. destruct (span_while _ _) as [h b] eqn:E. apply plain_span in E; [|by apply plain_drop].
    destruct (_ <? _); [done|]. by intros [= _ <-]. }
  destruct (is_digit c).
  { unfold Lx.number_literal. destruct (span_while is_digit (String c u)) as [h b] eqn:E. apply plain_span in E; [|done].
    destruct b as [|d r]; [by intros [= _ <-]|]. destruct (_ && _); [|by intros [= _ <-]].
    destruct (span_while is_digit r) as [f b] eqn:Ef. apply plain_span in Ef; [by intros [= _ <-]|].
    unfold plain_text in E. simpl in E. by apply andb_true_iff in E as [_ ?]. }
  destruct (Ascii.eqb c "@"); [destruct (span_while _ u) as [a b] eqn:E; apply plain_span in E; [|done]; by intros [= _ <-]|].
  destruct (_ || _); [|done]. unfold Lx.word_token. destruct (span_while _ _) as [a b] eqn:E. apply plain_span in E; [|done].
  destruct (Lx.keyword _); by intros [= _ <-].
Qed.

Lemma lex_app n : ∀ m u v ks ks', plain_text u = true → breaks v = true → lex n u = Some ks → lex m v = Some ks' →
  lex (n + m) (u +:+ v) = Some (ks ++ ks').
Proof.
  induction n as [|n IH]; intros m [|c u] v ks ks' Hu Hv; [by intros [= <-]|done|intros [= <-] H; by apply (lex_more m _ (S n + m)); [lia|]|].
  cbn [lex String.append plus]. intros H Hm. pose proof Hu as Hcu. unfold plain_text in Hcu. simpl in Hcu. apply andb_true_iff in Hcu as [Hc Hu'].
  rewrite scan_app by done. destruct (scan_erased c u) as [[k rest]|] eqn:Es; [|done]. cbn [mbind option_bind fmap option_fmap option_map fst snd] in *.
  destruct (lex n rest) as [l|] eqn:El; [|done]. injection H as <-. apply (scan_plain c u) in Es; [|done|done].
  rewrite (IH m rest v l ks' Es Hv El Hm). by destruct k.
Qed.

Lemma lex_hex h : h ≠ EmptyString → str_forallb is_hex_digit h = true → Z.of_nat (String.length h) <= 131072 →
  lex 2 (" 0x" +:+ h) = Some [(Lx.HEX, "0x" +:+ toLowerCase h)].
Proof.
  intros Hn Hh Hl. cbn [String.append lex]. change (scan_erased " " _) with (Some (@None (Lx.TokenKind * string), String "0" (String "x" h))).
  cbn [mbind option_bind fst snd option_list]. unfold scan_erased, Lx.scan.
  change (is_space "0") with false. cbn [Ascii.eqb eqb andb Lx.operator Lx.next_is drop_str orb]. unfold Lx.hex_literal.
  rewrite (span_all is_hex_digit h Hh). cbn [fst snd].
  replace (2 * 65536 <? Z.of_nat (String.length h)) with false by lia. done.
Qed.
Lemma lex_number d : is_number d = true → lex 2 (" " +:+ d) = Some [(Lx.NUMBER, d)].
Proof.
  unfold is_number. intros [Hn Hd]%andb_true_iff. destruct d as [|c d]; [done|]. cbn [String.append lex].
  change (scan_erased " " _) with (Some (@None (Lx.TokenKind * string), String c d)). cbn [mbind option_bind fst snd option_list].
  pose proof Hd as [Hc Hr]%andb_true_iff. assert (scan_erased c d = Some (Some (Lx.NUMBER, String c d), EmptyString)) as ->; [|done].
  unfold scan_erased, Lx.scan. assert (is_space c = false) as -> by (clear -Hc; revert Hc; each_char c).
  assert (Ascii.eqb c "/" = false) as -> by (clear -Hc; revert Hc; each_char c). cbn [andb].
  assert (Lx.operator c d = None) as -> by (clear -Hc; revert Hc; each_char c). assert (Ascii.eqb c "[" = false) as -> by (clear -Hc; revert Hc; each_char c).
  assert (Lx.next_is (λ c, Ascii.eqb c "x" || Ascii.eqb c "X") d = false) as ->.
  { destruct d as [|x d]; [done|]. simpl in Hr |- *. apply andb_true_iff in Hr as [Hx _]. clear -Hx. revert Hx. each_char x. }
  rewrite andb_false_r, Hc. unfold Lx.number_literal. by rewrite (span_all is_digit _ Hd).
Qed.

(** The tokens of a framed text are those of its parts, at positions [at_]. *)
Definition placed (ks : list (Lx.TokenKind * string)) (at_ : nat → Z) : list Lx.Token := imap (λ i k, Lx.mkToken k.1 k.2 (at_ i)) ks.
Lemma placed_erase ks ts : map erase ts = ks → ∃ at_, ts = placed ks at_.
Proof.
  intros <-. exists (λ i, default 0 (Lx.pos <$> ts !! i)). unfold placed. apply list_eq. intros i.
  rewrite list_lookup_imap, list_lookup_fmap. by destruct (ts !! i) as [[]|].
Qed.

Lemma tokens_frame p1 p2 p3 a b d k1 k2 k3 : frames p1 p2 p3 = true → is_key a = true → is_key b = true → is_number d = true →
  Z.of_nat (String.length a) <= 131072 → Z.of_nat (String.length b) <= 131072 →
  lex (String.length p1) p1 = Some k1 → lex (String.length p2) p2 = Some k2 → lex (String.length p3) p3 = Some k3 →
  ∃ at_, Lx.tokenize (frame p1 p2 p3 a b d)
    = Ok (placed (k1 ++ [(Lx.HEX, "0x" +:+ toLowerCase a)] ++ [(Lx.HEX, "0x" +:+ toLowerCase b)] ++ k2 ++ [(Lx.NUMBER, d)] ++ k3
                    ++ [(Lx.EOF, EmptyString)]) at_).
Proof.
  unfold frames, is_key. intros [[[[H1 H2]%andb_true_iff H3]%andb_true_iff B2]%andb_true_iff B3]%andb_true_iff.
  intros [Na Ha]%andb_true_iff [Nb Hb]%andb_true_iff Hd La Lb E1 E2 E3.
  apply negb_true_iff, String.eqb_neq in Na, Nb.
  assert (plain_text (" 0x" +:+ a) = true) by (apply (str_forallb_impl _ _ _ hex_is_plain) in Ha; exact Ha).
  assert (plain_text (" 0x" +:+ b) = true) by (apply (str_forallb_impl _ _ _ hex_is_plain) in Hb; exact Hb).
  assert (plain_text (" " +:+ d) = true).
  { apply andb_true_iff in Hd as [_ Hd]. apply (str_forallb_impl _ plain_char) in Hd; [exact Hd|intros c; each_char c]. }
  assert (lex (String.length (frame p1 p2 p3 a b d)) (frame p1 p2 p3 a b d)
    = Some (k1 ++ [(Lx.HEX, "0x" +:+ toLowerCase a)] ++ [(Lx.HEX, "0x" +:+ toLowerCase b)] ++ k2 ++ [(Lx.NUMBER, d)] ++ k3)) as E.
  { apply (lex_more (String.length p1 + (2 + (2 + (String.length p2 + (2 + String.length p3)))))).
    { unfold frame. rewrite !length_app_str. apply andb_true_iff in Hd as [Nd _]. destruct a, b, d; simpl in *; try done; lia. }
    unfold frame. repeat (apply lex_app; [done|try done; by destruct p2| |]); try done; try by apply lex_hex. by apply lex_number. }
  apply (lex_tokenize (String.length (frame p1 p2 p3 a b d))) in E as (ts & E & Hm). unfold Lx.tokenize. rewrite E.
  rewrite <- !app_assoc in Hm. apply placed_erase in Hm as (at_ & ->). by exists at_.
Qed.

End FrSpec.
