(* ===== verification/EltooParse.v ===== *)
(** * The text and the tree of the channel script

    Every channel script is a fixed text around two keys and a number; its canonical text,
    its tokens and its tree are computed once for all keys and numbers. *)

From Stdlib Require Import ZArith Lia QArith Ascii String.
From stdpp Require Import base list strings.
From S2P Require Import Prelude JsBase JsText NumSpec MiniNumber MiniNumberSpec Lexer Parser Mmr Vm Eval Guards Omnia Eltoo FrameSpec.
From S2P Require NodeScript.

Module Ep.
Import Js JsText Mn Lx Ps Vm Ev FrSpec.
#[local] Arguments String.append : simpl nomatch.

(** ** The text *)

Definition text1 : string := El.lines ["LET SETTLEMENT=STATE(100)"; "LET SEQUENCE=STATE(101)"; "LET PREVSEQUENCE=PREVSTATE(101)"; "LET BOTHSIGNED=MULTISIG(2"].
Definition text2 : string :=
  El.lines [")"; "IF SETTLEMENT THEN"; "    ASSERT BOTHSIGNED"; "    ASSERT SEQUENCE EQ PREVSEQUENCE"; "    ASSERT @COINAGE GTE"].
Definition text3 : string := El.lines [""; "    RETURN TRUE"; "ENDIF"; "ASSERT BOTHSIGNED"; "ASSERT SEQUENCE GT PREVSEQUENCE"; "RETURN TRUE"].

Lemma eltoo_frame a b d : El.eltoo_text ("0x" +:+ a) ("0x" +:+ b) d = frame text1 text2 text3 a b (num_to_string (of_Z d)).
Proof. unfold El.eltoo_text, frame, El.lines. unfold join_with. cbn [String.concat]. rewrite !app_assoc_str. reflexivity. Qed.

Definition node1 : string := Eval vm_compute in written (frame_names text1 text2 text3) (NodeScript.Ns.cut text1).
Definition node2 : string := Eval vm_compute in written (frame_names text1 text2 text3) (NodeScript.Ns.cut text2).
Definition node3 : string := Eval vm_compute in written (frame_names text1 text2 text3) (NodeScript.Ns.cut text3).

(** ** The tree *)

(** *** Expressions around a number *)

Lemma level_up ops tighter operand ts e t rest :
  parseLevel tighter operand ts = (Ok e, t :: rest) → existsb (kind_eqb (kind t)) ops = false →
  parseLevel (ops :: tighter) operand ts = (Ok e, t :: rest).
Proof.
  intros E Hn. cbn [parseLevel]. unfold mbind at 1, M_bind at 1. rewrite E. unfold ploop. cbn [length while_].
  unfold at_any, peek_kind, peek, mbind, M_bind, mret, M_ret. cbn. by rewrite Hn.
Qed.
Lemma level_stop levels : ∀ operand ts e t rest,
  operand ts = (Ok e, t :: rest) → existsb (λ ops, existsb (kind_eqb (kind t)) ops) levels = false →
  parseLevel levels operand ts = (Ok e, t :: rest).
Proof.
  induction levels as [|ops levels IH]; intros operand ts e t rest E Hn; [done|]. cbn in Hn. apply orb_false_iff in Hn as [Hn Hl].
  by apply level_up; [apply IH|].
Qed.
Lemma level_turn ops tighter operand ts a op ts2 b t rest :
  operand ts = (Ok a, op :: ts2) → operand ts2 = (Ok b, t :: rest) → existsb (kind_eqb (kind op)) ops = true →
  existsb (λ ops, existsb (kind_eqb (kind op)) ops) tighter = false →
  existsb (λ ops, existsb (kind_eqb (kind t)) ops) (ops :: tighter) = false →
  parseLevel (ops :: tighter) operand ts = (Ok (BinaryNode (kind op) a b), t :: rest).
Proof.
  intros Ea Eb Ho Hn Ht. cbn in Ht. apply orb_false_iff in Ht as [Ht Htt]. cbn [parseLevel]. unfold mbind at 1, M_bind at 1.
  rewrite (level_stop tighter operand ts a op ts2) by done. unfold ploop. cbn [length while_].
  unfold at_any, peek_kind, peek, eat_any, advance, mmodify, mbind, M_bind, mret, M_ret. cbn. rewrite Ho. cbn.
  rewrite (level_stop tighter operand ts2 b t rest) by done. destruct ts2; cbn; by rewrite Ht.
Qed.

Lemma unary_builtin pe f v p ts : parseUnary pe f (mkToken ATVAR v p :: ts) = (Ok (BuiltinVarNode v), ts).
Proof. by destruct f. Qed.
Lemma unary_number pe f v p ts m : of_string v = Ok m → parseUnary pe f (mkToken NUMBER v p :: ts) = (Ok (LiteralNode (SValue (VNum m))), ts).
Proof.
  intros E. assert (parseUnary pe f (mkToken NUMBER v p :: ts) = literal (VNum <$> of_string v) (mkToken NUMBER v p :: ts)) as -> by by destruct f.
  by rewrite E.
Qed.

(** [@NAME GTE d] before RETURN. *)
Lemma at_least_run pe f xv xp ov op n np rv rp rest m : of_string n = Ok m →
  parseLevel LEVELS (parseUnary pe f) (mkToken ATVAR xv xp :: mkToken GTE ov op :: mkToken NUMBER n np :: mkToken RETURN rv rp :: rest)
  = (Ok (BinaryNode GTE (BuiltinVarNode xv) (LiteralNode (SValue (VNum m)))), mkToken RETURN rv rp :: rest).
Proof.
  intros Em. unfold LEVELS. do 6 (apply level_up; [|done]).
  eapply (level_turn _ _ _ _ _ (mkToken GTE _ _)); [apply unary_builtin|by apply unary_number|done|done|done].
Qed.
Lemma parse_expr_S n : parse_expr (S n) = parseLevel LEVELS (parseUnary (parse_expr n) n).
Proof. reflexivity. Qed.
Lemma parseExpr_levels t ts : parseExpr (t :: ts) = parseLevel LEVELS (parseUnary (parse_expr (S (length ts))) (S (length ts))) (t :: ts).
Proof. unfold parseExpr. by rewrite parse_expr_S. Qed.
Lemma parse_at_least xv xp ov op n np rv rp rest m : of_string n = Ok m →
  parseExpr (mkToken ATVAR xv xp :: mkToken GTE ov op :: mkToken NUMBER n np :: mkToken RETURN rv rp :: rest)
  = (Ok (BinaryNode GTE (BuiltinVarNode xv) (LiteralNode (SValue (VNum m)))), mkToken RETURN rv rp :: rest).
Proof. intros E. rewrite parseExpr_levels. by apply at_least_run. Qed.

(** *** Statements *)

Definition block (n : nat) (terms : list TokenKind) (ps : M (list Token) Halt ASTNode) (acc : list ASTNode) : M (list Token) Halt (list ASTNode) :=
  while_ n (not_at (EOF :: terms)) (λ stmts, s ← ps; mret (stmts ++ [s])) acc.
Lemma block_step n terms ps acc ts s ts' : existsb (kind_eqb (hd EOF (map kind ts))) (EOF :: terms) = false → ps ts = (Ok s, ts') →
  block (S n) terms ps acc ts = block n terms ps (acc ++ [s]) ts'.
Proof.
  destruct ts as [|t ts]; [done|]. cbn [map hd]. intros Ht E. unfold block. cbn [while_]. unfold mbind at 1, M_bind at 1.
  unfold not_at, at_any, peek_kind, peek, mbind, M_bind, mret, M_ret. cbn [head of_option]. rewrite Ht. cbn. by rewrite E.
Qed.
Lemma block_end n terms ps acc t ts : existsb (kind_eqb (kind t)) (EOF :: terms) = true → block (S n) terms ps acc (t :: ts) = (Ok acc, t :: ts).
Proof.
  intros Ht. unfold block. cbn [while_]. unfold mbind at 1, M_bind at 1. unfold not_at, at_any, peek_kind, peek, mbind, M_bind, mret, M_ret.
  cbn [head of_option]. by rewrite Ht.
Qed.

Lemma block_acc n terms ps : ∀ acc ts l, (block n terms ps [] ts).1 = Ok l → (block n terms ps acc ts).1 = Ok (acc ++ l).
Proof.
  assert (∀ acc a b ts l, (block n terms ps a ts).1 = Ok l → ∃ l', l = a ++ l' ∧ (block n terms ps (acc ++ b) ts).1 = Ok (acc ++ b ++ l')) as H.
  { unfold block. induction n as [|n IH]; intros acc a b ts l; [done|]. cbn [while_]. unfold mbind, M_bind.
    destruct (not_at (EOF :: terms) ts) as [[[]|e] ts1]; [|unfold mret, M_ret; cbn; intros [= <-]; exists []; by rewrite !app_nil_r|done].
    destruct (ps ts1) as [[s|e] ts2]; [|done]. intros Hl. destruct (IH acc (a ++ [s]) (b ++ [s]) ts2 l Hl) as (l' & -> & E).
    exists (s :: l'). rewrite <- !app_assoc in *. by split. }
  intros acc ts l Hl. destruct (H acc [] [] ts l Hl) as (l' & -> & E). by rewrite app_nil_r in E.
Qed.

Definition number (n : Z) : ASTNode := LiteralNode (SValue (VNum (mkMini n (Some 0)))).
Definition text (s : string) : ASTNode := LiteralNode (SValue (VStr s)).
Definition lets (ka kb : string) : list ASTNode :=
  [LetNode "settlement" (StateNode (number 100)); LetNode "sequence" (StateNode (number 101));
   LetNode "prevsequence" (PrevStateNode (number 101)); LetNode "bothsigned" (MultisigNode (number 2) [text ka; text kb])].
Definition closing (m : MiniNumber) : list ASTNode :=
  [AssertNode (IdentNode "bothsigned"); AssertNode (BinaryNode EQ (IdentNode "sequence") (IdentNode "prevsequence"));
   AssertNode (BinaryNode GTE (BuiltinVarNode "COINAGE") (LiteralNode (SValue (VNum m)))); ReturnNode (LiteralNode (SValue (VBool true)))].
Definition updating : list ASTNode :=
  [AssertNode (IdentNode "bothsigned"); AssertNode (BinaryNode GT (IdentNode "sequence") (IdentNode "prevsequence"))].
Definition guard (m : MiniNumber) : ASTNode := IfNode (IdentNode "settlement") (closing m) [] None.

(** The tokens of the fixed parts, up to the end of the IF statement. *)
Definition tokens1 : list (TokenKind * string) := Eval vm_compute in default [] (lex (String.length node1) node1).
Definition tokens2 : list (TokenKind * string) := Eval vm_compute in default [] (lex (String.length node2) node2).
Definition tokens3 : list (TokenKind * string) := [(RETURN, "RETURN"); (TRUE, "TRUE"); (ENDIF, "ENDIF")]%string.
Definition head_tokens (ka kb d : string) : list (TokenKind * string) :=
  tokens1 ++ [(HEX, ka)] ++ [(HEX, kb)] ++ tokens2 ++ [(NUMBER, d)] ++ tokens3.

Ltac next_statement := erewrite block_step; [|reflexivity|vm_compute; reflexivity].

Lemma parse_lets ka kb d at_ F n tail :
  block (4 + n) [] (parseStatement (S F)) [] (placed (head_tokens ka kb d) at_ ++ tail)
  = block n [] (parseStatement (S F)) (lets ka kb)
      (drop (length tokens1 + 3) (placed (head_tokens ka kb d) at_) ++ tail).
Proof. unfold placed, head_tokens, tokens1, tokens2, tokens3. cbn [imap app plus]. do 4 next_statement. reflexivity. Qed.

(** The IF statement, in its parts. *)
Lemma if_run ps ts cond t1 thens t2 t3 : parseExpr ts = (Ok cond, t1) → eat THEN t1 = (Ok (hd (mkToken EOF "" 0) t1), t2) →
  block (S (length t2)) [ELSE; ELSEIF; ENDIF] ps [] t2 = (Ok thens, t3) → hd EOF (map kind t3) = ENDIF →
  parse_if ps ts = (Ok (IfNode cond thens [] None), tl t3).
Proof.
  intros Ec Et Eb E3. unfold parse_if. unfold mbind at 1, M_bind at 1. rewrite Ec. unfold mbind at 1, M_bind at 1. rewrite Et.
  unfold mbind at 1, M_bind at 1. change (parseBlock ps [ELSE; ELSEIF; ENDIF] t2) with (block (S (length t2)) [ELSE; ELSEIF; ENDIF] ps [] t2).
  rewrite Eb. destruct t3 as [|[k v p] t3]; [done|]. cbn in E3. subst k. reflexivity.
Qed.

Lemma assert_run f v p ts e ts' : parseExpr ts = (Ok e, ts') → parseStatement (S f) (mkToken ASSERT v p :: ts) = (Ok (AssertNode e), ts').
Proof.
  intros E. change (parseStatement (S f) (mkToken ASSERT v p :: ts)) with ((AssertNode <$> parseExpr) ts).
  unfold fmap, M_fmap, mbind, M_bind. by rewrite E.
Qed.

Lemma parse_guard ka kb d m at_ F tail : of_string d = Ok m →
  parseStatement (S (S F)) (drop (length tokens1 + 3) (placed (head_tokens ka kb d) at_) ++ tail) = (Ok (guard m), tail).
Proof.
  intros Ed. unfold placed, head_tokens, tokens1, tokens2, tokens3. cbn [imap app plus length drop].
  match goal with |- parseStatement _ (_ :: ?ts) = _ =>
    change (parseStatement (S (S F)) (_ :: ts)) with (parse_if (parseStatement (S F)) ts) end.
  refine (if_run _ _ (IdentNode "settlement") _ (closing m) _ (mkToken ENDIF "ENDIF" _ :: tail) _ _ _ _);
    [vm_compute; reflexivity|reflexivity| |reflexivity].
  cbn [list.tail length]. do 2 next_statement.
  erewrite block_step; [|reflexivity|by apply assert_run, parse_at_least].
 next_statement. by rewrite block_end.
Qed.

Lemma parseProgram_block ts : parseProgram ts = block (S (length ts)) [] (parseStatement (S (length ts))) [] ts.
Proof. reflexivity. Qed.

(** The whole program, over whatever follows the IF statement. *)
Lemma parse_head ka kb d m at_ tail_tokens : of_string d = Ok m →
  parseProgram (placed (head_tokens ka kb d ++ tail_tokens) at_)
  = block (42 + length tail_tokens) [] (parseStatement (47 + length tail_tokens)) (lets ka kb ++ [guard m])
      (placed tail_tokens (λ i, at_ (46 + i)%nat)).
Proof.
  intros E. rewrite parseProgram_block.
  assert (placed (head_tokens ka kb d ++ tail_tokens) at_ = placed (head_tokens ka kb d) at_ ++ placed tail_tokens (λ i, at_ (46 + i)%nat)) as ->.
  { unfold placed. by rewrite imap_app. }
  rewrite length_app. replace (length (placed tail_tokens _)) with (length tail_tokens) by (unfold placed; by rewrite length_imap).
  change (length (placed (head_tokens ka kb d) at_)) with 46%nat.
  change (S (46 + length tail_tokens))%nat with (4 + (S (42 + length tail_tokens)))%nat at 1. rewrite parse_lets.
  erewrite block_step; [reflexivity|reflexivity|by eapply parse_guard].
Qed.

(** ** Whole numbers *)

Lemma whole_number d : 0 <= d <= MAX_VALUE_BIG → of_string (dec d) = Ok (mkMini d (Some 0)).
Proof.
  intros Hd. pose proof (dec_digits d ltac:(lia)) as Hg. unfold of_string, parseDecimal.
  rewrite trim_digits by done. rewrite MnSpec.break_at_no.
  2: { apply (str_forallb_impl is_digit); [|done]. intros c. clear. each_char c. }
  pose proof (MnSpec.mantissa_big d) as Hm. unfold big_to_string in Hm. replace (d <? 0) with false in Hm by lia. rewrite Hm.
  cbn [mbind result_bind]. unfold make. destruct (d =? 0) eqn:E0; [done|].
  destruct (MnSpec.round_exact d 0) as (u & s & -> & Hs & Eu & _); [done| |].
  { assert (MAX_VALUE_BIG < 10 ^ MAX_DIGITS) by (by vm_compute). lia. }
  assert (s = 0) as -> by lia. rewrite Z.sub_diag, Z.mul_1_r in Eu. subst u. rewrite MnSpec.limits_spec by done.
  by replace (MAX_VALUE_BIG * 10 ^ 0 <? Z.abs d) with false by lia.
Qed.

(** ** Whole scripts *)

(** The canonical text around two keys and a number, up to the end of the IF statement and
    with [p3] after it. *)
Definition script_text (p3 a b d : string) : string := frame node1 node2 p3 a b d.

(** [p3] is canonical: it closes the IF statement and goes on with [rest]. *)
Record continues (p3 : string) (rest : list ASTNode) : Prop := {
  co_frames : frames node1 node2 p3 = true;
  co_canonical : ∀ p, p ∈ [node1; node2; p3] → written (frame_names node1 node2 p3) (NodeScript.Ns.cut p) = p;
  co_tokens : ∃ ks, lex (String.length p3) p3 = Some (tokens3 ++ ks) ∧
    ∀ at_, (block (42 + length (ks ++ [(EOF, EmptyString)])) [] (parseStatement (47 + length (ks ++ [(EOF, EmptyString)]))) []
              (placed (ks ++ [(EOF, EmptyString)]) at_)).1 = Ok rest;
  co_valid : ∀ a b m, validateAst ((lets a b ++ [guard m]) ++ rest) [] = Ok tt }.

Definition key_text (a : string) : string := "0x" +:+ toLowerCase a.

Lemma canonical_text p3 rest a b d : continues p3 rest → is_key a = true → is_key b = true → is_number d = true →
  NodeScript.Ns.toNodeScript (script_text p3 a b d) = script_text p3 a b d.
Proof.
  intros [Hf Hc _ _] Ha Hb Hd. unfold script_text. rewrite canonical_frame by done. rewrite !Hc; [done|by do 2 right; left|by right; left|by left].
Qed.

Lemma parse_finish source ts ast : tokenize source = Ok ts → (parseProgram ts).1 = Ok ast → validateAst ast [] = Ok tt →
  parseScript source [] = Ok ast.
Proof. intros E1 E2 E3. unfold parseScript. rewrite E1. cbn [mbind result_bind]. rewrite E2. cbn [mbind result_bind]. by rewrite E3. Qed.

Lemma script_parses p3 rest a b d : continues p3 rest → is_key a = true → is_key b = true →
  Z.of_nat (String.length a) <= 131072 → Z.of_nat (String.length b) <= 131072 → 0 <= d <= MAX_VALUE_BIG →
  parseScript (script_text p3 a b (dec d)) [] = Ok (lets (key_text a) (key_text b) ++ guard (mkMini d (Some 0)) :: rest).
Proof.
  intros [Hf _ (ks & Hl & Hp) Hv] Ha Hb La Lb Hd.
  assert (is_number (dec d) = true) as Hn.
  { unfold is_number. rewrite dec_digits, andb_true_r by lia. destruct (String.eqb_spec (dec d) ""); [|done]. by destruct (dec_nonempty d). }
  destruct (tokens_frame node1 node2 p3 a b (dec d) tokens1 tokens2 (tokens3 ++ ks) Hf Ha Hb Hn La Lb eq_refl eq_refl Hl) as [at_ Ht].
  eapply parse_finish; [exact Ht| |].
  - rewrite <- app_assoc. pose proof (parse_head (key_text a) (key_text b) (dec d) (mkMini d (Some 0)) at_ (ks ++ [(EOF, EmptyString)])
      (whole_number d Hd)) as Eh.
    unfold head_tokens in Eh. rewrite <- !app_assoc in Eh. unfold key_text at 1 2 in Eh. rewrite Eh, (block_acc _ _ _ _ _ _ (Hp _)). by rewrite <- app_assoc.
  - specialize (Hv (key_text a) (key_text b) (mkMini d (Some 0))). by rewrite <- app_assoc in Hv.
Qed.

End Ep.
