(* ===== verification/EvalSpec.v ===== *)
(** * KISSVM evaluation ends, within its instructions, and never gets stuck

    One invariant of the whole evaluator, proved by induction on the fuel: the
    count of instructions grows and stays within the limit, the programs the
    machine holds stay well sorted, the witness and every field of the context but
    the state ports are left alone, and neither the fuel nor the evaluator's
    dispatch runs out. *)

From Stdlib Require Import ZArith Lia QArith Ascii String.
From stdpp Require Import base list strings.
From S2P Require Import Prelude JsBase JsMap MiniNumber Lexer Parser ParserSpec NodeScript Mmr Vm Eval.

Module EvSpec.
Import Js JsMap Mn Lx Ps PsSpec Vm Ev.

(** ** Results without a stuck dispatch *)

Definition plain {A} (r : Kiss A) : Prop := ∀ m, r ≠ Err (KissvmRuntimeError (Stuck m)).

Create HintDb plain.
Lemma plain_Ok {A} (a : A) : plain (Ok a).
Proof. done. Qed.
Lemma plain_bind {A B} (m : Kiss A) (f : A → Kiss B) : plain m → (∀ a, plain (f a)) → plain (m ≫= f).
Proof. intros Hm Hf. destruct m as [a|e]; [apply Hf|]. intros k [= ->]. by apply (Hm k). Qed.
Lemma plain_fmap {A B} (g : A → B) (m : Kiss A) : plain m → plain (g <$> m).
Proof. intros Hm. destruct m as [a|e]; [done|]. intros k [= ->]. by apply (Hm k). Qed.
Lemma plain_option {A} e (o : option A) : plain (Err e : Kiss A) → plain (of_option e o).
Proof. intros He. by destruct o. Qed.
Lemma plain_throw_if b e : plain (Err e : Kiss unit) → plain (throw_if b e).
Proof. intros He. by destruct b. Qed.
Lemma plain_js {A} (r : result string A) : plain (js r).
Proof. by destruct r. Qed.
Lemma plain_limit {A} m : plain (Err (KissvmLimitError m) : Kiss A).
Proof. done. Qed.
Lemma plain_js_error {A} m : plain (Err (JsError m) : Kiss A).
Proof. done. Qed.
Lemma plain_message {A} m : plain (Err (KissvmRuntimeError (Message m)) : Kiss A).
Proof. done. Qed.
#[local] Hint Resolve plain_Ok plain_js plain_limit plain_js_error plain_message : plain.

Ltac plains :=
  repeat first
    [ progress intros
    | solve [eauto with plain]
    | lazymatch goal with
      | |- plain (_ ≫= _) => apply plain_bind
      | |- plain (_ <$> _) => apply plain_fmap
      | |- plain (of_option _ _) => apply plain_option
      | |- plain (throw_if _ _) => apply plain_throw_if
      | |- plain (if ?b then _ else _) => destruct b
      | |- plain match ?x with _ => _ end => destruct x
      end ].

Lemma plain_make u s : plain (make u s).
Proof. unfold make, checkLimits, pow10. plains. Qed.
#[local] Hint Resolve plain_make : plain.
Lemma plain_of_string s : plain (of_string s).
Proof. unfold of_string, parseDecimal, parse_mantissa, to_big. plains. Qed.
#[local] Hint Resolve plain_of_string : plain.
Lemma plain_of_number n : plain (of_number n).
Proof. apply plain_of_string. Qed.
Lemma plain_same_scale a b : plain (assertSameScale a b).
Proof. unfold assertSameScale. plains. Qed.
Lemma plain_rounded u s : plain (rounded u s).
Proof. unfold rounded. plains. Qed.
#[local] Hint Resolve plain_of_number plain_same_scale plain_rounded : plain.

Lemma plain_arith a b :
  plain (add a b) ∧ plain (sub a b) ∧ plain (mult a b) ∧ plain (div a b) ∧ plain (modulo a b) ∧ plain (compareTo a b).
Proof. unfold add, sub, mult, div, modulo, compareTo. repeat split; plains. Qed.
Lemma plain_compare a b :
  plain (isEqual a b) ∧ plain (isLess a b) ∧ plain (isLessEqual a b) ∧ plain (isMore a b) ∧ plain (isMoreEqual a b).
Proof. repeat split; apply plain_fmap, (plain_arith a b). Qed.
Lemma plain_negate a : plain (negate a).
Proof. apply plain_of_string. Qed.
Lemma plain_sigdig a d : plain (setSignificantDigits a d).
Proof. unfold setSignificantDigits. plains. Qed.

Lemma plain_number v : plain (asMiniNumber v).
Proof. unfold asMiniNumber, runtime, to_big. plains. Qed.
Lemma plain_port v : plain (asPortInt v).
Proof. apply plain_fmap, plain_number. Qed.
Lemma plain_truthy v : plain (isTruthy v).
Proof. unfold isTruthy. plains. apply plain_compare. Qed.
#[local] Hint Resolve plain_negate plain_sigdig plain_number plain_port plain_truthy : plain.
#[local] Hint Extern 1 (plain (isEqual _ _)) => apply plain_compare : plain.
#[local] Hint Extern 1 (plain (isLess _ _)) => apply plain_compare : plain.
#[local] Hint Extern 1 (plain (isLessEqual _ _)) => apply plain_compare : plain.
#[local] Hint Extern 1 (plain (isMore _ _)) => apply plain_compare : plain.
#[local] Hint Extern 1 (plain (isMoreEqual _ _)) => apply plain_compare : plain.
#[local] Hint Extern 1 (plain (add _ _)) => apply plain_arith : plain.
#[local] Hint Extern 1 (plain (sub _ _)) => apply plain_arith : plain.
#[local] Hint Extern 1 (plain (mult _ _)) => apply plain_arith : plain.
#[local] Hint Extern 1 (plain (div _ _)) => apply plain_arith : plain.
#[local] Hint Extern 1 (plain (modulo _ _)) => apply plain_arith : plain.

Lemma plain_eq a b : plain (kissvmEq a b).
Proof. unfold kissvmEq. plains. Qed.
Lemma plain_sized s : plain (sized s).
Proof. unfold sized, checkStringSize. plains. Qed.
#[local] Hint Resolve plain_eq plain_sized : plain.
Lemma plain_bytes v : plain (toBytes v).
Proof. unfold toBytes, to_big. plains. Qed.
Lemma plain_state s : plain (_ ← checkStringSize s; parseStateValue s).
Proof. unfold checkStringSize, parseStateValue. plains. Qed.
Lemma plain_bitnot v : plain (bitnot v).
Proof. unfold bitnot. plains. Qed.
Lemma plain_builtin name ctx : plain (resolveBuiltin name ctx).
Proof. unfold resolveBuiltin, sized_field, runtime. plains. Qed.
Lemma plain_output o a m t k : plain (output_matches o a m t k).
Proof. unfold output_matches. plains. Qed.
Lemma plain_getout fn o : plain (getout fn o).
Proof. unfold getout. plains. Qed.
Lemma plain_len v : plain (len_value v).
Proof. unfold len_value. plains. Qed.
Lemma plain_size v : plain (size_value v).
Proof. unfold size_value. plains. Qed.
Lemma plain_bitget m k : plain (bitget m k).
Proof. unfold bitget, bit_index. plains. Qed.
Lemma plain_bitset m k b : plain (bitset m k b).
Proof. unfold bitset, bit_index. plains. Qed.

Lemma plain_numbers {A} (f : MiniNumber → MiniNumber → Kiss A) a b :
  (∀ x y, plain (f x y)) → plain (numbers f a b).
Proof. intros Hf. unfold numbers. plains. Qed.
#[local] Hint Extern 2 (plain (numbers _ _ _)) => apply plain_numbers; intros; auto with plain : plain.

Lemma plain_binary op a b :
  is_operator op = true → op ≠ AND → op ≠ OR → plain (apply_binary op a b).
Proof.
  intros Hop Ha Ho. destruct op; vm_compute in Hop; try discriminate; try congruence; clear.
  all: unfold apply_binary, truth_op, add_values, shift, bitwise, to_big; plains.
Qed.

(** ** The invariant *)

(** A SAMESTATE loop that has compared [patience] ports of its range, found them all
    equal, and has not reached its end: the next port is [p]. *)
Definition next_port (p : jsnum) : jsnum := num_add p (of_Z 1).
Definition port_agrees (ctx : TxContext) (p : jsnum) : bool :=
  String.eqb (port_value (state ctx) p) (port_value (prevState ctx) p).
Definition unfinished (patience : nat) (ctx : TxContext) (p to : jsnum) : Prop :=
  ∃ from, p = Nat.iter patience next_port from ∧ num_le p to = true
    ∧ ∀ i, (i < patience)%nat → num_le (Nat.iter i next_port from) to = true
                                ∧ port_agrees ctx (Nat.iter i next_port from) = true.

Section Invariant.
Context `{Platform} {patience : nat}.
Notation K := (M VMState Signal).
Notation count := instructionCount.

Definition with_state (st : list (string * string)) (c : TxContext) : TxContext :=
  mkCtx (block c) (blockMilli c) (inputIndex c) (inputs c) (outputs c) st (prevState c) (txDigest c)
    (mastBranches c) (allowLegacyMastBranches c) (prevCoins c) (simulationMode c).
(** Only the state ports may differ. *)
Definition same_ctx (c c' : TxContext) : Prop := ∃ st, c' = with_state st c.
Lemma same_ctx_refl c : same_ctx c c.
Proof. exists (state c). by destruct c. Qed.
Lemma same_ctx_trans c d e : same_ctx c d → same_ctx d e → same_ctx c e.
Proof. intros [st ->] [st' ->]. by exists st'. Qed.

Definition sorted_vm (s : VMState) : Prop :=
  Forall (λ kv, Wf_block (fbody kv.2)) (funcs s) ∧ Forall (λ kv, Wf_block kv.2) (mastBlock s).

Definition step (s s' : VMState) : Prop :=
  count s <= count s' ∧ witness s' = witness s ∧ same_ctx (txCtx s) (txCtx s') ∧ sorted_vm s'.
Lemma step_refl s : sorted_vm s → step s s.
Proof. intros Hs. split; [lia|]. split; [done|]. split; [apply same_ctx_refl|done]. Qed.
Lemma step_trans s t u : step s t → step t u → step s u.
Proof.
  intros (C1 & W1 & X1 & S1) (C2 & W2 & X2 & S2). split; [lia|]. split; [congruence|].
  split; [by eapply same_ctx_trans|done].
Qed.

(** A limit error may leave the count above the limit; nothing else does. *)
Definition legal {A} (r : result Signal A) (s : VMState) : Prop :=
  match r with
  | Err NoFuel | Err (Throw (KissvmRuntimeError (Stuck _))) => False
  | Err (Throw (KissvmLimitError _)) => True
  | Err (Endless p to) => count s <= MAX_INSTRUCTIONS ∧ unfinished patience (txCtx s) p to
  | _ => count s <= MAX_INSTRUCTIONS
  end.
Definition ends {A} (Q : A → Prop) (s : VMState) (rs : result Signal A * VMState) : Prop :=
  step s rs.2 ∧ legal rs.1 rs.2 ∧ (∀ a, rs.1 = Ok a → Q a).

(** From a good state, with fuel [n] for what is left of the instructions. *)
Definition ready (n : nat) (s : VMState) : Prop :=
  sorted_vm s ∧ count s <= MAX_INSTRUCTIONS < Z.of_nat n + count s.
Definition safe {A} (n : nat) (Q : A → Prop) (m : K A) : Prop := ∀ s, ready n s → ends Q s (m s).
Notation any := (λ _, True).

Lemma ready_step n s s' : ready n s → step s s' → count s' <= MAX_INSTRUCTIONS → ready n s'.
Proof. intros (Hs & L) (C & _ & _ & S'). split; [done|lia]. Qed.

Lemma ends_step {A} (Q : A → Prop) s s' rs : step s s' → ends Q s' rs → ends Q s rs.
Proof. intros Hst (H1 & H2 & H3). split; [by eapply step_trans|done]. Qed.

Lemma safe_weaken {A} n (Q R : A → Prop) m : (∀ a, Q a → R a) → safe n Q m → safe n R m.
Proof. intros HQ Hm s Hs. destruct (Hm s Hs) as (H1 & H2 & H3). split; [done|]. split; [done|auto]. Qed.

Lemma safe_ret {A} n (Q : A → Prop) a : Q a → safe n Q (mret a).
Proof. intros Ha s (Hs & L). split; [by apply step_refl|]. split; [simpl; lia|]. by intros ? [= <-]. Qed.

Lemma ends_bind {A B} n (Q : A → Prop) (R : B → Prop) (m : K A) (f : A → K B) s :
  ready n s → ends Q s (m s) → (∀ a s', Q a → ready n s' → ends R s' (f a s')) → ends R s ((m ≫= f) s).
Proof.
  intros Hs (H1 & H2 & H3) Hf. unfold mbind, M_bind. destruct (m s) as [[a|e] s']; simpl in *.
  - eapply ends_step; [done|]. apply Hf; [by apply H3|]. eapply ready_step; [done|done|by simpl in H2].
  - split; [done|]. split; [by destruct e as [[]| | |]|done].
Qed.
Lemma safe_bind {A B} n (Q : A → Prop) (R : B → Prop) (m : K A) (f : A → K B) :
  safe n Q m → (∀ a, Q a → safe n R (f a)) → safe n R (m ≫= f).
Proof. intros Hm Hf s Hs. eapply ends_bind; [done|by apply Hm|]. intros a s' Ha Hs'. by apply Hf. Qed.
Lemma safe_fmap {A B} n (Q : A → Prop) (g : A → B) (m : K A) : safe n Q m → safe n any (g <$> m).
Proof. intros Hm. unfold fmap, M_fmap. eapply safe_bind; [done|]. intros a _. by apply safe_ret. Qed.

Lemma safe_get {B} n (R : B → Prop) (f : VMState → K B) :
  (∀ s, ready n s → safe n R (f s)) → safe n R (s ← mget; f s).
Proof. intros Hf s Hs. by apply (Hf s Hs). Qed.

Lemma safe_raise {A} n (Q : A → Prop) e :
  match e with Throw (KissvmRuntimeError (Stuck _)) | Endless _ _ | NoFuel => False | _ => True end → safe n Q (mthrow e : K A).
Proof.
  intros He s (Hs & L). split; [by apply step_refl|]. split; [|done].
  simpl. destruct e as [[m|[m|m]|m|m]| | |]; try done; simpl; lia.
Qed.
Lemma safe_kiss {A} n (r : Kiss A) : plain r → safe n any (kiss r).
Proof.
  intros Hr s (Hs & L). unfold kiss. split; [by apply step_refl|]. split; [|done].
  destruct r as [a|[m|[m|m]|m|m]]; simpl; try lia; try done. by apply (Hr m).
Qed.

(** Changes to the other parts of the machine. *)
Definition harmless (f : VMState → VMState) : Prop :=
  ∀ s, sorted_vm s → count (f s) = count s ∧ step s (f s).
Lemma safe_modify n f : harmless f → safe n any (mmodify f).
Proof. intros Hf s (Hs & L). destruct (Hf s Hs) as [C S']. split; [done|]. split; [simpl; lia|done]. Qed.
(** Changes that leave the context alone. *)
Definition quiet (f : VMState → VMState) : Prop := harmless f ∧ ∀ s, txCtx (f s) = txCtx s.
Lemma safe_finally {A} n (Q : A → Prop) (m : K A) f : quiet f → safe n Q m → safe n Q (finally m f).
Proof.
  intros [Hf Hx] Hm s Hs. unfold finally. destruct (Hm s Hs) as (H1 & H2 & H3). destruct (m s) as [r s'].
  simpl in *. destruct (Hf s') as [C S']; [apply H1|]. split; [by eapply step_trans|]. split; [|done].
  unfold legal in *. simpl. by rewrite C, Hx.
Qed.
Lemma safe_catch {A} n (Q : A → Prop) (m : K A) h :
  safe n Q m → (∀ v, safe n Q (h v)) → safe n Q (catch_return m h).
Proof.
  intros Hm Hh s Hs. unfold catch_return, mcatch. pose proof (Hm s Hs) as (H1 & H2 & H3).
  destruct (m s) as [[a|e] s']; simpl in *; [done|].
  destruct e; try (split; [done|]; by split).
  eapply ends_step; [done|]. apply Hh. by eapply ready_step.
Qed.
Lemma safe_for {A} n (f : A → K unit) l : (∀ a, a ∈ l → safe n any (f a)) → safe n any (mfor f l).
Proof.
  induction l as [|a l IH]; intros Hf; [by apply safe_ret|]. simpl.
  eapply safe_bind; [apply Hf; by left|]. intros _ _. apply IH. intros b Hb. apply Hf. by right.
Qed.

Lemma safe_tick n k : 0 <= k → safe n any (tick k).
Proof.
  intros Hk s (Hs & L). unfold tick, mthrow_if, mlift, throw_if, mmodify, mget, mbind, M_bind. simpl.
  assert (step s (set_count (count s + k) s)) as Hst.
  { split; [simpl; lia|]. split; [done|]. split; [apply same_ctx_refl|done]. }
  split; [done|]. split; [|done]. simpl. destruct (_ >? _) eqn:E; simpl; [done|lia].
Qed.
(** A tick pays for one unit of fuel. *)
Lemma safe_tick_bind {A} n k (Q : A → Prop) (m : K A) :
  1 <= k → safe n Q m → safe (S n) Q (_ ← tick k; m).
Proof.
  intros Hk Hm s Hs. unfold mbind at 1, M_bind at 1.
  destruct (safe_tick (S n) k ltac:(lia) s Hs) as (H1 & H2 & _).
  assert (∀ u, (tick k s).1 = Ok u → count (tick k s).2 = count s + k) as Hc.
  { unfold tick, mthrow_if, mlift, mmodify, mget, mbind, M_bind. simpl. done. }
  destruct (tick k s) as [[u|e] s']; simpl in *; [|split; [done|]; by split].
  eapply ends_step; [done|]. apply Hm. specialize (Hc u eq_refl). destruct Hs as (Hs & L).
  split; [apply H1|lia].
Qed.

Lemma safe_mono {A} k n (Q : A → Prop) m : (k <= n)%nat → safe n Q m → safe k Q m.
Proof. intros Hk Hm s (Hs & L). apply Hm. split; [done|lia]. Qed.
Lemma safe_assoc {A B C} n (Q : C → Prop) (m : K A) (f : A → K B) (g : B → K C) :
  safe n Q (m ≫= λ a, f a ≫= g) → safe n Q ((m ≫= f) ≫= g).
Proof. intros Hm s Hs. specialize (Hm s Hs). unfold mbind, M_bind in *. by destruct (m s) as [[a|e] s']. Qed.

Lemma harmless_set (g : VMState → VMState) :
  (∀ s, count (g s) = count s ∧ witness (g s) = witness s ∧ txCtx (g s) = txCtx s
        ∧ funcs (g s) = funcs s ∧ mastBlock (g s) = mastBlock s) → harmless g.
Proof.
  intros Hg s Hs. destruct (Hg s) as (C & W & X & F & B). split; [done|].
  split; [lia|]. split; [done|]. rewrite X. split; [apply same_ctx_refl|]. unfold sorted_vm. by rewrite F, B.
Qed.
Lemma quiet_set (g : VMState → VMState) :
  (∀ s, count (g s) = count s ∧ witness (g s) = witness s ∧ txCtx (g s) = txCtx s
        ∧ funcs (g s) = funcs s ∧ mastBlock (g s) = mastBlock s) → quiet g.
Proof. intros Hg. split; [by apply harmless_set|]. intros s. apply Hg. Qed.
Lemma quiet_pop : quiet popCallFrame.
Proof. apply quiet_set. intros s. unfold popCallFrame. by destruct (envStack (leave s)) as [|f []]. Qed.
Lemma quiet_leave : quiet popBlockScope.
Proof. by apply quiet_set. Qed.

Lemma safe_trace n line : safe n any (addTrace line).
Proof. by apply safe_modify, harmless_set. Qed.
Lemma safe_set n name v : safe n any (set name v).
Proof. by apply safe_modify, harmless_set. Qed.
Lemma safe_throw_if n b e :
  match e with Throw (KissvmRuntimeError (Stuck _)) | Endless _ _ | NoFuel => False | _ => True end →
  safe n any (mthrow_if b e : K unit).
Proof. intros He. destruct b; [by apply (safe_raise n any e)|by apply (safe_ret n any tt)]. Qed.
Lemma safe_enter n what : safe n any (enter what).
Proof.
  unfold enter. eapply safe_bind; [by apply safe_modify, harmless_set|intros _ _].
  apply safe_get. intros s _. by apply safe_throw_if.
Qed.
Lemma safe_push n : safe n any pushCallFrame.
Proof. eapply safe_bind; [apply safe_enter|intros _ _]. by apply safe_modify, harmless_set. Qed.
End Invariant.
Arguments safe {_} patience {_} n Q m.

Notation any := (λ _, True).
Create HintDb safe.
#[local] Hint Resolve safe_trace safe_set safe_enter safe_push quiet_pop quiet_leave : safe.

(** One step along the sequence of a computation; [plain] results by their hints. *)
Ltac sstep :=
  lazymatch goal with
  | |- safe _ _ _ (mret _) => apply safe_ret; try done
  | |- safe _ _ _ (mbind _ mget) => apply safe_get; intros ? ?
  | |- safe _ _ _ (mbind _ _) => eapply safe_bind; [sstep|intros ? ?]
  | |- safe _ _ _ (_ <$> _) => eapply safe_fmap; sstep
  | |- safe _ _ _ (kiss _) => apply safe_kiss; plains
  | |- safe _ _ _ (kthrow _) => by apply safe_raise
  | |- safe _ _ _ (kruntime _) => by apply safe_raise
  | |- safe _ _ _ (mthrow _) => by apply safe_raise
  | |- safe _ _ _ (mthrow_if _ _) => by apply safe_throw_if
  | |- safe _ _ _ (mmodify _) => by apply safe_modify, harmless_set
  | |- safe _ _ _ (finally _ _) => apply safe_finally; [solve [eauto with safe]|]
  | |- safe _ _ _ (let '_ := ?x in _) => destruct x
  | |- safe _ _ _ (if ?b then _ else _) => destruct b
  | |- safe _ _ _ match ?x with _ => _ end => destruct x
  | |- safe _ _ _ _ => solve [eauto with safe]
  end.
Ltac ssteps := repeat sstep.

Section Signatures.
Context `{Platform} (patience : nat).
Notation K := (M VMState Signal).

Lemma safe_guarded {A} n (r : result string A) line ok :
  (∀ a, safe patience n any (ok a)) → safe patience n any (guarded r line ok).
Proof. intros Hok. unfold guarded. destruct r; [apply Hok|]. ssteps. Qed.
Lemma safe_signedby n pk : safe patience n any (verifySignedBy pk).
Proof. unfold verifySignedBy. ssteps. apply safe_guarded. intros a. ssteps. Qed.
Lemma safe_proof n d l r s p b : safe patience n any (evalProof d l r s p b).
Proof.
  unfold evalProof. apply safe_guarded. intros leaf. ssteps. apply safe_guarded. intros root. ssteps.
Qed.
Lemma safe_script_proof n sp root : safe patience n any (verifyScriptProof sp root).
Proof. unfold verifyScriptProof. apply safe_guarded. intros r. ssteps. Qed.
Lemma safe_find n proofs root : safe patience n any (find_verified proofs root).
Proof.
  induction proofs as [|sp proofs IH]; simpl; [ssteps|].
  eapply safe_bind; [apply safe_script_proof|intros ok _]. ssteps.
Qed.
Lemma samestate_loop_spec turns ctx to p s :
  samestate_loop turns ctx p to s
  = (match (samestate_loop turns ctx p to s).1 with
     | Ok b => Ok b
     | Err _ => Err (Endless (Nat.iter turns next_port p) to)
     end, s)
  ∧ (is_ok (samestate_loop turns ctx p to s).1 = true
     ∨ num_le (Nat.iter turns next_port p) to = true
       ∧ ∀ i, (i < turns)%nat → num_le (Nat.iter i next_port p) to = true ∧ port_agrees ctx (Nat.iter i next_port p) = true).
Proof.
  revert p. induction turns as [|turns IH]; intros p; cbn [samestate_loop]; fold (port_agrees ctx p).
  - destruct (num_le p to) eqn:E; cbn [negb]; split; try done; [|by left]. right. split; [done|]. intros i Hi. lia.
  - destruct (num_le p to) eqn:E; cbn [negb]; [|split; [done|by left]].
    destruct (port_agrees ctx p) eqn:Ea; cbn [negb]; [|split; [done|by left]].
    fold (next_port p). rewrite Nat.iter_succ_r. destruct (IH (next_port p)) as [E1 E2]. split; [exact E1|].
    destruct E2 as [E2|[E2 E3]]; [by left|right]. split; [done|]. intros [|i] Hi; [done|]. rewrite Nat.iter_succ_r. apply E3. lia.
Qed.
Lemma safe_samestate n from to : safe patience n any (samestate patience from to).
Proof.
  unfold samestate. eapply safe_bind; [by apply safe_throw_if|intros _ _]. intros s Hs. unfold mbind, M_bind, mget.
  destruct (samestate_loop_spec patience (txCtx s) to from s) as [E Hr]. rewrite E. destruct (samestate_loop _ _ _ _ s) as [[b|e] s'].
  - by apply (safe_ret n any b).
  - destruct Hr as [Hr|[Hl Hi]]; [done|]. destruct Hs as (Hs & L). split; [by apply step_refl|]. split; [|done]. split; [simpl; lia|].
    by exists from.
Qed.
End Signatures.
#[local] Hint Resolve safe_signedby safe_proof safe_find safe_samestate : safe.

(** ** Expressions *)

Section Nodes.
Context `{Platform} (patience n : nat) (ev : ASTNode → M VMState Signal Value) (ex : list ASTNode → M VMState Signal unit).
Notation K := (M VMState Signal).
Hypothesis Hev : ∀ e, Wf_expr e → safe patience n any (ev e).
Hypothesis Hex : ∀ l, Wf_block l → safe patience n any (ex l).

#[local] Hint Resolve Hev Hex : safe.
#[local] Hint Resolve plain_eq plain_sized plain_of_string plain_number plain_port plain_truthy plain_js : plain.

Lemma safe_ev_number e : Wf_expr e → safe patience n any (ev_number ev e).
Proof. intros He. unfold ev_number. ssteps. Qed.
Lemma safe_ev_port e : Wf_expr e → safe patience n any (ev_port ev e).
Proof. intros He. unfold ev_port. ssteps. Qed.
Lemma safe_ev_string e : Wf_expr e → safe patience n any (ev_string ev e).
Proof. intros He. unfold ev_string. ssteps. Qed.
Lemma safe_ev_truth e : Wf_expr e → safe patience n any (ev_truth ev e).
Proof. intros He. unfold ev_truth. ssteps. Qed.
#[local] Hint Resolve safe_ev_number safe_ev_port safe_ev_string safe_ev_truth : safe.

Lemma safe_ev_all l : forallb wf_expr l = true → safe patience n any (ev_all ev l).
Proof.
  induction l as [|e l IH]; simpl; intros Hl; [ssteps|]. apply andb_true_iff in Hl as [He Hl]. specialize (IH Hl). ssteps.
Qed.

Lemma safe_ev_arg args i : forallb wf_expr args = true → safe patience n any (ev_arg ev args i).
Proof.
  intros Hl. unfold ev_arg. destruct (args !! i) as [e|] eqn:E.
  - apply Hev. rewrite forallb_forall in Hl. apply Hl. by apply list_elem_of_In, list_elem_of_lookup_2 with i.
  - eapply safe_bind; [by apply safe_tick|intros _ _]. ssteps.
Qed.
#[local] Hint Resolve safe_ev_all safe_ev_arg : safe.
Lemma safe_arg_number args i : forallb wf_expr args = true → safe patience n any (arg_number ev args i).
Proof. intros Hl. unfold arg_number. ssteps. Qed.
Lemma safe_arg_port args i : forallb wf_expr args = true → safe patience n any (arg_port ev args i).
Proof. intros Hl. unfold arg_port. ssteps. Qed.
#[local] Hint Resolve safe_arg_number safe_arg_port : safe.

(** *** Sub-machines *)

Lemma sorted_new w c : sorted_vm (new_vm w c).
Proof. split; constructor. Qed.

(** The parent takes over the count and the context of a sub-machine. *)
Lemma step_adopt s0 sub s :
  sorted_vm s0 → witness s0 = witness s → txCtx s0 = txCtx s → instructionCount s0 = instructionCount s →
  sorted_vm s → step s0 sub →
  ∀ s', instructionCount s' = instructionCount sub → witness s' = witness s → txCtx s' = txCtx sub →
        funcs s' = funcs s → mastBlock s' = mastBlock s → step s s'.
Proof.
  intros _ W X C Hs (C' & _ & X' & _) s' E1 E2 E3 E4 E5. split; [lia|]. split; [done|].
  split; [by rewrite E3, <- X|]. unfold sorted_vm. by rewrite E4, E5.
Qed.

Lemma safe_subscript script : safe patience n any (executeSubScript ex script).
Proof.
  intros s Hs. unfold executeSubScript. pose proof (parseScript_spec script []) as Hp.
  destruct (parseScript script []) as [ast|[e|]]; [| |done].
  2: { apply (safe_raise n any); [by destruct e|done]. }
  set (s0 := set_funcs (funcs s) _).
  assert (ready n s0) as Hs0.
  { destruct Hs as ((Hf & Hm) & L). split; [|done]. split; [done|constructor]. }
  assert (safe patience n any (catch_return (_ ← ex ast; mret false) (λ v, kiss (isTruthy v)))) as Hsafe.
  { apply safe_catch; [ssteps|intros v; ssteps]. }
  destruct (Hsafe s0 Hs0) as (H1 & H2 & _).
  destruct (catch_return _ _ s0) as [[b|e] sub]; simpl in *.
  - split; [|split; [done|done]]. apply (step_adopt s0 sub s); try done; apply Hs0 || apply Hs.
  - split; [|split; [|done]]. { apply (step_adopt s0 sub s); try done; apply Hs0 || apply Hs. }
    exact H2.
Qed.

Lemma safe_inline body : Wf_block body → safe patience n any (execInlineBody ex body).
Proof.
  intros Hb. unfold execInlineBody. ssteps. apply safe_catch; [ssteps|intros v; ssteps].
Qed.

(** The arguments are bound without a loop over ports. *)
Definition brief {A} (m : K A) : Prop := ∀ s, match (m s).1 with Err (Endless _ _) => False | _ => True end.
Lemma brief_bind {A B} (m : K A) (f : A → K B) : brief m → (∀ a, brief (f a)) → brief (m ≫= f).
Proof.
  intros Hm Hf s. specialize (Hm s). unfold mbind, M_bind. destruct (m s) as [[a|e] s']; [apply Hf|]. by destruct e.
Qed.
Lemma brief_preamble names values fs :
  brief (_ ← pushCallFrame; _ ← set_arguments names values; mmodify (set_funcs fs)).
Proof.
  apply brief_bind; [|intros _; apply brief_bind; [|done]].
  - intros s. unfold pushCallFrame, enter, mthrow_if, mlift, throw_if, mmodify, mget, mbind, M_bind. simpl. by destruct (_ >? _).
  - unfold set_arguments. induction (combine _ _) as [|a l IH]; [done|]. by apply brief_bind.
Qed.
Lemma safe_arguments names values : safe patience n any (set_arguments names values).
Proof. apply safe_for. intros a _. apply safe_set. Qed.
#[local] Hint Resolve safe_subscript safe_inline safe_arguments : safe.

Lemma harmless_funcs (fs : list (string * UserFunction)) :
  Forall (λ kv, Wf_block (fbody kv.2)) fs → harmless (set_funcs fs).
Proof.
  intros Hf s (_ & Hm). split; [done|]. split; [simpl; lia|]. split; [done|].
  split; [apply same_ctx_refl|by split].
Qed.

Lemma safe_call {A} fn args (fall : A) ret :
  Wf_block (fbody fn) → forallb wf_expr args = true → (∀ v, safe patience n any (ret v)) →
  safe patience n any (call_user ev ex fn args fall ret).
Proof.
  intros Hf Ha Hr. unfold call_user. ssteps. apply safe_catch; [ssteps|exact Hr].
Qed.

Lemma map_get_Forall {A} (P : string * A → Prop) k v m : Forall P m → map_get k m = Some v → P (k, v).
Proof. intros Hm E. apply map_get_elem in E. by eapply Forall_forall in Hm. Qed.

Lemma safe_user_function name args : safe patience n (λ fn, Wf_block (fbody fn)) (user_function name args).
Proof.
  unfold user_function. apply safe_get. intros s ((Hf & _) & _).
  destruct (map_get name (funcs s)) as [fn|] eqn:E; [|by apply safe_raise].
  apply (map_get_Forall _ _ _ _ Hf) in E. eapply (safe_bind n any); [by apply safe_throw_if|]. intros _ _. by apply safe_ret.
Qed.

Lemma safe_body ast : Wf_block ast → safe patience n any (function_body ev ex ast).
Proof.
  intros Ha. apply safe_catch; [|intros v; ssteps]. eapply safe_bind; [by apply Hex|intros _ _].
  destruct (last ast) as [node|] eqn:E; [|ssteps].
  apply last_Some_elem_of, list_elem_of_In in E. rewrite forallb_forall in Ha. specialize (Ha _ E).
  destruct node; ssteps.
Qed.

Lemma safe_run_function scriptlet args : safe patience n any (run_function ev ex scriptlet args).
Proof.
  intros s Hs. unfold run_function. set (names := map arg_name _).
  pose proof (parseScript_spec (name_arguments (String.length scriptlet) scriptlet) names) as Hp.
  destruct (parseScript _ names) as [ast|[e|]]; [|by apply (safe_raise n any); [destruct e|]|done].
  set (s0 := adoptLimitsFrom s _).
  assert (ready n s0) as Hs0 by (destruct Hs as (_ & L); split; [split; constructor|exact L]).
  assert (safe patience n any (_ ← pushCallFrame; _ ← set_arguments names args; mmodify (set_funcs (funcs s)))) as Hpre.
  { ssteps. apply safe_modify, harmless_funcs, Hs. }
  destruct (Hpre s0 Hs0) as (P1 & P2 & _). pose proof (brief_preamble names args (funcs s) s0) as Pb.
  destruct ((_ ← pushCallFrame; _ ← set_arguments names args; mmodify (set_funcs (funcs s))) s0) as [[u|e] s1].
  2: { apply (safe_raise n any); [|done]. simpl in P2, Pb. by destruct e as [[?|[?|?]|?|?]| | |]. }
  simpl in P1, P2. assert (ready n s1) as Hs1 by (by eapply ready_step).
  assert (safe patience n any (finally (function_body ev ex ast) popCallFrame)) as Hrun by (ssteps; by apply safe_body).
  destruct (Hrun s1 Hs1) as (H1 & H2 & _). destruct (finally _ _ s1) as [r sub]. simpl in H1, H2.
  pose proof (step_trans _ _ _ P1 H1) as Hst.
  split; [|split; [exact H2|done]].
  apply (step_adopt s0 sub s); try done; apply Hs0 || apply Hs.
Qed.
#[local] Hint Resolve safe_user_function safe_run_function : safe.

(** *** Opcodes *)

#[local] Hint Resolve plain_bytes plain_state plain_bitnot plain_builtin plain_output plain_getout plain_sigdig
  plain_len plain_size plain_bitget plain_bitset plain_negate plain_of_number : plain.
#[local] Hint Extern 1 (plain (isEqual _ _)) => apply plain_compare : plain.
#[local] Hint Extern 1 (plain (isLess _ _)) => apply plain_compare : plain.
#[local] Hint Extern 1 (plain (isLessEqual _ _)) => apply plain_compare : plain.
#[local] Hint Extern 1 (plain (isMore _ _)) => apply plain_compare : plain.
#[local] Hint Extern 1 (plain (isMoreEqual _ _)) => apply plain_compare : plain.
#[local] Hint Extern 1 (plain (add _ _)) => apply plain_arith : plain.
#[local] Hint Extern 1 (plain (sub _ _)) => apply plain_arith : plain.

Lemma safe_pick better args :
  (∀ a b, plain (better a b)) → forallb wf_expr args = true → safe patience n any (pick ev better args).
Proof. intros Hb Ha. unfold pick. ssteps. Qed.

Lemma wf_tail (l : list ASTNode) : forallb wf_expr l = true → forallb wf_expr (tail l) = true.
Proof. destruct l; simpl; [done|]. by intros [_ ?]%andb_true_iff. Qed.

Lemma safe_builtin_function name args m :
  forallb wf_expr args = true → resolveBuiltinFunction ev ex name args = Some m → safe patience n any m.
Proof.
  intros Ha. pose proof (wf_tail _ Ha) as Ht. unfold resolveBuiltinFunction.
  repeat (destruct (String.eqb _ _); [intros [= <-]|]); [..|done].
  all: ssteps.
  all: apply safe_pick; [intros; apply plain_compare|done].
Qed.

Lemma safe_signers keys t c : forallb wf_expr keys = true → safe patience n any (count_signers ev keys t c).
Proof.
  revert c. induction keys as [|k keys IH]; intros c Hk; simpl; [ssteps|].
  apply andb_true_iff in Hk as [Hk Hks]. ssteps.
Qed.
Lemma safe_multisig t keys : Wf_expr t → forallb wf_expr keys = true → safe patience n any (multisig ev t keys).
Proof. intros Ht Hk. unfold multisig. pose proof (safe_signers keys) as Hs. ssteps. Qed.

Lemma safe_checksig args : forallb wf_expr args = true → safe patience n any (evalChecksig ev args).
Proof.
  intros Ha. unfold evalChecksig. eapply safe_bind; [by apply safe_tick|intros _ _]. apply safe_get. intros s _.
  destruct (txDigest (txCtx s)); [|ssteps]. destruct args as [|a args]; [ssteps|].
  simpl in Ha. apply andb_true_iff in Ha as [Ha _]. ssteps. apply safe_guarded. intros ok. ssteps.
Qed.

Lemma safe_mast root : safe patience n any (evalMastExpr ex root).
Proof. unfold evalMastExpr. ssteps. Qed.

Lemma select_branch_sorted w legacy defined v norm body :
  Forall (λ kv, Wf_block kv.2) defined → select_branch w legacy defined = Some (v, norm, body) → Wf_block body.
Proof.
  induction 1 as [|[hash b] defined Hb _ IH]; simpl; [done|].
  destruct (branch_revealed _ _); [by intros [= _ _ <-]|].
  destruct (branch_named _ _); [by intros [= _ _ <-]|exact IH].
Qed.
Lemma safe_mast_block : safe patience n any (execMastBlockVm ex).
Proof.
  unfold execMastBlockVm. apply safe_get. intros s ((_ & Hm) & _).
  destruct (mastBlock s) as [|b bs] eqn:Eb; [ssteps|]. rewrite <- Eb in *.
  destruct (select_branch _ _ _) as [[[v norm] body]|] eqn:E; [|ssteps].
  apply select_branch_sorted in E; [|done]. ssteps.
Qed.
#[local] Hint Resolve safe_multisig safe_checksig safe_mast safe_mast_block : safe.

Lemma safe_binary op a b : is_operator op = true → Wf_expr a → Wf_expr b → safe patience n any (evalBinary ev op a b).
Proof.
  intros Hop Ha Hb. unfold evalBinary. destruct op; try (by vm_compute in Hop); ssteps.
  all: by apply plain_binary.
Qed.

Lemma safe_unary op e : is_unary op = true → Wf_expr e → safe patience n any (evalUnary ev op e).
Proof.
  intros Hop He. unfold evalUnary, is_unary, mem_string in *. simpl in Hop.
  destruct (String.eqb op "NOT"); [ssteps|]. destruct (String.eqb op "NEG"); [ssteps|].
  destruct (String.eqb op "BITNOT"); [ssteps|done].
Qed.

Lemma safe_read_port ports e : Wf_expr e → safe patience n any (read_port ev ports e).
Proof. intros He. unfold read_port. ssteps. Qed.
Lemma safe_out_index v : safe patience n any (out_index v).
Proof. unfold out_index. ssteps. Qed.
#[local] Hint Resolve safe_binary safe_unary safe_read_port safe_out_index : safe.
Lemma safe_verifyout i a m t k :
  Wf_expr i → Wf_expr a → Wf_expr m → Wf_expr t → Wf_expr k → safe patience n any (verifyout ev i a m t k).
Proof. intros. unfold verifyout. ssteps. Qed.
Lemma safe_proof_node d l r s p :
  Wf_expr d → Wf_expr l → Wf_expr r → Wf_expr s → Wf_expr p → safe patience n any (eval_proof_node ev d l r s p).
Proof. intros. unfold eval_proof_node. ssteps. Qed.
#[local] Hint Resolve safe_verifyout safe_proof_node : safe.

Lemma safe_call_expr name args :
  forallb wf_expr args = true →
  safe patience n any (match resolveBuiltinFunction ev ex name args with
              | Some m => m
              | None => fn ← user_function name args; callUserFuncExpr ev ex fn args
              end).
Proof.
  intros Ha. destruct (resolveBuiltinFunction _ _ name args) as [m|] eqn:E; [by eapply safe_builtin_function|].
  eapply safe_bind; [apply safe_user_function|intros fn Hf]. apply safe_call; [done|done|]. intros v. by apply safe_ret.
Qed.
Lemma safe_call_stmt name args :
  forallb wf_expr args = true →
  safe patience n any (match resolveBuiltinFunction ev ex name args with
              | Some m => _ ← m; mret tt
              | None => fn ← user_function name args; callUserFunc ev ex fn args
              end).
Proof.
  intros Ha. destruct (resolveBuiltinFunction _ _ name args) as [m|] eqn:E.
  - eapply safe_bind; [by eapply safe_builtin_function|]. intros _ _. by apply safe_ret.
  - eapply safe_bind; [apply safe_user_function|intros fn Hf]. apply safe_call; [done|done|]. intros v. by apply safe_ret.
Qed.

Lemma safe_eval_node e : Wf_expr e → safe patience (S n) any (eval_node patience ev ex e).
Proof.
  intros He. unfold eval_node. apply safe_tick_bind; [lia|].
  destruct e; simpl in He; try done; rewrite ?andb_true_iff in He.
  all: destruct_and?.
  all: lazymatch goal with
       | |- safe _ _ _ match resolveBuiltinFunction _ _ _ _ with _ => _ end => by apply safe_call_expr
       | _ => ssteps
       end.
Qed.

(** *** Statements *)

Lemma safe_scoped {A} (Q : A → Prop) m : safe patience n Q m → safe patience n Q (scoped m).
Proof. intros Hm. unfold scoped. eapply safe_bind; [apply safe_enter|intros _ _]. by apply safe_finally; [apply quiet_leave|]. Qed.

Definition wf_branches (bs : list (ASTNode * list ASTNode)) : bool :=
  forallb (λ b : ASTNode * list ASTNode, wf_expr b.1 && forallb wf_stmt b.2) bs.

Lemma safe_elseif bs o :
  wf_branches bs = true → wf_option (forallb wf_stmt) o = true → safe patience n any (exec_elseif ev ex bs o).
Proof.
  intros Hb Ho. induction bs as [|[c body] bs IH]; simpl in *; [destruct o; ssteps|].
  apply andb_true_iff in Hb as [[Hc Hbody]%andb_true_iff Hb]. specialize (IH Hb). ssteps.
Qed.
Lemma safe_cases sv cs o :
  wf_branches cs = true → wf_option (forallb wf_stmt) o = true → safe patience n any (exec_cases ev ex sv cs o).
Proof.
  intros Hb Ho. induction cs as [|[c body] cs IH]; simpl in *; [destruct o; ssteps; by apply safe_scoped, Hex|].
  apply andb_true_iff in Hb as [[Hc Hbody]%andb_true_iff Hb]. specialize (IH Hb).
  ssteps. by apply safe_scoped, Hex.
Qed.

(** A loop with [k] turns left: each ticks. *)
Lemma safe_while c body k :
  Wf_expr c → Wf_block body → (k <= n)%nat → safe patience k any (while_loop ev ex k c body).
Proof.
  intros Hc Hb. induction k as [|k IH]; intros Hk; [intros s (_ & L); lia|]. simpl.
  eapply safe_bind; [apply (safe_mono _ n); [done|by apply safe_ev_truth]|]. intros [] _; [|ssteps].
  apply safe_tick_bind; [lia|]. eapply safe_bind.
  { apply (safe_mono _ n); [lia|]. by apply safe_scoped, Hex. }
  intros _ _. apply IH. lia.
Qed.

Lemma safe_loop_rest name v body : Wf_block body →
  safe patience n any (_ ← pushBlockScope; _ ← set name v; finally (ex body) popBlockScope).
Proof.
  intros Hb. eapply safe_bind; [apply safe_enter|intros _ _]. eapply safe_bind; [apply safe_set|intros _ _].
  apply safe_finally; [apply quiet_leave|by apply Hex].
Qed.
Lemma safe_loop_body name v body : Wf_block body → safe patience n any (loop_body ex name v body).
Proof.
  intros Hb. unfold loop_body. eapply safe_bind; [by apply safe_tick|intros _ _]. by apply safe_loop_rest.
Qed.

Lemma safe_for_loop name i to by_ up body k :
  Wf_block body → (k <= n)%nat → safe patience k any (for_loop ex k name i to by_ up body).
Proof.
  intros Hb. revert i. induction k as [|k IH]; intros i Hk; [intros s (_ & L); lia|]. simpl.
  eapply safe_bind; [apply safe_kiss; destruct up; apply plain_compare|]. intros [] _; [|ssteps].
  unfold loop_body. apply safe_assoc, safe_tick_bind; [lia|]. eapply safe_bind.
  { apply (safe_mono _ n); [lia|]. by apply safe_loop_rest. }
  intros _ _. eapply safe_bind; [apply safe_kiss, plain_arith|intros j _]. apply IH. lia.
Qed.
Lemma safe_exec_for name a b o body :
  Wf_expr a → Wf_expr b → wf_option wf_expr o = true → Wf_block body →
  safe patience n any (exec_for ev ex n name a b o body).
Proof.
  intros Ha Hb Ho Hbody. unfold exec_for.
  do 2 (eapply safe_bind; [by apply safe_ev_number|intros ? _]).
  eapply (safe_bind n any); [destruct o; ssteps|intros ? _].
  ssteps. by apply safe_for_loop.
Qed.

Lemma harmless_func name (f : VMState → UserFunction) :
  (∀ s, Wf_block (fbody (f s))) → harmless (λ s, set_funcs (map_set name (f s) (funcs s)) s).
Proof.
  intros Hf s (Hs & Hm). split; [done|]. split; [simpl; lia|]. split; [done|]. split; [apply same_ctx_refl|].
  split; [|done]. specialize (Hf s). simpl. generalize dependent (f s). intros g Hg. clear Hm.
  induction Hs as [|[k v] l Hv Hl IH]; simpl; [by repeat constructor|].
  destruct (String.eqb k name); constructor; done.
Qed.
Lemma harmless_mast bs : forallb (λ b : string * list ASTNode, forallb wf_stmt b.2) bs = true → harmless (set_mast bs).
Proof.
  intros Hb s (Hf & _). split; [done|]. split; [simpl; lia|]. split; [done|]. split; [apply same_ctx_refl|].
  split; [done|]. apply Forall_forall. intros b Hin%list_elem_of_In. by apply (proj1 (forallb_forall _ _) Hb).
Qed.
Lemma safe_store port v : safe patience n any (store_state port v).
Proof.
  apply safe_modify. intros s Hs. split; [done|]. split; [simpl; lia|]. split; [done|].
  split; [|done]. by eexists.
Qed.

Lemma safe_exec_node e : wf_stmt e = true → safe patience (S n) any (exec_node ev ex n e).
Proof.
  intros He. unfold exec_node. apply safe_tick_bind; [lia|].
  destruct e; simpl in He; try done; rewrite ?andb_true_iff in He.
  all: destruct_and?.
  all: lazymatch goal with
       | |- safe _ _ _ match resolveBuiltinFunction _ _ _ _ with _ => _ end => by apply safe_call_stmt
       | _ => idtac
       end.
  all: ssteps.
  - apply safe_store.
  - apply safe_scoped. pose proof (λ bs o, safe_elseif bs o) as Hs. ssteps.
  - by apply safe_while.
  - by apply safe_exec_for.
  - apply safe_for. intros a' _. by apply safe_loop_body.
  - by apply safe_cases.
  - eapply safe_bind; [by apply safe_modify, harmless_func|intros _ _]. ssteps.
  - eapply safe_bind; [by apply safe_modify, harmless_mast|intros _ _]. ssteps.
Qed.

End Nodes.

(** ** The evaluator *)

Section Evaluator.
Context `{Platform} (patience : nat).

Lemma run_safe fuel :
  (∀ e, Wf_expr e → safe patience fuel any (evalExpr patience fuel e)) ∧
  (∀ e, wf_stmt e = true → safe patience fuel any (execStatement patience fuel e)).
Proof.
  induction fuel as [|fuel [IHe IHs]]; [split; intros e _ s (_ & L); lia|].
  assert (∀ l, Wf_block l → safe patience fuel any (mfor (execStatement patience fuel) l)) as Hex.
  { intros l Hl. apply safe_for. intros e He%list_elem_of_In. apply IHs. by apply (proj1 (forallb_forall _ _) Hl). }
  split; intros e He; [by apply safe_eval_node|by apply safe_exec_node].
Qed.
Lemma statements_safe fuel l : Wf_block l → safe patience fuel any (execStatements patience fuel l).
Proof.
  intros Hl. apply safe_for. intros e He%list_elem_of_In. apply run_safe. by apply (proj1 (forallb_forall _ _) Hl).
Qed.

Lemma new_ready n w ctx : MAX_INSTRUCTIONS < Z.of_nat n → ready n (new_vm w ctx).
Proof. intros L. split; [split; constructor|]. unfold MAX_INSTRUCTIONS in *. simpl. lia. Qed.

Lemma parse_safe n source : safe patience n (λ ast, Wf_block ast) (kparse (parseScript source [])).
Proof.
  pose proof (parseScript_spec source []) as Hp. unfold kparse.
  destruct (parseScript source []) as [ast|[e|]]; [by apply safe_ret| |done].
  apply safe_raise. by destruct e.
Qed.
End Evaluator.

(** What [evaluateScript] may return, with the context it leaves: a result within the
    limit, an exception, or a SAMESTATE that outlasts the patience. *)
Definition outcome_ok (patience : nat) (run : result Signal EvalResult * TxContext) : Prop :=
  match run.1 with
  | Ok res => 0 <= instructionsUsed res <= MAX_INSTRUCTIONS ∧ success res = passed res
  | Err (Throw _) => True
  | Err (Endless p to) => unfinished patience run.2 p to
  | Err (ReturnSignal _) | Err NoFuel => False
  end.


(** C18. A script that parses never reaches a default branch of the evaluator's
    dispatch: every statement it executes is a statement, every expression an
    expression, every operator one the evaluator knows, in functions, MAST branches
    and sub-scripts too. *)
Theorem parsed_scripts_never_get_stuck `{Platform} patience fuel source declared ast w ctx :
  parseScript source declared = Ok ast → MAX_INSTRUCTIONS < Z.of_nat fuel →
  ∀ m, (execStatements patience fuel ast (new_vm w ctx)).1 ≠ Err (Throw (KissvmRuntimeError (Stuck m))).
Proof.
  intros Hp Hf m E. pose proof (parseScript_spec source declared) as Hs. rewrite Hp in Hs.
  destruct (statements_safe patience fuel ast Hs _ (new_ready fuel w ctx Hf)) as (_ & L & _). by rewrite E in L.
Qed.

(** ** Examples *)

(** A platform whose keys sign what equals them. *)
#[local] Instance toy : Platform := {|
  sha3_256 s := dec (Mm.from_bytes 7 s mod 1000003); sha256 s := s; TreeSignature := unit;
  proof_count _ := None; wotsVerifyDigest sig _ key := Ok (String.eqb sig key);
  verifyTreeSignature _ _ _ := Ok false |}.
Definition toy_witness : ScriptWitness := mkWitness [("ab", Flat (String (byte 171) ""))]%string [].
Definition toy_ctx : TxContext :=
  mkCtx (of_Z 10) None (of_Z 0) [] [] [("1", "5")]%string [("1", "5")]%string (Some "d"%string) [] false None false.
Definition toy_script : string :=
  "LET a = 1 WHILE a LT 4 DO LET a = a + 1 ENDWHILE FUNC f(x) RETURN x * 2 ENDFUNC STORE STATE(2) WITH f(a) RETURN STATE(2) EQ 8 AND MULTISIG(1 0xab 0xcd)".

(** The context's own object carries the stored port back to the caller. *)
Definition toy_run : result Signal EvalResult * TxContext := evaluateScript 0 1025 toy_script toy_witness toy_ctx.

Lemma parsed_scripts_never_get_stuck_witness :
  match parseScript toy_script [] with
  | Ok ast => ∀ m, (execStatements 0 1025 ast (new_vm toy_witness toy_ctx)).1 ≠ Err (Throw (KissvmRuntimeError (Stuck m)))
  | Err _ => False
  end.
Proof.
  pose proof (parsed_scripts_never_get_stuck 0 1025 toy_script []) as Hs.
  destruct (parseScript toy_script []) as [ast|e] eqn:E; [by apply Hs|by vm_compute in E].
Defined.

End EvSpec.
