(* ===== verification/OpcodeSpec.v ===== *)
(** * What the KISSVM opcodes decide

    Signatures, MAST and state comparison: MULTISIG counts the keys that signed,
    MAST runs only scripts proved under its root, SAMESTATE compares the ports of
    its range, which its loop never leaves when the range reaches 2^53. *)

From Stdlib Require Import ZArith Lia QArith Ascii String.
From stdpp Require Import base list strings.
From S2P Require Import Prelude JsBase NumSpec MiniNumber Lexer Parser NodeScript Mmr Vm Eval EvalSpec.

Module OpSpec.
Import Js JsNum Mn Lx Ps Vm Ev.

Section Opcodes.
Context `{Platform}.
Notation count := instructionCount.

(** ** SIGNEDBY and MULTISIG *)

(** The witness holds a signature for the key that verifies over the digest; without
    a digest, in simulation, one that is there. *)
Definition signed (s : VMState) (pk : string) : bool :=
  match map_get (normalizeHex pk) (signatures (witness s)) with
  | None => false
  | Some sig =>
      match txDigest (txCtx s) with
      | Some digest =>
          match (key ← Mm.hexToBytes (normalizeHex pk); verifyWitnessSignature sig digest key) with
          | Ok b => b | Err _ => false
          end
      | None => simulationMode (txCtx s)
      end
  end.

Definition traced (lines : list (list Glyph)) (s : VMState) : VMState := set_trace (trace s ++ lines) s.

Lemma signedby_run pk s : ∃ line, verifySignedBy pk s = (Ok (signed s pk), traced [line] s).
Proof.
  unfold verifySignedBy, signed, guarded, addTrace, mmodify, mget, mbind, M_bind, mret, M_ret. simpl.
  destruct (map_get _ _) as [sig|]; [|by eexists]. destruct (txDigest _) as [digest|].
  - destruct (result_bind _ _ _ _) as [b|e]; by eexists.
  - destruct (simulationMode _); by eexists.
Qed.

Lemma signed_same s s' : witness s' = witness s → txCtx s' = txCtx s → signed s' = signed s.
Proof. unfold signed. by intros -> ->. Qed.

Lemma literal_run patience fuel v s :
  count s < MAX_INSTRUCTIONS →
  evalExpr patience (S fuel) (LiteralNode (SValue v)) s = (Ok v, set_count (count s + 1) s).
Proof.
  intros L. simpl. unfold eval_node, tick, mthrow_if, mlift, throw_if, mmodify, mget, mbind, M_bind, mret, M_ret. simpl.
  by replace (count s + 1 >? MAX_INSTRUCTIONS) with false by lia.
Qed.

Definition signers (s : VMState) (ks : list string) : Z := Z.of_nat (length (List.filter (signed s) ks)).

Lemma count_signers_run patience fuel t ks : ∀ c s,
  c < t → count s + Z.of_nat (length ks) <= MAX_INSTRUCTIONS →
  ∃ s', count_signers (evalExpr patience (S fuel)) (map (λ k, LiteralNode (SValue (VStr k))) ks) (of_Z t) c s
        = (Ok (t <=? c + signers s ks), s').
Proof.
  induction ks as [|k ks IH]; intros c s Hc L; cbn [map count_signers].
  - exists s. unfold mret, M_ret. rewrite num_le_Z. unfold signers. simpl. by rewrite Z.add_0_r.
  - unfold ev_string. unfold mbind at 1, M_bind at 1. unfold fmap, M_fmap. unfold mbind at 1, M_bind at 1.
    rewrite literal_run by (simpl length in L; lia). unfold mret at 1, M_ret at 1.
    unfold mbind at 1, M_bind at 1. set (s1 := set_count _ s).
    destruct (signedby_run (string_of (VStr k)) s1) as [line ->].
    assert (signed s1 = signed s) as E1 by by apply signed_same. rewrite E1.
    set (s2 := traced [line] s1). assert (signed s2 = signed s) as E2 by by apply signed_same.
    assert (signers s (k :: ks) = (if signed s k then 1 else 0) + signers s2 ks) as Es.
    { unfold signers. rewrite E2. simpl. destruct (signed s k); simpl; lia. }
    assert (0 <= signers s2 ks) as Hpos by (unfold signers; lia).
    simpl (string_of _). set (c' := if signed s k then c + 1 else c).
    assert (c' + signers s2 ks = c + signers s (k :: ks)) as <- by (rewrite Es; unfold c'; destruct (signed s k); lia).
    rewrite num_le_Z. destruct (t <=? c') eqn:Et.
    + exists s2. unfold mret, M_ret. by replace (t <=? c' + signers s2 ks) with true by lia.
    + apply (IH c' s2); [lia|]. simpl length in L. unfold s2, s1. simpl. lia.
Qed.

(** C24. MULTISIG over literal keys passes exactly when the threshold is positive and
    that many of the keys, counted as often as they are listed, have a verifying
    signature in the witness; it fails no other way while instructions last. *)
Theorem multisig_counts_signers patience fuel v t ks s :
  asPortInt v = Ok (of_Z t) → count s + 2 + Z.of_nat (length ks) <= MAX_INSTRUCTIONS →
  ∃ s', evalExpr patience (S (S fuel))
          (MultisigNode (LiteralNode (SValue v)) (map (λ k, LiteralNode (SValue (VStr k))) ks)) s
        = (Ok (VBool ((0 <? t) && (t <=? signers s ks))), s').
Proof.
  intros Ht L. remember (S fuel) as f eqn:Ef. simpl evalExpr. unfold eval_node.
  unfold tick, mthrow_if, mlift, throw_if, mmodify, mget. unfold mbind at 1, M_bind at 1.
  unfold mbind at 1, M_bind at 1. unfold mbind at 1, M_bind at 1. cbn [instructionCount set_count].
  replace (count s + 1 >? MAX_INSTRUCTIONS) with false by lia.
  set (s1 := set_count (count s + 1) s). unfold fmap, M_fmap. unfold mbind at 1, M_bind at 1.
  unfold multisig. unfold mbind at 1, M_bind at 1. unfold ev_port. unfold mbind at 1, M_bind at 1.
  subst f. rewrite literal_run by (simpl; lia). unfold kiss. rewrite Ht. cbn [fst snd].
  set (s2 := set_count (count s1 + 1) s1). rewrite num_le_Z.
  assert (signers s2 ks = signers s ks) as Es by (unfold signers; by rewrite (signed_same s s2)).
  destruct (t <=? 0) eqn:E0.
  - exists s2. unfold mret, M_ret. by replace (0 <? t) with false by lia.
  - destruct (count_signers_run patience fuel t ks 0 s2) as [s3 E3]; [lia|simpl; lia|].
    exists s3. rewrite E3. unfold mret, M_ret. rewrite Es. by replace (0 <? t) with true by lia.
Qed.

(** ** MAST *)

(** The root a script proof leads to from the leaf of its script. *)
Definition proof_root (sp : ScriptProof) : result string string :=
  bytes ← Mm.hexToBytes (strip_0x (proofHex sp));
  Mm.calculateProofRoot sha3_256 (Mm.mkData (Mm.mmrLeafExact sha3_256 (sp_script sp)) 0)
    (Mm.pp_proof (Mm.parseMMRProofFromHex bytes)).
Definition proven (root : string) (sp : ScriptProof) : bool :=
  match proof_root sp with Ok r => String.eqb (quoted_root r) root | Err _ => false end.

Lemma traced_nil s : traced [] s = s.
Proof. unfold traced, set_trace. rewrite app_nil_r. by destruct s. Qed.
Lemma traced_app a b s : traced b (traced a s) = traced (a ++ b) s.
Proof. unfold traced, set_trace. simpl. by rewrite app_assoc. Qed.

Lemma verify_run sp root s : ∃ lines, verifyScriptProof sp root s = (Ok (proven root sp), traced lines s).
Proof.
  unfold verifyScriptProof, proven, proof_root, guarded, addTrace, mmodify, mbind, M_bind, mret, M_ret.
  change (if is_0x (proofHex sp) then drop_str 2 (proofHex sp) else proofHex sp) with (strip_0x (proofHex sp)).
  destruct (Mm.hexToBytes _) as [bytes|e]; simpl; [|by eexists].
  assert (∀ b r, ∃ lines, (if String.eqb (quoted_root r) root then (λ s, (Ok true, s)) : M VMState Signal bool else
            λ s, (Ok false, traced [[Text ((if b : bool then "MAST: empty-proof ScriptProof root mismatch for "
              else "MAST: ScriptProof root mismatch for ") +:+ take_str 20 (sp_script sp)); Ellipsis]] s)) s
            = (Ok (String.eqb (quoted_root r) root), traced lines s)) as Hend.
  { intros b r. destruct (String.eqb _ _); [exists []; by rewrite traced_nil|by eexists]. }
  destruct (String.eqb_spec bytes "") as [->|_]; [apply (Hend true)|].
  destruct (Mm.calculateProofRoot _ _ _) as [r|e]; simpl; [apply (Hend false)|by eexists].
Qed.

Lemma find_run root proofs : ∀ s,
  ∃ lines, find_verified proofs root s = (Ok (List.find (proven root) proofs), traced lines s).
Proof.
  induction proofs as [|sp proofs IH]; intros s; simpl.
  - exists []. by rewrite traced_nil.
  - destruct (verify_run sp root s) as [lines E]. unfold mbind, M_bind. rewrite E.
    destruct (proven root sp); [by eexists|]. destruct (IH (traced lines s)) as [lines' ->].
    eexists. by rewrite traced_app.
Qed.

(** Without the legacy branches, MAST runs the first script of the witness whose
    proof leads from the script's leaf to the requested root, and nothing else:
    with no such script it throws. *)
Theorem mast_runs_the_first_proven_script ex root s :
  allowLegacyMastBranches (txCtx s) = false →
  ∃ lines m,
    evalMastExpr ex root s
    = match List.find (proven (normalizeHex root)) (scriptProofs (witness s)) with
      | Some sp => executeSubScript ex (sp_script sp) (traced lines s)
      | None => (Err (Throw (KissvmRuntimeError (Message m))), traced lines s)
      end.
Proof.
  intros Hl. unfold evalMastExpr, legacy_branches. unfold mbind at 1, M_bind at 1. unfold mget. rewrite Hl.
  destruct (scriptProofs (witness s)) as [|sp proofs] eqn:Ep.
  - simpl. eexists [], _. by rewrite traced_nil.
  - destruct (find_run (normalizeHex root) (sp :: proofs) s) as [lines E].
    unfold mbind at 1, M_bind at 1. rewrite E.
    destruct (List.find _ _) as [sp'|]; [|by eexists _, _].
    eexists (lines ++ [_]), ""%string. rewrite <- traced_app. reflexivity.
Qed.

(** ** SAMESTATE *)

Definition same_port (ctx : TxContext) (p : Z) : bool :=
  String.eqb (port_value (state ctx) (of_Z p)) (port_value (prevState ctx) (of_Z p)).

Lemma samestate_turn turns ctx p to s :
  p <= to →
  samestate_loop (S turns) ctx (of_Z p) (of_Z to) s
  = if same_port ctx p then samestate_loop turns ctx (num_add (of_Z p) (of_Z 1)) (of_Z to) s else (Ok false, s).
Proof.
  intros Hp. cbn [samestate_loop]. rewrite num_le_Z. replace (p <=? to) with true by lia. cbn [negb]. fold (same_port ctx p).
  by destruct (same_port ctx p).
Qed.

Lemma samestate_small turns ctx to : ∀ p s,
  to < MAX_SAFE_INTEGER → 0 <= p <= to + 1 → to - p < Z.of_nat turns →
  samestate_loop turns ctx (of_Z p) (of_Z to) s = (Ok (forallb (same_port ctx) (seqZ p (to - p + 1))), s).
Proof.
  induction turns as [|turns IH]; intros p s Hto Hp Ht.
  - cbn [samestate_loop]. rewrite num_le_Z. replace (p <=? to) with false by lia. by replace (to - p + 1) with 0 by lia.
  - destruct (decide (p = to + 1)) as [->|Hne].
    { cbn [samestate_loop]. rewrite num_le_Z. replace (to + 1 <=? to) with false by lia. by replace (to - (to + 1) + 1) with 0 by lia. }
    rewrite samestate_turn by lia. rewrite seqZ_cons by lia. cbn [forallb].
    destruct (same_port ctx p); cbn [andb]; [|done].
    rewrite num_add_Z by (unfold MAX_SAFE_INTEGER in *; lia). rewrite IH by lia.
    by replace (Z.pred (to - p + 1)) with (to - (p + 1) + 1) by lia.
Qed.

(** The successor of a port in binary64: at 2^53 the sum rounds back. *)
Lemma next_port p : 0 <= p <= 2 ^ 53 → num_add (of_Z p) (of_Z 1) = of_Z (Z.min (p + 1) (2 ^ 53)).
Proof.
  intros Hp. destruct (decide (p < MAX_SAFE_INTEGER)) as [L|L].
  - rewrite num_add_Z by (unfold MAX_SAFE_INTEGER in *; lia). f_equal. unfold MAX_SAFE_INTEGER in L. lia.
  - unfold MAX_SAFE_INTEGER in L. assert (p = 2 ^ 53 - 1 ∨ p = 2 ^ 53) as [-> | ->] by lia; by vm_compute.
Qed.

Lemma samestate_endless turns ctx to : ∀ p s,
  0 <= p <= 2 ^ 53 → 2 ^ 53 <= to → (∀ q, same_port ctx q = true) →
  samestate_loop turns ctx (of_Z p) (of_Z to) s
  = (Err (Endless (of_Z (Z.min (p + Z.of_nat turns) (2 ^ 53))) (of_Z to)), s).
Proof.
  induction turns as [|turns IH]; intros p s Hp Hto Hsame.
  - cbn [samestate_loop]. rewrite num_le_Z. replace (p <=? to) with true by lia. by replace (Z.min _ _) with p by lia.
  - rewrite samestate_turn by lia. rewrite Hsame, next_port by lia. rewrite IH by (done || lia). do 3 f_equal.
    f_equal. lia.
Qed.

(** C26. SAMESTATE compares every port of its range, and is true when they all agree;
    but its loop counts in binary64 and costs no instructions, so over a range that
    reaches 2^53, with states that agree, it never ends however long the host waits:
    the next port stays 2^53. *)
Theorem samestate_compares_its_range patience from to s :
  0 <= from <= to → from <= 2 ^ 53 →
  (to < MAX_SAFE_INTEGER → to - from < Z.of_nat patience →
   samestate patience (of_Z from) (of_Z to) s
   = (Ok (forallb (same_port (txCtx s)) (seqZ from (to - from + 1))), s))
  ∧ (2 ^ 53 <= to → (∀ q, same_port (txCtx s) q = true) →
     samestate patience (of_Z from) (of_Z to) s
     = (Err (Endless (of_Z (Z.min (from + Z.of_nat patience) (2 ^ 53))) (of_Z to)), s)).
Proof.
  intros Hf Hp. unfold samestate, mthrow_if, mlift, throw_if, mget, mbind, M_bind. rewrite num_lt_Z.
  replace (to <? from) with false by lia. split.
  - intros Hto Ht. apply samestate_small; lia.
  - intros Hto Hsame. apply samestate_endless; [lia|done|done].
Qed.

End Opcodes.

(** ** Examples *)

#[local] Existing Instance EvSpec.toy.
Definition toy_vm : VMState := new_vm EvSpec.toy_witness EvSpec.toy_ctx.

(** One of the two keys signed. *)
Lemma multisig_counts_signers_witness :
  ∃ s', evalExpr 0 2 (MultisigNode (LiteralNode (SValue (VNum ONE)))
                        (map (λ k, LiteralNode (SValue (VStr k))) ["0xAB"; "cd"]%string)) toy_vm
        = (Ok (VBool true), s').
Proof.
  exact (multisig_counts_signers 0 0 (VNum ONE) 1 ["0xAB"; "cd"]%string toy_vm eq_refl
           (ltac:(by vm_compute))).
Defined.

Definition toy_branch : string := "RETURN TRUE".
Definition toy_root : string := hex_of_bytes (Mm.mmrLeafExact sha3_256 toy_branch).
Definition toy_mast_vm : VMState :=
  new_vm (mkWitness [] [mkScriptProof "RETURN FALSE" "0x"; mkScriptProof toy_branch "0x"]) EvSpec.toy_ctx.

(** The second script of the witness is the one under the root. *)
Lemma mast_runs_the_first_proven_script_witness :
  (∃ lines m,
    evalMastExpr (execStatements 0 1025) toy_root toy_mast_vm
    = match List.find (proven (normalizeHex toy_root)) (scriptProofs (witness toy_mast_vm)) with
      | Some sp => executeSubScript (execStatements 0 1025) (sp_script sp) (traced lines toy_mast_vm)
      | None => (Err (Throw (KissvmRuntimeError (Message m))), traced lines toy_mast_vm)
      end)
  ∧ sp_script <$> List.find (proven (normalizeHex toy_root)) (scriptProofs (witness toy_mast_vm)) = Some toy_branch
  ∧ (evalMastExpr (execStatements 0 1025) toy_root toy_mast_vm).1 = Ok true.
Proof.
  split; [|split; vm_compute; reflexivity].
  exact (mast_runs_the_first_proven_script (execStatements 0 1025) toy_root toy_mast_vm eq_refl).
Defined.

Lemma samestate_compares_its_range_witness :
  samestate 3 (of_Z 0) (of_Z 2) toy_vm = (Ok true, toy_vm)
  ∧ ∀ patience, samestate patience (of_Z 0) (of_Z (2 ^ 53)) toy_vm
      = (Err (Endless (of_Z (Z.min (0 + Z.of_nat patience) (2 ^ 53))) (of_Z (2 ^ 53))), toy_vm).
Proof.
  split.
  - exact (proj1 (samestate_compares_its_range 3 0 2 toy_vm ltac:(lia) ltac:(lia)) eq_refl eq_refl).
  - intros patience.
    refine (proj2 (samestate_compares_its_range patience 0 (2 ^ 53) toy_vm ltac:(lia) ltac:(lia)) ltac:(lia) _).
    intros q. apply String.eqb_refl.
Defined.

End OpSpec.
