(* ===== verification/EltooRun.v ===== *)
(** * A run of the channel script

    The steps of the machine, as [runs]: what a statement or expression returns and what
    it leaves of the count, the variables and the depth.  With them the checks that every
    channel script begins with, [lets] and [guard] of [EltooParse], are run once, for any
    signatures and ports: [closes] and [updates] say when they let a spend through. *)

From Stdlib Require Import ZArith Lia QArith Ascii String.
From stdpp Require Import base list strings.
From S2P Require Import Prelude JsBase JsText NumSpec MiniNumber MiniNumberSpec Lexer Parser Mmr Vm Eval EvalSpec OpcodeSpec Guards Omnia Eltoo FrameSpec EltooParse.
From S2P Require NodeScript.

Module Er.
Import Js JsText JsNum Mn Lx Ps Vm Ev OpSpec Ep.

Section run.
Context `{Platform} (patience : nat) (w : ScriptWitness) (ctx : TxContext).

(** A machine that runs the script: only its count, variables, depth and trace change. *)
Definition machine (c : Z) (env : list Frame) (depth : Z) (tr : list (list Glyph)) : VMState := mkVM c [] env depth [] tr [] w ctx.

(** [m] ends from every such machine with the result and the state that [f] gives it, up to the trace. *)
Definition runs {A} (m : M VMState Signal A) (c : Z) (env : list Frame) (dp : Z) (r : result Signal A) (c' : Z) (env' : list Frame) (dp' : Z) : Prop :=
  ∀ tr, ∃ tr', m (machine c env dp tr) = (r, machine c' env' dp' tr').

Lemma runs_bind {A B} (m : M VMState Signal A) (k : A → M VMState Signal B) c env dp a c1 env1 dp1 r c2 env2 dp2 :
  runs m c env dp (Ok a) c1 env1 dp1 → runs (k a) c1 env1 dp1 r c2 env2 dp2 → runs (m ≫= k) c env dp r c2 env2 dp2.
Proof. intros H1 H2 tr. destruct (H1 tr) as [tr1 E1]. destruct (H2 tr1) as [tr2 E2]. exists tr2. unfold mbind, M_bind. by rewrite E1. Qed.
Lemma runs_fail {A B} (m : M VMState Signal A) (k : A → M VMState Signal B) c env dp e c1 env1 dp1 :
  runs m c env dp (Err e) c1 env1 dp1 → runs (m ≫= k) c env dp (Err e) c1 env1 dp1.
Proof. intros H1 tr. destruct (H1 tr) as [tr1 E1]. exists tr1. unfold mbind, M_bind. by rewrite E1. Qed.
Lemma runs_ret {A} (a : A) c env dp : runs (mret a) c env dp (Ok a) c env dp.
Proof. intros tr. by exists tr. Qed.
Lemma runs_tick c env dp : c < MAX_INSTRUCTIONS → runs (tick 1) c env dp (Ok tt) (c + 1) env dp.
Proof.
  intros L tr. exists tr. unfold tick, mthrow_if, mlift, throw_if, mmodify, mget, mbind, M_bind. cbn.
  by replace (c + 1 >? MAX_INSTRUCTIONS) with false by lia.
Qed.
Lemma runs_trace line c env dp : runs (addTrace line) c env dp (Ok tt) c env dp.
Proof. intros tr. by eexists. Qed.
Lemma runs_kiss {A} (r : Kiss A) c env dp : runs (kiss r) c env dp (match r with Ok a => Ok a | Err e => Err (Throw e) end) c env dp.
Proof. intros tr. exists tr. by destruct r. Qed.
Lemma runs_set name v c env dp : runs (set name v) c env dp (Ok tt) c (env_set name v env) dp.
Proof. intros tr. by exists tr. Qed.
Lemma runs_get {A} (k : VMState → M VMState Signal A) c env dp r c' env' dp' :
  (∀ tr, runs (k (machine c env dp tr)) c env dp r c' env' dp') → runs (s ← mget; k s) c env dp r c' env' dp'.
Proof. intros H1 tr. apply (H1 tr tr). Qed.

(** *** Expressions *)

Lemma runs_number n f c env dp : c < MAX_INSTRUCTIONS →
  runs (evalExpr patience (S f) (LiteralNode (SValue n))) c env dp (Ok n) (c + 1) env dp.
Proof. intros L tr. exists tr. by rewrite literal_run. Qed.

(** The value of a state port: empty text is zero. *)
Definition port_read (ports : list (string * string)) (p : Z) : Kiss Value :=
  let raw := port_value ports (of_Z p) in _ ← checkStringSize raw; parseStateValue raw.

Definition lift {A} (r : Kiss A) : result Signal A := match r with Ok a => Ok a | Err e => Err (Throw e) end.

Lemma runs_port f n c env dp : asPortInt (VNum (mkMini n (Some 0))) = Ok (of_Z n) → c < MAX_INSTRUCTIONS →
  runs (ev_port (evalExpr patience (S f)) (number n)) c env dp (Ok (of_Z n)) (c + 1) env dp.
Proof. intros E L. eapply runs_bind; [by apply runs_number|]. intros tr. exists tr. unfold kiss. by rewrite E. Qed.

Lemma runs_read f (ports : TxContext → list (string * string)) n c env dp :
  asPortInt (VNum (mkMini n (Some 0))) = Ok (of_Z n) → c < MAX_INSTRUCTIONS →
  runs (read_port (evalExpr patience (S f)) ports (number n)) c env dp (lift (port_read (ports ctx) n)) (c + 1) env dp.
Proof.
  intros E L. eapply runs_bind; [by apply runs_port|]. apply runs_get. intros tr. apply runs_kiss.
Qed.

Lemma eval_S f node : evalExpr patience (S f) node = eval_node patience (evalExpr patience f) (mfor (execStatement patience f)) node.
Proof. reflexivity. Qed.
Lemma exec_S f node : execStatement patience (S f) node = exec_node (evalExpr patience f) (mfor (execStatement patience f)) f node.
Proof. reflexivity. Qed.

Lemma runs_state f n c env dp : asPortInt (VNum (mkMini n (Some 0))) = Ok (of_Z n) → c + 1 < MAX_INSTRUCTIONS →
  runs (evalExpr patience (S (S f)) (StateNode (number n))) c env dp (lift (port_read (state ctx) n)) (c + 2) env dp.
Proof.
  intros E L. rewrite eval_S. eapply runs_bind; [apply runs_tick; lia|]. replace (c + 2) with (c + 1 + 1) by lia. by apply runs_read.
Qed.
Lemma runs_prev f n c env dp : asPortInt (VNum (mkMini n (Some 0))) = Ok (of_Z n) → c + 1 < MAX_INSTRUCTIONS →
  runs (evalExpr patience (S (S f)) (PrevStateNode (number n))) c env dp (lift (port_read (prevState ctx) n)) (c + 2) env dp.
Proof.
  intros E L. rewrite eval_S. eapply runs_bind; [apply runs_tick; lia|]. replace (c + 2) with (c + 1 + 1) by lia. by apply runs_read.
Qed.
Lemma runs_ident f name v c env dp : env_get name env = Some v → c < MAX_INSTRUCTIONS →
  runs (evalExpr patience (S f) (IdentNode name)) c env dp (Ok v) (c + 1) env dp.
Proof.
  intros E L. rewrite eval_S. eapply runs_bind; [by apply runs_tick|]. apply runs_get. intros tr. unfold get. cbn [machine envStack].
  rewrite E. apply runs_ret.
Qed.
Lemma runs_builtin f name c env dp : c < MAX_INSTRUCTIONS →
  runs (evalExpr patience (S f) (BuiltinVarNode name)) c env dp (lift (resolveBuiltin name ctx)) (c + 1) env dp.
Proof. intros L. rewrite eval_S. eapply runs_bind; [by apply runs_tick|]. apply runs_get. intros tr. apply runs_kiss. Qed.
(** An operator that evaluates both operands. *)
Definition strict_op (op : TokenKind) : bool := negb (kind_eqb op AND) && negb (kind_eqb op OR).
Lemma runs_binary f op l r a b c env dp c1 c2 : strict_op op = true → c < MAX_INSTRUCTIONS →
  runs (evalExpr patience f l) (c + 1) env dp (Ok a) c1 env dp → runs (evalExpr patience f r) c1 env dp (Ok b) c2 env dp →
  runs (evalExpr patience (S f) (BinaryNode op l r)) c env dp (lift (apply_binary op a b)) c2 env dp.
Proof.
  intros Ho L H1 H2. rewrite eval_S. eapply runs_bind; [by apply runs_tick|]. unfold evalBinary.
  destruct op; try done; (eapply runs_bind; [exact H1|]; eapply runs_bind; [exact H2|]; apply runs_kiss).
Qed.

(** *** Signatures *)

Definition key_signed (pk : string) : bool := signed (new_vm w ctx) pk.
Lemma runs_signedby pk c env dp : runs (verifySignedBy pk) c env dp (Ok (key_signed pk)) c env dp.
Proof.
  intros tr. destruct (signedby_run pk (machine c env dp tr)) as [line ->]. exists (tr ++ [line]).
  unfold key_signed. by rewrite (signed_same (new_vm w ctx)).
Qed.
Lemma runs_string f k c env dp : c < MAX_INSTRUCTIONS → runs (ev_string (evalExpr patience (S f)) (text k)) c env dp (Ok k) (c + 1) env dp.
Proof. intros L. eapply runs_bind; [by apply runs_number|]. apply runs_ret. Qed.

Lemma runs_multisig f ka kb c env dp : c + 3 < MAX_INSTRUCTIONS →
  runs (evalExpr patience (S (S f)) (MultisigNode (number 2) [text ka; text kb])) c env dp
    (Ok (VBool (key_signed ka && key_signed kb))) (c + 4) env dp.
Proof.
  intros L. rewrite eval_S. eapply runs_bind; [apply runs_tick; lia|]. eapply runs_bind; [|apply runs_ret].
  unfold multisig. eapply runs_bind; [apply runs_port; [by vm_compute|lia]|]. rewrite num_le_Z. cbn [Z.leb Z.compare].
  cbn [count_signers]. eapply runs_bind; [apply runs_string; lia|]. eapply runs_bind; [apply runs_signedby|].
  assert (∀ n, n <= 1 → num_le (of_Z 2) (of_Z n) = false) as H1 by (intros; rewrite num_le_Z; lia).
  rewrite H1 by (destruct (key_signed ka); lia). eapply runs_bind; [apply runs_string; lia|]. eapply runs_bind; [apply runs_signedby|].
  replace (c + 4) with (c + 1 + 1 + 1 + 1) by lia.
  destruct (key_signed ka), (key_signed kb); rewrite !num_le_Z; apply runs_ret.
Qed.

(** *** Statements *)

Lemma runs_let f name e v c env dp c' : c < MAX_INSTRUCTIONS → runs (evalExpr patience f e) (c + 1) env dp (Ok v) c' env dp →
  runs (execStatement patience (S f) (LetNode name e)) c env dp (Ok tt) c' (env_set name v env) dp.
Proof.
  intros L H1. rewrite exec_S. eapply runs_bind; [by apply runs_tick|]. eapply runs_bind; [exact H1|].
  eapply runs_bind; [apply runs_trace|]. apply runs_set.
Qed.
Lemma runs_let_fail f name e x c env dp c' : c < MAX_INSTRUCTIONS → runs (evalExpr patience f e) (c + 1) env dp (Err x) c' env dp →
  runs (execStatement patience (S f) (LetNode name e)) c env dp (Err x) c' env dp.
Proof. intros L H1. rewrite exec_S. eapply runs_bind; [by apply runs_tick|]. by eapply runs_fail. Qed.

(** What an assertion of a value leaves. *)
Definition asserted (r : Kiss Value) : result Signal unit :=
  match (v ← r; b ← isTruthy v; if b : bool then Ok tt else Err (KissvmRuntimeError (Message ("ASSERT failed: " +:+ string_of v)))) with
  | Ok _ => Ok tt | Err e => Err (Throw e) end.
Lemma runs_assert f e r c env dp c' : c < MAX_INSTRUCTIONS → runs (evalExpr patience f e) (c + 1) env dp (lift r) c' env dp →
  runs (execStatement patience (S f) (AssertNode e)) c env dp (asserted r) c' env dp.
Proof.
  intros L H1. rewrite exec_S. eapply runs_bind; [by apply runs_tick|]. destruct r as [v|x]; [|by eapply runs_fail].
  eapply runs_bind; [exact H1|]. eapply runs_bind; [apply runs_trace|]. unfold asserted. cbn [mbind result_bind].
  pose proof (runs_kiss (isTruthy v) c' env dp) as H2. destruct (isTruthy v) as [b|x]; cbn [mbind result_bind]; [|by eapply runs_fail].
  eapply runs_bind; [exact H2|]. destruct b; [apply runs_ret|]. intros tr. by eexists.
Qed.
Lemma runs_return f e v c env dp c' : c < MAX_INSTRUCTIONS → runs (evalExpr patience f e) (c + 1) env dp (Ok v) c' env dp →
  runs (execStatement patience (S f) (ReturnNode e)) c env dp (Err (ReturnSignal v)) c' env dp.
Proof.
  intros L H1. rewrite exec_S. eapply runs_bind; [by apply runs_tick|]. eapply runs_bind; [exact H1|].
  eapply runs_bind; [apply runs_trace|]. intros tr. by eexists.
Qed.
Lemma runs_cons f n l c env dp c1 env1 r c2 env2 dp1 dp2 : runs (execStatement patience f n) c env dp (Ok tt) c1 env1 dp1 →
  runs (mfor (execStatement patience f) l) c1 env1 dp1 r c2 env2 dp2 → runs (mfor (execStatement patience f) (n :: l)) c env dp r c2 env2 dp2.
Proof. intros H1 H2. by eapply (runs_bind (execStatement patience f n)). Qed.
Lemma runs_stop f n l c env dp c1 env1 x dp1 : runs (execStatement patience f n) c env dp (Err x) c1 env1 dp1 →
  runs (mfor (execStatement patience f) (n :: l)) c env dp (Err x) c1 env1 dp1.
Proof. intros H1. by eapply (runs_fail (execStatement patience f n)). Qed.

Lemma leave_machine c env dp tr : 0 <= dp → popBlockScope (machine c env (dp + 1) tr) = machine c env dp tr.
Proof. intros Hd. unfold popBlockScope, leave, set_depth, machine. cbn. f_equal. lia. Qed.
(** IF without other branches. *)
Lemma runs_if f e v b then_ c env c' dp r c1 env1 : c < MAX_INSTRUCTIONS → 0 <= dp < MAX_STACK_DEPTH →
  runs (evalExpr patience f e) (c + 1) env dp (Ok v) c' env dp → isTruthy v = Ok b →
  (if b then runs (mfor (execStatement patience f) then_) c' env (dp + 1) r c1 env1 (dp + 1) else r = Ok tt ∧ c1 = c' ∧ env1 = env) →
  runs (execStatement patience (S f) (IfNode e then_ [] None)) c env dp r c1 env1 dp.
Proof.
  intros L Hd H1 Hb H2. rewrite exec_S. eapply runs_bind; [by apply runs_tick|]. eapply runs_bind; [exact H1|].
  eapply runs_bind; [apply runs_trace|]. unfold scoped, pushBlockScope, enter.
  intros tr. unfold mbind, M_bind, mmodify, mget, mthrow_if, mlift, throw_if. cbn.
  replace (dp + 1 >? MAX_STACK_DEPTH) with false by lia. cbn. unfold finally, kiss. rewrite Hb.
  destruct b.
  - destruct (H2 tr) as [tr' E]. change (set_depth (dp + 1) (machine c' env dp tr)) with (machine c' env (dp + 1) tr). rewrite E. exists tr'. apply f_equal, leave_machine. lia.
  - destruct H2 as (-> & -> & ->). exists tr. apply f_equal, (leave_machine c' env dp tr). lia.
Qed.

Lemma runs_if_fail f e v x then_ c env c' dp : c < MAX_INSTRUCTIONS → 0 <= dp < MAX_STACK_DEPTH →
  runs (evalExpr patience f e) (c + 1) env dp (Ok v) c' env dp → isTruthy v = Err x →
  runs (execStatement patience (S f) (IfNode e then_ [] None)) c env dp (Err (Throw x)) c' env dp.
Proof.
  intros L Hd H1 Hb. rewrite exec_S. eapply runs_bind; [by apply runs_tick|]. eapply runs_bind; [exact H1|].
  eapply runs_bind; [apply runs_trace|]. unfold scoped, pushBlockScope, enter.
  intros tr. unfold mbind, M_bind, mmodify, mget, mthrow_if, mlift, throw_if. cbn.
  replace (dp + 1 >? MAX_STACK_DEPTH) with false by lia. cbn. unfold finally, kiss. rewrite Hb.
  exists tr. apply f_equal, (leave_machine c' env dp tr). lia.
Qed.

(** ** The script *)

Context (ka kb : string) (m : MiniNumber).
Definition both : bool := key_signed ka && key_signed kb.
Definition holds (r : Kiss bool) : bool := match r with Ok b => b | Err _ => false end.

(** Whether the spend is a settlement, its sequence number and the one of the coin. *)
Definition reading : Kiss (bool * Value * Value) :=
  s ← port_read (state ctx) 100; q ← port_read (state ctx) 101; p ← port_read (prevState ctx) 101;
  b ← isTruthy s; Ok (b, q, p).
Definition closes : bool :=
  match reading with
  | Ok (true, q, p) =>
      both && holds (kissvmEq q p) && holds (a ← resolveBuiltin "COINAGE" ctx; numbers isMoreEqual a (VNum m))
  | _ => false
  end.
Definition updates : bool := match reading with Ok (false, q, p) => both && holds (numbers isMore q p) | _ => false end.

Notation exec f := (mfor (execStatement patience f)).

(** A run that ends in an exception. *)
Definition refused (l : list ASTNode) f c env dp : Prop := ∃ e c' env' dp', runs (exec f l) c env dp (Err (Throw e)) c' env' dp'.
Lemma refused_now f n l e c env dp c1 env1 dp1 : runs (execStatement patience f n) c env dp (Err (Throw e)) c1 env1 dp1 → refused (n :: l) f c env dp.
Proof. intros H1. exists e, c1, env1, dp1. by apply runs_stop. Qed.
Lemma refused_later f n l c env dp c1 env1 dp1 : runs (execStatement patience f n) c env dp (Ok tt) c1 env1 dp1 → refused l f c1 env1 dp1 → refused (n :: l) f c env dp.
Proof. intros H1 (e & c2 & env2 & dp2 & H2). exists e, c2, env2, dp2. by eapply runs_cons. Qed.

(** A run that comes to the statements [l'] in the second machine. *)
Definition leads (f : nat) (l : list ASTNode) c env dp (l' : list ASTNode) c' env' dp' : Prop :=
  ∀ tr, ∃ tr', exec f l (machine c env dp tr) = exec f l' (machine c' env' dp' tr').
Lemma leads_step f n l c env dp c1 env1 dp1 l' c2 env2 dp2 : runs (execStatement patience f n) c env dp (Ok tt) c1 env1 dp1 →
  leads f l c1 env1 dp1 l' c2 env2 dp2 → leads f (n :: l) c env dp l' c2 env2 dp2.
Proof.
  intros H1 H2 tr. destruct (H1 tr) as [tr1 E1]. destruct (H2 tr1) as [tr2 E2]. exists tr2. rewrite <- E2.
  change (exec f (n :: l)) with (execStatement patience f n ≫= λ _, exec f l). unfold mbind, M_bind. by rewrite E1.
Qed.
Lemma leads_refl f l c env dp : leads f l c env dp l c env dp.
Proof. intros tr. by exists tr. Qed.
Lemma leads_trans f l1 c1 env1 dp1 l2 c2 env2 dp2 l3 c3 env3 dp3 :
  leads f l1 c1 env1 dp1 l2 c2 env2 dp2 → leads f l2 c2 env2 dp2 l3 c3 env3 dp3 → leads f l1 c1 env1 dp1 l3 c3 env3 dp3.
Proof. intros H1 H2 tr. destruct (H1 tr) as [tr1 ->]. apply H2. Qed.
Lemma leads_runs f l c env dp l' c' env' dp' r c2 env2 dp2 : leads f l c env dp l' c' env' dp' →
  runs (exec f l') c' env' dp' r c2 env2 dp2 → runs (exec f l) c env dp r c2 env2 dp2.
Proof. intros H1 H2 tr. destruct (H1 tr) as [tr1 ->]. apply H2. Qed.
Lemma leads_refused f l c env dp l' c' env' dp' : leads f l c env dp l' c' env' dp' → refused l' f c' env' dp' → refused l f c env dp.
Proof. intros H1 (e & c2 & env2 & dp2 & H2). exists e, c2, env2, dp2. by eapply leads_runs. Qed.

(** The variables of the script. *)
Definition frame_of (s q p : Value) : list Frame :=
  [[("settlement", s); ("sequence", q); ("prevsequence", p); ("bothsigned", VBool both)]]%string.

Lemma lets_run f rest : match (s ← port_read (state ctx) 100; q ← port_read (state ctx) 101; p ← port_read (prevState ctx) 101; Ok (s, q, p)) with
  | Ok (s, q, p) => leads (3 + f) (lets ka kb ++ rest) 0 [[]] 0 rest 14 (frame_of s q p) 0
  | Err _ => refused (lets ka kb ++ rest) (3 + f) 0 [[]] 0
  end.
Proof.
  assert (∀ n : Z, n = 100 ∨ n = 101 → asPortInt (VNum (mkMini n (Some 0))) = Ok (of_Z n)) as Hp by (intros n [-> | ->]; by vm_compute).
  unfold lets. cbn [app plus].
  pose proof (runs_state f 100 1 [[]] 0 ltac:(auto) ltac:(done)) as H1.
  destruct (port_read (state ctx) 100) as [s|e]; cbn [mbind result_bind]; [|by eapply refused_now, runs_let_fail].
  apply (runs_let _ "settlement" _ _ 0) in H1; [|done].
  pose proof (runs_state f 101 4 [[("settlement", s)]]%string 0 ltac:(auto) ltac:(done)) as H2.
  destruct (port_read (state ctx) 101) as [q|e]; cbn [mbind result_bind]; [|by eapply refused_later, refused_now, runs_let_fail].
  apply (runs_let _ "sequence" _ _ 3) in H2; [|done].
  pose proof (runs_prev f 101 7 [[("settlement", s); ("sequence", q)]]%string 0 ltac:(auto) ltac:(done)) as H3.
  destruct (port_read (prevState ctx) 101) as [p|e]; cbn [mbind result_bind].
  2: { eapply refused_later; [exact H1|]. eapply refused_later; [exact H2|]. by eapply refused_now, runs_let_fail. }
  apply (runs_let _ "prevsequence" _ _ 6) in H3; [|done].
  pose proof (runs_multisig f ka kb 10 [[("settlement", s); ("sequence", q); ("prevsequence", p)]]%string 0 ltac:(done)) as H4.
  apply (runs_let _ "bothsigned" _ _ 9) in H4; [|done].
  eapply leads_step; [exact H1|]. eapply leads_step; [exact H2|]. eapply leads_step; [exact H3|].
  eapply leads_step; [exact H4|]. apply leads_refl.
Qed.

(** *** The two branches *)

Lemma runs_both f s q p c dp : c + 1 < MAX_INSTRUCTIONS →
  runs (execStatement patience (S (S f)) (AssertNode (IdentNode "bothsigned"))) c (frame_of s q p) dp (asserted (Ok (VBool both))) (c + 2) (frame_of s q p) dp.
Proof. intros L. replace (c + 2) with (c + 1 + 1) by lia. apply runs_assert; [lia|]. cbn [lift]. by apply runs_ident; [|lia]. Qed.

Lemma asserted_truth r : asserted (VBool <$> r) = if holds r then Ok tt else match asserted (VBool <$> r) with Ok _ => Err NoFuel | Err e => Err e end.
Proof. by destruct r as [[]|]. Qed.
Lemma asserted_false r : holds r = false → ∃ e, asserted (VBool <$> r) = Err (Throw e).
Proof. destruct r as [[]|]; [done|..]; by eexists. Qed.
Lemma asserted_true r : holds r = true → asserted (VBool <$> r) = Ok tt.
Proof. by destruct r as [[]|]. Qed.

Lemma runs_compare f op x y s q p a b c dp r : strict_op op = true → c + 3 < MAX_INSTRUCTIONS →
  env_get x (frame_of s q p) = Some a → env_get y (frame_of s q p) = Some b → apply_binary op a b = VBool <$> r →
  runs (execStatement patience (3 + f) (AssertNode (BinaryNode op (IdentNode x) (IdentNode y)))) c (frame_of s q p) dp
    (asserted (VBool <$> r)) (c + 4) (frame_of s q p) dp.
Proof.
  intros Ho L Hx Hy <-. apply runs_assert; [lia|]. replace (c + 4) with (c + 1 + 1 + 1 + 1) by lia.
  eapply runs_binary; [done|lia|apply runs_ident; [done|lia]|apply runs_ident; [done|lia]].
Qed.

(** The update branch. *)
Lemma updating_run f s q p c rest : c + 6 < MAX_INSTRUCTIONS →
  if both && holds (numbers isMore q p) then leads (3 + f) (updating ++ rest) c (frame_of s q p) 0 rest (c + 6) (frame_of s q p) 0
  else refused (updating ++ rest) (3 + f) c (frame_of s q p) 0.
Proof.
  intros L. unfold updating. cbn [app].
  pose proof (runs_both (S f) s q p c 0 ltac:(lia)) as H1. change (Ok (VBool both)) with (VBool <$> (Ok both : Kiss bool)) in H1.
  destruct both eqn:Eb; cbn [andb].
  2: { destruct (asserted_false (Ok false) eq_refl) as [e E]. rewrite E in H1. by eapply refused_now. }
  pose proof (runs_compare f GT "sequence" "prevsequence" s q p q p (c + 2) 0 (numbers isMore q p) eq_refl ltac:(lia) eq_refl eq_refl eq_refl) as H2.
  destruct (holds (numbers isMore q p)) eqn:Eh.
  - rewrite asserted_true in H2 by done. eapply leads_step; [exact H1|]. eapply leads_step; [exact H2|].
    replace (c + 6) with (c + 2 + 4) by lia. apply leads_refl.
  - apply asserted_false in Eh as [e E]. rewrite E in H2. eapply refused_later; [exact H1|]. by eapply refused_now.
Qed.

(** The closing branch, which always ends. *)
Lemma closing_run f s q p c dp : c + 12 < MAX_INSTRUCTIONS →
  if both && holds (kissvmEq q p) && holds (a ← resolveBuiltin "COINAGE" ctx; numbers isMoreEqual a (VNum m))
  then ∃ c', runs (exec (3 + f) (closing m)) c (frame_of s q p) dp (Err (ReturnSignal (VBool true))) c' (frame_of s q p) dp
  else ∃ e c', runs (exec (3 + f) (closing m)) c (frame_of s q p) dp (Err (Throw e)) c' (frame_of s q p) dp.
Proof.
  intros L. unfold closing.
  pose proof (runs_both (S f) s q p c dp ltac:(lia)) as H1. change (Ok (VBool both)) with (VBool <$> (Ok both : Kiss bool)) in H1.
  destruct both eqn:Eb; cbn [andb].
  2: { destruct (asserted_false (Ok false) eq_refl) as [e E]. rewrite E in H1. exists e, (c + 2). by apply runs_stop. }
  pose proof (runs_compare f EQ "sequence" "prevsequence" s q p q p (c + 2) dp (kissvmEq q p) eq_refl ltac:(lia) eq_refl eq_refl eq_refl) as H2.
  destruct (holds (kissvmEq q p)) eqn:Eh; cbn [andb].
  2: { apply asserted_false in Eh as [e E]. rewrite E in H2. exists e, (c + 2 + 4). eapply runs_cons; [exact H1|]. by apply runs_stop. }
  rewrite asserted_true in H2 by done.
  assert (runs (execStatement patience (3 + f) (AssertNode (BinaryNode GTE (BuiltinVarNode "COINAGE") (LiteralNode (SValue (VNum m))))))
    (c + 6) (frame_of s q p) dp (asserted (VBool <$> (a ← resolveBuiltin "COINAGE" ctx; numbers isMoreEqual a (VNum m))))
    match resolveBuiltin "COINAGE" ctx with Ok _ => c + 10 | Err _ => c + 9 end (frame_of s q p) dp) as H3.
  { apply runs_assert; [lia|]. pose proof (runs_builtin f "COINAGE" (c + 8) (frame_of s q p) dp ltac:(lia)) as Hb.
    replace (c + 8 + 1) with (c + 9) in Hb by lia. destruct (resolveBuiltin "COINAGE" ctx) as [a|e]; cbn [mbind result_bind].
    - eapply (runs_binary _ GTE _ _ a (VNum m)); [done|lia| |]; replace (c + 6 + 1 + 1) with (c + 8) by lia; [exact Hb|].
      replace (c + 10) with (c + 9 + 1) by lia. apply runs_number. lia.
    - rewrite eval_S. eapply runs_bind; [apply runs_tick; lia|]. replace (c + 6 + 1 + 1) with (c + 8) by lia. by eapply runs_fail. }
  replace (c + 6) with (c + 2 + 4) in H3 by lia. set (c3 := match resolveBuiltin "COINAGE" ctx with Ok _ => _ | Err _ => _ end) in H3.
  assert (c3 + 2 < MAX_INSTRUCTIONS) as L3 by (unfold c3; destruct (resolveBuiltin _ _); lia).
  clear Eh. destruct (holds _) eqn:Eg.
  - rewrite asserted_true in H3 by done. exists (c3 + 1 + 1). eapply runs_cons; [exact H1|]. eapply runs_cons; [exact H2|].
    eapply runs_cons; [exact H3|]. apply runs_stop, runs_return; [lia|]. apply runs_number. lia.
  - apply asserted_false in Eg as [e E]. rewrite E in H3. exists e, c3. eapply runs_cons; [exact H1|]. eapply runs_cons; [exact H2|].
    by apply runs_stop.
Qed.

(** The whole script, with any statements after the update branch. *)
Lemma script_run f rest :
  let script := lets ka kb ++ guard m :: updating ++ rest in
  (closes = true ∧ ∃ c env, runs (exec (4 + f) script) 0 [[]] 0 (Err (ReturnSignal (VBool true))) c env 0) ∨
  (closes = false ∧ updates = true ∧ ∃ s q p, leads (4 + f) script 0 [[]] 0 rest 22 (frame_of s q p) 0) ∨
  (closes = false ∧ updates = false ∧ refused script (4 + f) 0 [[]] 0).
Proof.
  intros script. pose proof (lets_run (S f) (guard m :: updating ++ rest)) as Hl. unfold closes, updates, reading.
  destruct (port_read (state ctx) 100) as [s|]; cbn [mbind result_bind] in *; [|right; right; by split_and!].
  destruct (port_read (state ctx) 101) as [q|]; cbn [mbind result_bind] in *; [|right; right; by split_and!].
  destruct (port_read (prevState ctx) 101) as [p|]; cbn [mbind result_bind] in *; [|right; right; by split_and!].
  assert (runs (evalExpr patience (3 + f) (IdentNode "settlement")) 15 (frame_of s q p) 0 (Ok s) 16 (frame_of s q p) 0) as Hc by by apply runs_ident.
  pose proof (λ b r c1 env1, runs_if (3 + f) _ s b (closing m) 14 (frame_of s q p) 16 0 r c1 env1 ltac:(done) ltac:(done) Hc) as Hif.
  destruct (isTruthy s) as [b|e] eqn:Eb; cbn [mbind result_bind].
  2: { right. right. split_and!; [done|done|]. eapply leads_refused; [exact Hl|]. by eapply refused_now, runs_if_fail. }
  destruct b.
  - pose proof (closing_run f s q p 16 (0 + 1) ltac:(done)) as Hr. destruct (both && _ && _) eqn:Ec.
    + destruct Hr as [c' Hr]. left. split; [done|]. exists c', (frame_of s q p). eapply leads_runs; [exact Hl|]. by apply runs_stop, (Hif true).
    + destruct Hr as (e & c' & Hr). right. right. split_and!; [done|done|]. eapply leads_refused; [exact Hl|].
      by eapply refused_now, (Hif true).
  - pose proof (Hif false (Ok tt) 16 (frame_of s q p) eq_refl (conj eq_refl (conj eq_refl eq_refl))) as Hg.
    pose proof (updating_run (S f) s q p 16 rest ltac:(done)) as Hu. right. destruct (both && _) eqn:Eu.
    + left. split_and!; [done|done|]. exists s, q, p. eapply leads_trans; [exact Hl|]. by eapply leads_step.
    + right. split_and!; [done|done|]. eapply leads_refused; [exact Hl|]. by eapply refused_later.
Qed.

(** A run passes when it returns a true value. *)
Definition accepted (r : result Signal unit) : bool :=
  match r with Err (ReturnSignal v) => holds (isTruthy v) | _ => false end.

(** Whatever follows, only a spend that closes or updates is accepted. *)
Lemma script_guards f rest tr :
  accepted (exec (4 + f) (lets ka kb ++ guard m :: updating ++ rest) (machine 0 [[]] 0 tr)).1 = true → closes || updates = true.
Proof.
  destruct (script_run f rest) as [[-> _]|[(-> & -> & _)|(-> & -> & e & c & env & dp & Hr)]]; [done|done|].
  destruct (Hr tr) as [tr' ->]. done.
Qed.
(** A spend that closes is accepted, whatever follows. *)
Lemma script_closes f rest tr : closes = true →
  (exec (4 + f) (lets ka kb ++ guard m :: updating ++ rest) (machine 0 [[]] 0 tr)).1 = Err (ReturnSignal (VBool true)).
Proof.
  intros Hc. destruct (script_run f rest) as [(_ & c & env & Hr)|[(E & _)|(E & _)]]; [|congruence|congruence].
  by destruct (Hr tr) as [tr' ->].
Qed.
(** The plain script accepts just these. *)
Lemma eltoo_run f tr :
  accepted (exec (4 + f) (lets ka kb ++ guard m :: updating ++ [ReturnNode (LiteralNode (SValue (VBool true)))]) (machine 0 [[]] 0 tr)).1
  = closes || updates.
Proof.
  destruct (script_run f [ReturnNode (LiteralNode (SValue (VBool true)))])
    as [(-> & c & env & Hr)|[(-> & -> & s & q & p & Hl)|(-> & -> & e & c & env & dp & Hr)]].
  - by destruct (Hr tr) as [tr' ->].
  - destruct (Hl tr) as [tr1 ->].
    assert (runs (execStatement patience (4 + f) (ReturnNode (LiteralNode (SValue (VBool true))))) 22 (frame_of s q p) 0
      (Err (ReturnSignal (VBool true))) 24 (frame_of s q p) 0) as Hr by (apply runs_return; [done|]; by apply runs_number).
    apply (runs_stop _ _ []) in Hr. by destruct (Hr tr1) as [tr2 ->].
  - by destruct (Hr tr) as [tr' ->].
Qed.

End run.
End Er.
