(* ===== verification/EltooSpec.v ===== *)
(** * What the channel scripts admit

    [admits] is what a spend of a channel coin must show; the scripts of all registered
    programs begin with the checks for it. *)

From Stdlib Require Import ZArith Lia QArith Ascii String.
From stdpp Require Import base list strings.
From S2P Require Import Prelude JsBase JsText JsMap NumSpec MiniNumber MiniNumberSpec Lexer Parser Mmr Vm Eval EvalSpec OpcodeSpec Guards Omnia Eltoo Programs FrameSpec EltooParse EltooRun.
From S2P Require NodeScript.

Module ElSpec.
Import Js JsText Mn Lx Ps Vm Ev OpSpec FrSpec Ep Er.
#[local] Arguments String.append : simpl nomatch.

(** ** Keys *)

Lemma lower_upper s : toLowerCase (toUpperCase s) = toLowerCase s.
Proof.
  induction s as [|c s IH]; [done|]. change (toLowerCase (toUpperCase (String c s))) with (String (lower_char (upper_char c)) (toLowerCase (toUpperCase s))).
  rewrite IH. cbn. f_equal. each_char c.
Qed.
Lemma lower_app a b : toLowerCase (a +:+ b) = toLowerCase a +:+ toLowerCase b.
Proof. induction a as [|c a IH]; [done|]. cbn. by rewrite IH. Qed.
Lemma upper_length s : String.length (toUpperCase s) = String.length s.
Proof. induction s as [|c s IH]; [done|]. cbn. by rewrite <- IH. Qed.
Lemma upper_hex s : str_forallb is_hex_digit s = true → str_forallb is_hex_digit (toUpperCase s) = true.
Proof.
  induction s as [|c s IH]; [done|]. cbn. intros [Hc Hs]%andb_true_iff. apply andb_true_iff. split; [clear -Hc; revert Hc; each_char c|by apply IH].
Qed.

(** The 64 digits of a key, in upper case. *)
Definition key_digits (p : Om.ChannelParticipant) : string := toUpperCase (El.strip_prefix (Om.publicKeyDigest p)).

Lemma kissHex_Ok hex t : El.kissHex hex = Ok t → let raw := El.strip_prefix hex in
  t = "0x" +:+ toUpperCase raw ∧ String.length raw = 64%nat ∧ str_forallb is_hex_digit raw = true.
Proof.
  unfold El.kissHex. intros ([] & Hu%throw_if_Ok & [= <-])%result_bind_Ok. apply negb_false_iff in Hu.
  unfold El.is_key_hex in Hu. apply andb_true_iff in Hu as [Hl%Nat.eqb_eq Hh]. done.
Qed.
Lemma digits_key raw : String.length raw = 64%nat → str_forallb is_hex_digit raw = true → is_key (toUpperCase raw) = true.
Proof. intros Hl Hh. unfold is_key. rewrite upper_hex by done. destruct raw; done. Qed.

Lemma upper_lower s : str_forallb is_hex_digit s = true → toUpperCase (toLowerCase s) = toUpperCase s.
Proof.
  induction s as [|c s IH]; [done|]. cbn [str_forallb]. intros [Hc Hs]%andb_true_iff.
  change (String (upper_char (lower_char c)) (toUpperCase (toLowerCase s)) = String (upper_char c) (toUpperCase s)).
  rewrite IH by done. f_equal. clear -Hc. revert Hc. each_char c.
Qed.
Lemma drop_0x s : drop_str 2 ("0x" +:+ s) = s.
Proof. done. Qed.
Lemma lower_lower s : toLowerCase (toLowerCase s) = toLowerCase s.
Proof. induction s as [|c s IH]; [done|]. cbn. rewrite IH. f_equal. each_char c. Qed.

(** The script names the very key: the witness entry it looks up is that of the digest. *)
Lemma key_lower hex : String.length (El.strip_prefix hex) = 64%nat → str_forallb is_hex_digit (El.strip_prefix hex) = true →
  normalizeHex hex = toLowerCase (El.strip_prefix hex).
Proof.
  unfold normalizeHex, El.strip_prefix. intros Hl Hh. destruct (starts_with "0x" hex || starts_with "0X" hex) eqn:Ep.
  - assert (∃ r, toLowerCase hex = "0x" +:+ toLowerCase r ∧ drop_str 2 hex = r) as (r & E & ->).
    { apply orb_true_iff in Ep as [(r & ->)%starts_with_spec|(r & ->)%starts_with_spec]; exists r; by rewrite lower_app. }
    by rewrite E, starts_with_app, drop_0x.
  - assert (starts_with "0x" (toLowerCase hex) = false) as ->; [|done].
    apply not_true_iff_false. intros (r & E)%starts_with_spec.
    destruct hex as [|c1 [|c2 hex]]; cbn in E, Hh; [discriminate E|discriminate E|]. injection E as E1 E2 _.
    apply andb_true_iff in Hh as [_ [Hh _]%andb_true_iff]. clear -E2 Hh. revert E2 Hh. each_char c2.
Qed.
Lemma key_normal hex : String.length (El.strip_prefix hex) = 64%nat → str_forallb is_hex_digit (El.strip_prefix hex) = true →
  normalizeHex (key_text (toUpperCase (El.strip_prefix hex))) = normalizeHex hex.
Proof.
  intros Hl Hh. rewrite (key_lower hex) by done. unfold key_text, normalizeHex. rewrite lower_app, lower_upper, lower_lower.
  by rewrite starts_with_app, drop_0x.
Qed.

(** ** The texts *)

Lemma dec_number d : 0 <= d → is_number (dec d) = true.
Proof.
  intros Hd. unfold is_number. rewrite dec_digits, andb_true_r by lia. destruct (String.eqb_spec (dec d) ""); [|done]. by destruct (dec_nonempty d).
Qed.

Lemma node_fixed : written (frame_names text1 text2 text3) (NodeScript.Ns.cut text1) = node1 ∧
  written (frame_names text1 text2 text3) (NodeScript.Ns.cut text2) = node2 ∧
  written (frame_names text1 text2 text3) (NodeScript.Ns.cut text3) = node3.
Proof. by vm_compute. Qed.

(** What [buildEltooScript] returns for a pair of parties. *)
Definition well_keyed (p : Om.ChannelParticipant) : Prop :=
  String.length (El.strip_prefix (Om.publicKeyDigest p)) = 64%nat ∧ str_forallb is_hex_digit (El.strip_prefix (Om.publicKeyDigest p)) = true.
Lemma script_built parties delay script : El.buildEltooScript parties delay = Ok script →
  ∃ a b, parties = [a; b] ∧ well_keyed a ∧ well_keyed b ∧ key_digits a ≠ key_digits b ∧
    let d := default Gd.ELTOO_CONTEST_DELAY_BLOCKS delay in 0 <= d <= MAX_SAFE_INTEGER ∧
    script = script_text node3 (key_digits a) (key_digits b) (dec d).
Proof.
  unfold El.buildEltooScript. cbv zeta. set (d := default _ delay). destruct parties as [|a [|b [|? ?]]]; [done..| |done].
  intros ([] & Hd%throw_if_Ok & (ka & (-> & La & Ha)%kissHex_Ok & (kb & (-> & Lb & Hb)%kissHex_Ok & ([] & Hne%throw_if_Ok & [= <-])%result_bind_Ok)%result_bind_Ok)%result_bind_Ok)%result_bind_Ok.
  exists a, b. apply orb_false_iff in Hd as [Hs%negb_false_iff Hd]. unfold is_safe_integer in Hs.
  assert (0 <= d <= MAX_SAFE_INTEGER) as Hr by lia.
  split_and!; try done; try lia.
  - intros E. unfold key_digits in E. rewrite E in Hne. by rewrite String.eqb_refl in Hne.
  - pose proof (eltoo_frame (key_digits a) (key_digits b) d) as Ef. cbn [String.append] in Ef. unfold key_digits in Ef at 1 2.
    rewrite Ef, num_to_string_of_Z by done. destruct node_fixed as (E1 & E2 & E3).
    rewrite canonical_frame; [|by vm_compute|by apply digits_key|by apply digits_key|].
    + unfold script_text. by rewrite E1, E2, E3.
    + apply dec_number. lia.
Qed.

Ltac continued := split; [by vm_compute|intros q [->|[->|[->|[]%elem_of_nil]%elem_of_cons]%elem_of_cons]%elem_of_cons; by vm_compute| |intros; by vm_compute];
  match goal with |- ∃ ks, lex ?n ?p = _ ∧ _ => exists (drop 3 (default [] (lex n p))) end;
  split; [vm_compute; reflexivity|intros; vm_compute; reflexivity].

Definition returning : list ASTNode := [ReturnNode (LiteralNode (SValue (VBool true)))].
Lemma eltoo_continues : continues node3 (updating ++ returning).
Proof. continued. Qed.

(** *** Additions of the programs *)

Definition not_S (c : ascii) : bool := negb (Ascii.eqb c "S").
Lemma replace_passes rep u v : str_forallb not_S u = true → match v with String c _ => not_S c | EmptyString => true end = true →
  El.replace_first El.ELTOO_INJECTION_ANCHOR rep (u +:+ v) = u +:+ El.replace_first El.ELTOO_INJECTION_ANCHOR rep v.
Proof.
  intros Hu Hv. induction u as [|c u IH]; [done|]. cbn in Hu. apply andb_true_iff in Hu as [Hc Hu]. cbn [String.append El.replace_first].
  assert (starts_with El.ELTOO_INJECTION_ANCHOR (String c (u +:+ v)) = false) as ->; [|by rewrite IH].
  apply not_true_iff_false. intros (r & E)%starts_with_spec. cbn in E. injection E as _ E.
  destruct u as [|d u]; [by destruct v as [|d v]; [|injection E as -> _]|]. cbn in E. injection E as -> _. done.
Qed.

(** The fixed text after the number, with a program's additions. *)
Definition additions_text (additions : list string) : string :=
  El.replace_first El.ELTOO_INJECTION_ANCHOR (El.lines (El.ELTOO_INJECTION_ANCHOR :: additions)) node3.
Definition part3 (additions : list string) : string :=
  Eval cbv beta in let r := additions_text additions in written (frame_names node1 node2 r) (NodeScript.Ns.cut r).

Definition all_additions : list (list string) :=
  [Pg.counter_script; Pg.meter_script; Pg.htlc_script; Pg.vault_script; Pg.treasury_script; Pg.membership_script; Pg.asset_script].
Definition rest_of (p3 : string) : list ASTNode :=
  match parseScript (script_text p3 "0a" "0b" "1") [] with Ok l => drop 5 l | Err _ => [] end.
Lemma programs_continue : Forall (λ a, ∃ rest, continues (part3 a) (updating ++ rest) ∧
   frames node1 node2 (additions_text a) = true ∧
   (written (frame_names node1 node2 (additions_text a)) (NodeScript.Ns.cut node1) = node1 ∧ written (frame_names node1 node2 (additions_text a)) (NodeScript.Ns.cut node2) = node2)) all_additions.
Proof.
  unfold all_additions. repeat (apply Forall_cons; split); [..|by apply Forall_nil].
  all: match goal with |- ∃ rest, continues (part3 ?a) _ ∧ _ => let r := eval vm_compute in (drop 2 (rest_of (part3 a))) in exists r end.
  all: (split; [continued|split; [by vm_compute|split; by vm_compute]]).
Qed.

Lemma hex_not_S h : str_forallb is_hex_digit h = true → str_forallb not_S h = true.
Proof. apply str_forallb_impl. intros c. each_char c. Qed.
Lemma digits_not_S d : str_forallb is_digit d = true → str_forallb not_S d = true.
Proof. apply str_forallb_impl. intros c. each_char c. Qed.

Lemma replace_in_script rep p3 a b d : str_forallb is_hex_digit a = true → str_forallb is_hex_digit b = true → str_forallb is_digit d = true →
  match p3 with String c _ => not_S c | EmptyString => true end = true →
  El.replace_first El.ELTOO_INJECTION_ANCHOR rep (script_text p3 a b d) = script_text (El.replace_first El.ELTOO_INJECTION_ANCHOR rep p3) a b d.
Proof.
  intros Ha%hex_not_S Hb%hex_not_S Hd%digits_not_S Hp. unfold script_text, frame.
  assert (∀ v, El.replace_first El.ELTOO_INJECTION_ANCHOR rep (node1 +:+ v) = node1 +:+ El.replace_first El.ELTOO_INJECTION_ANCHOR rep v) as -> by (intros; by vm_compute).
  rewrite (replace_passes rep (" 0x" +:+ a)) by done. rewrite (replace_passes rep (" 0x" +:+ b)) by done.
  assert (∀ v, El.replace_first El.ELTOO_INJECTION_ANCHOR rep (node2 +:+ String " " v) = node2 +:+ El.replace_first El.ELTOO_INJECTION_ANCHOR rep (String " " v)) as E
    by (intros; by vm_compute).
  change ((" " +:+ d) +:+ p3) with (String " " (d +:+ p3)). rewrite E. change (String " " (d +:+ p3)) with ((" " +:+ d) +:+ p3).
  by rewrite (replace_passes rep (" " +:+ d)).
Qed.

(** The script of a program that adds statements to the update branch. *)
Lemma injected_Ok additions parties delay script : additions ∈ all_additions → Pg.injected additions parties delay = Ok script →
  ∃ a b, parties = [a; b] ∧ well_keyed a ∧ well_keyed b ∧ key_digits a ≠ key_digits b ∧
    script = script_text (part3 additions) (key_digits a) (key_digits b) (dec Gd.ELTOO_CONTEST_DELAY_BLOCKS).
Proof.
  intros Hin. unfold Pg.injected, El.injectEltooScript.
  intros (base & (a & b & Ep & Ha & Hb & Hne & Hd & ->)%script_built & Es%Ok_inj)%result_bind_Ok. subst script. exists a, b. split_and!; try done.
  pose proof programs_continue as Hall. rewrite Forall_forall in Hall.
  destruct (Hall additions Hin) as (rest & _ & Hf & E1 & E2). destruct Ha as [La Ha], Hb as [Lb Hb].
  unfold key_digits. rewrite replace_in_script; [|by apply upper_hex|by apply upper_hex|by apply dec_digits|done].
  change (El.replace_first _ _ node3) with (additions_text additions). unfold script_text at 1.
  rewrite canonical_frame; [|done|by apply digits_key|by apply digits_key|by apply dec_number].
  unfold script_text. by rewrite E1, E2.
Qed.

(** ** What the scripts admit *)

Section admits.
Context {Pl : Platform} (patience fuel : nat).

Definition passes (r : result Signal EvalResult * TxContext) : bool := match r.1 with Ok e => passed e | Err _ => false end.
Lemma evaluate_accepts script ast w ctx : NodeScript.Ns.toNodeScript script = script → parseScript script [] = Ok ast →
  passes (evaluateScript patience fuel script w ctx) = accepted (mfor (execStatement patience fuel) ast (machine w ctx 0 [[]] 0 [])).1.
Proof.
  intros E1 E2. unfold passes, evaluateScript. rewrite E1, E2. cbn [kparse]. unfold mret, M_ret, mbind at 1, M_bind at 1.
  change (new_vm w ctx) with (machine w ctx 0 [[]] 0 []). unfold execStatements.
  destruct (mfor (execStatement patience fuel) ast _) as [[u|[[]|v| |]] s]; cbn; try done. by destruct (isTruthy v).
Qed.

Lemma script_evaluates p3 rest a b d w ctx : continues p3 rest → well_keyed a → well_keyed b → 0 <= d <= MAX_SAFE_INTEGER →
  passes (evaluateScript patience fuel (script_text p3 (key_digits a) (key_digits b) (dec d)) w ctx)
  = accepted (mfor (execStatement patience fuel)
      (lets (key_text (key_digits a)) (key_text (key_digits b)) ++ guard (mkMini d (Some 0)) :: rest) (machine w ctx 0 [[]] 0 [])).1.
Proof.
  intros Hc [La Ha] [Lb Hb] Hd.
  assert (0 <= d <= MAX_VALUE_BIG) by (assert (MAX_SAFE_INTEGER <= MAX_VALUE_BIG) by (by vm_compute); lia).
  apply evaluate_accepts.
  - eapply canonical_text; [exact Hc|by apply digits_key|by apply digits_key|apply dec_number; lia].
  - apply script_parses; try done; try (by apply digits_key); unfold key_digits; rewrite upper_length; rewrite ?La, ?Lb; lia.
Qed.

Lemma signed_digest w ctx p : well_keyed p → key_signed w ctx (key_text (key_digits p)) = key_signed w ctx (Om.publicKeyDigest p).
Proof. intros [Hl Hh]. unfold key_signed, signed, key_digits. by rewrite key_normal. Qed.

(** Both parties signed, and the spend either carries a newer sequence number, or is a
    settlement with the very sequence of the coin, which is [d] blocks old. *)
Definition admits (w : ScriptWitness) (ctx : TxContext) (a b : Om.ChannelParticipant) (d : Z) : Prop :=
  key_signed w ctx (Om.publicKeyDigest a) = true ∧ key_signed w ctx (Om.publicKeyDigest b) = true ∧
  ∃ settlement q p, reading ctx = Ok (settlement, q, p) ∧
    if settlement : bool
    then kissvmEq q p = Ok true ∧
         ∃ age, resolveBuiltin "COINAGE" ctx = Ok age ∧ numbers isMoreEqual age (VNum (mkMini d (Some 0))) = Ok true
    else numbers isMore q p = Ok true.

Lemma holds_true r : holds r = true ↔ r = Ok true.
Proof. destruct r as [[]|]; cbn; split; congruence. Qed.
Lemma admits_spec w ctx a b d : well_keyed a → well_keyed b →
  closes w ctx (key_text (key_digits a)) (key_text (key_digits b)) (mkMini d (Some 0)) ||
  updates w ctx (key_text (key_digits a)) (key_text (key_digits b)) = true ↔ admits w ctx a b d.
Proof.
  intros Ha Hb. unfold closes, updates, admits, both. rewrite !signed_digest by done.
  set (sa := key_signed _ _ _). set (sb := key_signed _ _ _). destruct (reading ctx) as [[[[|] q] p]|].
  - rewrite orb_false_r, !andb_true_iff, !holds_true. split.
    + intros [[[? ?] ?] Hg]. destruct (resolveBuiltin "COINAGE" ctx) as [age|]; [|done].
      split; [done|]. split; [done|]. exists true, q, p. split; [done|]. split; [done|]. by exists age.
    + intros (? & ? & s & q' & p' & [= <- <- <-] & ? & age & -> & Hg). by split_and!.
  - cbn [orb]. rewrite !andb_true_iff, holds_true. split; [intros [[? ?] ?]; split; [done|]; split; [done|]; by exists false, q, p|].
    intros (? & ? & s & q' & p' & [= <- <- <-] & Hg). by split_and!.
  - split; [done|]. by intros (_ & _ & s & q & p & [=] & _).
Qed.

Lemma programs_cases k program : map_get k (Pg.programs sha3_256) = Some program →
  program = Pg.DefaultEltooPaymentProgram ∨
  ∃ additions, additions ∈ all_additions ∧ Pg.buildScript program = Pg.injected additions ∧ Pg.id program ≠ Pg.ELTOO_PAYMENT_PROGRAM_ID.
Proof.
  assert (map snd (Pg.programs sha3_256) = [Pg.DefaultEltooPaymentProgram; Pg.CounterProgram; Pg.MeterProgram; Pg.HTLCPaymentProgram sha3_256;
    Pg.VaultProgram; Pg.TreasuryProgram; Pg.MembershipProgram; Pg.AssetProgram]) as Em by reflexivity.
  intros H. assert (program ∈ map snd (Pg.programs sha3_256)) as Hin.
  { apply list_elem_of_In, in_map_iff. exists (k, program). split; [done|]. by apply list_elem_of_In, JsMap.map_get_elem. }
  rewrite Em in Hin. repeat (apply elem_of_cons in Hin as [->|Hin]; [first [by left|right; eexists; split; [|by split]; unfold all_additions; repeat (first [by left|right])]|]).
  by apply elem_of_nil in Hin.
Qed.

(** The contest window of a program's script. *)
Definition window (program : Pg.ChannelProgram) (delay : option Z) : Z :=
  if String.eqb (Pg.id program) Pg.ELTOO_PAYMENT_PROGRAM_ID then default Gd.ELTOO_CONTEST_DELAY_BLOCKS delay else Gd.ELTOO_CONTEST_DELAY_BLOCKS.

(** The script of a program, and the statements after its update checks. *)
Lemma program_script k program a b delay script :
  map_get k (Pg.programs sha3_256) = Some program → Pg.buildScript program [a; b] delay = Ok script →
  well_keyed a ∧ well_keyed b ∧ key_digits a ≠ key_digits b ∧ 0 <= window program delay <= MAX_SAFE_INTEGER ∧
  ∃ p3 rest, script = script_text p3 (key_digits a) (key_digits b) (dec (window program delay)) ∧ continues p3 (updating ++ rest) ∧
    (program = Pg.DefaultEltooPaymentProgram → rest = returning).
Proof.
  intros Hk Hs. apply programs_cases in Hk as [->|(adds & Hin & E & Hn)].
  - apply script_built in Hs as (a' & b' & [= <- <-] & Ha & Hb & Hne & Hd & ->).
    split_and!; try done; [apply Hd|apply Hd|]. exists node3, returning. split; [done|]. split; [apply eltoo_continues|done].
  - assert (window program delay = Gd.ELTOO_CONTEST_DELAY_BLOCKS) as ->.
    { unfold window. by destruct (String.eqb_spec (Pg.id program) Pg.ELTOO_PAYMENT_PROGRAM_ID). }
    rewrite E in Hs. apply injected_Ok in Hs as (a' & b' & [= <- <-] & Ha & Hb & Hne & ->); [|done].
    pose proof programs_continue as Hall. rewrite Forall_forall in Hall. destruct (Hall adds Hin) as (rest & Hc & _).
    split_and!; try done. exists (part3 adds), rest. split; [done|]. split; [done|]. intros ->. by destruct Hn.
Qed.

Lemma scripts_admit k program a b delay script w ctx :
  map_get k (Pg.programs sha3_256) = Some program → Pg.buildScript program [a; b] delay = Ok script → (4 <= fuel)%nat →
  (passes (evaluateScript patience fuel script w ctx) = true → admits w ctx a b (window program delay)) ∧
  (admits w ctx a b (window program delay) → (∃ q p, reading ctx = Ok (true, q, p)) ∨ program = Pg.DefaultEltooPaymentProgram →
   passes (evaluateScript patience fuel script w ctx) = true).
Proof.
  intros Hk Hs Hf. apply (program_script _ _ _ _ _ _ Hk) in Hs as (Ha & Hb & _ & Hd & p3 & rest & -> & Hc & Hrest).
  rewrite (script_evaluates _ _ _ _ _ _ _ Hc Ha Hb Hd). destruct fuel as [|[|[|[|f]]]]; try lia.
  change (S (S (S (S f)))) with (4 + f)%nat. rewrite <- admits_spec by done. split; [apply script_guards|].
  intros Hg [(q & p & Hr)|Hp].
  - assert (updates w ctx (key_text (key_digits a)) (key_text (key_digits b)) = false) as Hu by (unfold updates; by rewrite Hr).
    rewrite Hu, orb_false_r in Hg. by rewrite script_closes.
  - rewrite (Hrest Hp). by rewrite eltoo_run.
Qed.

End admits.

(** ** Properties *)

(** C6. What a channel coin can be spent for.  Whatever program a channel runs, and
    whatever witness and transaction are presented, its script passes only if both parties
    have signed and the transaction either carries a newer sequence number than the coin,
    or is a settlement with the sequence of the coin after the contest window; every such
    settlement passes, so no program can hold it up, and for the plain payment program
    every such update passes too. *)
Theorem channel_coins_move_by_both_signatures {Pl : Platform} patience fuel k program a b delay script w ctx :
  map_get k (Pg.programs sha3_256) = Some program → Pg.buildScript program [a; b] delay = Ok script → (4 <= fuel)%nat →
  (passes (evaluateScript patience fuel script w ctx) = true → admits w ctx a b (window program delay)) ∧
  (admits w ctx a b (window program delay) → (∃ q p, reading ctx = Ok (true, q, p)) ∨ program = Pg.DefaultEltooPaymentProgram →
   passes (evaluateScript patience fuel script w ctx) = true).
Proof. apply scripts_admit. Qed.

(** Two keys that signed; the coin is 300 blocks old. *)
#[local] Existing Instance EvSpec.toy.
Definition toy_key (c : string) : string := String.concat "" (repeat c 32).
Definition toy_party (c : string) : Om.ChannelParticipant := Om.mkParty c (toy_key c) None.
Definition toy_signers : ScriptWitness :=
  mkWitness [(toy_key "0a", Flat (hex_pairs (toy_key "0a"))); (toy_key "0b", Flat (hex_pairs (toy_key "0b")))] [].
Definition toy_spend (settlement : string) (sequence : string) (height : Z) : TxContext :=
  mkCtx (of_Z height) None (of_Z 0) [mkCoin (of_Z 5) "0x00" "0xc1" "0xad" (Some (of_Z 100)) None] []
    [("100", settlement); ("101", sequence)]%string [("100", "false"); ("101", "7")]%string (Some "digest"%string) [] false None false.

Definition toy_seven : Value := VNum (mkMini 7 (Some 0)).

(** A settlement of the counter program passes, and a stale update of it does not. *)
Lemma channel_coins_move_by_both_signatures_witness :
  let program := Pg.CounterProgram in
  ∃ script, Pg.buildScript program [toy_party "0a"; toy_party "0b"] None = Ok script ∧
    passes (evaluateScript 0 1025 script toy_signers (toy_spend "true" "7" 400)) = true ∧
    (passes (evaluateScript 0 1025 script toy_signers (toy_spend "false" "7" 400)) = true →
     admits toy_signers (toy_spend "false" "7" 400) (toy_party "0a") (toy_party "0b") 256).
Proof.
  intros program. destruct (Pg.buildScript program [toy_party "0a"; toy_party "0b"] None) as [script|e] eqn:E; [|vm_compute in E; discriminate E].
  exists script. split; [reflexivity|].
  assert (map_get "counter@1" (Pg.programs sha3_256) = Some program) as Hk by reflexivity.
  assert (window program None = 256) as Hw by reflexivity.
  pose proof (λ ctx, channel_coins_move_by_both_signatures 0 1025 "counter@1" program _ _ None script toy_signers ctx Hk E ltac:(lia)) as H.
  rewrite Hw in H. split; [|exact (proj1 (H _))]. refine (proj2 (H _) _ (or_introl _)).
  - split; [vm_compute; reflexivity|]. split; [vm_compute; reflexivity|]. exists true, toy_seven, toy_seven. split; [vm_compute; reflexivity|].
    split; [vm_compute; reflexivity|]. exists (VNum (mkMini 300 (Some 0))). split; vm_compute; reflexivity.
  - exists toy_seven, toy_seven. vm_compute. reflexivity.
Defined.

End ElSpec.
