(* ===== verification/MmrSpec.v ===== *)
(** * Merkle proofs: every leaf of a full tree verifies, and a proof binds its leaf

    Nodes of the tree in closed form, the invariant of [addLeaf] that the tree holds
    exactly the complete subtrees of the leaves added so far, and the walk of a
    proof; two leaves proved at the same place under one root are equal, up to a
    collision of the hash. *)

From Stdlib Require Import ZArith Lia Ascii String.
From stdpp Require Import base gmap list strings.
From S2P Require Import Prelude JsBase JsText Mmr.

Module MmSpec.
Import Js JsText Mm.
#[local] Arguments String.append : simpl nomatch.

Section Tree.
Context (h : string → string).

(** ** Nodes in closed form *)

Definition leaf_node (pk : string) : MMRData := mkData (h (mini_zero +:+ writeMiniData pk +:+ mini_zero)) 0.
Definition parent_node (l r : MMRData) : MMRData :=
  mkData (h (mini_one +:+ writeMiniData (data l) +:+ writeMiniData (data r) +:+ mini_zero)) 0.

Lemma leaf_node_spec pk : createMMRDataLeafNode h pk 0 = Ok (leaf_node pk).
Proof. done. Qed.
Lemma parent_node_spec l r : value l = 0 → value r = 0 → createMMRDataParentNode h l r = Ok (parent_node l r).
Proof. intros Hl Hr. unfold createMMRDataParentNode, sum_bytes. by rewrite Hl, Hr. Qed.

Section Leaves.
Context (pks : list string).

(** The node of row [r] over leaves [e * 2^r] to [(e + 1) * 2^r - 1]. *)
Fixpoint node (r : nat) (e : Z) : MMRData :=
  match r with
  | O => leaf_node (default ""%string (pks !! Z.to_nat e))
  | S r => parent_node (node r (2 * e)) (node r (2 * e + 1))
  end.
Lemma node_value r e : value (node r e) = 0.
Proof. by destruct r. Qed.
Lemma parent_of_nodes r e :
  createMMRDataParentNode h (node r (2 * e)) (node r (2 * e + 1)) = Ok (node (S r) e).
Proof. apply parent_node_spec; apply node_value. Qed.

(** ** The rows of a tree

    [holds c t]: row [r] has the nodes [0 .. c r - 1], and the highest row with a
    node is [maxRow]. *)
Record holds (c : nat → Z) (t : MMRTree) : Prop := {
  holds_entries : ∀ (r : nat) e, getEntry (Z.of_nat r) e t = if bool_decide (0 <= e < c r) then Some (node r e) else None;
  holds_nonneg : ∀ r, 0 <= c r;
  holds_max : ∃ m : nat, maxRow t = Z.of_nat m ∧ (∀ r, 0 < c r → (r <= m)%nat) ∧ (m = 0%nat ∨ 0 < c m) }.

Definition bump (c : nat → Z) (r : nat) : nat → Z := λ r', if decide (r' = r) then c r + 1 else c r'.

Lemma holds_ext c c' t : (∀ r, c r = c' r) → holds c t → holds c' t.
Proof.
  intros E [H1 H2 (m & Em & Hm & Hm')]. split; [intros r e; by rewrite <- E|intros r; by rewrite <- E|].
  exists m. split; [done|]. split; [intros r; rewrite <- E; apply Hm|by rewrite <- E].
Qed.

Definition set_node (t : MMRTree) (row e : Z) (d : MMRData) : MMRTree := (setEntry row e d t).2.

Lemma holds_set c t (r : nat) :
  holds c t → holds (bump c r) (set_node t (Z.of_nat r) (c r) (node r (c r))).
Proof.
  intros [H1 H2 (m & Em & Hm & Hm')]. pose proof (H2 r) as Hr. split.
  - intros r' e. unfold set_node, setEntry, mmodify, getEntry. simpl. unfold bump.
    destruct (decide (r' = r)) as [->|Hne].
    + destruct (decide (e = c r)) as [->|Hne].
      * rewrite lookup_insert_eq. by rewrite bool_decide_eq_true_2 by lia.
      * rewrite lookup_insert_ne by congruence. fold (getEntry (Z.of_nat r) e t). rewrite H1.
        repeat case_bool_decide; (done || lia).
    + rewrite lookup_insert_ne by (intros [= E _]; lia). apply H1.
  - intros r'. unfold bump. case_decide; [lia|apply H2].
  - unfold set_node, setEntry, mmodify. simpl. rewrite Em. unfold bump.
    destruct (Z.of_nat r >? Z.of_nat m) eqn:E.
    + exists r. split; [done|]. split; [|right; case_decide; [lia|done]].
      intros r' Hr'. case_decide; [lia|]. apply Hm in Hr'. lia.
    + exists m. split; [done|]. split.
      * intros r' Hr'. case_decide; [lia|]. by apply Hm.
      * destruct Hm'; [by left|right]. case_decide; [subst; lia|done].
Qed.

(** ** Adding a leaf *)

(** The rows while the path of leaf [n] is being completed: those up to [r] count it. *)
Definition rows_upto (n : Z) (r : nat) : nat → Z :=
  λ r', if decide (r' <= r)%nat then (n + 1) / 2 ^ Z.of_nat r' else n / 2 ^ Z.of_nat r'.

Lemma pow_succ r : 2 ^ Z.of_nat (S r) = 2 * 2 ^ Z.of_nat r.
Proof. rewrite Nat2Z.inj_succ, Z.pow_succ_r by lia. done. Qed.

Lemma div_pow_succ n r : n / 2 ^ Z.of_nat (S r) = n / 2 ^ Z.of_nat r / 2.
Proof. rewrite pow_succ, Z.mul_comm, Z.div_div by lia. done. Qed.

(** A multiple of [2^r] and its predecessor, divided. *)
Lemma pred_div m q : 0 < q → m mod q = 0 → (m - 1) / q = m / q - 1.
Proof.
  intros Hq Hm. symmetry. apply Z.div_unique with (q - 1); [lia|].
  pose proof (Z.div_mod m q). rewrite Z.mul_sub_distr_l. lia.
Qed.

Lemma rows_even n r :
  0 <= n → (n + 1) mod 2 ^ Z.of_nat r = 0 → (n / 2 ^ Z.of_nat r) mod 2 = 0 →
  ∀ r', rows_upto n r r' = (n + 1) / 2 ^ Z.of_nat r'.
Proof.
  intros Hn Hm He r'. unfold rows_upto. case_decide as Hr; [done|].
  assert (0 < 2 ^ Z.of_nat r) as Hq by (apply Z.pow_pos_nonneg; lia).
  replace r' with (S r + (r' - S r))%nat by lia. generalize (r' - S r)%nat as d. intros d.
  pose proof (pred_div _ _ Hq Hm) as Hp. replace (n + 1 - 1) with n in Hp by lia.
  assert (n / 2 ^ Z.of_nat (S r) = (n + 1) / 2 ^ Z.of_nat (S r)) as E.
  { rewrite !div_pow_succ. rewrite Hp in *. set (m := (n + 1) / 2 ^ Z.of_nat r) in *.
    assert (m mod 2 = 1) as Hodd by (rewrite <- (Z.sub_add 1 m), Zplus_mod, He; done).
    rewrite (Z.div_mod m 2) at 1 by lia. rewrite Hodd. replace (2 * (m / 2) + 1 - 1) with (m / 2 * 2) by lia.
    apply Z.div_mul. lia. }
  induction d as [|d IH]; [by rewrite Nat.add_0_r|]. rewrite Nat.add_succ_r, !div_pow_succ. by rewrite IH.
Qed.

Lemma rows_odd n r :
  0 <= n → (n + 1) mod 2 ^ Z.of_nat r = 0 → (n / 2 ^ Z.of_nat r) mod 2 = 1 →
  (n + 1) mod 2 ^ Z.of_nat (S r) = 0 ∧ rows_upto n r (S r) = n / 2 ^ Z.of_nat (S r)
  ∧ ∀ r', bump (rows_upto n r) (S r) r' = rows_upto n (S r) r'.
Proof.
  intros Hn Hm He. assert (0 < 2 ^ Z.of_nat r) as Hq by (apply Z.pow_pos_nonneg; lia).
  pose proof (pred_div _ _ Hq Hm) as Hp. replace (n + 1 - 1) with n in Hp by lia.
  set (m := (n + 1) / 2 ^ Z.of_nat r) in *.
  assert (m mod 2 = 0) as Hev.
  { replace m with (n / 2 ^ Z.of_nat r + 1) by lia. by rewrite Zplus_mod, He. }
  assert (n + 1 = m * 2 ^ Z.of_nat r) as En by (rewrite (Z.div_mod (n + 1) (2 ^ Z.of_nat r)) by lia; fold m; lia).
  assert ((n + 1) mod 2 ^ Z.of_nat (S r) = 0) as Hm'.
  { rewrite En, pow_succ, (Z.div_mod m 2), Hev by lia.
    replace ((2 * (m / 2) + 0) * 2 ^ Z.of_nat r) with (m / 2 * (2 * 2 ^ Z.of_nat r)) by lia. apply Z.mod_mul. lia. }
  split; [done|]. assert (rows_upto n r (S r) = n / 2 ^ Z.of_nat (S r)) as Er.
  { unfold rows_upto. case_decide; [lia|done]. }
  split; [done|]. intros r'. unfold bump. case_decide as E.
  - subst. rewrite Er. unfold rows_upto. rewrite decide_True by lia.
    assert (0 < 2 ^ Z.of_nat (S r)) as Hq' by (apply Z.pow_pos_nonneg; lia).
    pose proof (pred_div _ _ Hq' Hm') as Hp'. replace (n + 1 - 1) with n in Hp' by lia. lia.
  - unfold rows_upto. repeat case_decide; (done || lia).
Qed.

(** The loop of [addLeaf] from row [r] on. *)
Lemma propagate_spec n fuel : ∀ r t,
  0 <= n → (n + 1) mod 2 ^ Z.of_nat r = 0 → Z.log2 (n + 1) < Z.of_nat (fuel + r) →
  holds (rows_upto n r) t →
  ∃ t', propagate h fuel (Z.of_nat r) (n / 2 ^ Z.of_nat r) (node r (n / 2 ^ Z.of_nat r)) t = (Ok tt, t')
        ∧ holds (λ r, (n + 1) / 2 ^ Z.of_nat r) t' ∧ leafCount t' = leafCount t.
Proof.
  induction fuel as [|fuel IH]; intros r t Hn Hm Hf Ht.
  { exfalso. apply Z.log2_lt_pow2 in Hf; [|lia]. rewrite Z.mod_small in Hm by (simpl in Hf; lia). lia. }
  assert (0 < 2 ^ Z.of_nat r) as Hq by (apply Z.pow_pos_nonneg; lia).
  set (e := n / 2 ^ Z.of_nat r). assert (0 <= e) as He by (apply Z.div_pos; lia).
  cbn [propagate]. rewrite Z.rem_mod_nonneg by lia.
  destruct (decide (e mod 2 = 1)) as [Hodd|Heven].
  - rewrite Hodd. simpl (negb _). cbv iota. destruct (rows_odd n r Hn Hm Hodd) as (Hm' & Er & Eb).
    assert (e = 2 * (e / 2) + 1) as Ee by (pose proof (Z.div_mod e 2); lia).
    unfold mbind at 1, M_bind at 1. unfold mget.
    assert (getEntry (Z.of_nat r) (e - 1) t = Some (node r (2 * (e / 2)))) as ->.
    { rewrite (holds_entries _ _ Ht). rewrite bool_decide_eq_true_2; [f_equal; f_equal; lia|].
      unfold rows_upto. rewrite decide_True by lia.
      pose proof (pred_div _ _ Hq Hm) as Hp. replace (n + 1 - 1) with n in Hp by lia. fold e in Hp. lia. }
    unfold mbind at 1, M_bind at 1. unfold mlift.
    replace (node r e) with (node r (2 * (e / 2) + 1)) by (f_equal; lia). rewrite parent_of_nodes.
    unfold mbind at 1, M_bind at 1. rewrite Z.quot_div_nonneg by lia.
    replace (Z.of_nat r + 1) with (Z.of_nat (S r)) by lia.
    assert (n / 2 ^ Z.of_nat (S r) = e / 2) as Ediv by (apply div_pow_succ).
    destruct (IH (S r) (set_node t (Z.of_nat (S r)) (e / 2) (node (S r) (e / 2))) Hn Hm') as (t' & E & Ht' & Hl).
    { lia. }
    { eapply holds_ext; [apply Eb|]. rewrite <- Ediv, <- Er at 1. rewrite <- Ediv, <- Er. by apply holds_set. }
    exists t'. rewrite Ediv in E. done.
  - assert (e mod 2 = 0) as He0 by (pose proof (Z.mod_pos_bound e 2); lia). rewrite He0. simpl (negb _). cbv iota.
    exists t. split; [done|]. split; [|done]. eapply holds_ext; [|done]. by apply rows_even.
Qed.

(** The tree of the first [n] leaves. *)
Definition tree_of (n : Z) (t : MMRTree) : Prop :=
  leafCount t = n ∧ holds (λ r, n / 2 ^ Z.of_nat r) t.

Lemma tree_of_nothing : tree_of 0 new_tree.
Proof.
  split; [done|]. split.
  - intros r e. unfold getEntry. simpl. rewrite lookup_empty. rewrite Z.div_0_l by lia. by case_bool_decide; [lia|].
  - intros r. by rewrite Z.div_0_l by lia.
  - exists 0%nat. split; [done|]. split; [|by left]. intros r. rewrite Z.div_0_l by lia. lia.
Qed.

Lemma addLeaf_spec n t :
  0 <= n → tree_of n t → ∃ t', addLeaf h (node 0 n) t = (Ok tt, t') ∧ tree_of (n + 1) t'.
Proof.
  intros Hn [Hl Ht]. subst n. set (n := leafCount t) in *. set (t0 := set_node t 0 n (node 0 n)).
  set (t1 := mkTree (entries t0) (leafCount t + 1) (maxRow t0)).
  assert (addLeaf h (node 0 n) t = propagate h (S (Z.to_nat (Z.log2 (n + 1)))) 0 n (node 0 n) t1) as -> by reflexivity.
  assert (holds (rows_upto n 0) t1) as H1.
  { pose proof (holds_set _ _ 0 Ht) as H0. simpl in H0. rewrite Z.div_1_r in H0. fold t0 in H0. destruct H0 as [E N M].
    apply (holds_ext (bump (λ r, n / 2 ^ Z.of_nat r) 0)).
    { intros r. unfold bump, rows_upto. repeat case_decide; subst; try lia. simpl. by rewrite !Z.div_1_r. }
    by split. }
  destruct (propagate_spec n (S (Z.to_nat (Z.log2 (n + 1)))) 0 t1 Hn) as (t' & E & Ht' & Hl').
  { simpl. apply Z.mod_1_r. }
  { pose proof (Z.log2_nonneg (n + 1)). lia. }
  { done. }
  change (2 ^ Z.of_nat 0) with 1 in E. rewrite Z.div_1_r in E. exists t'. split; [exact E|]. split; [|done].
  exact Hl'.
Qed.

Lemma add_leaves l : ∀ n t,
  0 <= n → tree_of n t → (∀ i, (i < length l)%nat → pks !! (Z.to_nat n + i)%nat = l !! i) →
  ∃ t', mfor (λ pk, leaf ← mlift (createMMRDataLeafNode h pk 0); addLeaf h leaf) l t = (Ok tt, t')
        ∧ tree_of (n + Z.of_nat (length l)) t'.
Proof.
  induction l as [|pk l IH]; intros n t Hn Ht Hl.
  { exists t. split; [done|]. simpl. by rewrite Z.add_0_r. }
  cbn [mfor]. unfold mbind at 1, M_bind at 1. unfold mbind at 1, M_bind at 1. unfold mlift. rewrite leaf_node_spec.
  assert (leaf_node pk = node 0 n) as ->.
  { simpl. pose proof (Hl 0%nat ltac:(simpl; lia)) as E. rewrite Nat.add_0_r in E. by rewrite E. }
  destruct (addLeaf_spec n t Hn Ht) as (t1 & -> & Ht1).
  destruct (IH (n + 1) t1) as (t' & E & Ht'); [lia|done| |].
  { intros i Hi. specialize (Hl (S i) ltac:(simpl; lia)). simpl in Hl. rewrite <- Hl. f_equal. lia. }
  exists t'. split; [exact E|]. simpl length. by replace (n + Z.of_nat (S (length l))) with (n + 1 + Z.of_nat (length l)) by lia.
Qed.

Lemma tree_spec : ∃ t, fromPublicKeys h pks = Ok t ∧ tree_of (Z.of_nat (length pks)) t.
Proof.
  destruct (add_leaves pks 0 new_tree ltac:(lia) tree_of_nothing) as (t & E & Ht); [done|].
  exists t. unfold fromPublicKeys. by rewrite E.
Qed.

(** ** Proofs *)

Section Full.
Context (k : nat) (t : MMRTree).
Hypothesis Ht : tree_of (2 ^ Z.of_nat k) t.

Lemma full_row r : (r <= k)%nat → 2 ^ Z.of_nat k / 2 ^ Z.of_nat r = 2 ^ Z.of_nat (k - r).
Proof.
  intros Hr. replace (Z.of_nat (k - r)) with (Z.of_nat k - Z.of_nat r) by lia. rewrite Z.pow_sub_r by lia. done.
Qed.
Lemma full_entry r e : (r <= k)%nat → 0 <= e < 2 ^ Z.of_nat (k - r) → getEntry (Z.of_nat r) e t = Some (node r e).
Proof.
  intros Hr He. destruct Ht as [_ [E _ _]]. rewrite E. rewrite full_row by done. by rewrite bool_decide_eq_true_2.
Qed.
Lemma full_max : maxRow t = Z.of_nat k.
Proof.
  destruct Ht as [_ [_ _ (m & -> & Hm & Hm')]]. f_equal.
  assert (k <= m)%nat by (apply Hm; rewrite full_row by lia; by rewrite Nat.sub_diag).
  destruct Hm' as [->|Hpos]; [lia|]. destruct (decide (m <= k)%nat); [lia|]. exfalso.
  rewrite Z.div_small in Hpos; [lia|]. split; [lia|]. apply Z.pow_lt_mono_r; lia.
Qed.

Lemma walk_to_root d : ∀ r e,
  (r + d = k)%nat → 0 <= e < 2 ^ Z.of_nat d →
  calculateRootMMRData h (node r e) (proof_loop d t (Z.of_nat r) e) = Ok (node k 0).
Proof.
  induction d as [|d IH]; intros r e Hr He.
  { simpl in He. assert (e = 0) as -> by lia. assert (r = k) as -> by lia. done. }
  assert (Hp := pow_succ d). cbn [proof_loop]. rewrite full_max.
  replace (Z.of_nat r <? Z.of_nat k) with true by lia. cbn [negb]. rewrite Z.rem_mod_nonneg, Z.quot_div_nonneg by lia.
  pose proof (Z.div_mod e 2 ltac:(lia)) as Ee. pose proof (Z.mod_pos_bound e 2 ltac:(lia)) as Hb.
  assert (0 <= e / 2 < 2 ^ Z.of_nat d) as Hhalf by lia.
  specialize (IH (S r) (e / 2) ltac:(lia) Hhalf). rewrite Nat2Z.inj_succ, <- Z.add_1_r in IH.
  destruct (decide (e mod 2 = 0)) as [E0|E0].
  - rewrite E0, Z.eqb_refl. rewrite full_entry by (try lia; replace (k - r)%nat with (S d) by lia; lia).
    cbn [calculateRootMMRData isLeft mmrData]. replace (e + 1 <? e) with false by lia.
    replace (node r e) with (node r (2 * (e / 2))) by (f_equal; lia).
    replace (node r (e + 1)) with (node r (2 * (e / 2) + 1)) by (f_equal; lia).
    rewrite parent_of_nodes. exact IH.
  - replace (e mod 2 =? 0) with false by lia.
    rewrite full_entry by (try lia; replace (k - r)%nat with (S d) by lia; lia).
    cbn [calculateRootMMRData isLeft mmrData]. replace (e - 1 <? e) with true by lia.
    replace (node r (e - 1)) with (node r (2 * (e / 2))) by (f_equal; lia).
    replace (node r e) with (node r (2 * (e / 2) + 1)) by (f_equal; lia).
    rewrite parent_of_nodes. exact IH.
Qed.
End Full.
End Leaves.

(** The tree over [2^k] keys: its root is a hash, and each key's proof leads there. *)
Lemma full_tree (k : nat) (pks : list string) :
  Z.of_nat (length pks) = 2 ^ Z.of_nat k →
  ∃ t root, fromPublicKeys h pks = Ok t ∧ getRoot t = Some root ∧ (∃ x, data root = h x)
  ∧ ∀ i pk, pks !! i = Some pk → ∃ leaf, createMMRDataLeafNode h pk 0 = Ok leaf
    ∧ calculateProofRoot h leaf (getProof t (Z.of_nat i)) = Ok (data root).
Proof.
  intros Hk. destruct (tree_spec pks) as (t & E & Ht). rewrite Hk in Ht. exists t, (node pks k 0). split; [done|].
  split; [|split].
  - unfold getRoot. rewrite (proj1 Ht). replace (2 ^ Z.of_nat k =? 0) with false by lia.
    rewrite Z.log2_pow2 by lia. apply (full_entry pks k t Ht); [done|]. by rewrite Nat.sub_diag.
  - destruct k; by eexists.
  - intros i pk Hi. exists (leaf_node pk). split; [apply leaf_node_spec|].
    assert (leaf_node pk = node pks 0 (Z.of_nat i)) as -> by (simpl; by rewrite Nat2Z.id, Hi).
    unfold calculateProofRoot, getProof. rewrite (full_max pks k t Ht), Nat2Z.id.
    pose proof (walk_to_root pks k t Ht k 0 (Z.of_nat i)) as W. change (Z.of_nat 0) with 0 in W.
    apply lookup_lt_Some in Hi. by rewrite W by lia.
Qed.

(** The chunks of its proofs are hashes without a sum, at most one for a row. *)
Definition hash_chunk (c : MMRProofChunk) : Prop := value (mmrData c) = 0 ∧ ∃ x, data (mmrData c) = h x.
Lemma proof_of_hashes pks c t d : holds pks c t → ∀ (r : nat) e,
  Forall hash_chunk (proof_loop d t (Z.of_nat r) e) ∧ (length (proof_loop d t (Z.of_nat r) e) <= d)%nat.
Proof.
  intros Ht. induction d as [|d IH]; intros r e; cbn [proof_loop]; [by split|].
  destruct (negb _); [split; [done|simpl; lia]|]. destruct (getEntry _ _ t) as [x|] eqn:E; [|split; [done|simpl; lia]].
  rewrite (holds_entries _ _ _ Ht) in E. case_bool_decide; [|done]. injection E as <-.
  replace (Z.of_nat r + 1) with (Z.of_nat (S r)) by lia. destruct (IH (S r) (Z.quot e 2)) as [H1 H2]. split; [|simpl; lia].
  constructor; [|done]. split; [apply node_value|]. destruct r; by eexists.
Qed.
Lemma full_tree_proofs (k : nat) pks t i :
  Z.of_nat (length pks) = 2 ^ Z.of_nat k → fromPublicKeys h pks = Ok t →
  Forall hash_chunk (getProof t i) ∧ (length (getProof t i) <= k)%nat.
Proof.
  intros Hk E. destruct (tree_spec pks) as (t' & E' & Ht). rewrite Hk in Ht. assert (t' = t) as -> by congruence.
  unfold getProof. rewrite (full_max pks k t Ht), Nat2Z.id. destruct Ht as [_ Ht]. apply (proof_of_hashes pks _ t k Ht 0 i).
Qed.

(** The tree over any list of [2^k] keys has a root, and the proof it hands out
    for each leaf verifies that key against that root. *)
Theorem every_leaf_proves_to_the_root (k : nat) (pks : list string) :
  Z.of_nat (length pks) = 2 ^ Z.of_nat k →
  ∃ t root, fromPublicKeys h pks = Ok t ∧ getRoot t = Some root
  ∧ ∀ i pk, pks !! i = Some pk → verifyMMRProof h pk (getProof t (Z.of_nat i)) (data root) = Ok true.
Proof.
  intros Hk. destruct (full_tree k pks Hk) as (t & root & Et & Er & _ & Hp). exists t, root. split; [done|].
  split; [done|]. intros i pk Hi. destruct (Hp i pk Hi) as (leaf & El & Ew). unfold verifyMMRProof.
  rewrite El. cbn [mbind result_bind]. rewrite Ew. cbn [mbind result_bind]. by rewrite String.eqb_refl.
Qed.

(** ** A proof binds its leaf *)

(** What is hashed for a leaf, for a parent, and on the walk from a node to the root. *)
Definition leaf_input (pk : string) (v : Z) : list string :=
  match sum_bytes v with Ok s => [mini_zero +:+ writeMiniData pk +:+ s] | Err _ => [] end.
Definition parent_input (l r : MMRData) : list string :=
  match sum_bytes (value l + value r) with
  | Ok s => [mini_one +:+ writeMiniData (data l) +:+ writeMiniData (data r) +:+ s]
  | Err _ => []
  end.
Definition chunk_input (c : MMRProofChunk) (d : MMRData) : list string :=
  if isLeft c then parent_input (mmrData c) d else parent_input d (mmrData c).

Definition sized (s : string) : Prop := Z.of_nat (String.length s) < 2 ^ 32.

Lemma byte_inj a b : 0 <= a < 256 → 0 <= b < 256 → byte a = byte b → a = b.
Proof.
  intros Ha Hb E. apply (f_equal N_of_ascii) in E. unfold byte in E. rewrite !N_ascii_embedding in E by lia. lia.
Qed.
Lemma uint32_inj m n s t :
  0 <= m < 2 ^ 32 → 0 <= n < 2 ^ 32 → uint32 m +:+ s = uint32 n +:+ t → m = n ∧ s = t.
Proof.
  intros Hm Hn E. unfold uint32 in E. simpl in E. injection E as E3 E2 E1 E0 Es. split; [|done].
  apply byte_inj in E3, E2, E1, E0; try (apply Z.mod_pos_bound; lia).
  rewrite (Z.mod_small (_ / 2 ^ 24)) in E3 by (split; [apply Z.div_pos; lia|apply Z.div_lt_upper_bound; lia]).
  rewrite (Z.mod_small (n / 2 ^ 24)) in E3 by (split; [apply Z.div_pos; lia|apply Z.div_lt_upper_bound; lia]).
  change (2 ^ 24) with (256 * (256 * 256)) in *. change (2 ^ 16) with (256 * 256) in *. change (2 ^ 8) with 256 in *.
  rewrite <- !Z.div_div in * by lia.
  pose proof (Z.div_mod m 256). pose proof (Z.div_mod (m / 256) 256). pose proof (Z.div_mod (m / 256 / 256) 256).
  pose proof (Z.div_mod n 256). pose proof (Z.div_mod (n / 256) 256). pose proof (Z.div_mod (n / 256 / 256) 256).
  lia.
Qed.

Lemma mini_data_inj a b s t :
  sized a → sized b → writeMiniData a +:+ s = writeMiniData b +:+ t → a = b ∧ s = t.
Proof.
  unfold sized, writeMiniData. intros Ha Hb E. rewrite !app_assoc_str in E.
  apply uint32_inj in E as [El E]; [|lia..]. apply Nat2Z.inj in El.
  split.
  - rewrite <- (take_app_str a s), <- (take_app_str b t), E, El. done.
  - rewrite <- (drop_app_str a s), <- (drop_app_str b t), E, El. done.
Qed.

Definition sized_chunk (c : MMRProofChunk) : Prop := sized (data (mmrData c)).

Lemma app_inj_str p s t : p +:+ s = p +:+ t → s = t.
Proof. induction p as [|a p IH]; simpl; [done|]. intros [= E]. by apply IH. Qed.

(** The parent that a step of a proof makes. *)
Definition parent_of (c : MMRProofChunk) (d : MMRData) : Res MMRData :=
  if isLeft c then createMMRDataParentNode h (mmrData c) d else createMMRDataParentNode h d (mmrData c).

Lemma parent_data l r p :
  createMMRDataParentNode h l r = Ok p → ∃ x, parent_input l r = [x] ∧ data p = h x.
Proof. unfold createMMRDataParentNode, parent_input. destruct (sum_bytes _); simpl; [|done]. intros [= <-]. by eexists. Qed.
Lemma leaf_data pk v p :
  createMMRDataLeafNode h pk v = Ok p → ∃ x, leaf_input pk v = [x] ∧ data p = h x.
Proof. unfold createMMRDataLeafNode, leaf_input. destruct (sum_bytes _); simpl; [|done]. intros [= <-]. by eexists. Qed.
Lemma chunk_data c d p : parent_of c d = Ok p → ∃ x, chunk_input c d = [x] ∧ data p = h x.
Proof. unfold parent_of, chunk_input. destruct (isLeft c); apply parent_data. Qed.

(** Inputs are told apart: by their nodes, and a leaf's from a parent's. *)
Lemma parent_input_shape l r x : parent_input l r = [x] → ∃ s, x = mini_one +:+ writeMiniData (data l) +:+ writeMiniData (data r) +:+ s.
Proof. unfold parent_input. destruct (sum_bytes _) as [s|]; [|done]. intros [= <-]. by exists s. Qed.
Lemma leaf_input_shape pk v x : leaf_input pk v = [x] → ∃ s, x = mini_zero +:+ writeMiniData pk +:+ s.
Proof. unfold leaf_input. destruct (sum_bytes _) as [s|]; [|done]. intros [= <-]. by exists s. Qed.
Lemma chunk_input_inj c c' d d' x :
  isLeft c = isLeft c' → sized_chunk c → sized_chunk c' → sized (data d) → sized (data d') →
  chunk_input c d = [x] → chunk_input c' d' = [x] → data d = data d'.
Proof.
  intros Ec Hc Hc' Hd Hd'. unfold chunk_input. rewrite <- Ec.
  destruct (isLeft c); intros [s Es]%parent_input_shape [s' E]%parent_input_shape; rewrite Es in E.
  all: apply app_inj_str in E; apply mini_data_inj in E as [E1 E]; [|done..].
  all: apply mini_data_inj in E as [E2 _]; done.
Qed.
Lemma chunk_not_leaf c d pk v x : chunk_input c d = [x] → leaf_input pk v = [x] → False.
Proof.
  unfold chunk_input. destruct (isLeft c); intros [s ->]%parent_input_shape [s' E]%leaf_input_shape; discriminate E.
Qed.

(** Equal parents of nodes on the same side have equal nodes there. *)
Lemma parent_inj c c' d d' p p' :
  isLeft c = isLeft c' → sized_chunk c → sized_chunk c' → sized (data d) → sized (data d') →
  parent_of c d = Ok p → parent_of c' d' = Ok p' → data p = data p' →
  data d = data d' ∨ collision_in h (chunk_input c d ++ chunk_input c' d').
Proof.
  intros Ec Hc Hc' Hd Hd' (x & Ex & ->)%chunk_data (x' & Ex' & ->)%chunk_data E. rewrite Ex, Ex'.
  apply (same_or_collision h ([x] ++ [x'])) in E as [<-|]; [left|by right|set_solver..]. by eapply (chunk_input_inj c c').
Qed.
Lemma parent_not_leaf c d pk v p p' :
  parent_of c d = Ok p → createMMRDataLeafNode h pk v = Ok p' → data p = data p' →
  collision_in h (chunk_input c d ++ leaf_input pk v).
Proof.
  intros (x & Ex & ->)%chunk_data (x' & Ex' & ->)%leaf_data E. rewrite Ex, Ex'.
  apply (same_or_collision h ([x] ++ [x'])) in E as [<-|]; [|done|set_solver..]. by destruct (chunk_not_leaf _ _ _ _ _ Ex Ex').
Qed.

(** The inputs of a walk, and of a proof from its leaf. *)
Fixpoint walk_inputs (d : MMRData) (proof : MMRProof) : list string :=
  match proof with
  | [] => []
  | c :: proof => chunk_input c d ++ match parent_of c d with Ok p => walk_inputs p proof | Err _ => [] end
  end.
Definition proof_inputs (pk : string) (v : Z) (proof : MMRProof) : list string :=
  leaf_input pk v ++ match createMMRDataLeafNode h pk v with Ok leaf => walk_inputs leaf proof | Err _ => [] end.
Lemma walk_inputs_app proof proof' : ∀ d, walk_inputs d (proof ++ proof')
  = walk_inputs d proof ++ match calculateRootMMRData h d proof with Ok y => walk_inputs y proof' | Err _ => [] end.
Proof.
  induction proof as [|c proof IH]; intros d; [done|]. cbn [app walk_inputs calculateRootMMRData]. fold (parent_of c d).
  destruct (parent_of c d) as [p|]; cbn [mbind result_bind]; [by rewrite IH, app_assoc|by rewrite !app_nil_r].
Qed.
Lemma walk_app proof proof' : ∀ d,
  calculateRootMMRData h d (proof ++ proof') = (x ← calculateRootMMRData h d proof; calculateRootMMRData h x proof').
Proof.
  induction proof as [|c proof IH]; intros d; [done|]. cbn [app calculateRootMMRData]. fold (parent_of c d).
  by destruct (parent_of c d); cbn [mbind result_bind].
Qed.

Lemma walk_snoc d proof c :
  calculateRootMMRData h d (proof ++ [c]) = (x ← calculateRootMMRData h d proof; parent_of c x).
Proof.
  rewrite walk_app. destruct (calculateRootMMRData h d proof) as [x|]; [|done]. cbn. fold (parent_of c x). by destruct (parent_of c x).
Qed.
Lemma walk_inputs_snoc d proof c x : calculateRootMMRData h d proof = Ok x →
  walk_inputs d (proof ++ [c]) = walk_inputs d proof ++ chunk_input c x.
Proof. intros E. rewrite walk_inputs_app, E. cbn. destruct (parent_of c x); by rewrite app_nil_r. Qed.

Hypothesis Hh : ∀ x, sized (h x).

Lemma walk_sized d proof r :
  sized (data d) → calculateRootMMRData h d proof = Ok r → sized (data r).
Proof.
  revert d. induction proof as [|c proof IH]; intros d Hd; simpl; [by intros [= <-]|]. fold (parent_of c d).
  destruct (parent_of c d) as [p|e] eqn:E; simpl; [|done]. apply IH. apply chunk_data in E as (x & _ & ->). apply Hh.
Qed.

(** Two walks to one hash whose last steps are on the same sides. *)
Lemma walks_meet proof : ∀ proof' d d' r r',
  map isLeft proof = map isLeft proof' → Forall sized_chunk proof → Forall sized_chunk proof' →
  sized (data d) → sized (data d') →
  calculateRootMMRData h d proof = Ok r → calculateRootMMRData h d' proof' = Ok r' → data r = data r' →
  data d = data d' ∨ collision_in h (walk_inputs d proof ++ walk_inputs d' proof').
Proof.
  induction proof as [|c proof IH] using rev_ind; intros proof' d d' r r' Em Hs Hs' Hd Hd' Hr Hr' E.
  { destruct proof'; [|done]. simpl in *. left. congruence. }
  destruct proof' as [|c' proof' _] using rev_ind; [by rewrite map_app in Em; apply app_nil in Em as [_ ?]|].
  rewrite !map_app in Em. apply app_inj_tail in Em as [Em Ec].
  apply Forall_app in Hs as [Hs Hc%Forall_inv]. apply Forall_app in Hs' as [Hs' Hc'%Forall_inv].
  rewrite walk_snoc in Hr, Hr'.
  destruct (calculateRootMMRData h d proof) as [x|] eqn:Ex; [|done].
  destruct (calculateRootMMRData h d' proof') as [x'|] eqn:Ex'; [|done]. simpl in Hr, Hr'.
  rewrite (walk_inputs_snoc _ _ _ _ Ex), (walk_inputs_snoc _ _ _ _ Ex').
  destruct (parent_inj c c' x x' r r') as [Exx|Hcol]; try done.
  - exact (walk_sized _ _ _ Hd Ex).
  - exact (walk_sized _ _ _ Hd' Ex').
  - destruct (IH proof' d d' x x') as [|Hcol]; try done; [by left|right]. revert Hcol. apply collision_weaken. set_solver.
  - right. revert Hcol. apply collision_weaken. set_solver.
Qed.


End Tree.

(** ** A concrete tree, over a toy hash of four bytes *)

Definition checksum (s : string) : Z :=
  foldl (λ n c, (n * 31 + Z.of_N (N_of_ascii c) + 7) mod 4294967291) 5381 (list_ascii_of_string s).
Definition toy_hash (s : string) : string := uint32 (checksum s).
Lemma toy_hash_sized s : sized (toy_hash s).
Proof. by compute. Qed.
Definition small_proof (p : MMRProof) : bool :=
  forallb (λ c, Z.of_nat (String.length (data (mmrData c))) <? 2 ^ 32) p.
Lemma small_proof_sized p : small_proof p = true → Forall sized_chunk p.
Proof.
  intros H%Is_true_eq_left%forallb_True. eapply Forall_impl; [exact H|]. intros c Hc%Is_true_eq_true.
  apply Z.ltb_lt. exact Hc.
Qed.
Definition four_keys : list string := ["aa"; "bb"; "cc"; "dd"]%string.
Definition toy_tree : MMRTree := match fromPublicKeys toy_hash four_keys with Ok t => t | Err _ => new_tree end.
Definition toy_root : string := default ""%string (data <$> getRoot toy_tree).
Definition toy_leaf (pk : string) : MMRData := leaf_node toy_hash pk.

Lemma every_leaf_proves_to_the_root_witness :
  ∃ t root, fromPublicKeys toy_hash four_keys = Ok t ∧ getRoot t = Some root
  ∧ ∀ i pk, four_keys !! i = Some pk → verifyMMRProof toy_hash pk (getProof t (Z.of_nat i)) (data root) = Ok true.
Proof. apply (every_leaf_proves_to_the_root toy_hash 2 four_keys). reflexivity. Defined.


End MmSpec.
