(* ===== verification/ProofSpec.v ===== *)
(** * Merkle proofs as bytes, and the PROOF opcode

    What [serializeMMRProof] writes, [parseMMRProofFromHex] reads back; so the PROOF
    opcode of a script decides exactly what [verifyMMRProof] decides in the wallet. *)

From Stdlib Require Import ZArith Lia Ascii String.
From stdpp Require Import base list strings.
From S2P Require Import Prelude JsBase JsText Mmr MiniNumber Lexer Parser Vm Eval EvalSpec OpcodeSpec.

Module PrfSpec.
Import Js JsText Mm.
#[local] Arguments String.append : simpl nomatch.

Notation slen s := (Z.of_nat (String.length s)).

(** ** Reading at an offset *)

Lemma drop_past n (pre s : string) : drop_str (String.length pre + n) (pre +:+ s) = drop_str n s.
Proof. induction pre as [|c pre IH]; [done|exact IH]. Qed.

Lemma slen_app (a b : string) : slen (a +:+ b) = slen a + slen b.
Proof. rewrite length_app_str. lia. Qed.

Lemma byte_at_past pre s k : 0 <= k → byte_at (pre +:+ s) (Some (slen pre + k)) = byte_at s (Some k).
Proof.
  intros Hk. pose proof (Nat2Z.is_nonneg (String.length pre)). unfold byte_at. simpl. replace (slen pre + k <? 0) with false by lia. replace (k <? 0) with false by lia.
  replace (Z.to_nat (slen pre + k)) with (String.length pre + Z.to_nat k)%nat by lia. by rewrite drop_past.
Qed.

Lemma slice_middle pre a post : slice (pre +:+ a +:+ post) (Some (slen pre)) (Some (slen pre + slen a)) = a.
Proof.
  pose proof (Nat2Z.is_nonneg (String.length pre)). pose proof (Nat2Z.is_nonneg (String.length a)).
  unfold slice, slice_bound. rewrite !slen_app. cbn [default from_option id].
  replace (slen pre <? 0) with false by lia. replace (slen pre + slen a <? 0) with false by lia.
  rewrite !Z.min_l by lia. rewrite Nat2Z.id. replace (Z.to_nat (slen pre + slen a - slen pre)) with (String.length a) by lia.
  rewrite drop_app_str. apply take_app_str.
Qed.

Lemma code_byte n : 0 <= n < 256 → code (byte n) = n.
Proof. intros Hn. unfold code, byte. rewrite N_ascii_embedding by lia. lia. Qed.

(** ** MiniNumbers *)

Lemma from_bytes_app s : ∀ a t, from_bytes a (s +:+ t) = from_bytes (from_bytes a s) t.
Proof. induction s as [|c s IH]; intros a t; [done|]. apply IH. Qed.

Lemma from_be_acc fuel : ∀ n s, 0 <= n < 2 ^ Z.of_nat fuel → from_bytes 0 (be_acc fuel n s) = from_bytes n s.
Proof.
  induction fuel as [|fuel IH]; intros n s Hn; cbn [be_acc]; [simpl in Hn; by replace n with 0 by lia|].
  pose proof (Z.mod_pos_bound n 256 ltac:(lia)). pose proof (Z.div_mod n 256 ltac:(lia)).
  destruct (n <? 256) eqn:E.
  - simpl. rewrite code_byte by lia. f_equal. rewrite Z.mod_small by lia. done.
  - rewrite IH.
    + simpl. rewrite code_byte by lia. f_equal. lia.
    + split; [apply Z.div_pos; lia|]. apply Z.div_lt_upper_bound; [lia|].
      rewrite Nat2Z.inj_succ, Z.pow_succ_r in Hn by lia. lia.
Qed.
Lemma from_big_endian n : 0 <= n → from_bytes 0 (big_endian n) = n.
Proof. intros Hn. unfold big_endian. by rewrite from_be_acc by by apply dec_fuel. Qed.

Lemma be_acc_nonempty fuel n c s : ∃ d t, be_acc fuel n (String c s) = String d t.
Proof. revert n c s. induction fuel as [|fuel IH]; intros n c s; simpl; [by eexists _, _|]. case_match; [by eexists _, _|apply IH]. Qed.
Lemma big_endian_nonempty n : ∃ d t, big_endian n = String d t.
Proof. unfold big_endian. cbn [be_acc]. case_match; [by eexists _, _|apply be_acc_nonempty]. Qed.

Lemma bigInt_bytes v s : bigIntToByteArray v = Ok s → 0 <= v ∧ from_bytes 0 s = v ∧ s ≠ "".
Proof.
  unfold bigIntToByteArray, throw_if. destruct (v <? 0) eqn:E; simpl; [done|]. intros [= <-].
  pose proof (from_big_endian v ltac:(lia)). destruct (big_endian_nonempty v) as (d & t & Ed). rewrite Ed in *.
  split; [lia|]. by case_match.
Qed.

Lemma mini_number_bytes v s : writeMiniNumber v = Ok s →
  ∃ u, s = String (byte 0) (String (byte (slen u)) u) ∧ from_bytes 0 u = v ∧ 1 <= slen u <= 255.
Proof.
  unfold writeMiniNumber, throw_if at 1. destruct (v <? 0); simpl; [done|].
  destruct (bigIntToByteArray v) as [u|] eqn:E; simpl; [|done]. apply bigInt_bytes in E as (_ & Eu & Hu).
  unfold throw_if. destruct (slen u >? 255) eqn:El; simpl; [done|]. intros [= <-]. exists u. split; [done|].
  split; [done|]. rewrite Z.gtb_ltb in El. apply Z.ltb_ge in El. destruct u; [done|]. simpl in *. lia.
Qed.

Lemma read_back_number pre v s post :
  writeMiniNumber v = Ok s → readMiniNumber (pre +:+ s +:+ post) (Some (slen pre)) = (v, Some (slen pre + slen s)).
Proof.
  intros (u & -> & Eu & Hu)%mini_number_bytes. unfold readMiniNumber, plus. simpl fmap.
  rewrite byte_at_past by lia. change (byte_at _ _) with (Some (code (byte (slen u)))). cbv iota beta.
  rewrite code_byte by lia. replace (slen u =? 0) with false by lia. f_equal.
  - rewrite <- Eu at 1. f_equal.
    pose proof (slice_middle (pre +:+ String (byte 0) (String (byte (slen u)) "")) u post) as E.
    rewrite slen_app, app_assoc_str in E. simpl in E. rewrite <- Z.add_assoc in E. exact E.
  - f_equal. simpl. lia.
Qed.

(** ** Proofs *)

(** The length of a node's hash is read as a signed 32-bit integer. *)
Definition small_chunk (c : MMRProofChunk) : Prop := slen (data (mmrData c)) < 2 ^ 31.

Lemma read_back_int32 n s : 0 <= n < 2 ^ 31 → read_int32 (uint32 n +:+ s) (Some 0) = n.
Proof.
  intros Hn. unfold read_int32, plus, uint32. simpl fmap. cbn [String.append].
  change (byte_at ?x (Some 0)) with (match x with String c _ => Some (code c) | _ => None end).
  unfold byte_at. simpl. rewrite !code_byte by (apply Z.mod_pos_bound; lia).
  rewrite (Z.mod_small (n / 2 ^ 24)) by (split; [apply Z.div_pos; lia|apply Z.div_lt_upper_bound; lia]).
  change (2 ^ 24) with (256 * (256 * 256)). change (2 ^ 16) with (256 * 256). change (2 ^ 8) with 256.
  rewrite <- !Z.div_div by lia.
  pose proof (Z.div_mod n 256). pose proof (Z.div_mod (n / 256) 256). pose proof (Z.div_mod (n / 256 / 256) 256).
  case_match; lia.
Qed.
Lemma read_int32_past pre s : read_int32 (pre +:+ s) (Some (slen pre)) = read_int32 s (Some 0).
Proof.
  unfold read_int32, plus. cbn [fmap option_fmap option_map]. by rewrite !byte_at_past by lia.
Qed.

Lemma byte_at_here pre c s : byte_at (pre +:+ String c s) (Some (slen pre)) = Some (code c).
Proof. replace (slen pre) with (slen pre + 0) by lia. by rewrite byte_at_past by lia. Qed.

Lemma read_back_chunk pre c s post :
  small_chunk c → writeMMRProofChunk c = Ok s →
  read_chunk (pre +:+ s +:+ post) (Some (slen pre)) = (c, Some (slen pre + slen s)).
Proof.
  unfold small_chunk, writeMMRProofChunk, writeMMRData, writeMiniData. destruct c as [left [d v]].
  cbn [isLeft mmrData data value]. intros Hd.
  assert (∀ x, read_int32 (uint32 (slen d) +:+ x) (Some 0) = slen d) as Hw by (intros; apply read_back_int32; lia).
  assert (slen (uint32 (slen d)) = 4) as Lw by done. revert Hw Lw. generalize (uint32 (slen d)). intros w Hw Lw.
  destruct (writeMiniNumber v) as [vs|] eqn:Ev; simpl; [|done]. intros [= <-].
  set (flag := byte (if left then 1 else 0)).
  set (full := pre +:+ String flag ((w +:+ d) +:+ vs) +:+ post).
  assert (full = pre +:+ String flag (w +:+ d +:+ vs +:+ post)) as E0.
  { unfold full. simpl. by rewrite !app_assoc_str. }
  assert (full = (pre +:+ String flag "") +:+ w +:+ d +:+ vs +:+ post) as E1.
  { by rewrite E0, app_assoc_str. }
  assert (full = (pre +:+ String flag w) +:+ d +:+ vs +:+ post) as E2.
  { by rewrite E0, app_assoc_str. }
  assert (full = (pre +:+ String flag (w +:+ d)) +:+ vs +:+ post) as E3.
  { rewrite E0, app_assoc_str. simpl. by rewrite !app_assoc_str. }
  assert (slen (pre +:+ String flag "") = slen pre + 1) as L1 by (by rewrite slen_app).
  assert (slen (pre +:+ String flag w) = slen pre + 5) as L2 by (rewrite slen_app; simpl; lia).
  assert (slen (pre +:+ String flag (w +:+ d)) = slen pre + (5 + slen d)) as L3.
  { rewrite slen_app. simpl. rewrite length_app_str. lia. }
  assert (byte_at full (Some (slen pre)) = Some (code flag)) as F0 by (rewrite E0; apply byte_at_here).
  assert (read_int32 full (Some (slen pre + 1)) = slen d) as F1 by (rewrite E1, <- L1, read_int32_past; apply Hw).
  assert (slice full (Some (slen pre + 5)) (Some (slen pre + (5 + slen d))) = d) as F2.
  { rewrite E2, Z.add_assoc, <- L2. apply slice_middle. }
  assert (readMiniNumber full (Some (slen pre + (5 + slen d))) = (v, Some (slen pre + (5 + slen d) + slen vs))) as F3.
  { rewrite E3, <- L3. by apply read_back_number. }
  unfold read_chunk, plus. cbn [fmap option_fmap option_map]. rewrite F0, F1, F2, F3. f_equal.
  - f_equal. by destruct left.
  - f_equal. simpl. rewrite !length_app_str. lia.
Qed.

Lemma read_back_chunks proof : ∀ pre parts post,
  Forall small_chunk proof → result_mapM writeMMRProofChunk proof = Ok parts →
  read_chunks (length proof) (pre +:+ foldr String.append "" parts +:+ post) (Some (slen pre))
  = (proof, Some (slen pre + slen (foldr String.append "" parts))).
Proof.
  induction proof as [|c proof IH]; intros pre parts post Hs.
  { intros [= <-]. simpl. by rewrite Z.add_0_r. }
  apply Forall_cons in Hs as [Hc Hs].
  simpl. destruct (writeMMRProofChunk c) as [s|] eqn:Ec; simpl; [|done].
  destruct (result_mapM _ proof) as [parts'|] eqn:Ep; simpl; [|done]. intros [= <-]. simpl.
  rewrite app_assoc_str, (read_back_chunk _ _ _ _ Hc Ec). rewrite <- slen_app, <- app_assoc_str.
  rewrite (IH _ parts') by done. f_equal. f_equal. rewrite !slen_app. lia.
Qed.

(** What is read back from the bytes of a proof, with anything after them. *)
Lemma read_back_proof proof blockTime bytes post :
  Forall small_chunk proof → serializeMMRProof proof blockTime = Ok bytes →
  parseMMRProofFromHex (bytes +:+ post) = mkParsed proof blockTime (Some (slen bytes)).
Proof.
  intros Hs. unfold serializeMMRProof. destruct (writeMiniNumber blockTime) as [bt|] eqn:Eb; simpl; [|done].
  destruct (writeMiniNumber (Z.of_nat _)) as [len|] eqn:El; simpl; [|done].
  destruct (result_mapM _ _) as [parts|] eqn:Ep; simpl; [|done]. intros [= <-]. unfold parseMMRProofFromHex.
  rewrite !app_assoc_str. pose proof (λ post, read_back_number "" _ _ post Eb) as R. simpl in R. rewrite R.
  rewrite (read_back_number bt _ _ _ El). rewrite Nat2Z.id, <- slen_app, <- app_assoc_str.
  rewrite (read_back_chunks _ _ _ _ Hs Ep). f_equal. f_equal. rewrite !slen_app. lia.
Qed.
Lemma serialized_nonempty proof blockTime bytes : serializeMMRProof proof blockTime = Ok bytes → bytes ≠ "".
Proof.
  unfold serializeMMRProof. destruct (writeMiniNumber blockTime) as [bt|] eqn:Eb; simpl; [|done].
  apply mini_number_bytes in Eb as (u & -> & _). destruct (writeMiniNumber (Z.of_nat _)); simpl; [|done].
  destruct (result_mapM _ _); simpl; [|done]. by intros [= <-].
Qed.

(** A Merkle proof survives its byte form: reading what was written gives the
    same chunks, flags, hashes and sums, in order, the block time, and the length of the
    text as the count of bytes read. *)
Theorem proofs_survive_their_bytes proof blockTime bytes :
  Forall small_chunk proof → serializeMMRProof proof blockTime = Ok bytes →
  parseMMRProofFromHex bytes = mkParsed proof blockTime (Some (slen bytes)).
Proof. intros Hs E. rewrite <- (app_nil_r_str bytes) at 1. by apply read_back_proof. Qed.

(** ** Hexadecimal *)

Lemma decode_hex_byte c s : decode_pairs (hex_byte c +:+ s) = (String c) <$> decode_pairs s.
Proof.
  destruct c as [[] [] [] [] [] [] [] []]; simpl; by destruct (decode_pairs s).
Qed.
Lemma decode_hex s : decode_pairs (hex_of_bytes s) = Ok s.
Proof. induction s as [|c s IH]; [done|]. rewrite hex_of_bytes_cons, decode_hex_byte, IH. done. Qed.

Lemma hex_decodes s : hexToBytes (hex_of_bytes s) = Ok s.
Proof.
  unfold hexToBytes. rewrite hex_of_bytes_no_prefix, hex_of_bytes_even. simpl. apply decode_hex.
Qed.

Lemma normal_hex s : Vm.normalizeHex ("0x" +:+ hex_of_bytes s) = hex_of_bytes s.
Proof.
  unfold Vm.normalizeHex. change (toLowerCase ("0x" +:+ hex_of_bytes s)) with ("0x" +:+ toLowerCase (hex_of_bytes s)).
  by rewrite lower_hex, starts_with_app.
Qed.
Lemma strip_hex s : Vm.strip_0x ("0x" +:+ s) = s.
Proof. unfold Vm.strip_0x, Vm.is_0x. by rewrite starts_with_app. Qed.
Lemma hex_eqb a b : String.eqb (hex_of_bytes a) (hex_of_bytes b) = String.eqb a b.
Proof.
  destruct (String.eqb_spec a b) as [->|N]; [apply String.eqb_refl|]. apply String.eqb_neq. intros E.
  by rewrite <- (hex_of_bytes_pairs a), E, hex_of_bytes_pairs in N.
Qed.

(** ** The PROOF opcode *)

Section Opcode.
Import Mn Ps Vm Ev OpSpec.
#[local] Arguments String.append : simpl never.
Context `{Platform}.

Definition lit (v : Value) : ASTNode := LiteralNode (SValue v).
Definition hex_lit (bytes : string) : ASTNode := lit (VStr ("0x" +:+ hex_of_bytes bytes)).
Definition zero_sum (c : MMRProofChunk) : Prop := value (mmrData c) = 0.

Lemma walk_zero proof : ∀ d, value d = 0 → Forall zero_sum proof →
  ∃ r, calculateRootMMRData sha3_256 d proof = Ok r ∧ value r = 0.
Proof.
  induction proof as [|c proof IH]; intros d Hd Hp; [by exists d|]. apply Forall_cons in Hp as [Hc Hp].
  unfold zero_sum in Hc. simpl. unfold createMMRDataParentNode, sum_bytes.
  destruct (isLeft c); rewrite Hc, Hd; simpl; by apply IH.
Qed.

Lemma proof_run key root bytes proof s :
  Forall small_chunk proof → Forall zero_sum proof → pp_proof (parseMMRProofFromHex bytes) = proof → bytes ≠ "" →
  ∃ b lines, verifyMMRProof sha3_256 key proof root = Ok b
  ∧ evalProof ("0x" +:+ hex_of_bytes key) ZERO ("0x" +:+ hex_of_bytes root) ZERO ("0x" +:+ hex_of_bytes bytes) true s
    = (Ok b, traced lines s).
Proof.
  intros Hs Hz Hb Hne. unfold verifyMMRProof, calculateProofRoot.
  destruct (createMMRDataLeafNode sha3_256 key 0) as [leaf|] eqn:El; [|done].
  assert (value leaf = 0) as Hl.
  { unfold createMMRDataLeafNode, sum_bytes in El. simpl in El. by injection El as <-. }
  destruct (walk_zero proof leaf Hl Hz) as (r & Er & Hr). exists (String.eqb (data r) root). simpl. rewrite Er. simpl.
  unfold evalProof, guarded. rewrite !normal_hex, !strip_hex, !hex_decodes. change (unscaled ZERO) with 0.
  cbn [mbind result_bind]. rewrite El, Hb, Er.
  replace (String.eqb (hex_of_bytes bytes) "") with false by (destruct bytes; [done|by destruct a]).
  unfold quoted_root. rewrite normal_hex, hex_eqb, Hr, Z.eqb_refl, andb_true_r.
  eexists. split; [done|]. reflexivity.
Qed.

Notation count := instructionCount.
Definition after (n : Z) (s : VMState) : VMState := set_count (count s + n) s.
Lemma after_after m n s : after n (after m s) = after (m + n) s.
Proof. unfold after. destruct s. simpl. unfold set_count. simpl. f_equal. lia. Qed.

Section Node.
Context (patience fuel : nat).
Notation ev := (evalExpr patience (S fuel)).

Lemma lit_string v s : count s < MAX_INSTRUCTIONS → ev_string ev (lit v) s = (Ok (string_of v), after 1 s).
Proof. intros L. unfold ev_string, lit, fmap, M_fmap, mbind, M_bind. by rewrite literal_run. Qed.
Lemma lit_zero s : count s < MAX_INSTRUCTIONS → ev_number ev (lit (VNum ZERO)) s = (Ok ZERO, after 1 s).
Proof. intros L. unfold ev_number, lit, mbind, M_bind. by rewrite literal_run. Qed.

Lemma proof_node_run key root bytes proof s :
  Forall small_chunk proof → Forall zero_sum proof → pp_proof (parseMMRProofFromHex bytes) = proof → bytes ≠ "" →
  count s + 5 <= MAX_INSTRUCTIONS →
  ∃ b s', verifyMMRProof sha3_256 key proof root = Ok b
  ∧ eval_proof_node ev (hex_lit key) (lit (VNum ZERO)) (hex_lit root) (lit (VNum ZERO)) (hex_lit bytes) s = (Ok b, s').
Proof.
  intros Hs Hz Hb Hne L.
  destruct (proof_run key root bytes proof (after 5 s) Hs Hz Hb Hne) as (b & lines & Ev & E). exists b. eexists.
  split; [done|]. unfold eval_proof_node, hex_lit.
  do 5 (unfold mbind at 1, M_bind at 1; first [rewrite lit_string by (simpl; lia)|rewrite lit_zero by (simpl; lia)]).
  rewrite !after_after. simpl string_of.
  change (starts_with "[" ("0x" +:+ hex_of_bytes key)) with false. unfold is_0x. rewrite starts_with_app. exact E.
Qed.
End Node.

(** C19. The PROOF opcode on a key, a root and the bytes of a proof without sums gives
    the answer of the wallet's [verifyMMRProof], and never fails while instructions
    last. *)
Theorem the_proof_opcode_decides_as_the_wallet patience fuel key root proof blockTime bytes s :
  Forall small_chunk proof → Forall zero_sum proof → serializeMMRProof proof blockTime = Ok bytes →
  count s + 6 <= MAX_INSTRUCTIONS →
  ∃ b s', verifyMMRProof sha3_256 key proof root = Ok b
  ∧ evalExpr patience (S (S fuel))
      (ProofNode (hex_lit key) (lit (VNum ZERO)) (hex_lit root) (lit (VNum ZERO)) (hex_lit bytes)) s
    = (Ok (VBool b), s').
Proof.
  intros Hs Hz Hb L. assert (bytes ≠ "") as Hne by (eapply serialized_nonempty; exact Hb).
  assert (pp_proof (parseMMRProofFromHex bytes) = proof) as Hp.
  { rewrite <- (app_nil_r_str bytes). by rewrite (read_back_proof _ _ _ "" Hs Hb). }
  destruct (proof_node_run patience fuel key root bytes proof (after 1 s) Hs Hz Hp Hne) as (b & s' & Ev & E); [simpl; lia|].
  exists b, s'. split; [done|]. remember (S fuel) as f eqn:Ef. simpl evalExpr. unfold eval_node.
  unfold tick, mthrow_if, mlift, throw_if, mmodify, mget. do 3 (unfold mbind at 1, M_bind at 1).
  cbn [instructionCount set_count]. replace (count s + 1 >? MAX_INSTRUCTIONS) with false by lia.
  change (set_count (count s + 1) s) with (after 1 s). unfold fmap, M_fmap, mbind, M_bind. rewrite E. done.
Qed.
End Opcode.

(** ** A concrete proof *)

Definition toy_proof : list MMRProofChunk := [mkChunk true (mkData "abc" 0); mkChunk false (mkData "de" 300)].
Definition toy_bytes (proof : list MMRProofChunk) : string :=
  match serializeMMRProof proof 7 with Ok bytes => bytes | Err _ => "" end.

Lemma proofs_survive_their_bytes_witness :
  serializeMMRProof toy_proof 7 = Ok (toy_bytes toy_proof) ∧ parseMMRProofFromHex (toy_bytes toy_proof) = mkParsed toy_proof 7 (Some (slen (toy_bytes toy_proof))).
Proof.
  split; [by vm_compute|]. apply (proofs_survive_their_bytes toy_proof 7); [|by vm_compute].
  by repeat constructor.
Defined.

#[local] Existing Instance EvSpec.toy.
Definition wallet_proof : list MMRProofChunk := [mkChunk true (mkData "abc" 0); mkChunk false (mkData "de" 0)].
Definition wallet_root : string :=
  match createMMRDataLeafNode Vm.sha3_256 "key" 0 with
  | Ok leaf => match calculateProofRoot Vm.sha3_256 leaf wallet_proof with Ok r => r | Err _ => "" end
  | Err _ => ""
  end.

(** The opcode accepts the right key, and refuses another, on the same proof. *)
Lemma the_proof_opcode_decides_as_the_wallet_witness :
  (∃ b s', verifyMMRProof Vm.sha3_256 "key" wallet_proof wallet_root = Ok b
   ∧ Ev.evalExpr 0 2
       (Ps.ProofNode (hex_lit "key") (lit (Ps.VNum Mn.ZERO)) (hex_lit wallet_root) (lit (Ps.VNum Mn.ZERO))
          (hex_lit (toy_bytes wallet_proof))) OpSpec.toy_vm
     = (Ok (Ps.VBool b), s'))
  ∧ verifyMMRProof Vm.sha3_256 "key" wallet_proof wallet_root = Ok true.
Proof.
  split; [|by vm_compute].
  apply (the_proof_opcode_decides_as_the_wallet 0 0 "key" wallet_root wallet_proof 7).
  - by repeat constructor.
  - by repeat constructor.
  - by vm_compute.
  - by vm_compute.
Defined.

End PrfSpec.
