(* ===== verification/WotsSpec.v ===== *)
(** * What a Winternitz signature promises

    A signature verifies under the key it was made with; and for two different
    digests some chain of the second would have to be walked backwards, because the
    checksum falls when the digits rise. *)

From Stdlib Require Import ZArith Lia Ascii String.
From stdpp Require Import base list strings.
From S2P Require Import Prelude JsBase JsText NumSpec Mmr ProofSpec Wots.

Module WoSpec.
Import Js JsText JsNum Mm PrfSpec Wo.
#[local] Arguments String.append : simpl nomatch.

Definition is_32 (s : string) : Prop := String.length s = 32%nat.

Lemma assert32_ok s label : is_32 s → assert32 s label = Ok tt.
Proof. unfold is_32, assert32, throw_if. by intros ->. Qed.

(** ** Key expansion *)

Lemma addByteArrays_length a : ∀ b o, String.length (addByteArrays a b o) = String.length a.
Proof. induction a as [|c a IH]; intros b o; [done|]. simpl. by rewrite IH. Qed.
Lemma addOne_length a : ∀ o, String.length (addOne a o) = String.length a.
Proof. induction a as [|c a IH]; intros o; [done|]. simpl. destruct (_ =? 0); [done|]. by rewrite IH. Qed.

(** ** Digits *)

Definition is_digit_value (d : Z) : Prop := 0 <= d <= maxDigit.

Lemma code_bound c : 0 <= code c < 256.
Proof. unfold code. pose proof (N_ascii_bounded c). lia. Qed.

Lemma message_digits s : Forall is_digit_value (map code (list_ascii_of_string s)).
Proof.
  induction s as [|c s IH]; constructor; [|done]. pose proof (code_bound c). unfold is_digit_value, maxDigit. lia.
Qed.
Lemma message_digits_length s : length (map code (list_ascii_of_string s)) = String.length s.
Proof. rewrite length_map. induction s; simpl; congruence. Qed.
Lemma digits_sum l : Forall is_digit_value l → 0 <= sum_digits l <= 255 * Z.of_nat (length l).
Proof. unfold is_digit_value, maxDigit. induction 1; simpl; lia. Qed.

Lemma land_255 c : Z.land c 255 = c mod 256.
Proof. change 255 with (Z.ones 8). by rewrite Z.land_ones by lia. Qed.
Lemma checksum_bounds n : ∀ c, Forall is_digit_value (checksum_digits n c).
Proof.
  induction n as [|n IH]; intros c; constructor; [|done]. unfold is_digit_value, maxDigit.
  rewrite land_255. pose proof (Z.mod_pos_bound c 256). lia.
Qed.

(** The digits of a digest: the message and the checksum. *)
Definition message_part (s : string) : list Z := map code (list_ascii_of_string s).
Definition checksum (s : string) : Z := 8192 - sum_digits (message_part s).
Definition all_digits_of (s : string) : list Z := message_part s ++ checksum_digits 2 (checksum s).

Lemma toWinternitzDigits_ok s :
  is_32 s → toWinternitzDigits s = Ok (message_part s, checksum_digits 2 (checksum s)).
Proof. intros Hs. unfold toWinternitzDigits. by rewrite assert32_ok. Qed.
Lemma all_digits_length s : is_32 s → length (all_digits_of s) = paramL.
Proof. intros Hs. unfold all_digits_of, message_part. rewrite length_app, message_digits_length, Hs. done. Qed.
Lemma all_digits_bounds s : Forall is_digit_value (all_digits_of s).
Proof. apply Forall_app. split; [apply message_digits|apply checksum_bounds]. Qed.
Lemma baseW_ok s : is_32 s → baseWWithChecksum s = Ok (all_digits_of s).
Proof.
  intros Hs. unfold baseWWithChecksum. rewrite toWinternitzDigits_ok by done. cbn [mbind result_bind fst snd].
  fold (all_digits_of s). by rewrite all_digits_length.
Qed.

(** *** The checksum *)

Lemma two_digits c : 0 <= c < 2 ^ 16 → ∃ lo hi, checksum_digits 2 c = [lo; hi] ∧ c = 256 * hi + lo.
Proof.
  intros Hc. eexists _, _. split; [reflexivity|]. unfold maxDigit, w.
  rewrite !land_255, Z.shiftr_div_pow2 by lia. change (2 ^ 8) with 256.
  rewrite (Z.mod_small (c / 256)) by (split; [apply Z.div_pos; lia|apply Z.div_lt_upper_bound; lia]).
  apply Z.div_mod. lia.
Qed.

Lemma sum_mono l : ∀ l', Forall2 Z.le l l' → sum_digits l <= sum_digits l' ∧ (sum_digits l = sum_digits l' → l = l').
Proof.
  induction l as [|a l IH]; intros l' H; inversion H as [|? b ? l2 Hab Hl]; subst; [by split|].
  destruct (IH _ Hl) as [H1 H2]. simpl. split; [lia|]. intros E. f_equal; [lia|]. apply H2. lia.
Qed.

Lemma message_part_inj s t : message_part s = message_part t → s = t.
Proof.
  unfold message_part. revert t. induction s as [|c s IH]; intros [|d t]; simpl; try done. intros E.
  injection E as Ec Es. f_equal; [|by apply IH].
  unfold code in Ec. apply N2Z.inj in Ec. by rewrite <- (ascii_N_embedding c), Ec, ascii_N_embedding.
Qed.

Lemma checksum_range s : is_32 s → 0 <= checksum s < 2 ^ 16.
Proof.
  intros Hs. pose proof (digits_sum _ (message_digits s)) as H. rewrite message_digits_length, Hs in H.
  unfold checksum, message_part. lia.
Qed.

Lemma digits_dominated s t :
  is_32 s → is_32 t → Forall2 Z.le (all_digits_of s) (all_digits_of t) → s = t.
Proof.
  intros Hs Ht H. apply Forall2_app_inv in H as [Hm Hc].
  2:{ unfold message_part. rewrite !message_digits_length. by rewrite Hs, Ht. }
  destruct (sum_mono _ _ Hm) as [Hle Heq].
  destruct (two_digits _ (checksum_range s Hs)) as (lo & hi & E & Es).
  destruct (two_digits _ (checksum_range t Ht)) as (lo' & hi' & E' & Et). rewrite E, E' in Hc.
  inversion Hc as [|? ? ? ? H1 Hc']; subst. inversion Hc' as [|? ? ? ? H2 _]; subst.
  apply message_part_inj, Heq. unfold checksum in *. lia.
Qed.

(** The checksum keeps a signature from being moved to another message: of two
    different digests each has a chain on which the other one's signature lies further
    along, so that reaching it would mean to invert the hash. *)
Theorem checksum_blocks_forgery digest digest' :
  is_32 digest → is_32 digest' → digest ≠ digest' →
  ∃ l l' j d d', baseWWithChecksum digest = Ok l ∧ baseWWithChecksum digest' = Ok l'
  ∧ l !! j = Some d ∧ l' !! j = Some d' ∧ d' < d.
Proof.
  intros Hd Hd' Hne. exists (all_digits_of digest), (all_digits_of digest').
  assert (¬ Forall2 Z.le (all_digits_of digest) (all_digits_of digest')) as Hn.
  { intros H. by apply Hne, digits_dominated. }
  assert (∃ j d d', all_digits_of digest !! j = Some d ∧ all_digits_of digest' !! j = Some d' ∧ d' < d) as (j & d & d' & H).
  { assert (length (all_digits_of digest) = length (all_digits_of digest')) as El by by rewrite !all_digits_length.
    revert El Hn. generalize (all_digits_of digest) (all_digits_of digest'). intros l.
    induction l as [|a l IH]; intros [|b l'] El Hn; try done; try (by destruct Hn).
    destruct (decide (a <= b)) as [Hab|Hab].
    - destruct (IH l') as (j & d & d' & H1 & H2 & H3); [by injection El|intros H; apply Hn; by constructor|].
      by exists (S j), d, d'.
    - exists 0%nat, a, b. split; [done|]. split; [done|lia]. }
  exists j, d, d'. by rewrite !baseW_ok.
Qed.

(** ** Signing and verifying *)

Lemma sig_parts_concat l : Forall is_32 l → sig_parts (length l) (concat_bytes l) = l.
Proof.
  induction 1 as [|x l Hx Hl IH]; [done|]. cbn [length sig_parts concat_bytes foldr]. fold (concat_bytes l).
  rewrite <- Hx, take_app_str, drop_app_str. by rewrite IH.
Qed.
Lemma concat_length l : Forall is_32 l → String.length (concat_bytes l) = (length l * 32)%nat.
Proof.
  induction 1 as [|x l Hx Hl IH]; [done|]. cbn [concat_bytes foldr length]. fold (concat_bytes l).
  rewrite length_app_str, Hx, IH. lia.
Qed.

(** A number of at most 8 bytes is always written. *)
Lemma be_acc_bytes fuel : ∀ n s (k : nat),
  0 <= n < 256 ^ Z.of_nat k → (0 < k)%nat → (String.length (be_acc fuel n s) <= k + String.length s)%nat.
Proof.
  induction fuel as [|fuel IH]; intros n s k Hn Hk; cbn [be_acc]; [lia|]. destruct (n <? 256) eqn:E; [simpl; lia|].
  apply Z.ltb_ge in E. destruct k as [|[|k]]; [lia|simpl in Hn; lia|].
  specialize (IH (n / 256) (String (byte (n mod 256)) s) (S k)).
  rewrite Nat2Z.inj_succ, Z.pow_succ_r in Hn by lia. simpl in IH.
  assert (0 <= n / 256 < 256 ^ Z.of_nat (S k)) as Hd by (split; [apply Z.div_pos; lia|apply Z.div_lt_upper_bound; lia]).
  specialize (IH Hd ltac:(lia)). lia.
Qed.
Lemma writeMiniNumber_small v : 0 <= v < 2 ^ 64 → ∃ s, writeMiniNumber v = Ok s.
Proof.
  intros Hv. unfold writeMiniNumber, bigIntToByteArray, throw_if. replace (v <? 0) with false by lia.
  cbn [mbind result_bind].
  assert (String.length (big_endian v) <= 8)%nat as Hl.
  { unfold big_endian. pose proof (be_acc_bytes (S (Z.to_nat (Z.log2 v))) v "" 8) as H.
    change (256 ^ Z.of_nat 8) with (2 ^ 64) in H. specialize (H Hv ltac:(lia)).
    change (String.length "") with 0%nat in H. lia. }
  set (u := match big_endian v with String c _ => _ | _ => _ end).
  assert (Z.of_nat (String.length u) <= 9) as Hu.
  { unfold u. destruct (big_endian v) as [|c r]; [simpl; lia|]. simpl in Hl. destruct (code c >=? 128); simpl; lia. }
  destruct (Z.of_nat (String.length u) >? 255) eqn:E; [apply Z.gtb_lt in E; lia|]. by eexists.
Qed.

Section Hash.
Context (h : string → string).
Hypothesis H32 : ∀ x, is_32 (h x).

Lemma next_seeds_ok n : ∀ state, is_32 state →
  ∃ l, next_seeds h n state = Ok l ∧ length l = n ∧ Forall is_32 l.
Proof.
  induction n as [|n IH]; intros state Hs; [by exists []|]. cbn [next_seeds].
  unfold nextSeed at 1. rewrite assert32_ok by done. cbn [mbind result_bind].
  destruct (IH (addOne (addByteArrays state (h state) 0) 1)) as (l & E & El & Hl).
  { unfold is_32. by rewrite addOne_length, addByteArrays_length. }
  rewrite E. cbn [mbind result_bind]. exists (h state :: l). split; [done|]. split; [simpl; by rewrite El|].
  by constructor.
Qed.

Lemma mini_index i : 0 <= i <= MAX_SAFE_INTEGER → ∃ s, serializeMiniNumber (of_Z i) = Ok s.
Proof.
  intros Hi. unfold serializeMiniNumber. rewrite num_lt_Z. replace (i <? 0) with false by lia.
  cbn [mbind result_bind throw_if]. rewrite num_integer_Z. cbn [mbind result_bind of_option].
  apply writeMiniNumber_small. unfold MAX_SAFE_INTEGER in Hi. lia.
Qed.

(** *** Chains *)

Lemma hash_times_add a b x : hash_times h b (hash_times h a x) = hash_times h (a + b) x.
Proof. revert x. induction a as [|a IH]; intros x; [done|]. apply IH. Qed.
Lemma hash_times_32 n x : is_32 x → is_32 (hash_times h n x).
Proof. revert x. induction n as [|n IH]; intros x Hx; [done|]. by apply IH. Qed.

Lemma hashChain_times x n : hashChain h x n = hash_times h (Z.to_nat n) x.
Proof. unfold hashChain. destruct (Z.ltb_spec n 1); [by replace (Z.to_nat n) with 0%nat by lia|done]. Qed.
Lemma hashChain_split x d : is_digit_value d → hashChain h (hashChain h x d) (maxDigit - d) = hashChain h x maxDigit.
Proof.
  unfold is_digit_value. intros Hd. rewrite !hashChain_times, hash_times_add. f_equal. lia.
Qed.
Lemma hashChain_32 x d : is_32 x → is_32 (hashChain h x d).
Proof. rewrite hashChain_times. apply hash_times_32. Qed.

(** *** Keys *)

Lemma private_keys_ok seed i :
  is_32 seed → 0 <= i <= MAX_SAFE_INTEGER →
  ∃ indexed l, deriveIndexedSeed h seed i = Ok indexed ∧ expandPrivateKey h indexed = Ok l
  ∧ length l = paramL ∧ Forall is_32 l.
Proof.
  intros Hs Hi. destruct (mini_index i Hi) as [m Em].
  unfold deriveIndexedSeed, deriveChainSeedJava. rewrite assert32_ok, Em by done. cbn [mbind result_bind].
  eexists. destruct (next_seeds_ok paramL (h (m +:+ writeMiniData seed))) as (l & E & El & Hl); [done|].
  exists l. split; [done|]. unfold expandPrivateKey. by rewrite assert32_ok.
Qed.

(** A key digest exists and is 32 bytes long. *)
Lemma derivePKdigest_ok seed i :
  is_32 seed → 0 <= i <= MAX_SAFE_INTEGER → ∃ pk, derivePKdigest h seed i = Ok pk ∧ is_32 pk.
Proof.
  intros Hs Hi. destruct (private_keys_ok seed i Hs Hi) as (ix & l & E1 & E2 & _).
  unfold derivePKdigest, private_keys. rewrite assert32_ok, E1 by done. cbn [mbind result_bind]. rewrite E2.
  cbn [mbind result_bind]. eexists. split; [done|]. apply H32.
Qed.

Lemma zip_32 l : ∀ ds, Forall is_32 l → Forall is_32 (zip_with (hashChain h) l ds).
Proof.
  induction l as [|x l IH]; intros ds Hl; [done|]. apply Forall_cons in Hl as [Hx Hl].
  destruct ds as [|d ds]; constructor; [by apply hashChain_32|by apply IH].
Qed.

Lemma tops_spec l : ∀ ds,
  length l = length ds → Forall is_digit_value ds →
  zip_with (λ part d, hashChain h part (maxDigit - d)) (zip_with (hashChain h) l ds) ds
  = map (λ x, hashChain h x maxDigit) l.
Proof.
  induction l as [|x l IH]; intros [|d ds] El Hd; try done. apply Forall_cons in Hd as [Hd Hds].
  simpl. rewrite hashChain_split by done. f_equal. apply IH; [by injection El|done].
Qed.

(** A signature made with a key verifies under the digest of the key. *)
Lemma wots_verifies seed i message :
  is_32 seed → is_32 message → 0 <= i <= MAX_SAFE_INTEGER →
  ∃ sig pk, wotsSign h seed i message = Ok sig ∧ derivePKdigest h seed i = Ok pk
  ∧ wotsVerifyDigest h sig message pk = Ok true ∧ String.length sig = (paramL * 32)%nat.
Proof.
  intros Hs Hm Hi. destruct (private_keys_ok seed i Hs Hi) as (ix & l & E1 & E2 & El & Hl).
  set (ds := all_digits_of (h message)).
  assert (length ds = paramL) as Ed by (by apply all_digits_length).
  set (parts := zip_with (hashChain h) l ds).
  assert (Forall is_32 parts) as Hp by (by apply zip_32).
  assert (length parts = paramL) as Elp by (unfold parts; rewrite length_zip_with, El, Ed; done).
  exists (concat_bytes parts), (h (concat_bytes (map (λ x, hashChain h x maxDigit) l))).
  assert (wotsSign h seed i message = Ok (concat_bytes parts)) as ->.
  { unfold wotsSign. rewrite !assert32_ok, E1 by done. cbn [mbind result_bind]. rewrite E2. cbn [mbind result_bind].
    rewrite toWinternitzDigits_ok by apply H32. cbn [mbind result_bind fst snd].
    change (message_part (h message) ++ _) with ds. by rewrite Ed. }
  assert (derivePKdigest h seed i = Ok (h (concat_bytes (map (λ x, hashChain h x maxDigit) l)))) as ->.
  { unfold derivePKdigest, private_keys. rewrite assert32_ok, E1 by done. cbn [mbind result_bind]. by rewrite E2. }
  split; [done|]. split; [done|].
  assert (String.length (concat_bytes parts) = (paramL * 32)%nat) as Elen by (by rewrite concat_length, Elp).
  split; [|done]. unfold wotsVerifyDigest. rewrite assert32_ok by apply H32. cbn [mbind result_bind].
  rewrite Elen, Nat.eqb_refl. cbn [negb]. unfold chain_tops. rewrite baseW_ok by apply H32. cbn [mbind result_bind].
  rewrite <- Elp, sig_parts_concat by done. unfold parts. rewrite tops_spec.
  - by rewrite String.eqb_refl.
  - rewrite El. by symmetry.
  - apply all_digits_bounds.
Qed.

End Hash.

(** Two digests that differ in their last byte. *)
Definition digest_of (n : Z) : string := repeat_char 31 "a" +:+ String (byte n) "".
Lemma checksum_blocks_forgery_witness :
  ∃ l l' j d d', baseWWithChecksum (digest_of 7) = Ok l ∧ baseWWithChecksum (digest_of 9) = Ok l'
  ∧ l !! j = Some d ∧ l' !! j = Some d' ∧ d' < d.
Proof. apply (checksum_blocks_forgery (digest_of 7) (digest_of 9)); by vm_compute. Defined.

End WoSpec.
