(* ===== verification/MinimaTxSpec.v ===== *)
(** * What the bytes of a Minima transaction promise

    The reader inverts the writer and refuses anything shorter or longer; so the
    digest that is signed commits to every field; and output coin ids are distinct. *)

From Stdlib Require Import ZArith Lia Ascii String.
From stdpp Require Import base list strings sets.
From S2P Require Import Prelude JsBase JsText Mmr MmrSpec ProofSpec Wots WotsSpec MinimaTx.

Module MtSpec.
Import Js JsText Mm PrfSpec Mt.
#[local] Arguments String.append : simpl nomatch.
Notation slen s := (Z.of_nat (String.length s)).

(** ** Readers

    [reads p a v]: wherever [a] stands in the input, [p] reads [v] and stops after it. *)

Definition reads {A} (p : string → M Z string A) (a : string) (v : A) : Prop :=
  ∀ pre post, p (pre +:+ a +:+ post) (slen pre) = (Ok v, slen pre + slen a).

Lemma reads_ret {A} (v : A) : reads (λ _, mret v) "" v.
Proof. intros pre post. simpl. by rewrite Z.add_0_r. Qed.
Lemma reads_bind {A B} (p : string → M Z string A) (f : A → string → M Z string B) a b x y :
  reads p a x → reads (f x) b y → reads (λ d, z ← p d; f z d) (a +:+ b) y.
Proof.
  intros Hp Hf pre post. unfold mbind, M_bind. rewrite app_assoc_str, Hp, <- slen_app, <- app_assoc_str, Hf.
  f_equal. rewrite !slen_app. lia.
Qed.
Lemma reads_assoc {A B C} (p : string → M Z string A) (q : A → string → M Z string B) (k : B → string → M Z string C) a y :
  reads (λ d, z ← (x ← p d; q x d); k z d) a y → reads (λ d, x ← p d; z ← q x d; k z d) a y.
Proof.
  intros H pre post. specialize (H pre post). unfold mbind, M_bind in *. by destruct (p _ _) as [[x|e] o].
Qed.
Lemma reads_fmap {A B} (f : A → B) (p : string → M Z string A) a x : reads p a x → reads (λ d, f <$> p d) a (f x).
Proof. intros Hp pre post. unfold fmap, M_fmap, mbind, M_bind. by rewrite Hp. Qed.
(** The last reader of a sequence adds no bytes after it. *)
Lemma reads_last {A B} (p : string → M Z string A) (f : A → B) a x : reads p a x → reads (λ d, z ← p d; mret (f z)) a (f x).
Proof. exact (reads_fmap f p a x). Qed.
Lemma reads_end {A B} (p : string → M Z string A) (f : A → B) a x y :
  reads p a x → y = f x → reads (λ d, z ← p d; mret (f z)) a y.
Proof. intros Hp ->. by apply reads_last. Qed.

Lemma reads_bytes s n : n = slen s → reads (λ d, txReadBytes d n) s s.
Proof.
  intros -> pre post. pose proof (Nat2Z.is_nonneg (String.length s)). unfold txReadBytes, mget, mthrow_if, mlift, mput, mbind, M_bind.
  replace (slen s <? 0) with false by lia.
  replace (slen pre + slen s >? slen (pre +:+ s +:+ post)) with false.
  2:{ symmetry. rewrite Z.gtb_ltb. apply Z.ltb_ge. rewrite !slen_app. pose proof (Nat2Z.is_nonneg (String.length post)). lia. }
  cbn [orb throw_if]. rewrite !Nat2Z.id, drop_app_str, take_app_str. done.
Qed.
Lemma reads_byte c : reads txReadMiniByte (String c "") (code c).
Proof.
  apply (reads_last (λ d, txReadBytes d 1) (λ b, match b with String c _ => code c | EmptyString => 0 end) (String c "") (String c "")).
  by apply reads_bytes.
Qed.

Lemma from_uint32 n : 0 <= n < 2 ^ 32 → from_bytes 0 (uint32 n) = n.
Proof.
  intros Hn. unfold uint32. cbn [from_bytes]. rewrite !code_byte by (apply Z.mod_pos_bound; lia).
  rewrite (Z.mod_small (n / 2 ^ 24)) by (split; [apply Z.div_pos; lia|apply Z.div_lt_upper_bound; lia]).
  change (2 ^ 24) with (256 * (256 * 256)). change (2 ^ 16) with (256 * 256). change (2 ^ 8) with 256.
  rewrite <- !Z.div_div by lia.
  pose proof (Z.div_mod n 256). pose proof (Z.div_mod (n / 256) 256). pose proof (Z.div_mod (n / 256 / 256) 256). lia.
Qed.
Lemma data_length d : slen (writeMiniData d) = 4 + slen d.
Proof. unfold writeMiniData. by rewrite slen_app. Qed.
Lemma reads_data d : slen d < 2 ^ 32 → reads txReadMiniData (writeMiniData d) d.
Proof.
  intros Hd. unfold txReadMiniData, writeMiniData. eapply (reads_bind (λ d, txReadBytes d 4)); [by apply reads_bytes|].
  apply reads_bytes. apply from_uint32. lia.
Qed.

(** *** Numbers *)

Lemma scaled_is_mini v b : writeScaledNumber v 0 = Ok b ↔ writeMiniNumber v = Ok b.
Proof.
  unfold writeScaledNumber, writeMiniNumber. destruct (v <? 0); [done|]. cbn [throw_if mbind result_bind].
  destruct (bigIntToByteArray v); [|done]. cbn [mbind result_bind].
  unfold throw_if. by destruct (_ >? 255).
Qed.
Lemma scaled_bytes v s b : writeScaledNumber v s = Ok b →
  ∃ u, b = String (byte (Z.land s 255)) (String (byte (slen u)) u) ∧ from_bytes 0 u = v ∧ 1 <= slen u <= 255 ∧ high_bit u = false ∧ 0 <= v.
Proof.
  unfold writeScaledNumber, throw_if at 1. destruct (v <? 0) eqn:Ev; [done|]. cbn [mbind result_bind].
  destruct (bigIntToByteArray v) as [u|] eqn:E; [|done]. cbn [mbind result_bind].
  unfold throw_if. destruct (slen u >? 255) eqn:El; [done|]. cbn [mbind result_bind]. intros [= <-]. exists u.
  pose proof (bigInt_bytes _ _ E) as (_ & Eu & Hu). split; [done|]. split; [done|].
  rewrite Z.gtb_ltb in El. apply Z.ltb_ge in El. split; [destruct u; [done|simpl in *; lia]|]. split; [|lia].
  unfold bigIntToByteArray in E. rewrite Ev in E. cbn [throw_if mbind result_bind] in E. injection E as <-.
  destruct (big_endian v) as [|c r]; [done|]. destruct (code c >=? 128) eqn:Ec; [done|].
  unfold high_bit. pose proof (WoSpec.code_bound c). rewrite Z.geb_leb in Ec. apply Z.leb_gt in Ec.
  replace (Z.land (code c) 128) with 0; [done|]. symmetry. apply Z.bits_inj'. intros n Hn. rewrite Z.land_spec, Z.bits_0.
  change 128 with (2 ^ 7). rewrite Z.pow2_bits_eqb by lia. destruct (Z.eqb_spec 7 n) as [<-|]; [|by rewrite andb_false_r].
  rewrite andb_true_r. rewrite Z.testbit_false by lia. by rewrite Z.div_small by lia.
Qed.
Lemma reads_number v s b : writeScaledNumber v s = Ok b → 0 <= s < 256 → reads txReadMiniNumber b (v, s).
Proof.
  intros (u & -> & Eu & Hu & Hh & Hv)%scaled_bytes Hs.
  assert (Z.land s 255 = s) as Es by (change 255 with (Z.ones 8); rewrite Z.land_ones by lia; apply Z.mod_small; lia).
  assert (code (byte s) = s) as Ec by (apply code_byte; lia).
  assert (code (byte (slen u)) = slen u) as El by (apply code_byte; lia).
  change (reads txReadMiniNumber (String (byte (Z.land s 255)) "" +:+ String (byte (slen u)) "" +:+ u) (v, s)).
  rewrite Es. unfold txReadMiniNumber. eapply reads_bind; [apply reads_byte|]. rewrite Ec.
  eapply (reads_bind txReadMiniByte); [apply reads_byte|]. rewrite El.
  pose proof (reads_last (λ d, txReadBytes d (slen u))
    (λ bytes, (if high_bit bytes then from_bytes 0 bytes - 2 ^ (8 * slen bytes) else from_bytes 0 bytes, s)) u u) as H.
  cbv beta in H. rewrite Hh, Eu in H. apply H. by apply reads_bytes.
Qed.
Lemma reads_mini v b : writeMiniNumber v = Ok b → reads txReadMiniNumber b (v, 0).
Proof. intros E. apply reads_number; [|lia]. by apply scaled_is_mini. Qed.

(** The scale a writer puts down is one byte. *)
Definition scale_byte (s : Z) : Z := Z.land s 255.
Lemma scale_byte_range s : 0 <= scale_byte s < 256.
Proof. unfold scale_byte. change 255 with (Z.ones 8). rewrite Z.land_ones by lia. apply Z.mod_pos_bound. lia. Qed.
Lemma scale_byte_idem s : scale_byte (scale_byte s) = scale_byte s.
Proof. unfold scale_byte. by rewrite <- Z.land_assoc. Qed.
Lemma scaled_scale_byte v s : writeScaledNumber v (scale_byte s) = writeScaledNumber v s.
Proof. unfold writeScaledNumber. fold (scale_byte (scale_byte s)) (scale_byte s). by rewrite scale_byte_idem. Qed.
Lemma reads_scaled v s b : writeScaledNumber v s = Ok b → reads txReadMiniNumber b (v, scale_byte s).
Proof. rewrite <- scaled_scale_byte. intros E. apply reads_number; [done|apply scale_byte_range]. Qed.

Lemma from_big v u : bigIntToByteArray v = Ok u → from_bytes 0 u = v.
Proof. intros E. by apply bigInt_bytes in E as (_ & E & _). Qed.
Lemma reads_mmr n b : writeMMREntryNumber n = Ok b → slen b < 2 ^ 32 → reads txReadMMREntryNumber b n.
Proof.
  unfold writeMMREntryNumber, throw_if at 1. destruct (n <? 0); [done|]. cbn [mbind result_bind].
  destruct (writeMiniNumber 0) as [z|] eqn:Ez; [|done]. cbn [mbind result_bind].
  destruct (bigIntToByteArray n) as [u|] eqn:Eu; [|done]. cbn [mbind result_bind]. intros [= <-] Hl.
  rewrite slen_app, data_length in Hl. unfold txReadMMREntryNumber. eapply reads_bind; [by apply reads_mini|].
  rewrite <- (from_big _ _ Eu). apply reads_fmap, reads_data. lia.
Qed.

(** *** State variables *)

(** The value a state variable is written with. *)
Definition meaning (sv : StateVariable) : option StateValue :=
  match type sv, value sv with
  | TBool, VBool b => Some (VBool b)
  | TBool, VText s => Some (VBool (String.eqb (toUpperCase s) "TRUE"))
  | TNumber, VBig n => Some (VBig n)
  | TNumber, VText s => VBig <$> big_of_string s
  | THex, VText s => match normalizeAddressToHex s with Ok hex => Some (VBytes (hex_pairs (drop_str 2 hex))) | Err _ => None end
  | THex, VBytes s => Some (VBytes s)
  | TString, VText s => Some (VText s)
  | _, _ => None
  end.
(** What is read back: the same port and type, and the value in its read form. *)
Definition read_state (sv : StateVariable) : StateVariable := mkSV (port sv) (default (value sv) (meaning sv)) (type sv).

(** A reader of a port, a type and data. *)
Lemma reads_sv p t d (v : StateVariable) :
  0 <= p < 256 → 0 <= t < 256 →
  reads (λ data, if t =? STATETYPE_HEX then (λ s, mkSV p (VBytes s) THex) <$> txReadMiniData data
    else if t =? STATETYPE_NUMBER then (λ n : Z * Z, mkSV p (VBig n.1) TNumber) <$> txReadMiniNumber data
    else if t =? STATETYPE_STRING then (λ s, mkSV p (VText (utf8_decode s)) TString) <$> txReadMiniData data
    else if t =? STATETYPE_BOOL then (λ b, mkSV p (VBool (b =? 1)) TBool) <$> txReadMiniByte data
    else mthrow ("deserializeTransaction: unknown StateVariable type " +:+ dec t)) d v →
  reads txReadStateVariable (String (byte p) (String (byte t) d)) v.
Proof.
  intros Hp Ht H. change (reads txReadStateVariable (String (byte p) "" +:+ String (byte t) "" +:+ d) v).
  unfold txReadStateVariable. eapply (reads_bind txReadMiniByte); [apply reads_byte|]. rewrite code_byte by done.
  eapply (reads_bind txReadMiniByte); [apply reads_byte|]. by rewrite code_byte.
Qed.
Lemma reads_bool b : reads txReadMiniByte (writeMiniByte b) (if b then 1 else 0).
Proof. unfold writeMiniByte. pose proof (reads_byte (byte (if b then 1 else 0))) as H. rewrite code_byte in H by (destruct b; lia). exact H. Qed.

Lemma serialized_sv sv b : serializeStateVariable sv = Ok b →
  0 <= port sv < 256 ∧ ∃ d, state_data sv = Ok d ∧ b = String (byte (port sv)) (String (byte (type_byte (type sv))) d).
Proof.
  unfold serializeStateVariable, throw_if. destruct (_ || _) eqn:E; [done|]. cbn [mbind result_bind].
  destruct (state_data sv) as [d|]; [|done]. cbn [mbind result_bind]. intros [= <-]. split; [lia|]. by exists d.
Qed.
Lemma reads_state sv b : serializeStateVariable sv = Ok b → slen b < 2 ^ 32 → reads txReadStateVariable b (read_state sv).
Proof.
  intros (Hp & d & Ed & ->)%serialized_sv Hl.
  assert (slen d < 2 ^ 32) as Hd by (simpl in Hl; lia). clear Hl.
  apply reads_sv; [done|by destruct (type sv)|]. unfold read_state, meaning, state_data in *.
  destruct sv as [p v t]. cbn [port value type] in *. destruct t.
  - change (type_byte TBool) with 8. cbn [Z.eqb Pos.eqb STATETYPE_HEX STATETYPE_NUMBER STATETYPE_STRING STATETYPE_BOOL].
    destruct v as [s| |b|]; [|done| |done]; injection Ed as <-;
      [pose proof (reads_bool (String.eqb (toUpperCase s) "TRUE")) as H|pose proof (reads_bool b) as H];
      apply (reads_fmap (λ b, mkSV p (VBool (b =? 1)) TBool)) in H; [by destruct (String.eqb _ _)|by destruct b].
  - change (type_byte TNumber) with 2. cbn [Z.eqb Pos.eqb STATETYPE_HEX STATETYPE_NUMBER STATETYPE_STRING STATETYPE_BOOL].
    destruct v as [s|n| |]; [| |done|done].
    + destruct (big_of_string s) as [n|]; [|done]. cbn [of_option mbind result_bind fmap option_fmap option_map] in *.
      apply (reads_fmap (λ n : Z * Z, mkSV p (VBig n.1) TNumber) _ _ (n, 0)). by apply reads_mini.
    + apply (reads_fmap (λ n : Z * Z, mkSV p (VBig n.1) TNumber) _ _ (n, 0)). by apply reads_mini.
  - change (type_byte THex) with 1. cbn [Z.eqb Pos.eqb STATETYPE_HEX].
    destruct v as [s| | |s]; [|done|done|].
    + destruct (normalizeAddressToHex s) as [hex|]; [|done]. cbn [mbind result_bind] in Ed. apply Ok_inj in Ed as <-.
      rewrite data_length in Hd.
      apply (reads_fmap (λ s, mkSV p (VBytes s) THex)). apply reads_data. lia.
    + injection Ed as <-. rewrite data_length in Hd. apply (reads_fmap (λ s, mkSV p (VBytes s) THex)). apply reads_data. lia.
  - change (type_byte TString) with 4. cbn [Z.eqb Pos.eqb STATETYPE_HEX STATETYPE_NUMBER STATETYPE_STRING].
    destruct v as [s| | |]; [|done..]. injection Ed as <-. rewrite data_length in Hd.
    pose proof (reads_fmap (λ s, mkSV p (VText (utf8_decode s)) TString) _ _ _ (reads_data (utf8 s) ltac:(lia))) as H.
    cbv beta in H. by rewrite utf8_round in H.
Qed.

(** *** Tokens *)

Definition read_token (t : MinimaToken) : MinimaToken :=
  mkToken (tkCoinId t) (tkScale t) (totalAmount t) (name t) (script t) (Some (default 0 (tkCreated t)))
    (Some (scale_byte (default 44 (totalAmountScale t)))).

Lemma reads_token t b : serializeToken t = Ok b → slen b < 2 ^ 32 → reads txReadToken b (read_token t).
Proof.
  unfold serializeToken. destruct (writeMiniNumber (tkScale t)) as [sb|] eqn:Es; [|done]. cbn [mbind result_bind].
  destruct (writeScaledNumber _ _) as [ab|] eqn:Ea; [|done]. cbn [mbind result_bind].
  destruct (writeMiniNumber (default 0 _)) as [cb|] eqn:Ec; [|done]. cbn [mbind result_bind]. intros E Hl.
  apply Ok_inj in E as <-. unfold writeHashToStream in *. rewrite !slen_app, !data_length in Hl.
  unfold txReadToken.
  eapply (reads_bind txReadMiniData); [apply reads_data; lia|].
  eapply (reads_bind txReadMiniData); [apply reads_data; lia|].
  eapply (reads_bind txReadMiniNumber); [by apply reads_mini|].
  eapply (reads_bind txReadMiniNumber); [by apply reads_scaled|].
  eapply (reads_bind txReadMiniData); [apply reads_data; lia|].
  eapply (reads_end txReadMiniNumber); [by apply reads_mini|done].
Qed.

(** *** Lists *)

Lemma reads_list {A} (r : string → M Z string A) parts l :
  Forall2 (reads r) parts l → reads (λ d, read_list (length l) (r d)) (Wo.concat_bytes parts) l.
Proof.
  induction 1 as [|b x parts l Hb _ IH]; [apply reads_ret|]. cbn [length read_list Wo.concat_bytes foldr].
  eapply reads_bind; [exact Hb|]. exact (reads_last _ (cons x) _ _ IH).
Qed.
Lemma reads_counted {A} (r : string → M Z string A) n parts l :
  writeMiniNumber (Z.of_nat (length l)) = Ok n → Forall2 (reads r) parts l →
  reads (λ d, read_counted d (r d)) (n +:+ Wo.concat_bytes parts) l.
Proof.
  intros En H. unfold read_counted. eapply (reads_bind txReadMiniNumber); [by apply reads_mini|]. cbn [fst].
  rewrite Nat2Z.id. by apply reads_list.
Qed.
Lemma part_length b parts : b ∈ parts → slen b <= slen (Wo.concat_bytes parts).
Proof.
  induction 1 as [b l|b c l _ IH]; cbn [Wo.concat_bytes foldr]; fold (Wo.concat_bytes l); rewrite slen_app;
    pose proof (Nat2Z.is_nonneg (String.length b)); [|pose proof (Nat2Z.is_nonneg (String.length c))];
    pose proof (Nat2Z.is_nonneg (String.length (Wo.concat_bytes l))); lia.
Qed.
(** Every written part is read back, as its meaning. *)
Lemma reads_parts {X A} (w : X → Res string) (r : string → M Z string A) (R : X → A → Prop) l parts :
  (∀ x b, x ∈ l → w x = Ok b → b ∈ parts → ∃ y, R x y ∧ reads r b y) → result_mapM w l = Ok parts →
  ∃ l', Forall2 R l l' ∧ Forall2 (reads r) parts l' ∧ length l' = length l.
Proof.
  revert parts. induction l as [|x l IH]; intros parts H E; cbn [result_mapM] in E.
  { injection E as <-. by exists []. }
  destruct (w x) as [b|] eqn:Eb; [|done]. cbn [mbind result_bind] in E.
  destruct (result_mapM w l) as [bs|] eqn:Er; [|done]. injection E as <-.
  destruct (H x b) as (y & Ry & Hy); [by left|done|by left|].
  destruct (IH bs) as (l' & R1 & R2 & El); [|done|].
  { intros x' b' Hx' Eb' Hb'. apply (H x' b'); [by right|done|by right]. }
  exists (y :: l'). split; [by constructor|]. split; [by constructor|]. simpl. by rewrite El.
Qed.

(** ** What a coin means *)

Record coin_means (c c' : MinimaCoin) : Prop := {
  cm_coinId : coinId c' = coinId c;
  cm_address : address c' = address c;
  cm_tokenId : tokenId c' = tokenId c;
  cm_storeState : storeState c' = storeState c;
  cm_spent : spent c' = spent c;
  cm_amount : ∃ v s, 0 <= s < 256 ∧ amount_bytes c = writeScaledNumber v s ∧ amount c' = miniNumberToDecimal v s;
  cm_mmr : mmr_bytes c = writeMMREntryNumber (mmrEntryNumber c');
  cm_created : created_bytes c = writeMiniNumber (created c');
  cm_state : Forall2 (λ cs cs', ∃ sv, coin_state_bytes cs = serializeStateVariable sv ∧ cs' = Rich (read_state sv)) (state c) (state c');
  cm_token : match token c' with
             | None => token_bytes c = Ok (writeMiniByte false)
             | Some t' => ∃ t b, serializeToken t = Ok b ∧ token_bytes c = Ok (writeMiniByte true +:+ b) ∧ t' = read_token t
             end;
  cm_plain : rawAmountBytes c' = None ∧ rawMmrEntryBytes c' = None ∧ rawBlockCreatedBytes c' = None ∧ rawTokenData c' = None }.

(** The raw bytes taken from a node, where there are any, are what a writer writes. *)
Record well_encoded (c : MinimaCoin) : Prop := {
  we_amount : ∀ c0 r, rawAmountBytes c = Some (String c0 r) → ∃ v s, writeScaledNumber v s = Ok (String c0 r);
  we_mmr : ∀ c0 r, rawMmrEntryBytes c = Some (String c0 r) → ∃ n, writeMMREntryNumber n = Ok (String c0 r);
  we_created : ∀ c0 r, rawBlockCreatedBytes c = Some (String c0 r) → ∃ n, writeMiniNumber n = Ok (String c0 r);
  we_state : ∀ raw, Raw raw ∈ state c → ∃ sv, coin_state_bytes (Raw raw) = serializeStateVariable sv;
  we_token : ∀ c0 r, rawTokenData c = Some (String c0 r) → ∃ t, serializeToken t = Ok (String c0 r) }.

Lemma raw_or_cases raw x b : raw_or raw x = Ok b → (∃ c r, raw = Some (String c r) ∧ b = String c r) ∨ x = Ok b.
Proof. unfold raw_or. destruct raw as [[|c r]|]; [by right| |by right]. intros [= <-]. left. by exists c, r. Qed.

Lemma amount_written c b : well_encoded c → amount_bytes c = Ok b → ∃ v s, writeScaledNumber v s = Ok b.
Proof.
  intros Hw [(c0 & r & E & ->)|E]%raw_or_cases; [by eapply we_amount|].
  destruct (parseDecimalToMiniNumber (amount c)) as [p|]; [|done]. by eexists _, _.
Qed.
Lemma mmr_written c b : well_encoded c → mmr_bytes c = Ok b → ∃ n, writeMMREntryNumber n = Ok b.
Proof. intros Hw [(c0 & r & E & ->)|E]%raw_or_cases; [by eapply we_mmr|by eexists]. Qed.
Lemma created_written c b : well_encoded c → created_bytes c = Ok b → ∃ n, writeMiniNumber n = Ok b.
Proof. intros Hw [(c0 & r & E & ->)|E]%raw_or_cases; [by eapply we_created|by eexists]. Qed.
Lemma state_written c cs : well_encoded c → cs ∈ state c → ∃ sv, coin_state_bytes cs = serializeStateVariable sv.
Proof. intros Hw Hcs. destruct cs as [sv|raw]; [by exists sv|by eapply we_state]. Qed.
Lemma token_written c b : well_encoded c → token_bytes c = Ok b →
  b = writeMiniByte false ∨ ∃ t tb, serializeToken t = Ok tb ∧ b = writeMiniByte true +:+ tb.
Proof.
  intros Hw. unfold token_bytes. destruct (rawTokenData c) as [[|c0 r]|] eqn:Er.
  2:{ intros [= <-]. right. destruct (we_token _ Hw c0 r Er) as [t Et]. by exists t, (String c0 r). }
  all: destruct (token c) as [t|]; [|intros [= <-]; by left]; destruct (serializeToken t) as [tb|] eqn:Et; [|done];
    intros [= <-]; right; by exists t, tb.
Qed.

Lemma reads_coin c b : well_encoded c → serializeCoin c = Ok b → slen b < 2 ^ 32 →
  ∃ c', coin_means c c' ∧ reads txReadCoin b c'.
Proof.
  intros Hw. unfold serializeCoin.
  destruct (amount_bytes c) as [ab|] eqn:Ea; [|done]. cbn [mbind result_bind].
  destruct (mmr_bytes c) as [mb|] eqn:Em; [|done]. cbn [mbind result_bind].
  destruct (created_bytes c) as [cb|] eqn:Ec; [|done]. cbn [mbind result_bind].
  destruct (writeMiniNumber (Z.of_nat (length (state c)))) as [nb|] eqn:En; [|done]. cbn [mbind result_bind].
  destruct (result_mapM coin_state_bytes (state c)) as [parts|] eqn:Ep; [|done]. cbn [mbind result_bind].
  destruct (token_bytes c) as [tb|] eqn:Et; [|done]. cbn [mbind result_bind]. intros E Hl. apply Ok_inj in E as <-.
  unfold writeHashToStream in *. rewrite !slen_app, !data_length in Hl.
  destruct (amount_written c ab Hw Ea) as (v & s & Ev). destruct (mmr_written c mb Hw Em) as (n & Emn).
  destruct (created_written c cb Hw Ec) as (k & Ek).
  destruct (reads_parts coin_state_bytes txReadStateVariable
    (λ cs sv', ∃ sv, coin_state_bytes cs = serializeStateVariable sv ∧ sv' = read_state sv) (state c) parts) as (l' & Hmean & Hreads & Hlen).
  { intros cs b Hcs Eb Hb. destruct (state_written c cs Hw Hcs) as [sv Esv]. exists (read_state sv). split; [by exists sv|].
    apply reads_state; [congruence|]. pose proof (part_length b parts Hb). lia. }
  { done. }
  unfold txReadCoin.
  assert (∃ tok, (match tok with None => token_bytes c = Ok (writeMiniByte false)
      | Some t' => ∃ t b, serializeToken t = Ok b ∧ token_bytes c = Ok (writeMiniByte true +:+ b) ∧ t' = read_token t end)
    ∧ reads (λ d, hasToken ← txReadMiniByte d; if hasToken =? 1 then Some <$> txReadToken d else mret None) tb tok) as (tok & Htok & Rtok).
  { destruct (token_written c tb Hw Et) as [->|(t & b & Etk & ->)].
    - exists None. split; [done|]. rewrite <- (app_nil_r_str (writeMiniByte false)).
      eapply (reads_bind txReadMiniByte); [apply reads_bool|apply reads_ret].
    - exists (Some (read_token t)). split; [by exists t, b|]. rewrite slen_app in Hl.
      eapply (reads_bind txReadMiniByte); [apply reads_bool|]. cbn [Z.eqb Pos.eqb].
      apply reads_fmap, reads_token; [done|]. lia. }
  exists (mkCoin (coinId c) (address c) (miniNumberToDecimal v (scale_byte s)) (tokenId c) tok (storeState c) (map Rich l') n (spent c) k None None None None).
  split.
  { split; try done; cbn [amount mmrEntryNumber created state token].
    - exists v, (scale_byte s). split; [apply scale_byte_range|]. by rewrite scaled_scale_byte, Ea, Ev.
    - by rewrite Em, Emn.
    - by rewrite Ec, Ek.
    - clear -Hmean. induction Hmean as [|cs sv' l l' (sv & E & ->) _ IH]; constructor; [by exists sv|done]. }
  eapply (reads_bind txReadMiniData); [apply reads_data; lia|].
  eapply (reads_bind txReadMiniData); [apply reads_data; lia|].
  eapply (reads_bind txReadMiniNumber); [by apply reads_scaled|].
  eapply (reads_bind txReadMiniData); [apply reads_data; lia|].
  eapply (reads_bind txReadMiniByte); [apply reads_bool|].
  eapply (reads_bind txReadMMREntryNumber); [apply reads_mmr; [done|lia]|].
  eapply (reads_bind txReadMiniByte); [apply reads_bool|].
  eapply (reads_bind txReadMiniNumber); [by apply reads_mini|].
  rewrite <- app_assoc_str.
  eapply (reads_bind (λ d, read_counted d (txReadStateVariable d))); [apply reads_counted; [by rewrite Hlen|done]|].
  apply (reads_assoc txReadMiniByte). eapply reads_end; [exact Rtok|].
  cbn [fst snd]. by destruct (storeState c), (spent c).
Qed.

(** ** Transactions *)

Record tx_means (tx tx' : MinimaTransaction) : Prop := {
  tm_inputs : Forall2 coin_means (inputs tx) (inputs tx');
  tm_outputs : Forall2 coin_means (outputs tx) (outputs tx');
  tm_state : txState tx' = map read_state (txState tx);
  tm_linkHash : linkHash tx' = linkHash tx }.

Definition tx_encoded (tx : MinimaTransaction) : Prop :=
  Forall well_encoded (inputs tx) ∧ Forall well_encoded (outputs tx).

(** Everything but the test for trailing bytes. *)
Definition read_body (d : string) : M Z string MinimaTransaction :=
  inputs ← read_counted d (txReadCoin d);
  outputs ← read_counted d (txReadCoin d);
  state ← read_counted d (txReadStateVariable d);
  linkHash ← txReadMiniData d;
  mret (mkTx linkHash inputs outputs state).

Lemma reads_coins l parts n :
  Forall well_encoded l → result_mapM serializeCoin l = Ok parts → writeMiniNumber (Z.of_nat (length l)) = Ok n →
  slen (Wo.concat_bytes parts) < 2 ^ 32 →
  ∃ l', Forall2 coin_means l l' ∧ reads (λ d, read_counted d (txReadCoin d)) (n +:+ Wo.concat_bytes parts) l'.
Proof.
  intros Hw E En Hl. destruct (reads_parts serializeCoin txReadCoin coin_means l parts) as (l' & H1 & H2 & El); [|done|].
  - intros c b Hc Eb Hb. rewrite Forall_forall in Hw. apply reads_coin; [by apply Hw|done|].
    pose proof (part_length b parts Hb). lia.
  - exists l'. split; [done|]. apply reads_counted; [by rewrite El|done].
Qed.

Lemma reads_body tx b : tx_encoded tx → serializeTransaction tx = Ok b → slen b < 2 ^ 32 →
  ∃ tx', tx_means tx tx' ∧ reads read_body b tx'.
Proof.
  intros [Hi Ho]. unfold serializeTransaction.
  destruct (writeMiniNumber (Z.of_nat (length (inputs tx)))) as [ni|] eqn:Eni; [|done]. cbn [mbind result_bind].
  destruct (result_mapM serializeCoin (inputs tx)) as [pi|] eqn:Epi; [|done]. cbn [mbind result_bind].
  destruct (writeMiniNumber (Z.of_nat (length (outputs tx)))) as [no|] eqn:Eno; [|done]. cbn [mbind result_bind].
  destruct (result_mapM serializeCoin (outputs tx)) as [po|] eqn:Epo; [|done]. cbn [mbind result_bind].
  destruct (writeMiniNumber (Z.of_nat (length (txState tx)))) as [ns|] eqn:Ens; [|done]. cbn [mbind result_bind].
  destruct (result_mapM serializeStateVariable (txState tx)) as [ps|] eqn:Eps; [|done]. cbn [mbind result_bind].
  intros E Hl. apply Ok_inj in E as <-. unfold writeHashToStream in *. rewrite !slen_app, !data_length in Hl.
  destruct (reads_coins _ _ ni Hi Epi Eni) as (li & Hli & Rli); [lia|].
  destruct (reads_coins _ _ no Ho Epo Eno) as (lo & Hlo & Rlo); [lia|].
  destruct (reads_parts serializeStateVariable txReadStateVariable (λ sv sv', sv' = read_state sv) (txState tx) ps)
    as (ls & Hls & Rls & Els); [|done|].
  { intros sv b _ Eb Hb. exists (read_state sv). split; [done|]. apply reads_state; [done|].
    pose proof (part_length b ps Hb). lia. }
  exists (mkTx (linkHash tx) li lo ls). split.
  { split; [done|done| |done]. cbn [txState]. clear -Hls. induction Hls as [|? ? ? ? -> _ IH]; [done|]. simpl. by rewrite IH. }
  unfold read_body. rewrite <- app_assoc_str.
  eapply (reads_bind (λ d, read_counted d (txReadCoin d))); [exact Rli|]. rewrite <- app_assoc_str.
  eapply (reads_bind (λ d, read_counted d (txReadCoin d))); [exact Rlo|]. rewrite <- app_assoc_str.
  eapply (reads_bind (λ d, read_counted d (txReadStateVariable d))); [apply reads_counted; [by rewrite Els|done]|].
  eapply (reads_end txReadMiniData); [apply reads_data; lia|done].
Qed.

Lemma deserialize_open d : deserializeTransaction d =
  match read_body d 0 with
  | (Ok tx, offset) =>
      if offset =? slen d then Ok tx
      else Err ("deserializeTransaction: " +:+ big_to_string (slen d - offset) +:+ " trailing byte(s) after transaction")
  | (Err e, _) => Err e
  end.
Proof.
  unfold deserializeTransaction, txReadTransaction, read_body, mbind, M_bind, mget, mthrow_if, mlift, throw_if, mret, M_ret.
  destruct (read_counted d (txReadCoin d) 0) as [[li|] o1]; [|done].
  destruct (read_counted d (txReadCoin d) o1) as [[lo|] o2]; [|done].
  destruct (read_counted d (txReadStateVariable d) o2) as [[ls|] o3]; [|done].
  destruct (txReadMiniData d o3) as [[lh|] o4]; [|done]. by destruct (o4 =? slen d).
Qed.

(** ** Written again *)


Lemma strip_zeros_digits s : str_forallb is_digit s = true → str_forallb is_digit (strip_zeros s) = true.
Proof.
  induction s as [|c s IH]; [done|]. cbn [strip_zeros]. intros H. destruct (Ascii.eqb c "0"); [|done].
  apply IH. simpl in H. by apply andb_true_iff in H as [_ H].
Qed.
Lemma strip_zeros_value s : radix_digits 10 0 (strip_zeros s) = radix_digits 10 0 s.
Proof.
  induction s as [|c s IH]; [done|]. cbn [strip_zeros]. destruct (Ascii.eqb_spec c "0") as [->|]; [|done]. by rewrite IH.
Qed.
(** The digits of a number, after the leading zeros are dropped. *)
Lemma stripped_number s v : str_forallb is_digit s = true → radix_digits 10 0 s = Some v →
  big_of_string (match strip_zeros s with EmptyString => "0"%string | s => s end) = Some v.
Proof.
  intros Hd Hv. rewrite <- strip_zeros_value in Hv. pose proof (strip_zeros_digits s Hd) as Hs.
  destruct (strip_zeros s) as [|c r] eqn:E; [injection Hv as <-; reflexivity|].
  rewrite big_of_string_digits by exact Hs. exact Hv.
Qed.

Definition number_char (c : ascii) : bool := is_digit c || Ascii.eqb c ".".
Lemma not_included c s : number_char c = false → str_forallb number_char s = true → includes_char c s = false.
Proof.
  intros Hc Hs. unfold includes_char. apply negb_false_iff. eapply str_forallb_impl; [|exact Hs].
  intros d Hd. destruct (Ascii.eqb_spec c d) as [<-|]; [congruence|done].
Qed.
Lemma break_at_digits a b : str_forallb is_digit a = true → break_at (Ascii.eqb ".") (a +:+ String "." b) = (a, Some b).
Proof.
  induction a as [|c a IH]; [done|]. intros H. simpl in H. apply andb_true_iff in H as [Hc Ha].
  cbn [String.append break_at]. destruct (Ascii.eqb_spec "." c) as [<-|]; [done|]. by rewrite IH.
Qed.
Lemma break_at_none a : str_forallb is_digit a = true → break_at (Ascii.eqb ".") a = (a, None).
Proof.
  induction a as [|c a IH]; [done|]. intros H. simpl in H. apply andb_true_iff in H as [Hc Ha].
  cbn [break_at]. destruct (Ascii.eqb_spec "." c) as [<-|]; [done|]. by rewrite IH.
Qed.

(** Parsing digits, a point and more digits. *)
Lemma parse_number_text s whole frac v :
  str_forallb number_char s = true → s ≠ "" → break_at (Ascii.eqb ".") s = (whole, frac) →
  str_forallb is_digit (whole +:+ default "" frac) = true → radix_digits 10 0 (whole +:+ default "" frac) = Some v →
  parseDecimalToMiniNumber s = Ok (mkParsedNumber (match frac with Some f => slen f | None => 0 end) v).
Proof.
  intros Hs Hne Hb Hd Hv. unfold parseDecimalToMiniNumber. destruct (String.eqb_spec s "") as [->|_]; [done|].
  rewrite !not_included by done. cbn [orb throw_if mbind result_bind].
  rewrite trim_no_space.
  2:{ eapply str_forallb_impl; [|exact Hs]. intros c Hc. apply negb_true_iff. unfold number_char, is_space, is_digit, in_range in *.
      destruct (Ascii.eqb_spec c "."); [by subst|]. lia. }
  assert (starts_with "-" s = false) as ->.
  { destruct (starts_with "-" s) eqn:E; [|done]. by apply starts_with_spec in E as [r ->]. }
  rewrite Hb, (stripped_number _ v Hd Hv). done.
Qed.

Lemma decimal_round v s : 0 <= v → 0 <= s → parseDecimalToMiniNumber (miniNumberToDecimal v s) = Ok (mkParsedNumber s v).
Proof.
  intros Hv Hs. unfold miniNumberToDecimal.
  assert (big_to_string v = dec v) as -> by (unfold big_to_string; by replace (v <? 0) with false by lia).
  pose proof (dec_digits v Hv) as Hd. pose proof (radix_dec_0 v Hv) as Hr.
  destruct (Z.eqb_spec s 0) as [->|Hne].
  - rewrite (parse_number_text _ (dec v) None v); [done| |apply dec_nonempty|by apply break_at_none|by rewrite app_nil_r_str|by rewrite app_nil_r_str].
    eapply str_forallb_impl; [|exact Hd]. intros c Hc. unfold number_char. by rewrite Hc.
  - set (digits := pad_start (Z.to_nat (s + 1)) "0" (dec v)). set (n := (String.length digits - Z.to_nat s)%nat).
    assert (str_forallb is_digit digits = true) as Hdd.
    { unfold digits, pad_start. rewrite str_forallb_app, str_forallb_repeat by done. exact Hd. }
    assert (radix_digits 10 0 digits = Some v) as Hdr by (unfold digits, pad_start; by rewrite radix_zeros).
    assert (Z.to_nat (s + 1) <= String.length digits)%nat as Hlen.
    { unfold digits, pad_start. rewrite length_app_str, length_repeat_char. lia. }
    pose proof (take_drop_str n digits) as Etd.
    assert (str_forallb is_digit (take_str n digits) = true ∧ str_forallb is_digit (drop_str n digits) = true) as [Ht Hdp].
    { rewrite <- Etd, str_forallb_app in Hdd. by apply andb_true_iff in Hdd. }
    rewrite (parse_number_text _ (take_str n digits) (Some (drop_str n digits)) v).
    + f_equal. f_equal. pose proof (f_equal String.length Etd) as El. rewrite length_app_str in El.
      assert (String.length (take_str n digits) = n) as En by (apply length_take_str; unfold n; lia).
      unfold n in *. lia.
    + rewrite !str_forallb_app. assert (∀ x, str_forallb is_digit x = true → str_forallb number_char x = true) as Hn.
      { intros x Hx. eapply str_forallb_impl; [|exact Hx]. intros c Hc. unfold number_char. by rewrite Hc. }
      by rewrite (Hn _ Ht), (Hn _ Hdp).
    + apply app_cons_nonempty.
    + by apply (break_at_digits (take_str n digits)).
    + cbn [default from_option id]. by rewrite Etd.
    + cbn [default from_option id]. by rewrite Etd.
Qed.

Lemma state_again sv b : serializeStateVariable sv = Ok b → serializeStateVariable (read_state sv) = Ok b.
Proof.
  unfold serializeStateVariable. cbn [read_state port type]. destruct (throw_if _ _); [|done]. cbn [mbind result_bind].
  assert (∀ d, state_data sv = Ok d → state_data (read_state sv) = Ok d) as H.
  { intros d. unfold state_data, read_state, meaning. destruct sv as [p v t]. cbn [type value].
    destruct t, v; try done; cbn [default].
    - by destruct (big_of_string s).
    - by destruct (normalizeAddressToHex s). }
  destruct (state_data sv) as [d|] eqn:E; [|done]. by rewrite (H d).
Qed.
Lemma token_again t : serializeToken (read_token t) = serializeToken t.
Proof. unfold serializeToken, read_token. cbn. by rewrite scaled_scale_byte. Qed.

Lemma coin_again c c' b : coin_means c c' → serializeCoin c = Ok b → serializeCoin c' = Ok b.
Proof.
  intros [E1 E2 E3 E4 E5 (v & s & Hsr & Ea & Ha) Em Ec Hst Htok (P1 & P2 & P3 & P4)]. unfold serializeCoin.
  destruct (amount_bytes c) as [ab|] eqn:Eab; [|done]. cbn [mbind result_bind].
  destruct (mmr_bytes c) as [mb|]; [|done]. cbn [mbind result_bind].
  destruct (created_bytes c) as [cb|]; [|done]. cbn [mbind result_bind].
  assert (amount_bytes c' = Ok ab) as ->.
  { unfold amount_bytes. rewrite P1. cbn [raw_or]. rewrite Ha. symmetry in Ea. pose proof (scaled_bytes _ _ _ Ea) as (_ & _ & _ & _ & _ & Hv).
    rewrite decimal_round by lia. cbn [mbind result_bind]. unfold encodeParsedMiniNumber. exact Ea. }
  assert (mmr_bytes c' = Ok mb) as -> by (unfold mmr_bytes; by rewrite P2).
  assert (created_bytes c' = Ok cb) as -> by (unfold created_bytes; by rewrite P3).
  cbn [mbind result_bind]. assert (length (state c') = length (state c)) as -> by (symmetry; by eapply Forall2_length).
  destruct (writeMiniNumber (Z.of_nat _)) as [nb|]; [|done]. cbn [mbind result_bind].
  destruct (result_mapM coin_state_bytes (state c)) as [parts|] eqn:Ep; [|done]. cbn [mbind result_bind].
  assert (result_mapM coin_state_bytes (state c') = Ok parts) as ->.
  { clear -Hst Ep. revert parts Ep. induction Hst as [|cs cs' l l' (sv & E & ->) _ IH]; intros parts Ep; [done|]. cbn [result_mapM] in *.
    destruct (coin_state_bytes cs) as [b|]; [|done]. cbn [mbind result_bind] in Ep.
    destruct (result_mapM coin_state_bytes l) as [bs|]; [|done]. cbn [coin_state_bytes]. rewrite (state_again _ b) by done.
    cbn [mbind result_bind]. by rewrite (IH bs). }
  cbn [mbind result_bind].
  assert (token_bytes c' = token_bytes c) as ->.
  { unfold token_bytes at 1. rewrite P4. destruct (token c') as [t'|]; [|done]. destruct Htok as (t & tb & Et & -> & ->).
    by rewrite token_again, Et. }
  by rewrite E1, E2, E3, E4, E5.
Qed.

Lemma coins_again l l' parts : Forall2 coin_means l l' → result_mapM serializeCoin l = Ok parts → result_mapM serializeCoin l' = Ok parts.
Proof.
  intros H. revert parts. induction H as [|c c' l l' Hc _ IH]; intros parts E; [done|]. cbn [result_mapM] in *.
  destruct (serializeCoin c) as [b|] eqn:Eb; [|done]. cbn [mbind result_bind] in E.
  destruct (result_mapM serializeCoin l) as [bs|]; [|done]. rewrite (coin_again c c' b) by done.
  cbn [mbind result_bind]. by rewrite (IH bs).
Qed.

Lemma tx_again tx tx' b : tx_means tx tx' → serializeTransaction tx = Ok b → serializeTransaction tx' = Ok b.
Proof.
  intros [Hi Ho Hs Hl] E. unfold serializeTransaction in *.
  rewrite (Forall2_length _ _ _ Hi), (Forall2_length _ _ _ Ho) in E. rewrite Hs, Hl, length_map.
  destruct (writeMiniNumber (Z.of_nat (length (inputs tx')))) as [ni|]; [|done]. cbn [mbind result_bind] in *.
  destruct (result_mapM serializeCoin (inputs tx)) as [pi|] eqn:Epi; [|done]. rewrite (coins_again _ _ _ Hi Epi). cbn [mbind result_bind] in *.
  destruct (writeMiniNumber (Z.of_nat (length (outputs tx')))) as [no|]; [|done]. cbn [mbind result_bind] in *.
  destruct (result_mapM serializeCoin (outputs tx)) as [po|] eqn:Epo; [|done]. rewrite (coins_again _ _ _ Ho Epo). cbn [mbind result_bind] in *.
  destruct (writeMiniNumber (Z.of_nat (length (txState tx)))) as [ns|]; [|done]. cbn [mbind result_bind] in *.
  destruct (result_mapM serializeStateVariable (txState tx)) as [ps|] eqn:Eps; [|done].
  assert (result_mapM serializeStateVariable (map read_state (txState tx)) = Ok ps) as ->; [|exact E].
  clear -Eps. revert ps Eps. induction (txState tx) as [|sv l IH]; intros ps E; [done|]. cbn [result_mapM map] in *.
  destruct (serializeStateVariable sv) as [b|] eqn:Eb; [|done]. cbn [mbind result_bind] in E.
  destruct (result_mapM serializeStateVariable l) as [bs|]; [|done]. rewrite (state_again _ b) by done.
  cbn [mbind result_bind]. by rewrite (IH bs).
Qed.

(** ** Exactly what was meant

    The number of decimals is written as one byte.  Where it fits, the amount that is read
    back is the one in the text of the coin, decimal by decimal, and so is a token's. *)

Definition no_raw (raw : option string) : Prop := match raw with Some (String _ _) => False | _ => True end.
Record scales_fit (c : MinimaCoin) : Prop := {
  sf_amount : no_raw (rawAmountBytes c) → ∀ p, parseDecimalToMiniNumber (amount c) = Ok p → scale p < 256;
  sf_token : no_raw (rawTokenData c) → ∀ t, token c = Some t → 0 <= default 44 (totalAmountScale t) < 256 }.
Definition tx_fits (tx : MinimaTransaction) : Prop := Forall scales_fit (inputs tx) ∧ Forall scales_fit (outputs tx).

Record coin_exact (c c' : MinimaCoin) : Prop := {
  ce_amount : no_raw (rawAmountBytes c) →
    ∃ p, parseDecimalToMiniNumber (amount c) = Ok p ∧ amount c' = miniNumberToDecimal (unscaledValue p) (scale p);
  ce_token : no_raw (rawTokenData c) → ∀ t, token c = Some t →
    token c' = Some (mkToken (tkCoinId t) (tkScale t) (totalAmount t) (name t) (script t) (Some (default 0 (tkCreated t)))
                       (Some (default 44 (totalAmountScale t)))) }.
Definition tx_exact (tx tx' : MinimaTransaction) : Prop :=
  tx_means tx tx' ∧ Forall2 coin_exact (inputs tx) (inputs tx') ∧ Forall2 coin_exact (outputs tx) (outputs tx').

Lemma reads_unique {A} (r : string → M Z string A) b x y : reads r b x → reads r b y → x = y.
Proof. intros Hx Hy. specialize (Hx "" ""). specialize (Hy "" ""). congruence. Qed.
Lemma scale_byte_small s : 0 <= s < 256 → scale_byte s = s.
Proof. intros Hs. unfold scale_byte. change 255 with (Z.ones 8). rewrite Z.land_ones by lia. by rewrite Z.mod_small. Qed.
Lemma parsed_scale t p : parseDecimalToMiniNumber t = Ok p → 0 <= scale p.
Proof.
  unfold parseDecimalToMiniNumber. destruct (String.eqb t ""); [by intros [= <-]|]. intros ([] & _ & H)%result_bind_Ok. cbv zeta in H.
  destruct (break_at _ _) as [w f]. apply result_bind_Ok in H as (v & _ & [= <-]). cbn. destruct f; lia.
Qed.

Lemma raw_none {raw} (x : Res string) : no_raw raw → raw_or raw x = x.
Proof. unfold raw_or. by destruct raw as [[|c r]|]. Qed.

Lemma coin_exactly c c' b : coin_means c c' → scales_fit c → serializeCoin c = Ok b → slen b < 2 ^ 32 → coin_exact c c'.
Proof.
  intros Hm [Hfa Hft] E Hl. unfold serializeCoin in E. apply result_bind_Ok in E as (ab & Eab & E).
  apply result_bind_Ok in E as (mb & _ & E). apply result_bind_Ok in E as (cb & _ & E).
  apply result_bind_Ok in E as (nb & _ & E). apply result_bind_Ok in E as (parts & _ & E). apply result_bind_Ok in E as (tb & Etb & E).
  split.
  - intros Hr. destruct (cm_amount _ _ Hm) as (v & s & Hs & Ea & ->). specialize (Hfa Hr). unfold amount_bytes in Eab, Ea. rewrite raw_none in Eab, Ea by done.
    apply result_bind_Ok in Eab as (p & Ep & Eab). rewrite Ep in Ea. cbn [mbind result_bind] in Ea. unfold encodeParsedMiniNumber in *.
    exists p. split; [done|]. rewrite Eab in Ea. symmetry in Ea.
    pose proof (reads_unique _ _ _ _ (reads_scaled _ _ _ Ea) (reads_scaled _ _ _ Eab)) as Hu.
    pose proof (parsed_scale _ _ Ep). specialize (Hfa p Ep). rewrite !scale_byte_small in Hu by lia. by injection Hu as -> ->.
  - intros Hr t Et. pose proof (cm_token _ _ Hm) as Ht. specialize (Hft Hr t Et). unfold token_bytes in *. rewrite Et in *.
    assert (serializeToken t = Ok (drop_str 1 tb)) as Es.
    { destruct (rawTokenData c) as [[|? ?]|]; [|done|]; apply result_bind_Ok in Etb as (b' & -> & [= <-]); done. }
    destruct (token c') as [t'|].
    + destruct Ht as (t1 & b1 & E1 & Hb & ->). f_equal.
      assert (tb = writeMiniByte true +:+ b1) as -> by (destruct (rawTokenData c) as [[|? ?]|]; [|done|]; congruence).
      change (drop_str 1 (writeMiniByte true +:+ b1)) with b1 in Es. apply Ok_inj in E. subst b.
      assert (slen b1 < 2 ^ 32) as Hb1.
      { clear -Hl. rewrite !slen_app in Hl. lia. }
      pose proof (reads_unique _ _ _ _ (reads_token _ _ E1 Hb1) (reads_token _ _ Es Hb1)) as ->.
      unfold read_token. by rewrite scale_byte_small.
    + exfalso. destruct (rawTokenData c) as [[|? ?]|]; [|done|]; rewrite Es in Ht; cbn [mbind result_bind] in Ht; discriminate Ht.
Qed.

Lemma coins_exactly l l' parts bound : Forall2 coin_means l l' → Forall scales_fit l → result_mapM serializeCoin l = Ok parts →
  (∀ b, b ∈ parts → slen b <= bound) → bound < 2 ^ 32 → Forall2 coin_exact l l'.
Proof.
  intros H. revert parts. induction H as [|c c' l l' Hc _ IH]; intros parts Hf E Hp Hb; [done|]. apply Forall_cons in Hf as [Hfc Hf].
  cbn [result_mapM] in E. apply result_bind_Ok in E as (b & Eb & (bs & Es & [= <-])%result_bind_Ok). constructor.
  - apply (coin_exactly c c' b); try done. specialize (Hp b ltac:(by left)). lia.
  - apply (IH bs); try done. intros b' Hin. apply Hp. by right.
Qed.
Lemma tx_exactly tx tx' bytes : tx_means tx tx' → tx_fits tx → serializeTransaction tx = Ok bytes → slen bytes < 2 ^ 32 → tx_exact tx tx'.
Proof.
  intros Hm [Hfi Hfo] E Hl. split; [done|]. unfold serializeTransaction in E.
  apply result_bind_Ok in E as (ni & _ & E). apply result_bind_Ok in E as (pi & Ei & E). apply result_bind_Ok in E as (no & _ & E).
  apply result_bind_Ok in E as (po & Eo & E). apply result_bind_Ok in E as (ns & _ & E). apply result_bind_Ok in E as (ps & _ & E).
  apply Ok_inj in E. subst bytes. rewrite !slen_app in Hl.
  split; (eapply coins_exactly; [by apply Hm|done|done|intros b Hb; apply (part_length b), Hb|lia]).
Qed.

(** ** More input changes nothing that was read *)

Definition stable {A} (p : string → M Z string A) : Prop :=
  ∀ d ext o v o', 0 <= o <= slen d → p d o = (Ok v, o') → (o <= o' <= slen d) ∧ p (d +:+ ext) o = (Ok v, o').

Lemma stable_ret {A} (v : A) : stable (λ _, mret v).
Proof. intros d ext o v' o' Ho [= <- <-]. split; [lia|done]. Qed.
Lemma stable_throw {A} e : stable (λ _, mthrow e : M Z string A).
Proof. by intros d ext o v' o' Ho [=]. Qed.
Lemma stable_bind {A B} (p : string → M Z string A) (f : A → string → M Z string B) :
  stable p → (∀ x, stable (f x)) → stable (λ d, x ← p d; f x d).
Proof.
  intros Hp Hf d ext o v o' Ho. unfold mbind, M_bind. destruct (p d o) as [[x|e] o1] eqn:E; [|done]. intros Ef.
  destruct (Hp d ext o x o1 Ho E) as [H1 E1]. destruct (Hf x d ext o1 v o' ltac:(lia) Ef) as [H2 E2].
  split; [lia|]. by rewrite E1.
Qed.
Lemma stable_fmap {A B} (f : A → B) (p : string → M Z string A) : stable p → stable (λ d, f <$> p d).
Proof. intros Hp. apply (stable_bind p (λ x _, mret (f x))); [done|]. intros x. apply stable_ret. Qed.
Lemma stable_if {A} (b : bool) (p q : string → M Z string A) : stable p → stable q → stable (λ d, if b then p d else q d).
Proof. by destruct b. Qed.


Lemma stable_bytes n : stable (λ d, txReadBytes d n).
Proof.
  intros d ext o v o' Ho. unfold txReadBytes, mget, mthrow_if, mlift, throw_if, mput, mbind, M_bind.
  destruct ((n <? 0) || (o + n >? slen d)) eqn:E; [done|]. apply orb_false_iff in E as [E1 E2].
  apply Z.ltb_ge in E1. rewrite Z.gtb_ltb in E2. apply Z.ltb_ge in E2. intros [= <- <-]. split; [lia|].
  replace (n <? 0) with false by lia.
  replace (o + n >? slen (d +:+ ext)) with false.
  2:{ symmetry. rewrite Z.gtb_ltb. apply Z.ltb_ge. rewrite slen_app. pose proof (Nat2Z.is_nonneg (String.length ext)). lia. }
  cbn [orb]. rewrite drop_app_within by lia. rewrite take_app_within by (rewrite length_drop_str; lia). done.
Qed.

Create HintDb readers.
#[local] Hint Resolve stable_ret stable_throw stable_fmap stable_if stable_bytes : readers.
Ltac stable_steps := repeat first [solve [cbv beta; auto 10 with readers] | apply stable_bind; [|intros ?]].

Lemma stable_byte : stable txReadMiniByte.
Proof. unfold txReadMiniByte. stable_steps. Qed.
Lemma stable_data : stable txReadMiniData.
Proof. unfold txReadMiniData. stable_steps. Qed.
#[local] Hint Resolve stable_byte stable_data : readers.
Lemma stable_number : stable txReadMiniNumber.
Proof. unfold txReadMiniNumber. stable_steps. Qed.
#[local] Hint Resolve stable_number : readers.
Lemma stable_mmr : stable txReadMMREntryNumber.
Proof. unfold txReadMMREntryNumber. stable_steps. Qed.
Lemma stable_state : stable txReadStateVariable.
Proof. unfold txReadStateVariable. stable_steps. Qed.
Lemma stable_token : stable txReadToken.
Proof. unfold txReadToken. stable_steps. Qed.
#[local] Hint Resolve stable_mmr stable_state stable_token : readers.
Lemma stable_counted {A} (r : string → M Z string A) : stable r → stable (λ d, read_counted d (r d)).
Proof.
  intros Hr. unfold read_counted. apply (stable_bind txReadMiniNumber); [apply stable_number|]. intros count.
  induction (Z.to_nat count.1) as [|n IH]; [apply stable_ret|]. cbn [read_list].
  apply (stable_bind r); [done|]. intros x. apply (stable_bind _ (λ l _, mret (x :: l))); [exact IH|]. intros l. apply stable_ret.
Qed.
#[local] Hint Resolve stable_counted : readers.
Lemma stable_coin : stable txReadCoin.
Proof. unfold txReadCoin. stable_steps. Qed.
#[local] Hint Resolve stable_coin : readers.
Lemma stable_body : stable read_body.
Proof. unfold read_body. stable_steps. Qed.

(** ** The theorems *)

(** C21. A transaction survives its byte form.  Let the raw bytes that a coin keeps from a
    node be such as this writer can write, so that numbers among them other than amounts
    and token totals are integers, and let no amount or token total have more than 255
    decimals.  What is read back is then the same transaction: the coins in order with
    their ids, addresses, tokens, flags and state, each amount the decimal of its text,
    digit by digit, or of its raw bytes; and it serializes to the same bytes again, so its
    digest is the digest that was signed. *)
Theorem transactions_survive_their_bytes tx bytes :
  tx_encoded tx → tx_fits tx → serializeTransaction tx = Ok bytes → slen bytes < 2 ^ 32 →
  ∃ tx', deserializeTransaction bytes = Ok tx' ∧ tx_exact tx tx' ∧ serializeTransaction tx' = Ok bytes.
Proof.
  intros Hw Hf E Hl. destruct (reads_body tx bytes Hw E Hl) as (tx' & Hm & Hr). exists tx'.
  split; [|split; [by eapply tx_exactly|by eapply tx_again]]. rewrite deserialize_open. specialize (Hr "" "").
  change ("" +:+ bytes +:+ "") with (bytes +:+ "") in Hr. rewrite app_nil_r_str in Hr.
  change (slen "") with 0 in Hr. rewrite Hr. by rewrite Z.eqb_refl.
Qed.

(** C27. The reader takes whole transactions only: with anything after its bytes a
    transaction is refused, with the count of what is left over, and so is every
    proper beginning of it. *)
Theorem only_whole_transactions_are_read tx bytes :
  tx_encoded tx → serializeTransaction tx = Ok bytes → slen bytes < 2 ^ 32 →
  (∀ c rest, deserializeTransaction (bytes +:+ String c rest)
     = Err ("deserializeTransaction: " +:+ big_to_string (1 + slen rest) +:+ " trailing byte(s) after transaction"))
  ∧ (∀ front c rest, bytes = front +:+ String c rest → ∃ e, deserializeTransaction front = Err e).
Proof.
  intros Hw E Hl. destruct (reads_body tx bytes Hw E Hl) as (tx' & _ & Hr). split.
  - intros c rest. rewrite deserialize_open. specialize (Hr "" (String c rest)).
    change (slen "") with 0 in Hr. change ("" +:+ bytes +:+ String c rest) with (bytes +:+ String c rest) in Hr. rewrite Hr.
    rewrite slen_app. change (slen (String c rest)) with (Z.of_nat (S (String.length rest))).
    destruct (Z.eqb_spec (0 + slen bytes) (slen bytes + Z.of_nat (S (String.length rest)))); [lia|].
    by replace (slen bytes + Z.of_nat (S (String.length rest)) - (0 + slen bytes)) with (1 + slen rest) by lia.
  - intros front c rest ->. destruct (deserializeTransaction front) as [tx2|e] eqn:E2; [|by exists e]. exfalso.
    rewrite deserialize_open in E2. destruct (read_body front 0) as [[x|e] o] eqn:Eb; [|done].
    destruct (stable_body front (String c rest) 0 x o) as [_ Es]; [pose proof (Nat2Z.is_nonneg (String.length front)); lia|done|].
    specialize (Hr "" ""). change (slen "") with 0 in Hr.
    change ("" +:+ (front +:+ String c rest) +:+ "") with ((front +:+ String c rest) +:+ "") in Hr.
    rewrite app_nil_r_str, Es in Hr. injection Hr as _ Ho. destruct (Z.eqb_spec o (slen front)) as [Eo|]; [|done].
    rewrite slen_app in Ho. change (slen (String c rest)) with (Z.of_nat (S (String.length rest))) in Ho. lia.
Qed.

Section Hash.
Context (h : string → string).

(** C20. The digest that a wallet signs commits to the transaction: two transactions with
    one digest, whose raw bytes this writer can write and whose amounts and token totals
    have at most 255 decimals, are read as one and the same transaction, in every coin,
    amount, token, state variable and flag, each amount exactly the decimal of its text; or
    their bytes are different strings with one hash. *)
Theorem transaction_digest_commits tx1 tx2 bytes1 bytes2 digest :
  tx_encoded tx1 → tx_encoded tx2 → tx_fits tx1 → tx_fits tx2 →
  serializeTransaction tx1 = Ok bytes1 → serializeTransaction tx2 = Ok bytes2 → slen bytes1 < 2 ^ 32 → slen bytes2 < 2 ^ 32 →
  computeTransactionDigest h tx1 = Ok digest → computeTransactionDigest h tx2 = Ok digest →
  (∃ tx, tx_exact tx1 tx ∧ tx_exact tx2 tx) ∨ collision_in h [bytes1; bytes2].
Proof.
  intros Hw1 Hw2 Hf1 Hf2 E1 E2 Hl1 Hl2 D1 D2. unfold computeTransactionDigest in *. rewrite E1 in D1. rewrite E2 in D2.
  cbn [mbind result_bind] in *. assert (h bytes1 = h bytes2) as Hh by congruence.
  apply (same_or_collision h [bytes1; bytes2]) in Hh as [<-|]; [left|by right|set_solver..].
  destruct (reads_body tx1 bytes1 Hw1 E1 Hl1) as (tx & Hm & Hr). destruct (reads_body tx2 bytes1 Hw2 E2 Hl2) as (tx' & Hm' & Hr').
  exists tx. split; [by eapply tx_exactly|]. specialize (Hr "" ""). specialize (Hr' "" ""). assert (tx' = tx) as <- by congruence.
  by eapply tx_exactly.
Qed.

(** ** Coin ids *)

(** What is hashed for the id of an output. *)
Definition id_input (base : string) (i : nat) : list string :=
  match writeMiniNumber (Z.of_nat i) with Ok b => [writeMiniData base +:+ b] | Err _ => [] end.
Lemma mini_inj m n b : writeMiniNumber m = Ok b → writeMiniNumber n = Ok b → m = n.
Proof.
  intros (u & -> & Eu & _)%mini_number_bytes (u' & E & Eu' & _)%mini_number_bytes. injection E as _ <-. congruence.
Qed.
Lemma output_ids base i outs l : set_output_ids h base i outs = Ok l →
  length l = length outs ∧ ∀ k c, l !! k = Some c → ∃ c0 id, outs !! k = Some c0 ∧ output_coin_id h base (i + k) = Ok id ∧ c = set_coinId id c0.
Proof.
  revert i l. induction outs as [|c0 outs IH]; intros i l; cbn [set_output_ids]; [intros [= <-]; by split|].
  destruct (output_coin_id h base i) as [id|] eqn:Eid; [|done]. cbn [mbind result_bind].
  destruct (set_output_ids h base (S i) outs) as [rest|] eqn:Er; [|done]. intros [= <-].
  destruct (IH (S i) rest Er) as [El Hk]. split; [simpl; by rewrite El|]. intros [|k] c Hc.
  - injection Hc as <-. exists c0, id. by rewrite Nat.add_0_r.
  - destruct (Hk k c Hc) as (c1 & id1 & H1 & H2 & H3). exists c1, id1. by rewrite Nat.add_succ_r.
Qed.
Lemma precompute_open tx tx' first rest : inputs tx = first :: rest → precomputeTransactionCoinID h tx = Ok tx' →
  (2 <= String.length (coinId first))%nat ∧ ∃ outs, set_output_ids h (coinId first) 0 (outputs tx) = Ok outs
  ∧ tx' = mkTx (linkHash tx) (inputs tx) outs (txState tx).
Proof.
  unfold precomputeTransactionCoinID. intros ->. unfold throw_if. destruct (Nat.ltb_spec (String.length (coinId first)) 2); [done|].
  cbn [mbind result_bind]. destruct (set_output_ids _ _ _ _) as [outs|]; [|done]. intros [= <-]. split; [done|]. by exists outs.
Qed.

(** Output coin ids name outputs: after the ids are computed, two outputs of two
    transactions, or of one, carry the same id only if both transactions spend the
    same first coin and the outputs stand at the same place, unless the strings hashed for
    the two ids are different and have one hash.  Nothing but the ids changes. *)
Theorem output_coin_ids_are_unique tx1 tx2 tx1' tx2' first1 first2 rest1 rest2 i j c1 c2 :
  inputs tx1 = first1 :: rest1 → inputs tx2 = first2 :: rest2 →
  slen (coinId first1) < 2 ^ 32 → slen (coinId first2) < 2 ^ 32 →
  precomputeTransactionCoinID h tx1 = Ok tx1' → precomputeTransactionCoinID h tx2 = Ok tx2' →
  outputs tx1' !! i = Some c1 → outputs tx2' !! j = Some c2 →
  (∃ c0, outputs tx1 !! i = Some c0 ∧ c1 = set_coinId (coinId c1) c0 ∧ inputs tx1' = inputs tx1 ∧ txState tx1' = txState tx1)
  ∧ (coinId c1 = coinId c2 → (coinId first1 = coinId first2 ∧ i = j)
       ∨ collision_in h (id_input (coinId first1) i ++ id_input (coinId first2) j)).
Proof.
  intros E1 E2 S1 S2 P1 P2 O1 O2.
  destruct (precompute_open _ _ _ _ E1 P1) as (_ & o1 & Q1 & ->). destruct (precompute_open _ _ _ _ E2 P2) as (_ & o2 & Q2 & ->).
  destruct (output_ids _ _ _ _ Q1) as [_ H1]. destruct (output_ids _ _ _ _ Q2) as [_ H2].
  destruct (H1 i c1 O1) as (c0 & id1 & L1 & I1 & ->). destruct (H2 j c2 O2) as (c0' & id2 & L2 & I2 & ->).
  split; [by exists c0|]. cbn [coinId set_coinId]. intros ->. unfold output_coin_id in I1, I2. cbn [Nat.add] in *.
  destruct (writeMiniNumber (Z.of_nat i)) as [bi|] eqn:Ei; [|done]. cbn [mbind result_bind] in I1.
  destruct (writeMiniNumber (Z.of_nat j)) as [bj|] eqn:Ej; [|done]. cbn [mbind result_bind] in I2.
  assert (h (writeMiniData (coinId first1) +:+ bi) = h (writeMiniData (coinId first2) +:+ bj)) as Hh by congruence.
  unfold id_input. rewrite Ei, Ej. apply (same_or_collision h ([writeMiniData (coinId first1) +:+ bi] ++ [writeMiniData (coinId first2) +:+ bj])) in Hh as [Hh|]; [left|by right|set_solver..].
  apply MmSpec.mini_data_inj in Hh as [-> ->]; [|done..]. split; [done|]. apply Nat2Z.inj. by eapply mini_inj.
Qed.
End Hash.

(** ** A concrete transaction: one coin from a proof, two outputs, a token and state *)

Definition ok_or {A} (a : A) (r : Res A) : A := match r with Ok a => a | Err _ => a end.
Definition toy_token : MinimaToken := mkToken "token" 8 1000 "name" "RETURN TRUE" None None.
Definition toy_input : MinimaCoin :=
  buildMinimaCoin (mkCoinOptions None "" "12.50" None None None None None None None None None
    (Some (mkProofData "coin-one" "addr" (ok_or "" (writeScaledNumber 1250 2)) "token" true 77 (ok_or "" (writeMMREntryNumber 77))
      false 9 (ok_or "" (writeMiniNumber 9)) [mkRaw 3 2 (ok_or "" (writeMiniNumber 42))]))).
Definition toy_output (amount : string) : MinimaCoin :=
  mkCoin "" "dest" amount "token" (Some toy_token) true
    [Rich (mkSV 0 (VText "hello") TString); Rich (mkSV 1 (VText "0xABcd") THex); Rich (mkSV 2 (VBool true) TBool)] 0 false 0 None None None None.
Definition toy_tx : MinimaTransaction := mkTx ZERO_TXPOWID [toy_input] [toy_output "0.5"; toy_output "12"] [mkSV 9 (VBig 300) TNumber].
Definition toy_tx_bytes : string := ok_or "" (serializeTransaction toy_tx).

Lemma toy_tx_encoded : tx_encoded toy_tx.
Proof.
  assert (∀ a, well_encoded (toy_output a)) as Ho.
  { intros a. split; try done. intros raw Hr. apply list_elem_of_In in Hr. by repeat destruct Hr as [[=]|Hr]. }
  split; [|repeat (constructor; [apply Ho|]); constructor].
  constructor; [|constructor]. split.
  - intros c0 r [= <- <-]. exists 1250, 2. by vm_compute.
  - intros c0 r [= <- <-]. exists 77. by vm_compute.
  - intros c0 r [= <- <-]. exists 9. by vm_compute.
  - intros raw Hr. apply list_elem_of_In in Hr. destruct Hr as [[= <-]|[]]. exists (mkSV 3 (VBig 42) TNumber). by vm_compute.
  - done.
Qed.

Lemma toy_tx_fits : tx_fits toy_tx.
Proof.
  assert (∀ c p, parseDecimalToMiniNumber (amount c) = Ok p → scale p < 256 →
    (token c = None ∨ token c = Some toy_token ∨ no_raw (rawTokenData c) = False) → scales_fit c) as Hc.
  { intros c p E Hp Ht. split; [intros _ q Eq; rewrite E in Eq; by injection Eq as <-|].
    intros Hr t Et. destruct Ht as [Ht|[Ht|Ht]]; rewrite Et in Ht || rewrite Ht in Hr; by simplify_eq. }
  split; repeat (constructor; [eapply Hc; [by vm_compute|by vm_compute|vm_compute; auto]|]); constructor.
Qed.

(** A number of decimals that does not fit its byte is cut off: an amount with 256
    decimals has the bytes of another. *)
Theorem amounts_wrap_at_256_decimals :
  let tiny := "0." +:+ repeat_char 255 "0" +:+ "1" in
  amount_bytes (toy_output tiny) = amount_bytes (toy_output "1") ∧ is_ok (amount_bytes (toy_output "1")) = true.
Proof. by vm_compute. Qed.

Lemma transactions_survive_their_bytes_witness :
  ∃ tx', deserializeTransaction toy_tx_bytes = Ok tx' ∧ tx_exact toy_tx tx' ∧ serializeTransaction tx' = Ok toy_tx_bytes.
Proof. apply (transactions_survive_their_bytes toy_tx toy_tx_bytes); [apply toy_tx_encoded|apply toy_tx_fits|by vm_compute|by vm_compute]. Defined.

Lemma only_whole_transactions_are_read_witness :
  (∀ c rest, deserializeTransaction (toy_tx_bytes +:+ String c rest)
     = Err ("deserializeTransaction: " +:+ big_to_string (1 + slen rest) +:+ " trailing byte(s) after transaction"))
  ∧ (∀ front c rest, toy_tx_bytes = front +:+ String c rest → ∃ e, deserializeTransaction front = Err e).
Proof. apply (only_whole_transactions_are_read toy_tx toy_tx_bytes); [apply toy_tx_encoded|by vm_compute|by vm_compute]. Defined.

Definition toy_digest : string := ok_or "" (computeTransactionDigest MmSpec.toy_hash toy_tx).
Lemma transaction_digest_commits_witness :
  (∃ tx, tx_exact toy_tx tx ∧ tx_exact toy_tx tx) ∨ collision_in MmSpec.toy_hash [toy_tx_bytes; toy_tx_bytes].
Proof.
  apply (transaction_digest_commits MmSpec.toy_hash toy_tx toy_tx toy_tx_bytes toy_tx_bytes toy_digest);
    [apply toy_tx_encoded|apply toy_tx_encoded|apply toy_tx_fits|apply toy_tx_fits|by vm_compute..].
Defined.

Definition toy_tx_ids : MinimaTransaction := ok_or toy_tx (precomputeTransactionCoinID MmSpec.toy_hash toy_tx).
Definition toy_id (i : nat) : string := default ""%string (coinId <$> outputs toy_tx_ids !! i).
(** The first output of another transaction that spends the same coin. *)
Definition toy_tx2 : MinimaTransaction := mkTx (linkHash toy_tx) (inputs toy_tx) [toy_output "7"] [].
Definition toy_tx2_ids : MinimaTransaction := ok_or toy_tx (precomputeTransactionCoinID MmSpec.toy_hash toy_tx2).
Lemma output_coin_ids_are_unique_witness :
  (coinId toy_input = coinId toy_input ∧ 0%nat = 0%nat)
  ∨ collision_in MmSpec.toy_hash (id_input (coinId toy_input) 0 ++ id_input (coinId toy_input) 0).
Proof.
  apply (output_coin_ids_are_unique MmSpec.toy_hash toy_tx toy_tx2 toy_tx_ids toy_tx2_ids toy_input toy_input [] [] 0 0
    (set_coinId (toy_id 0) (toy_output "0.5")) (set_coinId (toy_id 0) (toy_output "7"))); by vm_compute.
Defined.
End MtSpec.
