(* ===== verification/TreeKeySpec.v ===== *)
(** * What wallet key trees promise

    Every signature of a key tree verifies under its public key; the path a use counter
    names is its own; above the last level a key signs one message, whatever the
    caches hold; and signatures survive their byte form. *)

From Stdlib Require Import ZArith Lia Ascii String.
From stdpp Require Import base list strings.
From S2P Require Import Prelude JsBase JsText JsMap NumSpec Mmr MmrSpec ProofSpec Wots WotsSpec TreeKey.

Module TkSpec.
Import Js JsText JsMap Mm PrfSpec Wo WoSpec Tk.
#[local] Arguments String.append : simpl nomatch.

(** ** Paths *)

Section Paths.
Context (k : Z).

Definition path_value (l : list Z) : Z := foldr (λ d v, d + k * v) 0 l.
Definition in_base (d : Z) : Prop := 0 <= d < k.

Lemma base_digits_spec fuel : ∀ num (n : nat),
  2 <= k ∨ num = 0 → 0 <= num < 2 ^ Z.of_nat fuel → num < k ^ Z.of_nat n →
  ∃ l, base_digits fuel k num = Some l ∧ path_value l = num ∧ Forall in_base l ∧ (length l <= n)%nat.
Proof.
  induction fuel as [|fuel IH]; intros num n Hk Hn Hb; cbn [base_digits].
  { simpl in Hn. assert (num = 0) as -> by lia. exists []. simpl. split; [done|]. split; [done|]. split; [done|lia]. }
  destruct (Z.eqb_spec num 0) as [->|Hne].
  { exists []. simpl. split; [done|]. split; [done|]. split; [done|lia]. }
  destruct Hk as [Hk|]; [|done]. destruct n as [|n]; [simpl in Hb; lia|].
  rewrite Nat2Z.inj_succ, Z.pow_succ_r in Hn, Hb by lia.
  pose proof (Z.mod_pos_bound num k ltac:(lia)). pose proof (Z.div_mod num k ltac:(lia)).
  destruct (IH (num / k) n) as (l & E & Ev & Hl & Hlen).
  { by left. }
  { split; [apply Z.div_pos; lia|]. apply Z.div_lt_upper_bound; [lia|]. nia. }
  { apply Z.div_lt_upper_bound; lia. }
  rewrite E. cbn [mbind option_bind]. eexists. split; [done|]. split; [simpl; rewrite Ev; lia|].
  split; [constructor; [unfold in_base; lia|done]|simpl; lia].
Qed.

Lemma path_value_zeros l n : path_value (l ++ replicate n 0) = path_value l.
Proof.
  unfold path_value. rewrite foldr_app. f_equal. induction n as [|n IH]; [done|]. simpl. rewrite IH. lia.
Qed.
End Paths.

(** A key tree of [levels] levels over [2^m] keys each. *)
Lemma baseConversion_spec t (m : nat) :
  kpl t = 2 ^ Z.of_nat m → 0 <= uses t < getMaxUses t →
  ∃ p, baseConversion t (uses t) = Some p ∧ length p = levels t ∧ Forall (in_base (kpl t)) p
  ∧ path_value (kpl t) (reverse p) = uses t.
Proof.
  intros Hk Hu. unfold getMaxUses in Hu.
  destruct (base_digits_spec (kpl t) (S (Z.to_nat (Z.log2 (uses t)))) (uses t) (levels t)) as (l & E & Ev & Hl & Hlen).
  { destruct m as [|m]; [right; rewrite Hk, Z.pow_1_l in Hu; lia|left].
    rewrite Hk, Nat2Z.inj_succ, Z.pow_succ_r by lia. pose proof (Z.pow_pos_nonneg 2 (Z.of_nat m)). lia. }
  { split; [lia|]. apply dec_fuel. lia. }
  { lia. }
  unfold baseConversion. rewrite E. cbn [mbind option_bind]. eexists. split; [done|].
  rewrite length_reverse, length_app, length_replicate, reverse_involutive, path_value_zeros.
  split; [lia|]. split; [|done]. apply Forall_reverse, Forall_app. split; [done|]. apply Forall_replicate.
  unfold in_base. rewrite Hk. pose proof (Z.pow_pos_nonneg 2 (Z.of_nat m)). lia.
Qed.

(** A negative counter has no path: the conversion never ends. *)
Lemma negative_uses_never_end k fuel num : 2 <= k → num < 0 → base_digits fuel k num = None.
Proof.
  intros Hk. revert num. induction fuel as [|fuel IH]; intros num Hn; cbn [base_digits];
    replace (num =? 0) with false by lia; [done|].
  rewrite IH; [done|]. apply Z.div_lt_upper_bound; lia.
Qed.

(** *** Cache keys *)

Lemma big_nonneg_digits z : 0 <= z → big_to_string z = dec z.
Proof. intros Hz. unfold big_to_string. by replace (z <? 0) with false by lia. Qed.

Lemma cache_key_cons z p : 0 <= z →
  getCacheKey (z :: p) = dec z +:+ match p with [] => "" | _ => "," +:+ getCacheKey p end.
Proof. intros Hz. unfold getCacheKey. simpl. rewrite big_nonneg_digits by done. destruct p; simpl; [by rewrite app_nil_r_str|done]. Qed.

Lemma cache_key_inj p : ∀ q,
  Forall (Z.le 0) p → Forall (Z.le 0) q → p ≠ [] → q ≠ [] → getCacheKey p = getCacheKey q → p = q.
Proof.
  induction p as [|a p IH]; intros [|b q] Hp Hq Np Nq E; try done.
  apply Forall_cons in Hp as [Ha Hp], Hq as [Hb Hq]. rewrite !cache_key_cons in E by done.
  apply (delimited_inj is_digit) in E as [Ed E]; [|by apply dec_digits|by apply dec_digits|by destruct p|by destruct q].
  apply dec_inj in Ed as ->; [|done..]. f_equal.
  destruct p as [|a' p], q as [|b' q]; try done. injection E as E. by apply IH.
Qed.

(** ** Signatures as bytes *)

Notation slen s := (Z.of_nat (String.length s)).

(** Lengths that a signed 32-bit integer holds. *)
Definition small_sig (p : SignatureProof) : Prop :=
  slen (leafPubkey p) < 2 ^ 31 ∧ slen (signature p) < 2 ^ 31 ∧ Forall small_chunk (mmrProof p).

Lemma slen_uint32 n : slen (uint32 n) = 4.
Proof. done. Qed.
Lemma not_past pre s post n : n <= slen s → past_end (Some (slen pre)) n (pre +:+ s +:+ post) = false.
Proof.
  intros Hn. unfold past_end. rewrite Z.gtb_ltb. apply Z.ltb_ge. rewrite !slen_app.
  pose proof (Nat2Z.is_nonneg (String.length post)). lia.
Qed.
Lemma read_back_field pre d post e1 e2 : slen d < 2 ^ 31 →
  read_field (pre +:+ writeMiniData d +:+ post) (Some (slen pre)) e1 e2 = Ok (d, Some (slen pre + slen (writeMiniData d))).
Proof.
  intros Hd. unfold read_field, writeMiniData. set (w := uint32 (slen d)).
  pose proof (Nat2Z.is_nonneg (String.length d)).
  assert (slen w = 4) as Lw by apply slen_uint32. rewrite (app_assoc_str w d post).
  rewrite not_past by lia. cbn [throw_if mbind result_bind]. rewrite read_int32_past.
  assert (read_int32 (w +:+ d +:+ post) (Some 0) = slen d) as -> by (apply read_back_int32; lia). replace (slen d <? 0) with false by lia.
  assert (pre +:+ w +:+ d +:+ post = (pre +:+ w) +:+ d +:+ post) as -> by (by rewrite app_assoc_str).
  unfold plus. cbn [fmap option_fmap option_map]. replace (slen pre + 4) with (slen (pre +:+ w)) by (rewrite slen_app; lia).
  rewrite not_past by lia. cbn [orb throw_if mbind result_bind]. rewrite slice_middle. rewrite !slen_app. f_equal. f_equal.
  f_equal. lia.
Qed.
Lemma slice_rest pre s : slice (pre +:+ s) (Some (slen pre)) (Some (slen (pre +:+ s))) = s.
Proof. pose proof (slice_middle pre s "") as H. by rewrite app_nil_r_str, <- slen_app in H. Qed.

Lemma read_back_proofs sig : ∀ pre parts, Forall small_sig sig → result_mapM writeSignatureProof sig = Ok parts →
  read_proofs (length sig) (pre +:+ concat_bytes parts) (Some (slen pre)) = Ok sig.
Proof.
  induction sig as [|p sig IH]; intros pre parts Hs E; [done|].
  apply Forall_cons in Hs as [(Hl & Hg & Hp) Hs]. cbn [result_mapM] in E.
  destruct (writeSignatureProof p) as [b|] eqn:Eb; [|done]. cbn [mbind result_bind] in E. unfold writeSignatureProof in Eb.
  destruct (serializeMMRProof (mmrProof p) 0) as [proofBytes|] eqn:Ep; [|done].
  cbn [mbind result_bind] in Eb. apply Ok_inj in Eb as <-.
  destruct (result_mapM writeSignatureProof sig) as [parts'|] eqn:Er; [|done]. cbn [mbind result_bind] in E. apply Ok_inj in E as <-.
  cbn [concat_bytes foldr length read_proofs]. fold (concat_bytes parts'). set (rest := concat_bytes parts').
  set (f1 := writeMiniData (leafPubkey p)). set (f2 := writeMiniData (signature p)).
  assert (pre +:+ (f1 +:+ f2 +:+ proofBytes) +:+ rest = pre +:+ f1 +:+ f2 +:+ proofBytes +:+ rest) as -> by (by rewrite !app_assoc_str).
  pose proof (λ post e1 e2, read_back_field pre (leafPubkey p) post e1 e2 Hl) as R. fold f1 in R. rewrite R. clear R. cbn [mbind result_bind]. rewrite <- slen_app.
  assert (pre +:+ f1 +:+ f2 +:+ proofBytes +:+ rest = (pre +:+ f1) +:+ f2 +:+ proofBytes +:+ rest) as -> by (by rewrite !app_assoc_str).
  pose proof (λ post e1 e2, read_back_field (pre +:+ f1) (signature p) post e1 e2 Hg) as R. fold f2 in R. rewrite R. clear R. cbn [mbind result_bind]. rewrite <- slen_app.
  assert ((pre +:+ f1) +:+ f2 +:+ proofBytes +:+ rest = ((pre +:+ f1) +:+ f2) +:+ proofBytes +:+ rest) as -> by (by rewrite !app_assoc_str).
  rewrite slice_rest, (read_back_proof _ 0 _ _ Hp Ep). cbn [pp_bytesRead pp_proof].
  set (pre2 := (pre +:+ f1) +:+ f2).
  assert (plus (Some (slen proofBytes)) (slen pre2) = Some (slen (pre2 +:+ proofBytes))) as Eo.
  { unfold plus. cbn [fmap option_fmap option_map]. f_equal. rewrite slen_app. lia. }
  cbn [option_bind]. rewrite Eo, <- (app_assoc_str pre2 proofBytes). unfold rest. rewrite IH by done. cbn [mbind result_bind]. by destruct p.
Qed.

Lemma count_bytes n : (1 <= n <= 8)%nat →
  writeMiniNumber (Z.of_nat n) = Ok (String (byte 0) (String (byte 1) (String (byte (Z.of_nat n)) ""))).
Proof. intros Hn. do 9 (destruct n as [|n]; [try lia; by vm_compute|]). lia. Qed.

Lemma read_back_tree_signature sig bytes :
  (1 <= length sig <= 8)%nat → Forall small_sig sig →
  serializeTreeSignature sig = Ok bytes → deserializeTreeSignature bytes = Ok sig.
Proof.
  intros Hn Hs. unfold serializeTreeSignature. rewrite count_bytes by done. cbn [mbind result_bind].
  destruct (result_mapM writeSignatureProof sig) as [parts|] eqn:E; [|done]. intros [= <-].
  set (count := byte (Z.of_nat (length sig))).
  assert (code count = Z.of_nat (length sig)) as Ec by (apply code_byte; lia).
  pose proof (read_back_proofs sig (String (byte 0) (String (byte 1) (String count ""))) parts Hs E) as R.
  cbn [String.append] in *. unfold deserializeTreeSignature.
  change (byte_at _ (Some 1)) with (Some 1). cbv iota beta. cbn [Z.gtb Z.compare Pos.compare Pos.compare_cont throw_if mbind result_bind].
  change (read_count (Z.to_nat 1) (String _ (String _ (String count (concat_bytes parts)))) 2 0) with (Z.lor 0 (code count)).
  rewrite Z.lor_0_l, Ec. replace (Z.of_nat (length sig) <? 1) with false by lia.
  replace (Z.of_nat (length sig) >? 8) with false by (rewrite Z.gtb_ltb; lia). cbn [orb throw_if mbind result_bind].
  rewrite Nat2Z.id. exact R.
Qed.

(** A tree signature survives its byte form: of one to eight proofs, the most the
    reader takes, the same leaves, signatures and Merkle proofs are read back in order. *)
Theorem tree_signatures_survive_their_bytes sig bytes :
  (1 <= length sig <= 8)%nat → Forall small_sig sig →
  serializeTreeSignature sig = Ok bytes → deserializeTreeSignature bytes = Ok sig.
Proof. apply read_back_tree_signature. Qed.

(** ** Nodes *)

Section Hash.
Context (h : string → string).
Hypothesis H32 : ∀ x, is_32 (h x).

(** A proof of ordinary size: key, 34 chains, and hashes without sums. *)
Definition writable (p : SignatureProof) : Prop :=
  is_32 (leafPubkey p) ∧ String.length (signature p) = (paramL * 32)%nat
  ∧ Forall (MmSpec.hash_chunk h) (mmrProof p) ∧ Z.of_nat (length (mmrProof p)) < 2 ^ 64.
(** The proof leads to a root, with a signature of the message. *)
Definition proves (p : SignatureProof) (root message : string) : Prop :=
  getRootPublicKey h p = Ok root ∧ wotsVerifyDigest h (signature p) message (leafPubkey p) = Ok true ∧ writable p.

(** *** The two verifiers *)

(** Below the first level they make the same checks. *)
Lemma detailed_rest data l : ∀ depth pk pk', (0 < depth)%nat →
  valid <$> verify_detailed h depth pk data l = verify_levels h false pk' data l.
Proof.
  induction l as [|p l IH]; intros depth pk pk' Hd; [done|]. cbn [verify_levels verify_detailed].
  destruct (getRootPublicKey h p); [|done]. cbn [mbind result_bind andb]. destruct (Nat.eqb_spec depth 0); [lia|].
  cbn [andb]. destruct (signed_data h data l); [|done]. cbn [mbind result_bind].
  destruct (wotsVerifyDigest _ _ _ _) as [[]|]; [|done..]. cbn [mbind result_bind]. apply IH. lia.
Qed.

(** The check of the first level, with its root as the expected key. *)
Definition checked (root data : string) (l : TreeSignature) : Res bool := verify_levels h true root data l.

Lemma starts_with_self s : starts_with s s = true.
Proof. apply starts_with_spec. exists "". by rewrite app_nil_r_str. Qed.
Lemma plain_first p l pk data root : getRootPublicKey h p = Ok root →
  verify_levels h true pk data (p :: l) = if starts_with pk root then checked root data (p :: l) else Ok false.
Proof.
  intros E. unfold checked. cbn [verify_levels]. rewrite E. cbn [mbind result_bind andb]. rewrite starts_with_self.
  destruct (starts_with pk root); [|done]. cbn [negb]. destruct (signed_data h data l); [|done]. cbn [mbind result_bind].
  destruct (wotsVerifyDigest _ _ _ _) as [[]|]; [|done..]. cbn [mbind result_bind].
  by rewrite <- (detailed_rest data l 1 pk pk), (detailed_rest data l 1 pk root) by lia.
Qed.
Lemma detailed_first p l pk data root : getRootPublicKey h p = Ok root →
  valid <$> verify_detailed h 0 pk data (p :: l) = if String.eqb pk root then checked root data (p :: l) else Ok false.
Proof.
  intros E. unfold checked. cbn [verify_levels verify_detailed]. rewrite E. cbn [mbind result_bind andb Nat.eqb].
  rewrite starts_with_self. destruct (String.eqb pk root); [|done]. cbn [negb].
  destruct (signed_data h data l); [|done]. cbn [mbind result_bind].
  destruct (wotsVerifyDigest _ _ _ _) as [[]|]; [|done..]. cbn [mbind result_bind]. apply detailed_rest. lia.
Qed.

(** A root is a hash. *)
Lemma parent_is_32 a b r : createMMRDataParentNode h a b = Ok r → is_32 (data r).
Proof.
  unfold createMMRDataParentNode. destruct (sum_bytes _); [|done]. cbn [mbind result_bind]. intros [= <-]. apply H32.
Qed.
Lemma walk_is_32 proof : ∀ d r, is_32 (data d) → calculateRootMMRData h d proof = Ok r → is_32 (data r).
Proof.
  induction proof as [|c proof IH]; intros d r Hd E; [by injection E as <-|]. cbn [calculateRootMMRData] in E.
  destruct (if isLeft c then _ else _) as [x|] eqn:Ep; [|done]. eapply IH; [|exact E].
  destruct (isLeft c); by eapply parent_is_32.
Qed.
Lemma root_is_32 p r : getRootPublicKey h p = Ok r → is_32 r.
Proof.
  unfold getRootPublicKey, createMMRDataLeafNode, sum_bytes, calculateProofRoot. cbn [mbind result_bind Z.eqb].
  destruct (calculateRootMMRData _ _ _) as [x|] eqn:E; [|done]. intros [= <-]. eapply walk_is_32, E. apply H32.
Qed.

Section Keys.
Context (K : Z) (m : nat).
Hypothesis HK : K = 2 ^ Z.of_nat m.
Hypothesis Hsafe : K <= MAX_SAFE_INTEGER.

(** A node whose every key signs. *)
Record good_node (n : TreeKeyNode) : Prop := {
  gn_child : is_32 (childSeed n);
  gn_keys : keysPerLevel n = K;
  gn_root : is_32 (rootPubkey n);
  gn_sign : ∀ i message, in_base K i → is_32 message →
    ∃ p, node_sign h n i message = Ok p ∧ proves p (rootPubkey n) message }.

Lemma digests_ok seed l :
  is_32 seed → Forall (in_base K) l →
  ∃ ds, result_mapM (derivePKdigest h seed) l = Ok ds ∧ Forall is_32 ds ∧ length ds = length l
  ∧ ∀ j i, l !! j = Some i → ∃ d, ds !! j = Some d ∧ derivePKdigest h seed i = Ok d.
Proof.
  intros Hs. induction 1 as [|i l Hi Hl IH]; [by exists []|].
  destruct (derivePKdigest_ok h H32 seed i Hs) as (d & Ed & Hd); [unfold in_base in Hi; lia|].
  destruct IH as (ds & E & Hds & El & Hget). cbn [result_mapM]. rewrite Ed. cbn [mbind result_bind]. rewrite E.
  exists (d :: ds). split; [done|]. split; [by constructor|]. split; [simpl; by rewrite El|].
  intros [|j] i' Hj; [injection Hj as <-; by exists d|by apply Hget].
Qed.

Lemma in_range what n i : keysPerLevel n = K → in_base K i → out_of_range what i n = Ok tt.
Proof.
  intros Ek Hi. unfold in_base in Hi. unfold out_of_range. rewrite Ek. replace (i <? 0) with false by lia.
  replace (i >=? K) with false; [done|]. rewrite Z.geb_leb. lia.
Qed.

Lemma newTreeKeyNode_good seed : is_32 seed → ∃ n, newTreeKeyNode h seed K = Ok n ∧ good_node n.
Proof.
  intros Hs. assert (0 < K) as HK0 by (rewrite HK; apply Z.pow_pos_nonneg; lia).
  destruct (digests_ok seed (seqZ 0 K) Hs) as (ds & Ed & Hds & El & Hget).
  { apply Forall_seqZ. intros i Hi. unfold in_base. lia. }
  rewrite length_seqZ in El.
  destruct (MmSpec.full_tree h m ds) as (t & root & Et & Er & [x Ex] & Hproof); [lia|].
  unfold newTreeKeyNode. rewrite Hs, Nat.eqb_refl. cbn [mbind result_bind negb throw_if]. rewrite Ed.
  cbn [mbind result_bind]. rewrite Et. cbn [mbind result_bind]. rewrite Er. eexists. split; [done|].
  split; simpl; [apply H32|done|rewrite Ex; apply H32|].
  intros i message Hi Hm. unfold node_sign. rewrite in_range by done. cbn [mbind result_bind Tk.seed].
  assert (0 <= i <= MAX_SAFE_INTEGER) as Hsi by (unfold in_base in Hi; lia).
  destruct (wots_verifies h H32 seed i message Hs Hm Hsi) as (sig & pk & Es & Epk & Ev & Elen). rewrite Es.
  eexists. split; [done|]. unfold in_base in Hi.
  destruct (Hget (Z.to_nat i) i) as (d & Hd & Hpk).
  { rewrite lookup_seqZ_lt by lia. f_equal. lia. }
  assert (d = pk) as -> by congruence. destruct (Hproof _ _ Hd) as (leaf & El' & Hr). unfold digest_at. cbn [publicKeyDigests].
  rewrite Hd. rewrite Z2Nat.id in Hr by lia. split; [|split; [done|]].
  - unfold getRootPublicKey. cbn [leafPubkey]. simpl default. by rewrite El'.
  - destruct (MmSpec.full_tree_proofs h m ds t i ltac:(lia) Et) as [Hc Hlen].
    split; [rewrite Forall_forall in Hds; apply Hds; by eapply list_elem_of_lookup_2|]. split; [done|]. split; [done|].
    unfold node_getProof. cbn [mmrProof mmrTree]. apply Z.le_lt_trans with (Z.of_nat m); [lia|].
    assert (Z.of_nat m < 2 ^ Z.of_nat m) by (apply Z.pow_gt_lin_r; lia). unfold MAX_SAFE_INTEGER in Hsafe. lia.
Qed.

Lemma getChild_good n i : good_node n → in_base K i → ∃ c, getChild h n i = Ok c ∧ good_node c.
Proof.
  intros Hn Hi. unfold getChild. rewrite in_range by (by try apply Hn). cbn [mbind result_bind].
  unfold deriveChainSeedJava. destruct (mini_index i) as [s ->]; [unfold in_base in Hi; lia|]. cbn [mbind result_bind].
  rewrite (gn_keys _ Hn). apply newTreeKeyNode_good, H32.
Qed.

(** The node a path leads to. *)
Fixpoint node_at (n : TreeKeyNode) (path : list Z) : Res TreeKeyNode :=
  match path with [] => Ok n | i :: path => child ← getChild h n i; node_at child path end.

Lemma node_at_good path : ∀ n, good_node n → Forall (in_base K) path → ∃ x, node_at n path = Ok x ∧ good_node x.
Proof.
  induction path as [|i path IH]; intros n Hn Hp; [by exists n|]. apply Forall_cons in Hp as [Hi Hp].
  destruct (getChild_good n i Hn Hi) as (c & E & Hc). cbn [node_at]. rewrite E. by apply IH.
Qed.
Lemma descend_spec path : ∀ n, good_node n → Forall (in_base K) path →
  ∃ ns, descend h n path = Ok ns ∧ ∀ j, (j <= length path)%nat → ∃ x, ns !! j = Some x ∧ node_at n (take j path) = Ok x.
Proof.
  induction path as [|i path IH]; intros n Hn Hp.
  { exists [n]. split; [done|]. intros j Hj. exists n. simpl in Hj. by replace j with 0%nat by lia. }
  apply Forall_cons in Hp as [Hi Hp]. destruct (getChild_good n i Hn Hi) as (c & E & Hc).
  destruct (IH c Hc Hp) as (ns & Ens & Hns). cbn [descend]. rewrite E. cbn [mbind result_bind]. rewrite Ens.
  exists (n :: ns). split; [done|]. intros [|j] Hj; [by exists n|].
  destruct (Hns j) as (x & Hx & Ex); [simpl in Hj; lia|]. exists x. split; [done|]. cbn [take node_at]. by rewrite E.
Qed.

Lemma node_at_snoc n p i x : node_at n p = Ok x → node_at n (p ++ [i]) = getChild h x i.
Proof.
  revert n. induction p as [|j p IH]; intros n; cbn [node_at app].
  - intros [= ->]. simpl. by destruct (getChild h x i).
  - destruct (getChild h n j) as [c|]; [|done]. cbn [mbind result_bind]. apply IH.
Qed.

(** ** The levels of a signature *)

Section Signature.
Context (root : TreeKeyNode) (L : nat).
Hypothesis Hroot : good_node root.

(** What level [j] signs, and with which key of which node. *)
Definition message_at (data : string) (path : list Z) (j : nat) : Res string :=
  if Nat.eqb (S j) L then Ok data else rootPubkey <$> node_at root (take (S j) path).
Definition level_sig (data : string) (path : list Z) (j : nat) : Res SignatureProof :=
  node ← node_at root (take j path);
  message ← message_at data path j;
  i ← of_option "no index" (path !! j);
  node_sign h node i message.

Lemma level_sig_good data path j :
  is_32 data → Forall (in_base K) path → length path = L → (j < L)%nat →
  ∃ n i message s, node_at root (take j path) = Ok n ∧ good_node n ∧ path !! j = Some i ∧ in_base K i
  ∧ message_at data path j = Ok message ∧ is_32 message
  ∧ node_sign h n i message = Ok s ∧ level_sig data path j = Ok s ∧ proves s (rootPubkey n) message.
Proof.
  intros Hd Hp Hl Hj. destruct (node_at_good (take j path) root Hroot) as (n & En & Hn); [by apply Forall_take|].
  destruct (lookup_lt_is_Some_2 path j) as [i Hi]; [by rewrite Hl|].
  assert (in_base K i) as Hb by (by eapply Forall_lookup_1).
  assert (∃ message, message_at data path j = Ok message ∧ is_32 message) as (message & Em & Hm).
  { unfold message_at. destruct (Nat.eqb (S j) L); [by exists data|].
    destruct (node_at_good (take (S j) path) root Hroot) as (c & -> & Hc); [by apply Forall_take|].
    exists (rootPubkey c). split; [done|apply Hc]. }
  destruct (gn_sign _ Hn i message Hb Hm) as (s & Es & Hs).
  exists n, i, message, s. repeat (split; [done|]). split; [|done].
  unfold level_sig. rewrite En. cbn [mbind result_bind]. rewrite Em. cbn [mbind result_bind]. rewrite Hi. done.
Qed.

(** The proofs of levels [j] to [L - 1]. *)
Definition levels_from (data : string) (path : list Z) (j : nat) (l : TreeSignature) : Prop :=
  (length l + j)%nat = L ∧ ∀ i s, l !! i = Some s → level_sig data path (j + i) = Ok s.

Lemma levels_cons data path j s l :
  level_sig data path j = Ok s → levels_from data path (S j) l → levels_from data path j (s :: l).
Proof. clear HK Hsafe.
  intros Es [Hl H]. split; [simpl; lia|]. intros [|i] x; [intros [= <-]; by rewrite Nat.add_0_r|].
  intros Hx. rewrite Nat.add_succ_r. by apply H.
Qed.
Lemma levels_uncons data path j s l :
  levels_from data path j (s :: l) → level_sig data path j = Ok s ∧ levels_from data path (S j) l.
Proof. clear HK Hsafe.
  intros [Hl H]. split; [specialize (H 0%nat s eq_refl); by rewrite Nat.add_0_r in H|].
  split; [simpl in Hl; lia|]. intros i x Hx. specialize (H (S i) x Hx). by rewrite Nat.add_succ_r in H.
Qed.

(** *** They verify *)

Lemma levels_verify data path : is_32 data → Forall (in_base K) path → length path = L →
  ∀ l j first pk, levels_from data path j l → (j < L)%nat →
  (first = true → ∃ n, node_at root (take j path) = Ok n ∧ pk = rootPubkey n) →
  verify_levels h first pk data l = Ok true.
Proof.
  intros Hd Hp Hpl l. induction l as [|s l IH]; intros j first pk Hl Hj Hf; [done|].
  apply levels_uncons in Hl as [Es Hl].
  destruct (level_sig_good data path j Hd Hp Hpl Hj) as (n & i & msg & s' & En & _ & _ & _ & Em & _ & _ & Es' & Hr & Hv & _).
  rewrite Es in Es'. injection Es' as <-. cbn [verify_levels]. rewrite Hr. cbn [mbind result_bind].
  replace (first && negb (starts_with pk (rootPubkey n))) with false.
  2:{ destruct first; [|done]. destruct (Hf eq_refl) as (n' & En' & ->). rewrite En in En'. injection En' as <-.
      pose proof (starts_with_app (rootPubkey n) "") as Hs. rewrite app_nil_r_str in Hs. by rewrite Hs. }
  assert (signed_data h data l = Ok msg) as ->.
  { unfold message_at in Em. destruct l as [|s2 l].
    - destruct Hl as [Hl _]. simpl in Hl. rewrite Hl, Nat.eqb_refl in Em. done.
    - assert (S j < L)%nat as Hj' by (destruct Hl as [Hl _]; simpl in Hl; lia).
      destruct (Nat.eqb_spec (S j) L); [lia|].
      apply levels_uncons in Hl as [Es2 _].
      destruct (level_sig_good data path (S j) Hd Hp Hpl Hj') as (n2 & _ & _ & s2' & En2 & _ & _ & _ & _ & _ & _ & Es2' & Hr2 & _).
      rewrite Es2 in Es2'. injection Es2' as <-. rewrite En2 in Em. simpl in Em. injection Em as <-. exact Hr2. }
  cbn [mbind result_bind]. rewrite Hv. cbn [mbind result_bind].
  destruct l as [|s2 l]; [done|]. eapply IH; [done| |done]. destruct Hl as [Hl _]. simpl in Hl. lia.
Qed.

(** *** The cache of parent signatures *)

(** Above the last level the message is the root of a child, whatever is signed below. *)
Lemma level_sig_prefix data data' path j : (S j < L)%nat →
  level_sig data (take (j + 2) path) j = level_sig data' path j.
Proof.
  intros Hj. unfold level_sig, message_at. destruct (Nat.eqb_spec (S j) L); [lia|].
  rewrite !take_take. replace (Nat.min j (j + 2)) with j by lia. replace (Nat.min (S j) (j + 2)) with (S j) by lia.
  by rewrite lookup_take_lt by lia.
Qed.

Definition coherent (cache : list (string * SignatureProof)) : Prop :=
  ∀ q s, Forall (in_base K) q → (2 <= length q <= L)%nat →
  map_get (getCacheKey q) cache = Some s → level_sig "" q (length q - 2) = Ok s.

Lemma coherent_set q s cache :
  Forall (in_base K) q → (2 <= length q)%nat → level_sig "" q (length q - 2) = Ok s →
  coherent cache → coherent (map_set (getCacheKey q) s cache).
Proof.
  intros Hq Hl Es Hc q' s' Hq' Hl' Hget. destruct (decide (getCacheKey q = getCacheKey q')) as [E|Hne].
  - assert (∀ p, Forall (in_base K) p → Forall (Z.le 0) p) as Hpos.
    { intros p Hp. eapply Forall_impl; [exact Hp|]. unfold in_base. intros; lia. }
    apply cache_key_inj in E as <-; [|by apply Hpos|by apply Hpos|intros ->; simpl in *; lia..].
    rewrite map_get_set_eq in Hget. injection Hget as <-. done.
  - rewrite map_get_set_ne in Hget by done. by apply Hc.
Qed.

(** The same key tree, up to its cache. *)
Definition same_key (t t' : TreeKey) : Prop := t' = set_cache (parentChildSigCache t') t.
Lemma same_key_refl t : same_key t t.
Proof. by destruct t. Qed.
Lemma same_key_trans t1 t2 t3 : same_key t1 t2 → same_key t2 t3 → same_key t1 t3.
Proof. unfold same_key. intros H1 H2. rewrite H2, H1. done. Qed.

Lemma sign_parents_spec data path nodes : is_32 data → Forall (in_base K) path → length path = L →
  (∀ j, (j < L)%nat → ∃ x, nodes !! j = Some x ∧ node_at root (take j path) = Ok x) →
  ∀ depth child proofs t,
  (depth < L)%nat → levels_from data path depth (child :: proofs) → coherent (parentChildSigCache t) →
  ∃ l t', sign_parents h depth nodes path child proofs t = (Ok l, t')
  ∧ levels_from data path 0 l ∧ coherent (parentChildSigCache t') ∧ same_key t t'.
Proof.
  intros Hd Hp Hl Hn depth. induction depth as [|depth IH]; intros child proofs t Hdep Hlev Hc.
  { exists (child :: proofs), t. split; [done|]. split; [done|]. split; [done|apply same_key_refl]. }
  pose proof (levels_uncons _ _ _ _ _ Hlev) as [Ec _].
  destruct (level_sig_good data path (S depth) Hd Hp Hl Hdep) as (nc & _ & _ & c' & Enc & _ & _ & _ & _ & _ & _ & Ec' & Hrc & _).
  rewrite Ec in Ec'. injection Ec' as <-.
  destruct (level_sig_good data path depth Hd Hp Hl ltac:(lia)) as (n & i & msg & s & En & _ & Ei & _ & Em & _ & Esign & Es & _).
  assert (msg = rootPubkey nc) as ->.
  { unfold message_at in Em. destruct (Nat.eqb_spec (S depth) L); [lia|]. rewrite Enc in Em. simpl in Em. congruence. }
  destruct (Hn depth ltac:(lia)) as (n' & Hn' & En'). assert (n' = n) as -> by congruence.
  cbn [sign_parents]. set (q := take (depth + 2) path).
  assert (length q = depth + 2)%nat as Hlq by (unfold q; rewrite length_take; lia).
  assert (Forall (in_base K) q) as Hq by (by apply Forall_take).
  assert (level_sig "" q (length q - 2) = Ok s) as Esq.
  { rewrite Hlq. replace (depth + 2 - 2)%nat with depth by lia. unfold q. by rewrite (level_sig_prefix "" data) by lia. }
  unfold mbind at 1, M_bind at 1, thrown at 1. rewrite Hrc.
  unfold mbind at 1, M_bind at 1, mget at 1. unfold mbind at 1, M_bind at 1. unfold getParentChildSig.
  destruct (map_get (getCacheKey q) (parentChildSigCache t)) as [s'|] eqn:Eget.
  - assert (s' = s) as -> by (apply Hc in Eget; [congruence|done|lia]).
    apply IH; [lia| |done]. by apply levels_cons.
  - unfold thrown, mbind, M_bind. rewrite Hn'. cbn [of_option]. rewrite Ei. cbn [of_option]. rewrite Esign.
    cbn -[sign_parents map_set].
    set (t1 := set_cache (map_set (getCacheKey q) s (parentChildSigCache t)) t).
    destruct (IH s (child :: proofs) t1) as (l & t' & E & Hl' & Hc' & Hs'); [lia|by apply levels_cons|apply coherent_set; (done || lia)|].
    exists l, t'. split; [exact E|]. split; [done|]. split; [done|]. by apply (same_key_trans t t1 t').
Qed.

(** ** The states of a key *)

Record wf (t : TreeKey) : Prop := {
  wf_root : Tk.root t = root; wf_levels : levels t = L; wf_kpl : kpl t = K;
  wf_public : publicKey t = rootPubkey root; wf_uses : 0 <= uses t; wf_cache : coherent (parentChildSigCache t) }.

Lemma wf_same t t' : same_key t t' → wf t → coherent (parentChildSigCache t') → wf t'.
Proof. intros E [] Hc. rewrite E. by constructor. Qed.
Lemma wf_set_uses t u : 0 <= u → wf t → wf (set_uses u t).
Proof. intros Hu []. by constructor. Qed.

Lemma bad_message n i data : ¬ is_32 data → ∃ e, node_sign h n i data = Err e.
Proof.
  intros Hd. unfold node_sign. destruct (out_of_range "Key" i n); [|by eexists]. cbn [mbind result_bind].
  unfold wotsSign. destruct (assert32 _ "seed"); [|by eexists]. cbn [mbind result_bind].
  unfold assert32, throw_if. destruct (Nat.eqb_spec (String.length data) 32); [done|]. by eexists.
Qed.

(** Everything [sign] computes before it looks at the cache. *)
Definition leaf_step (t : TreeKey) (path : list Z) (data : string) : Res (list TreeKeyNode * SignatureProof) :=
  nodes ← descend h (Tk.root t) (take (levels t - 1) path);
  leafNode ← of_option "TypeError" (nodes !! (levels t - 1)%nat);
  i ← of_option "TypeError" (path !! (levels t - 1)%nat);
  leafProof ← node_sign h leafNode i data;
  Ok (nodes, leafProof).
Lemma sign_open t data : sign h data t =
  if uses t >=? getMaxUses t then (Err (Thrown "No more keys available (tree exhausted)"), t) else
  match baseConversion t (uses t) with
  | None => (Err Endless, t)
  | Some path =>
      match leaf_step t path data with
      | Err e => (Err (Thrown e), t)
      | Ok (nodes, leafProof) =>
          match sign_parents h (levels t - 1) nodes path leafProof [] t with
          | (Ok proofs, t') => (Ok proofs, set_uses (uses t' + 1) t')
          | (Err e, t') => (Err e, t')
          end
      end
  end.
Proof.
  unfold sign, leaf_step, mthrow_if, mlift, throw_if, thrown, mget, mmodify, mthrow, mret, M_ret, mbind, M_bind, result_bind.
  destruct (uses t >=? getMaxUses t); [done|]. destruct (baseConversion t (uses t)) as [p|]; [|done].
  destruct (descend _ _ _); [|done]. destruct (of_option _ (_ !! _)); [|done].
  destruct (of_option _ (_ !! _)); [|done]. destruct (node_sign _ _ _ _); [|done].
  by destruct (sign_parents _ _ _ _ _ _ _) as [[|] t'].
Qed.
Lemma bad_leaf t p data : ¬ is_32 data → ∃ e, leaf_step t p data = Err e.
Proof.
  intros Hd. unfold leaf_step. destruct (descend _ _ _) as [ns|]; [|by eexists]. cbn [mbind result_bind].
  destruct (ns !! _) as [n|]; [|by eexists]. cbn [mbind result_bind of_option].
  destruct (p !! _) as [i|]; [|by eexists]. cbn [mbind result_bind of_option].
  destruct (bad_message n i data Hd) as [e ->]. by eexists.
Qed.

Lemma sign_spec t data :
  (0 < L)%nat → wf t → uses t < getMaxUses t → is_32 data →
  ∃ p proofs t', baseConversion t (uses t) = Some p ∧ length p = L ∧ Forall (in_base K) p
  ∧ path_value K (reverse p) = uses t
  ∧ sign h data t = (Ok proofs, t') ∧ wf t' ∧ uses t' = uses t + 1 ∧ levels_from data p 0 proofs.
Proof.
  intros HL Ht Hu Hd. destruct (baseConversion_spec t m) as (p & Ep & Hpl & Hp & Hv).
  { rewrite (wf_kpl _ Ht). exact HK. }
  { split; [apply Ht|done]. }
  rewrite (wf_levels _ Ht) in Hpl. rewrite (wf_kpl _ Ht) in Hp, Hv.
  destruct (descend_spec (take (L - 1) p) root Hroot) as (ns & Ens & Hns); [by apply Forall_take|].
  assert (∀ j, (j < L)%nat → ∃ x, ns !! j = Some x ∧ node_at root (take j p) = Ok x) as Hnodes.
  { intros j Hj. destruct (Hns j) as (x & Hx & En); [rewrite length_take; lia|]. exists x. split; [done|].
    rewrite take_take in En. by replace (Nat.min j (L - 1)) with j in En by lia. }
  destruct (level_sig_good data p (L - 1) Hd Hp Hpl ltac:(lia)) as (n & i & msg & s & En & _ & Ei & _ & Em & _ & Esign & Es & _).
  assert (msg = data) as ->.
  { unfold message_at in Em. replace (S (L - 1)) with L in Em by lia. rewrite Nat.eqb_refl in Em. congruence. }
  destruct (Hnodes (L - 1)%nat ltac:(lia)) as (n' & Hn' & En'). assert (n' = n) as -> by congruence.
  destruct (sign_parents_spec data p ns Hd Hp Hpl Hnodes (L - 1) s [] t) as (l & t' & E & Hl & Hc & Hs).
  { lia. }
  { apply levels_cons; [done|]. split; [simpl; lia|done]. }
  { apply Ht. }
  assert (wf t') as Ht' by (by apply (wf_same t)).
  exists p, l, (set_uses (uses t' + 1) t'). split; [done|]. split; [done|]. split; [done|]. split; [done|].
  split; [|split; [apply wf_set_uses; [pose proof (wf_uses _ Ht'); lia|done]|split; [by rewrite Hs|done]]].
  rewrite sign_open, Ep. replace (uses t >=? getMaxUses t) with false by (rewrite Z.geb_leb; lia).
  unfold leaf_step. rewrite (wf_levels _ Ht), (wf_root _ Ht), Ens. cbn [mbind result_bind]. rewrite Hn', Ei.
  cbn [mbind result_bind of_option]. rewrite Esign. cbn [mbind result_bind]. by rewrite E.
Qed.

Lemma sign_data t data l t' : wf t → sign h data t = (Ok l, t') → is_32 data ∧ uses t < getMaxUses t.
Proof. clear HK Hsafe.
  intros Ht. rewrite sign_open. destruct (uses t >=? getMaxUses t) eqn:Eu; [done|]. rewrite Z.geb_leb in Eu.
  destruct (baseConversion t (uses t)) as [p|]; [|done].
  destruct (decide (is_32 data)) as [Hd|Hd]; [split; [done|lia]|].
  by destruct (bad_leaf t p data Hd) as [e ->].
Qed.

Lemma sign_wf t data : (0 < L)%nat → wf t → wf (sign h data t).2.
Proof.
  intros HL Ht. destruct (decide (is_32 data ∧ uses t < getMaxUses t)) as [[Hd Hu]|Hno].
  { by destruct (sign_spec t data HL Ht Hu Hd) as (p & l & t' & _ & _ & _ & _ & -> & H & _). }
  assert ((sign h data t).2 = t) as ->; [|done].
  rewrite sign_open. destruct (uses t >=? getMaxUses t) eqn:Eu; [done|]. rewrite Z.geb_leb in Eu.
  destruct (baseConversion t (uses t)) as [p|]; [|done].
  destruct (bad_leaf t p data) as [e ->]; [intros Hd; apply Hno; split; [done|lia]|done].
Qed.
End Signature.

(** The states a wallet can bring a key to: any counter, any data, any of its own caches. *)
Inductive reachable (seed : string) (L : nat) : TreeKey → Prop :=
| new_key t : newTreeKey h seed K L = Ok t → reachable seed L t
| counter_set t u : reachable seed L t → 0 <= u → reachable seed L (setUses u t).2
| signed t data : reachable seed L t → reachable seed L (sign h data t).2
| cache_restored t t' : reachable seed L t → reachable seed L t' →
    reachable seed L (restoreCachedSignatures (getCachedSignatures t') t).2.

Lemma key_invariant seed L : is_32 seed → (0 < L)%nat →
  ∃ root, newTreeKeyNode h seed K = Ok root ∧ good_node root ∧ ∀ t, reachable seed L t → wf root L t.
Proof.
  intros Hs HL. destruct (newTreeKeyNode_good seed Hs) as (root & E & Hroot). exists root. split; [done|]. split; [done|].
  induction 1 as [t Et|t u _ IH Hu|t data _ IH|t t' _ IH _ IH'].
  - unfold newTreeKey in Et. rewrite Hs, Nat.eqb_refl in Et. cbn [negb throw_if mbind result_bind] in Et.
    rewrite E in Et. cbn [mbind result_bind] in Et. injection Et as <-. by constructor.
  - by apply wf_set_uses.
  - by apply sign_wf.
  - destruct IH. constructor; (done || apply IH').
Qed.

End Keys.

(** A new key, and that it signs. *)
Lemma fresh_key (m L : nat) seed : is_32 seed → 2 ^ Z.of_nat m <= MAX_SAFE_INTEGER → (0 < L)%nat →
  ∃ t, newTreeKey h seed (2 ^ Z.of_nat m) L = Ok t ∧ uses t = 0 ∧ getMaxUses t = (2 ^ Z.of_nat m) ^ Z.of_nat L.
Proof.
  intros Hs Hm HL. destruct (newTreeKeyNode_good _ m eq_refl Hm seed Hs) as (root & E & _). unfold newTreeKey.
  rewrite Hs, Nat.eqb_refl. cbn [negb throw_if mbind result_bind]. rewrite E. by eexists.
Qed.
Lemma key_signs (m L : nat) seed t data : is_32 seed → 2 ^ Z.of_nat m <= MAX_SAFE_INTEGER → (0 < L)%nat →
  reachable (2 ^ Z.of_nat m) seed L t → uses t < getMaxUses t → is_32 data → ∃ s t', sign h data t = (Ok s, t').
Proof.
  intros Hs Hm HL Hr Hu Hd. destruct (key_invariant _ m eq_refl Hm seed L Hs HL) as (root & _ & Hroot & Hwf).
  destruct (sign_spec _ m eq_refl Hm root L Hroot t data HL (Hwf _ Hr) Hu Hd) as (p & s & t' & _ & _ & _ & _ & E & _).
  by exists s, t'.
Qed.

(** ** The theorems *)

(** What one signature gives. *)
Lemma signs_and_verifies (m L : nat) seed t data :
  is_32 seed → 2 ^ Z.of_nat m <= MAX_SAFE_INTEGER → (0 < L)%nat →
  reachable (2 ^ Z.of_nat m) seed L t → uses t < getMaxUses t → is_32 data →
  ∃ proofs t', sign h data t = (Ok proofs, t') ∧ uses t' = uses t + 1 ∧ publicKey t' = publicKey t
  ∧ length proofs = L ∧ publicKey <$> newTreeKey h seed (2 ^ Z.of_nat m) L = Ok (publicKey t)
  ∧ verifyTreeSignature h (publicKey t) data proofs = Ok true
  ∧ valid <$> verifyTreeSignatureDetailed h (publicKey t) data proofs = Ok true
  ∧ is_32 (publicKey t) ∧ Forall writable proofs.
Proof.
  intros Hs Hm HL Hr Hu Hd.
  destruct (key_invariant _ m eq_refl Hm seed L Hs HL) as (root & Enode & Hroot & Hwf). pose proof (Hwf _ Hr) as Ht.
  destruct (sign_spec _ m eq_refl Hm root L Hroot t data HL Ht Hu Hd) as (p & l & t' & _ & Hpl & Hp & _ & E & Ht' & Eu & Hl).
  exists l, t'. split; [done|]. split; [done|]. rewrite (wf_public _ _ _ _ Ht'), (wf_public _ _ _ _ Ht). split; [done|].
  assert (length l = L) as Hll by (destruct Hl as [Hl _]; lia). split; [done|].
  assert (verify_levels h true (rootPubkey root) data l = Ok true) as Hv.
  { eapply (levels_verify _ m eq_refl Hm root L Hroot); [done|done|done|exact Hl|done|]. intros _. by exists root. }
  assert (Forall writable l) as Hwl.
  { apply Forall_lookup_2. intros j s Hj. destruct Hl as [_ Hl]. pose proof (lookup_lt_Some _ _ _ Hj) as Hlt.
    destruct (level_sig_good _ m eq_refl Hm root L Hroot data p j Hd Hp Hpl ltac:(lia)) as (_ & _ & _ & s' & _ & _ & _ & _ & _ & _ & _ & Es' & _ & _ & Hw).
    specialize (Hl j s Hj). cbn [Nat.add] in Hl. rewrite Hl in Es'. by injection Es' as <-. }
  destruct l as [|s l]; [simpl in Hll; lia|]. apply levels_uncons in Hl as [Es _].
  destruct (level_sig_good _ m eq_refl Hm root L Hroot data p 0 Hd Hp Hpl HL) as (n & _ & _ & s' & En & _ & _ & _ & _ & _ & _ & Es' & Hr' & _).
  injection En as <-. rewrite Es in Es'. injection Es' as <-.
  split; [|split; [done|split; [|split; [apply Hroot|done]]]].
  - unfold newTreeKey. rewrite Hs, Nat.eqb_refl. cbn [negb throw_if mbind result_bind]. by rewrite Enode.
  - unfold verifyTreeSignatureDetailed. by rewrite (detailed_first _ _ _ _ (rootPubkey root)), String.eqb_refl.
Qed.


(** Proofs of ordinary size are written, and read back. *)
Lemma written_proofs l : Forall writable l → Z.of_nat (length l) < 2 ^ 64 →
  Forall small_sig l ∧ ∃ bytes, serializeTreeSignature l = Ok bytes.
Proof.
  intros Hl Hn. split.
  - eapply Forall_impl; [exact Hl|]. intros p (H1 & H2 & H3 & _). unfold is_32 in H1. split; [rewrite H1; done|]. split; [rewrite H2; done|].
    eapply Forall_impl; [exact H3|]. intros c [_ [x Hx]]. unfold small_chunk. by rewrite Hx, H32.
  - assert (∃ parts, result_mapM writeSignatureProof l = Ok parts) as [parts E].
    { clear Hn. induction Hl as [|p l (_ & _ & H3 & H4) _ [parts IH]]; [by exists []|]. cbn [result_mapM].
      assert (∃ b, writeSignatureProof p = Ok b) as [b ->]; [|rewrite IH; by eexists].
      unfold writeSignatureProof, serializeMMRProof. change (writeMiniNumber 0) with (@Ok string _ mini_zero). cbn [mbind result_bind].
      destruct (writeMiniNumber_small (Z.of_nat (length (mmrProof p)))) as [n ->]; [lia|]. cbn [mbind result_bind].
      assert (∃ cs, result_mapM writeMMRProofChunk (mmrProof p) = Ok cs) as [cs ->]; [|by eexists].
      clear H4. induction H3 as [|c cs [Hv _] _ [r IH']]; [by exists []|]. cbn [result_mapM].
      assert (∃ b, writeMMRProofChunk c = Ok b) as [b ->] by (unfold writeMMRProofChunk, writeMMRData; rewrite Hv; by eexists).
      cbn [mbind result_bind]. rewrite IH'. by eexists. }
    unfold serializeTreeSignature. destruct (writeMiniNumber_small (Z.of_nat (length l))) as [n ->]; [lia|].
    rewrite E. by eexists.
Qed.

(** C15. A key tree that is not exhausted signs any 32-byte digest, whatever counter
    and whichever of its own caches were restored: it takes exactly one use, and both
    verifiers accept the signature under the one public key of the tree. *)
Theorem tree_signatures_verify (m L : nat) seed t data :
  is_32 seed → 2 ^ Z.of_nat m <= MAX_SAFE_INTEGER → (0 < L)%nat →
  reachable (2 ^ Z.of_nat m) seed L t → uses t < getMaxUses t → is_32 data →
  ∃ proofs t', sign h data t = (Ok proofs, t') ∧ uses t' = uses t + 1 ∧ publicKey t' = publicKey t
  ∧ length proofs = L ∧ publicKey <$> newTreeKey h seed (2 ^ Z.of_nat m) L = Ok (publicKey t)
  ∧ verifyTreeSignature h (publicKey t) data proofs = Ok true
  ∧ valid <$> verifyTreeSignatureDetailed h (publicKey t) data proofs = Ok true.
Proof.
  intros Hs Hm HL Hr Hu Hd. destruct (signs_and_verifies m L seed t data) as (proofs & t' & H); [done..|].
  exists proofs, t'. repeat (split; [apply H|]). apply H.
Qed.

(** C14. No one-time key signs twice: signatures made at different counters, in any
    states of a tree, use different leaves on the last level; a key above it that
    both use, which is one that their paths share, signs the same message with the
    same proof. *)
Theorem keys_sign_one_message (m L : nat) seed t1 t2 data1 data2 s1 s2 t1' t2' :
  is_32 seed → 2 ^ Z.of_nat m <= MAX_SAFE_INTEGER → (0 < L)%nat →
  reachable (2 ^ Z.of_nat m) seed L t1 → reachable (2 ^ Z.of_nat m) seed L t2 → uses t1 ≠ uses t2 →
  sign h data1 t1 = (Ok s1, t1') → sign h data2 t2 = (Ok s2, t2') →
  ∃ path1 path2, baseConversion t1 (uses t1) = Some path1 ∧ baseConversion t2 (uses t2) = Some path2
  ∧ length path1 = L ∧ length path2 = L
  ∧ ∀ level, (level < L)%nat → take (S level) path1 = take (S level) path2 →
    (S level < L)%nat ∧ s1 !! level = s2 !! level.
Proof.
  intros Hs Hm HL Hr1 Hr2 Hne E1 E2.
  destruct (key_invariant _ m eq_refl Hm seed L Hs HL) as (root & _ & Hroot & Hwf).
  destruct (sign_data _ root L t1 data1 s1 t1' (Hwf _ Hr1) E1) as [Hd1 Hu1].
  destruct (sign_data _ root L t2 data2 s2 t2' (Hwf _ Hr2) E2) as [Hd2 Hu2].
  destruct (sign_spec _ m eq_refl Hm root L Hroot t1 data1 HL (Hwf _ Hr1) Hu1 Hd1)
    as (p1 & l1 & t & Ep1 & Hpl1 & Hp1 & Hv1 & E1' & _ & _ & Hl1). rewrite E1 in E1'. injection E1' as <- <-.
  destruct (sign_spec _ m eq_refl Hm root L Hroot t2 data2 HL (Hwf _ Hr2) Hu2 Hd2)
    as (p2 & l2 & t & Ep2 & Hpl2 & Hp2 & Hv2 & E2' & _ & _ & Hl2). rewrite E2 in E2'. injection E2' as <- <-.
  exists p1, p2. split; [done|]. split; [done|]. split; [done|]. split; [done|]. intros j Hj Eq.
  assert (S j < L)%nat as Hj'.
  { destruct (decide (S j = L)) as [El|]; [|lia]. exfalso. apply Hne.
    rewrite !take_ge in Eq by lia. subst p2. congruence. }
  split; [done|]. destruct Hl1 as [Hlen1 H1], Hl2 as [Hlen2 H2].
  destruct (lookup_lt_is_Some_2 s1 j) as [x Hx]; [lia|]. destruct (lookup_lt_is_Some_2 s2 j) as [y Hy]; [lia|].
  rewrite Hx, Hy. f_equal. specialize (H1 _ _ Hx). specialize (H2 _ _ Hy). simpl in H1, H2.
  assert (level_sig root L data1 p1 j = level_sig root L data2 p2 j) as E; [|congruence].
  unfold level_sig, message_at. destruct (Nat.eqb_spec (S j) L); [lia|]. rewrite Eq.
  assert (take j p1 = take j p2) as ->.
  { apply (f_equal (take j)) in Eq. rewrite !take_take in Eq. by replace (Nat.min j (S j)) with j in Eq by lia. }
  assert (p1 !! j = p2 !! j) as ->; [|done].
  apply (f_equal (.!! j)) in Eq. by rewrite !lookup_take_lt in Eq by lia.
Qed.

(** C23. The two verifiers differ only in what they compare.  The plain one checks no
    more of the root than the expected key has bytes: it accepts exactly when the
    detailed one accepts under some completion of that key, the empty key under any
    root; for a key of 32 bytes the two agree, errors included. *)
Theorem verifiers_agree_on_whole_keys expected data proofs :
  (verifyTreeSignature h expected data proofs = Ok true
   ↔ ∃ rest, valid <$> verifyTreeSignatureDetailed h (expected +:+ rest) data proofs = Ok true)
  ∧ (is_32 expected →
     valid <$> verifyTreeSignatureDetailed h expected data proofs = verifyTreeSignature h expected data proofs).
Proof.
  destruct proofs as [|p l]; [split; [split; [done|by intros [? ?]]|done]|].
  unfold verifyTreeSignature, verifyTreeSignatureDetailed.
  destruct (getRootPublicKey h p) as [root|e] eqn:E.
  2:{ cbn [verify_levels verify_detailed]. rewrite E. split; [split; [done|by intros [? ?]]|done]. }
  rewrite (plain_first _ _ _ _ _ E). split.
  - split.
    + destruct (starts_with expected root) eqn:Es; [|done]. apply starts_with_spec in Es as [rest ->]. intros Hc.
      exists rest. by rewrite (detailed_first _ _ _ _ _ E), String.eqb_refl.
    + intros [rest Hr]. rewrite (detailed_first _ _ _ _ _ E) in Hr.
      destruct (String.eqb_spec (expected +:+ rest) root) as [<-|]; [|done]. by rewrite starts_with_app.
  - intros He. rewrite (detailed_first _ _ _ _ _ E). apply root_is_32 in E.
    destruct (String.eqb_spec expected root) as [->|Hne]; [by rewrite starts_with_self|].
    destruct (starts_with expected root) eqn:Es; [|done]. apply starts_with_spec in Es as [rest ->]. exfalso.
    apply Hne. unfold is_32 in *. rewrite length_app_str in E. destruct rest; [by rewrite app_nil_r_str|simpl in E; lia].
Qed.
End Hash.

(** ** A concrete tree, over a toy hash that turns its input by one byte *)

Definition pad : string := repeat_char 32 "z".
Definition toy32 (s : string) : string :=
  match s with
  | EmptyString => pad
  | String c r => take_str 32 ((r +:+ String (byte ((code c + 1) mod 256)) "") +:+ pad)
  end.
Lemma toy32_ok s : is_32 (toy32 s).
Proof.
  unfold toy32, is_32. destruct s as [|c r]; [done|]. apply length_take_str. rewrite length_app_str.
  change (String.length pad) with 32%nat. lia.
Qed.
Definition toy_seed : string := repeat_char 32 "s".
Definition toy_data : string := repeat_char 32 "d".

Lemma tree_signatures_verify_witness : ∃ t proofs t',
  newTreeKey toy32 toy_seed 4 3 = Ok t ∧ sign toy32 toy_data t = (Ok proofs, t') ∧ uses t' = 1 ∧ length proofs = 3%nat
  ∧ verifyTreeSignature toy32 (publicKey t) toy_data proofs = Ok true.
Proof.
  destruct (fresh_key toy32 toy32_ok 2 3 toy_seed) as (t & E & Eu & Em); [done|done|lia|].
  destruct (tree_signatures_verify toy32 toy32_ok 2 3 toy_seed t toy_data) as (proofs & t' & Es & Eu' & _ & El & _ & Ev & _).
  - done.
  - done.
  - lia.
  - exact (new_key _ _ _ _ _ E).
  - by rewrite Eu, Em.
  - done.
  - exists t, proofs, t'. rewrite Eu in Eu'. exact (conj E (conj Es (conj Eu' (conj El Ev)))).
Defined.

(** The same tree signs once at counter 0 and once at counter 5. *)
Lemma keys_sign_one_message_witness : ∃ t s1 s2 t1' t2' path1 path2,
  newTreeKey toy32 toy_seed 4 3 = Ok t
  ∧ sign toy32 toy_data t = (Ok s1, t1') ∧ sign toy32 toy_seed (set_uses 5 t) = (Ok s2, t2')
  ∧ baseConversion t 0 = Some path1 ∧ baseConversion t 5 = Some path2
  ∧ ∀ level, (level < 3)%nat → take (S level) path1 = take (S level) path2 →
    (S level < 3)%nat ∧ s1 !! level = s2 !! level.
Proof.
  destruct (fresh_key toy32 toy32_ok 2 3 toy_seed) as (t & E & Eu & Em); [done|done|lia|].
  pose proof (new_key toy32 _ toy_seed 3 t E) as Hr.
  assert (reachable toy32 (2 ^ Z.of_nat 2) toy_seed 3 (set_uses 5 t)) as Hr5 by (apply (counter_set _ _ _ _ t 5 Hr); lia).
  assert (getMaxUses (set_uses 5 t) = (2 ^ Z.of_nat 2) ^ Z.of_nat 3) as Em5 by exact Em.
  destruct (key_signs toy32 toy32_ok 2 3 toy_seed t toy_data) as (s1 & t1' & E1); [done|done|lia|exact Hr|by rewrite Eu, Em|done|].
  destruct (key_signs toy32 toy32_ok 2 3 toy_seed (set_uses 5 t) toy_seed) as (s2 & t2' & E2); [done|done|lia|exact Hr5|by rewrite Em5|done|].
  destruct (keys_sign_one_message toy32 toy32_ok 2 3 toy_seed t (set_uses 5 t) toy_data toy_seed s1 s2 t1' t2')
    as (p1 & p2 & H1 & H2 & _ & _ & H); [done|done|lia|exact Hr|exact Hr5|by rewrite Eu|exact E1|exact E2|].
  rewrite Eu in H1. exists t, s1, s2, t1', t2', p1, p2. exact (conj E (conj E1 (conj E2 (conj H1 (conj H2 H))))).
Defined.

(** A signature no key made, against the empty and a whole expected key. *)
Definition toy_sig : TreeSignature :=
  [mkSigProof "leaf" "signature" [mkChunk true (mkData "sibling" 3)]; mkSigProof "other" "" []].
Lemma verifiers_agree_on_whole_keys_witness :
  (verifyTreeSignature toy32 "" toy_data toy_sig = Ok true
   ↔ ∃ rest, valid <$> verifyTreeSignatureDetailed toy32 ("" +:+ rest) toy_data toy_sig = Ok true)
  ∧ valid <$> verifyTreeSignatureDetailed toy32 toy_seed toy_data toy_sig = verifyTreeSignature toy32 toy_seed toy_data toy_sig.
Proof.
  split; [apply (verifiers_agree_on_whole_keys toy32 toy32_ok "" toy_data toy_sig)|].
  apply (verifiers_agree_on_whole_keys toy32 toy32_ok toy_seed toy_data toy_sig). done.
Defined.

Definition toy_sig_bytes : string := match serializeTreeSignature toy_sig with Ok s => s | Err _ => "" end.
Lemma tree_signatures_survive_their_bytes_witness : deserializeTreeSignature toy_sig_bytes = Ok toy_sig.
Proof.
  apply (tree_signatures_survive_their_bytes toy_sig toy_sig_bytes).
  - simpl. lia.
  - repeat constructor.
  - by vm_compute.
Defined.

End TkSpec.
