(* ===== verification/AddressSpec.v ===== *)
(** * What addresses promise

    An address text reads back as the root it was made of, in any case; an address
    belongs to one public key; and what a wallet signs verifies against its address. *)

From Stdlib Require Import ZArith Lia Ascii String.
From stdpp Require Import base list strings sets.
From S2P Require Import Prelude JsBase JsText NumSpec Mmr MmrSpec ProofSpec Wots WotsSpec TreeKey TreeKeySpec Address.

Module AdSpec.
Import Js JsText Mm PrfSpec Wo WoSpec Tk TkSpec Ad.
#[local] Arguments String.append : simpl nomatch.
Notation slen s := (Z.of_nat (String.length s)).

(** ** Characters, one by one *)

Lemma str_map_map f g s : str_map f (str_map g s) = str_map (λ c, f (g c)) s.
Proof. induction s as [|c s IH]; [done|]. simpl. by rewrite IH. Qed.
Lemma str_map_id f s : (∀ c, f c = c) → str_map f s = s.
Proof. intros H. induction s as [|c s IH]; [done|]. simpl. by rewrite H, IH. Qed.
Lemma str_map_on p f s : (∀ c, p c = true → f c = c) → str_forallb p s = true → str_map f s = s.
Proof. intros H. induction s as [|c s IH]; [done|]. simpl. intros [Hc Hs]%andb_true_iff. by rewrite H, IH. Qed.
Lemma lower_map s : toLowerCase s = str_map lower_char s.
Proof. induction s as [|c s IH]; [done|]. simpl. by rewrite IH. Qed.
Lemma str_forallb_map p f s : str_forallb p (str_map f s) = str_forallb (λ c, p (f c)) s.
Proof. induction s as [|c s IH]; [done|]. simpl. by rewrite IH. Qed.

(** A property of all characters is one of 256 cases. *)
Definition every_char (p : ascii → bool) : bool := forallb (λ n, p (byte (Z.of_nat n))) (seq 0 256).
Lemma every_char_spec p : every_char p = true → ∀ c, p c = true.
Proof.
  intros H. apply all_bytes. intros n Hn. unfold every_char in H. rewrite forallb_forall in H.
  specialize (H (Z.to_nat n)). rewrite Z2Nat.id in H by lia. apply H, in_seq. lia.
Qed.

(** The 32 digits. *)
Definition is_digit32 (c : ascii) : bool := is_digit c || Js.in_range 97 118 c.
Definition swap (a b c : ascii) : ascii := if Ascii.eqb c a then b else c.
Definition swap_up (c : ascii) : ascii := upper_char (swap "o" "z" (swap "l" "y" (swap "i" "w" c))).
Definition swap_back (c : ascii) : ascii := swap "z" "o" (swap "y" "l" (swap "w" "i" c)).

Lemma digit32_chars c : is_digit32 c = true → lower_char c = c ∧ swap_back (lower_char (swap_up c)) = c.
Proof.
  intros Hc. assert (∀ c, negb (is_digit32 c) || (Ascii.eqb (lower_char c) c && Ascii.eqb (swap_back (lower_char (swap_up c))) c) = true) as H.
  { apply every_char_spec. by vm_compute. }
  specialize (H c). rewrite Hc in H. cbn [negb orb] in H. apply andb_true_iff in H as [H1 H2].
  by apply Ascii.eqb_eq in H1, H2.
Qed.
Lemma space_lower c : is_space (lower_char c) = is_space c.
Proof.
  assert (∀ c, eqb (is_space (lower_char c)) (is_space c) = true) as H by (apply every_char_spec; by vm_compute).
  by apply eqb_prop.
Qed.
Lemma upper_no_space c : is_digit32 c = true → is_space (swap_up c) = false.
Proof.
  intros Hc. assert (∀ c, negb (is_digit32 c) || negb (is_space (swap_up c)) = true) as H by (apply every_char_spec; by vm_compute).
  specialize (H c). rewrite Hc in H. by apply negb_true_iff in H.
Qed.

(** ** Numbers in base 32 *)

Lemma digit32_spec d : 0 <= d < 32 → digit_val (digit32 d) = Some d ∧ is_digit32 (digit32 d) = true.
Proof.
  intros Hd. assert (forallb (λ n, bool_decide (digit_val (digit32 (Z.of_nat n)) = Some (Z.of_nat n)) && is_digit32 (digit32 (Z.of_nat n))) (seq 0 32) = true) as H by by vm_compute.
  rewrite forallb_forall in H. specialize (H (Z.to_nat d)). rewrite Z2Nat.id in H by lia.
  assert (In (Z.to_nat d) (seq 0 32)) as Hin by (apply in_seq; lia). apply H in Hin as [H1 H2]%andb_true_iff.
  by apply bool_decide_eq_true in H1.
Qed.
Lemma decode_digit d s x : 0 <= d < 32 → decode32 (String (digit32 d) s) x = decode32 s (x * 32 + d).
Proof. intros Hd. cbn [decode32]. destruct (digit32_spec d Hd) as [-> _]. by replace (d <? 32) with true by lia. Qed.
Lemma decode_radix32 fuel : ∀ n s, 0 <= n < 2 ^ Z.of_nat fuel → (0 < fuel)%nat → decode32 (radix32_acc fuel n s) 0 = decode32 s n.
Proof.
  induction fuel as [|fuel IH]; intros n s Hn Hf; [lia|]. cbn [radix32_acc].
  pose proof (Z.mod_pos_bound n 32 ltac:(lia)). pose proof (Z.div_mod n 32 ltac:(lia)). destruct (n <? 32) eqn:E.
  - rewrite decode_digit by done. f_equal. rewrite Z.mod_small by lia. lia.
  - assert (0 <= n / 32 < 2 ^ Z.of_nat fuel) as Hd.
    { split; [apply Z.div_pos; lia|]. apply Z.div_lt_upper_bound; [lia|]. rewrite Nat2Z.inj_succ, Z.pow_succ_r in Hn by lia. lia. }
    rewrite IH; [|done|].
    + rewrite decode_digit by done. f_equal. lia.
    + destruct fuel; [simpl in Hd; lia|lia].
Qed.
Lemma radix32_digits fuel : ∀ n s, str_forallb is_digit32 s = true → str_forallb is_digit32 (radix32_acc fuel n s) = true.
Proof.
  induction fuel as [|fuel IH]; intros n s Hs; [done|]. cbn [radix32_acc].
  assert (str_forallb is_digit32 (String (digit32 (n mod 32)) s) = true) as H1.
  { simpl. rewrite Hs. by rewrite (proj2 (digit32_spec (n mod 32) ltac:(apply Z.mod_pos_bound; lia))). }
  destruct (n <? 32); [done|by apply IH].
Qed.

(** *** Frames *)

Lemma encode_text n : 0 <= n →
  toUpperCase (replace_char "o" "z" (replace_char "l" "y" (replace_char "i" "w" (toLowerCase (radix32_text n)))))
  = str_map swap_up (radix32_text n).
Proof.
  intros Hn. rewrite lower_map. unfold toUpperCase, replace_char. rewrite !str_map_map.
  assert (str_forallb is_digit32 (radix32_text n) = true) as Hd by (by apply radix32_digits).
  revert Hd. generalize (radix32_text n). intros s Hd. induction s as [|c s IH]; [done|].
  simpl in Hd. apply andb_true_iff in Hd as [Hc Hs]. simpl. rewrite IH by done. f_equal.
  destruct (digit32_chars c Hc) as [-> _]. done.
Qed.

(** A string of bytes with a nonzero head is the digits of its number. *)
Lemma from_bytes_bounds s : ∀ a, a * 256 ^ slen s <= from_bytes a s < (a + 1) * 256 ^ slen s.
Proof.
  induction s as [|c s IH]; intros a; [simpl; lia|]. cbn [from_bytes]. specialize (IH (a * 256 + code c)).
  pose proof (code_bound c). change (slen (String c s)) with (Z.of_nat (S (String.length s))).
  rewrite Nat2Z.inj_succ, Z.pow_succ_r by lia. assert (0 < 256 ^ slen s) by (apply Z.pow_pos_nonneg; lia). nia.
Qed.
Lemma from_bytes_inj s : ∀ t a b, String.length s = String.length t → from_bytes a s = from_bytes b t → a = b ∧ s = t.
Proof.
  induction s as [|c s IH]; intros [|d t] a b El E; try done. cbn [from_bytes] in E.
  destruct (IH t _ _ (eq_add_S _ _ El) E) as [Ea ->]. pose proof (code_bound c). pose proof (code_bound d).
  split; [lia|]. f_equal. assert (code c = code d) as Ec by lia. unfold code in Ec. apply N2Z.inj in Ec.
  by rewrite <- (ascii_N_embedding c), Ec, ascii_N_embedding.
Qed.
Lemma headed_inj c s d t : 0 < code c → 0 < code d → from_bytes 0 (String c s) = from_bytes 0 (String d t) → String c s = String d t.
Proof.
  intros Hc Hd E. assert (∀ c s d t, 0 < code d → from_bytes 0 (String c s) = from_bytes 0 (String d t) → (String.length t <= String.length s)%nat) as Hle.
  { clear. intros c s d t Hd E. destruct (decide (String.length t <= String.length s)%nat) as [|Hlt]; [done|exfalso].
    pose proof (from_bytes_bounds (String c s) 0) as [_ H1]. pose proof (from_bytes_bounds t (code d)) as [H2 _].
    rewrite E in H1. change (from_bytes 0 (String d t)) with (from_bytes (code d) t) in H1. rewrite Z.add_0_l, Z.mul_1_l in H1.
    change (slen (String c s)) with (Z.of_nat (S (String.length s))) in H1.
    assert (256 ^ Z.of_nat (S (String.length s)) <= 256 ^ slen t) by (apply Z.pow_le_mono_r; lia). nia. }
  apply (from_bytes_inj (String c s) (String d t) 0 0); [|done]. simpl.
  pose proof (Hle c s d t Hd E). pose proof (Hle d t c s Hc (eq_sym E)). lia.
Qed.
Lemma be_acc_head fuel : ∀ n s, 0 < n < 2 ^ Z.of_nat fuel → ∃ d t, be_acc fuel n s = String d t ∧ 0 < code d.
Proof.
  induction fuel as [|fuel IH]; intros n s Hn; [simpl in Hn; lia|]. cbn [be_acc]. destruct (n <? 256) eqn:E.
  - eexists _, _. split; [done|]. rewrite Z.mod_small by lia. rewrite code_byte; lia.
  - apply IH. rewrite Nat2Z.inj_succ, Z.pow_succ_r in Hn by lia.
    split; [apply Z.div_str_pos; lia|apply Z.div_lt_upper_bound; lia].
Qed.
Lemma big_endian_frame c s : 0 < code c → big_endian (from_bytes 0 (String c s)) = String c s.
Proof.
  intros Hc. set (n := from_bytes 0 (String c s)).
  assert (0 < n) as Hn.
  { unfold n. pose proof (from_bytes_bounds s (code c)) as [H _].
    change (from_bytes 0 (String c s)) with (from_bytes (code c) s).
    assert (0 < 256 ^ slen s) by (apply Z.pow_pos_nonneg; lia). nia. }
  destruct (be_acc_head (S (Z.to_nat (Z.log2 n))) n "") as (d & t & E & Hd).
  { split; [done|]. apply dec_fuel. lia. }
  fold (big_endian n) in E. rewrite E. apply headed_inj; [done..|]. rewrite <- E. apply from_big_endian. lia.
Qed.

Definition framed (frame : string) : string := "Mx" +:+ str_map swap_up (radix32_text (bytesToBigInt frame)).
Lemma encode_framed frame : encodeMxRadix32Frame frame = framed frame.
Proof.
  unfold encodeMxRadix32Frame, framed. rewrite encode_text; [done|]. unfold bytesToBigInt.
  pose proof (from_bytes_bounds frame 0). lia.
Qed.

Lemma decode_framed c s mx : 0 < code c → toLowerCase mx = toLowerCase (framed (String c s)) →
  decodeMxRadix32Frame mx = Ok (String c s).
Proof.
  intros Hc E. unfold framed in E. set (n := bytesToBigInt (String c s)) in *. set (t := radix32_text n) in *.
  assert (0 <= n) as Hn by (unfold n, bytesToBigInt; pose proof (from_bytes_bounds (String c s) 0); lia).
  assert (str_forallb is_digit32 t = true) as Ht by (by apply radix32_digits).
  assert (toLowerCase mx = "mx" +:+ str_map (λ c, lower_char (swap_up c)) t) as El.
  { rewrite E. rewrite !lower_map. change (str_map lower_char ("Mx" +:+ str_map swap_up t)) with ("mx" +:+ str_map lower_char (str_map swap_up t)).
    by rewrite str_map_map. }
  assert (trim mx = mx) as Etrim.
  { apply trim_no_space. assert (str_forallb (λ c, negb (is_space c)) (toLowerCase mx) = true) as H.
    { rewrite El, str_forallb_app, str_forallb_map. eapply str_forallb_impl; [|exact Ht].
      intros d Hd. cbv beta. rewrite space_lower, upper_no_space by done. done. }
    rewrite lower_map, str_forallb_map in H. eapply str_forallb_impl; [|exact H]. intros d. cbv beta. by rewrite space_lower. }
  unfold decodeMxRadix32Frame. rewrite Etrim, El, starts_with_app.
  change (drop_str 2 ("mx" +:+ str_map (λ c, lower_char (swap_up c)) t)) with (str_map (λ c, lower_char (swap_up c)) t).
  unfold replace_char. rewrite !str_map_map.
  assert (str_map (λ c0, if Ascii.eqb (if Ascii.eqb (if Ascii.eqb (lower_char (swap_up c0)) "w" then "i"%char else lower_char (swap_up c0)) "y"
      then "l"%char else if Ascii.eqb (lower_char (swap_up c0)) "w" then "i"%char else lower_char (swap_up c0)) "z"
      then "o"%char else if Ascii.eqb (if Ascii.eqb (lower_char (swap_up c0)) "w" then "i"%char else lower_char (swap_up c0)) "y"
      then "l"%char else if Ascii.eqb (lower_char (swap_up c0)) "w" then "i"%char else lower_char (swap_up c0)) t = t) as ->.
  { apply (str_map_on is_digit32); [|done]. intros d Hd. exact (proj2 (digit32_chars d Hd)). }
  unfold t, radix32_text. rewrite decode_radix32; [|by apply dec_fuel|lia]. cbn [decode32 mbind result_bind].
  unfold bigIntToBytes, n, bytesToBigInt. by rewrite big_endian_frame.
Qed.

(** ** Addresses *)

Section Hash.
Context (h : string → string).
Hypothesis H32 : ∀ x, is_32 (h x).

Definition address_frame (root : string) : string :=
  String (byte 1) (String (byte 0) (String (byte 32) root)) +:+ take_str 4 (h root).
Lemma make_framed root : is_32 root → makeMxAddress h root = Ok (framed (address_frame root)).
Proof. intros Hr. unfold makeMxAddress. rewrite Hr, Nat.eqb_refl. cbn [negb throw_if mbind result_bind]. by rewrite encode_framed. Qed.

(** A text with the letters of an address, in any case, reads back as its root. *)
Lemma parse_any_case root mx : is_32 root → toLowerCase mx = toLowerCase (framed (address_frame root)) → parseMxAddress h mx = Ok root.
Proof.
  intros Hr E. unfold parseMxAddress. unfold address_frame in E. cbn [String.append] in E.
  rewrite (decode_framed (byte 1) _ mx) by (done || exact E). cbn [mbind result_bind].
  set (sum := take_str 4 (h root)). assert (String.length sum = 4%nat) as Es by (apply length_take_str; rewrite H32; lia).
  set (frame := String (byte 1) (String (byte 0) (String (byte 32) (root +:+ sum)))).
  change (byte_at frame (Some 0)) with (Some 1). change (byte_at frame (Some 1)) with (Some 0).
  change (byte_at frame (Some 2)) with (Some 32). cbn -[slice byte_at].
  pose proof (slice_middle (String (byte 1) (String (byte 0) (String (byte 32) ""))) root sum) as S1.
  rewrite Hr in S1. change (slice frame (Some 3) (Some 35) = root) in S1. rewrite S1. fold sum.
  pose proof (slice_middle (String (byte 1) (String (byte 0) (String (byte 32) root))) sum "") as S2.
  assert (Z.of_nat (String.length (String (byte 1) (String (byte 0) (String (byte 32) root)))) = 35) as L3 by (simpl; rewrite Hr; done).
  rewrite L3, Es, app_nil_r_str in S2. change (slice frame (Some 35) (Some 39) = sum) in S2. rewrite S2.
  by rewrite !bool_decide_eq_true_2.
Qed.

(** An address reads back as the 32 bytes it was made of, whatever case its letters
    are written in. *)
Theorem addresses_read_back root :
  is_32 root → ∃ mx, makeMxAddress h root = Ok mx
  ∧ ∀ text, toLowerCase text = toLowerCase mx → parseMxAddress h text = Ok root.
Proof. intros Hr. exists (framed (address_frame root)). split; [by apply make_framed|]. intros text. by apply parse_any_case. Qed.

(** *** Signed messages *)

Definition public_key_text (pk : string) : string := "0x" +:+ bytesToHexUpper pk.
Lemma lower_upper_hex s : toLowerCase (toUpperCase (hex_of_bytes s)) = hex_of_bytes s.
Proof.
  induction s as [|c s IH]; [done|]. rewrite hex_of_bytes_cons.
  transitivity (hex_byte c +:+ toLowerCase (toUpperCase (hex_of_bytes s))); [|by rewrite IH].
  destruct c as [[] [] [] [] [] [] [] []]; reflexivity.
Qed.
Lemma lenient_hex s : lenient_pairs (hex_of_bytes s) = s.
Proof.
  induction s as [|c s IH]; [done|]. rewrite hex_of_bytes_cons.
  transitivity (String c (lenient_pairs (hex_of_bytes s))); [|by rewrite IH].
  destruct c as [[] [] [] [] [] [] [] []]; reflexivity.
Qed.
Lemma hex_of_text s : hexToBytes (hex_of_bytes s) = Ok s.
Proof.
  unfold hexToBytes, normalizeHex. rewrite hex_of_bytes_no_prefix, lower_hex, hex_of_bytes_even.
  cbn [throw_if mbind result_bind]. by rewrite lenient_hex.
Qed.
Lemma hex_of_public_key s : hexToBytes (public_key_text s) = Ok s.
Proof.
  unfold hexToBytes, normalizeHex, public_key_text, bytesToHexUpper. rewrite starts_with_app.
  change (drop_str 2 ("0x" +:+ toUpperCase (hex_of_bytes s))) with (toUpperCase (hex_of_bytes s)).
  rewrite lower_upper_hex, hex_of_bytes_even. cbn [throw_if mbind result_bind]. by rewrite lenient_hex.
Qed.
Lemma upper_hex_inj a b : bytesToHexUpper a = bytesToHexUpper b → a = b.
Proof.
  unfold bytesToHexUpper. intros E. apply (f_equal toLowerCase) in E. rewrite !lower_upper_hex in E.
  by rewrite <- (lenient_hex a), E, lenient_hex.
Qed.

(** The script of a key, its leaf, and that they are told apart. *)
Definition key_leaf (pk : string) : string := mmrLeafExact h (scriptFromWotsPk pk).
Lemma key_address pk : scriptToAddress h (scriptFromWotsPk pk) = Ok (framed (address_frame (key_leaf pk))).
Proof. unfold scriptToAddress. apply make_framed, H32. Qed.
(** What is hashed for the leaf of a script, and for the address of a public key text. *)
Definition script_input (script : string) : string := mini_zero +:+ writeMiniString script +:+ mini_zero.
Definition address_input (pk : string) : list string :=
  match hexToBytes pk with Ok key => [script_input (scriptFromWotsPk key)] | Err _ => [] end.
Lemma leaf_scripts a b : MmSpec.sized (utf8 a) → MmSpec.sized (utf8 b) →
  mmrLeafExact h a = mmrLeafExact h b → a = b ∨ collision_in h [script_input a; script_input b].
Proof.
  intros Ha Hb E. change (h (script_input a) = h (script_input b)) in E.
  apply (same_or_collision h [script_input a; script_input b]) in E as [E|]; [left|by right|set_solver..].
  apply MmSpec.app_inj_str in E. unfold writeMiniString in E. apply MmSpec.mini_data_inj in E as [E _]; [|done..].
  by apply utf8_inj.
Qed.

Lemma utf8_length s : (String.length (utf8 s) <= 2 * String.length s)%nat.
Proof. induction s as [|c s IH]; [done|]. cbn [utf8]. destruct (code c <? 128); simpl; lia. Qed.
Lemma upper_hex_length s : String.length (bytesToHexUpper s) = (2 * String.length s)%nat.
Proof.
  unfold bytesToHexUpper. induction s as [|c s IH]; [done|]. rewrite hex_of_bytes_cons.
  transitivity (S (S (String.length (toUpperCase (hex_of_bytes s))))); [by destruct c as [[] [] [] [] [] [] [] []]|].
  rewrite IH. simpl. lia.
Qed.
Lemma script_sized pk : is_32 pk → MmSpec.sized (utf8 (scriptFromWotsPk pk)).
Proof.
  intros Hp. unfold MmSpec.sized. pose proof (utf8_length (scriptFromWotsPk pk)) as H.
  assert (String.length (scriptFromWotsPk pk) = 83%nat) as E; [|rewrite E in H; lia].
  unfold scriptFromWotsPk. rewrite !length_app_str, upper_hex_length, Hp. done.
Qed.
Lemma key_scripts_inj a b : is_32 a → is_32 b → scriptFromWotsPk a = scriptFromWotsPk b → a = b.
Proof.
  intros Ha Hb E. apply MmSpec.app_inj_str in E. apply upper_hex_inj. apply (f_equal (take_str 64)) in E.
  pose proof (take_app_str (bytesToHexUpper a) ")") as Ta. pose proof (take_app_str (bytesToHexUpper b) ")") as Tb.
  rewrite (upper_hex_length a), Ha in Ta. rewrite (upper_hex_length b), Hb in Tb. change (2 * 32)%nat with 64%nat in *. congruence.
Qed.

(** What an accepted signature says. *)
Lemma accepted address message sig pk : verifySignature h address message sig pk = true →
  ∃ key proofs bytes, hexToBytes pk = Ok key ∧ is_32 key ∧ toLowerCase (framed (address_frame (key_leaf key))) = toLowerCase address
  ∧ hexToBytes sig = Ok bytes ∧ deserializeTreeSignature bytes = Ok proofs
  ∧ valid <$> verifyTreeSignatureDetailed h key (h (utf8 message)) proofs = Ok true.
Proof.
  unfold verifySignature, verifySignatureDetailed, verify_message, deriveAddressFromPublicKey.
  destruct (hexToBytes pk) as [key|] eqn:Ek; [|done]. cbn [mbind result_bind].
  destruct (Nat.eqb_spec (String.length key) 32) as [Hl|]; [|done]. cbn [negb throw_if mbind result_bind].
  rewrite key_address. cbn [mbind result_bind].
  destruct (String.eqb_spec (toLowerCase (framed (address_frame (key_leaf key)))) (toLowerCase address)) as [Ea|]; [|done].
  cbn [negb]. destruct (hexToBytes sig) as [bytes|] eqn:Es; [|done]. cbn [mbind result_bind].
  destruct (deserializeTreeSignature bytes) as [proofs|] eqn:Ed; [|done]. intros Hv.
  exists key, proofs, bytes. repeat (split; [done|]).
  destruct (verifyTreeSignatureDetailed h key (h (utf8 message)) proofs) as [r|]; [|done]. cbn in Hv |- *. by rewrite Hv.
Qed.

(** C16. An address belongs to one key: when two messages verify against an address, in
    whatever case it is written, they verify under the same 32 bytes of public key, or the
    scripts of the two keys are different strings whose leaves have one hash. *)
Theorem an_address_has_one_key address1 address2 message1 message2 sig1 sig2 pk1 pk2 :
  toLowerCase address1 = toLowerCase address2 →
  verifySignature h address1 message1 sig1 pk1 = true → verifySignature h address2 message2 sig2 pk2 = true →
  hexToBytes pk1 = hexToBytes pk2 ∨ collision_in h (address_input pk1 ++ address_input pk2).
Proof.
  intros Ea (k1 & _ & _ & E1 & L1 & A1 & _)%accepted (k2 & _ & _ & E2 & L2 & A2 & _)%accepted. unfold address_input. rewrite E1, E2.
  rewrite <- Ea, <- A1 in A2.
  pose proof (parse_any_case (key_leaf k1) (framed (address_frame (key_leaf k1))) (H32 _) eq_refl) as P1.
  pose proof (parse_any_case (key_leaf k2) (framed (address_frame (key_leaf k1))) (H32 _) (eq_sym A2)) as P2.
  rewrite P1 in P2. apply Ok_inj in P2. apply leaf_scripts in P2 as [P|]; [left|by right|by apply script_sized..].
  f_equal. by apply key_scripts_inj.
Qed.

(** The seed of the key tree behind an address. *)
Definition wallet_seed (scheme : AddressScheme) (baseSeed : string) (index : Z) : string :=
  match scheme with
  | PerAddress => derivePerAddressSeed h baseSeed index
  | Unified => deriveUnifiedChildSeed h baseSeed index
  end.
Lemma wallet_seed_32 scheme baseSeed index : is_32 (wallet_seed scheme baseSeed index).
Proof. destruct scheme; apply H32. Qed.
Lemma derive_address_key scheme baseSeed index : 0 <= index →
  deriveAddress h baseSeed index scheme
  = (key ← newTreeKey h (wallet_seed scheme baseSeed index) 64 3; toDerived h index scheme (publicKey key)).
Proof.
  intros Hi. destruct scheme; unfold deriveAddress, deriveDeterministicAddress, deriveUnifiedAddress, assertIndex;
    by replace (index <? 0) with false by lia.
Qed.

(** What a derived address and its key trees give. *)
Lemma derived_key_verifies scheme baseSeed index : 0 <= index →
  ∃ d, deriveAddress h baseSeed index scheme = Ok d
  ∧ ∀ t message, reachable h 64 (wallet_seed scheme baseSeed index) 3 t → uses t < getMaxUses t →
    ∃ proofs t' bytes, sign h (h (utf8 message)) t = (Ok proofs, t') ∧ uses t' = uses t + 1
    ∧ serializeTreeSignature proofs = Ok bytes
    ∧ verifySignature h (derivedAddress d) message (hex_of_bytes bytes) (derivedPublicKey d) = true.
Proof.
  intros Hi. rewrite derive_address_key by done. set (seed := wallet_seed scheme baseSeed index).
  assert (is_32 seed) as Hs by apply wallet_seed_32.
  destruct (fresh_key h H32 6 3 seed) as (t0 & E0 & U0 & M0); [done|done|lia|]. change (2 ^ Z.of_nat 6) with 64 in *.
  rewrite E0. cbn [mbind result_bind].
  destruct (signs_and_verifies h H32 6 3 seed t0 (h "")) as (_ & _ & _ & _ & _ & _ & _ & _ & _ & Hpk & _);
    [done|done|lia|by apply new_key|by rewrite U0, M0|by apply H32|].
  unfold toDerived, deriveAddressFromPublicKey. fold (public_key_text (publicKey t0)). rewrite hex_of_public_key.
  cbn [mbind result_bind]. rewrite Hpk, key_address. cbn [Nat.eqb negb throw_if mbind result_bind].
  eexists. split; [done|]. cbn [derivedAddress derivedPublicKey]. intros t message Hr Hu.
  destruct (signs_and_verifies h H32 6 3 seed t (h (utf8 message))) as (proofs & t' & Es & Eu & _ & El & Ek & _ & Hv & _ & Hw);
    [done|done|lia|done|done|by apply H32|]. change (2 ^ Z.of_nat 6) with 64 in *.
  rewrite E0 in Ek. apply Ok_inj in Ek. cbn in Ek. rewrite <- Ek in Hv.
  destruct (written_proofs h H32 proofs Hw) as (Hsmall & bytes & Eb); [rewrite El; done|].
  exists proofs, t', bytes. repeat (split; [done|]).
  unfold verifySignature, verifySignatureDetailed, verify_message, deriveAddressFromPublicKey.
  rewrite hex_of_public_key. cbn [mbind result_bind]. rewrite Hpk, key_address. cbn [Nat.eqb negb throw_if mbind result_bind].
  rewrite String.eqb_refl, hex_of_text. cbn [negb mbind result_bind].
  rewrite (read_back_tree_signature proofs bytes) by (done || rewrite El; lia).
  destruct (verifyTreeSignatureDetailed h (publicKey t0) (h (utf8 message)) proofs) as [r|]; [|done]. cbn in Hv. by injection Hv.
Qed.

(** C13. A wallet's signatures verify: an address derived from a seed by either scheme is
    found, and every message that a key tree of its seed signs, after any restored
    counters and caches of its own, verifies from its hexadecimal text against the
    address and the public key text that the derivation gives. *)
Theorem wallet_signatures_verify scheme baseSeed index : 0 <= index →
  ∃ d, deriveAddress h baseSeed index scheme = Ok d
  ∧ ∀ t message, reachable h 64 (wallet_seed scheme baseSeed index) 3 t → uses t < getMaxUses t →
    ∃ proofs t' bytes, sign h (h (utf8 message)) t = (Ok proofs, t') ∧ uses t' = uses t + 1
    ∧ serializeTreeSignature proofs = Ok bytes
    ∧ verifySignature h (derivedAddress d) message (hex_of_bytes bytes) (derivedPublicKey d) = true.
Proof. apply derived_key_verifies. Qed.
End Hash.

(** ** A concrete wallet, over the toy hash *)

Definition toy_root : string := repeat_char 32 "r".
Lemma addresses_read_back_witness : ∃ mx,
  makeMxAddress toy32 toy_root = Ok mx ∧ parseMxAddress toy32 (toLowerCase mx) = Ok toy_root.
Proof.
  destruct (addresses_read_back toy32 toy32_ok toy_root) as (mx & E & H); [done|]. exists mx. split; [done|].
  apply H. rewrite !lower_map, str_map_map. clear. induction mx as [|c mx IH]; [done|]. cbn [str_map]. rewrite IH. f_equal.
  assert (∀ c, Ascii.eqb (lower_char (lower_char c)) (lower_char c) = true) as H by (apply every_char_spec; by vm_compute).
  by apply Ascii.eqb_eq.
Defined.

(** Two key trees of one seed, at different counters. *)
Lemma toy_wallet scheme : ∃ d, deriveAddress toy32 toy_seed 7 scheme = Ok d
  ∧ ∀ u message, 0 <= u < 64 ^ 3 →
    ∃ sig, verifySignature toy32 (derivedAddress d) message sig (derivedPublicKey d) = true.
Proof.
  destruct (derived_key_verifies toy32 toy32_ok scheme toy_seed 7) as (d & E & H); [lia|]. exists d. split; [done|].
  intros u message Hu. destruct (fresh_key toy32 toy32_ok 6 3 (wallet_seed toy32 scheme toy_seed 7)) as (t & Et & _ & Em);
    [apply wallet_seed_32, toy32_ok|done|lia|].
  destruct (H (set_uses u t) message) as (_ & _ & bytes & _ & _ & _ & Hv).
  - apply (counter_set _ _ _ _ t u); [by apply new_key|lia].
  - change (u < getMaxUses t). rewrite Em. exact (proj2 Hu).
  - by exists (hex_of_bytes bytes).
Qed.

Lemma an_address_has_one_key_witness : ∃ d sig1 sig2,
  verifySignature toy32 (derivedAddress d) "pay one" sig1 (derivedPublicKey d) = true
  ∧ verifySignature toy32 (derivedAddress d) "pay two" sig2 (derivedPublicKey d) = true
  ∧ (Ad.hexToBytes (derivedPublicKey d) = Ad.hexToBytes (derivedPublicKey d)
     ∨ collision_in toy32 (address_input (derivedPublicKey d) ++ address_input (derivedPublicKey d))).
Proof.
  destruct (toy_wallet Unified) as (d & _ & H). destruct (H 0 "pay one"%string) as [sig1 H1]; [lia|].
  destruct (H 5 "pay two"%string) as [sig2 H2]; [lia|]. exists d, sig1, sig2. split; [done|]. split; [done|].
  exact (an_address_has_one_key toy32 toy32_ok _ _ _ _ _ _ _ _ eq_refl H1 H2).
Defined.

Lemma wallet_signatures_verify_witness : ∃ d t proofs t' bytes, deriveAddress toy32 toy_seed 7 PerAddress = Ok d
  ∧ uses t = 5 ∧ sign toy32 (toy32 (utf8 "pay")) t = (Ok proofs, t') ∧ uses t' = 6
  ∧ serializeTreeSignature proofs = Ok bytes
  ∧ verifySignature toy32 (derivedAddress d) "pay" (hex_of_bytes bytes) (derivedPublicKey d) = true.
Proof.
  destruct (wallet_signatures_verify toy32 toy32_ok PerAddress toy_seed 7) as (d & E & H); [lia|].
  destruct (fresh_key toy32 toy32_ok 6 3 (wallet_seed toy32 PerAddress toy_seed 7)) as (t & Et & _ & Em);
    [apply wallet_seed_32, toy32_ok|done|lia|].
  destruct (H (set_uses 5 t) "pay"%string) as (proofs & t' & bytes & Es & Eu & Eb & Hv).
  - apply (counter_set _ _ _ _ t 5); [by apply new_key|lia].
  - change (5 < getMaxUses t). by rewrite Em.
  - exists d, (set_uses 5 t), proofs, t', bytes. exact (conj E (conj eq_refl (conj Es (conj Eu (conj Eb Hv))))).
Defined.
End AdSpec.
