(* ===== verification/KissChannelSpec.v ===== *)
(** * What the pre-validation of a state decides

    For a channel with the plain script, running the script over a state's transaction
    decides exactly whether both witness entries verify and the sequence is newer. *)

From Stdlib Require Import ZArith Lia QArith Ascii String.
From stdpp Require Import base gmap list strings.
From S2P Require Import Prelude JsBase JsText JsMap NumSpec MiniNumber MiniNumberSpec Guards Omnia Transactions Programs Eltoo Lexer Parser Mmr Vm Eval EvalSpec OpcodeSpec FrameSpec EltooParse EltooRun EltooSpec KissChannel.
From S2P Require Sign Wots WotsSpec TreeKey.

Module KcSpec.
Import Js JsText JsMap JsNum Gd Om Tx Kc Er ElSpec.

(** ** The ports *)

(** State variables as [buildUpdateTx] writes them: the two of the channel and others. *)
Definition is_channel_port (p : Z) : bool := (p =? STATE_SETTLEMENT_PORT) || (p =? STATE_SEQUENCE_PORT).
Definition carries (n : Z) (l : list StateValue) : Prop :=
  ∃ others, l = channelStateVars false n ++ others ∧ Forall (λ sv, 0 <= port sv <= MAX_SAFE_INTEGER ∧ is_channel_port (port sv) = false) others.

Lemma context_others p others : ∀ m, is_channel_port p = true → Forall (λ sv, 0 <= port sv <= MAX_SAFE_INTEGER ∧ is_channel_port (port sv) = false) others →
  map_get (num_to_string (of_Z p)) (foldl (λ m sv, map_set (num_to_string (of_Z (port sv))) (scalar_string (value sv)) m) m others)
  = map_get (num_to_string (of_Z p)) m.
Proof.
  induction others as [|sv others IH]; intros m Hp Ho; [done|].
  apply Forall_cons in Ho as [[Hr Hs] Ho]. cbn [foldl]. rewrite IH by done. apply map_get_set_ne.
  assert (0 <= p <= MAX_SAFE_INTEGER) by (unfold is_channel_port, STATE_SETTLEMENT_PORT, STATE_SEQUENCE_PORT, MAX_SAFE_INTEGER in *; lia).
  rewrite !num_to_string_of_Z by lia. intros E%dec_inj; [congruence|lia..].
Qed.
Lemma carries_ports n l : 0 <= n → carries n l →
  Ev.port_value (stateValuesToContext l) (of_Z 100) = "false"%string ∧ Ev.port_value (stateValuesToContext l) (of_Z 101) = dec n.
Proof.
  intros Hn (others & -> & Ho). unfold Ev.port_value, stateValuesToContext. rewrite foldl_app.
  rewrite (context_others 100), (context_others 101) by done. unfold channelStateVars. cbn [foldl port value scalar_string].
  assert (big_to_string n = dec n) as -> by (unfold big_to_string; by replace (n <? 0) with false by lia).
  assert (num_to_string (of_Z STATE_SETTLEMENT_PORT) = "100" ∧ num_to_string (of_Z STATE_SEQUENCE_PORT) = "101"
    ∧ num_to_string (of_Z 100) = "100" ∧ num_to_string (of_Z 101) = "101")%string as (-> & -> & -> & ->) by by vm_compute.
  by split.
Qed.

Lemma digits_no_prefix s : str_forallb is_digit s = true → Vm.is_0x s = false.
Proof.
  intros Hs. apply not_true_iff_false. unfold Vm.is_0x. intros [(r & ->)%starts_with_spec|(r & ->)%starts_with_spec]%orb_true_iff; done.
Qed.
Lemma utf8_at_most_double s : (String.length (utf8 s) <= 2 * String.length s)%nat.
Proof. induction s as [|c s IH]; [done|]. cbn [utf8]. destruct (code c <? 128); simpl; lia. Qed.
Lemma sized_dec n : 0 <= n <= MAX_SAFE_INTEGER → Vm.checkStringSize (dec n) = Ok tt.
Proof.
  intros Hn. unfold Vm.checkStringSize. rewrite digits_no_prefix by (apply dec_digits; lia). pose proof (utf8_at_most_double (dec n)) as Hu.
  pose proof (dec_length n 16 ltac:(unfold MAX_SAFE_INTEGER in *; lia) ltac:(lia)) as Hl.
  replace (_ >? Vm.MAX_STRING_BYTES) with false by (unfold Vm.MAX_STRING_BYTES; lia). done.
Qed.
Lemma dec_value n : 0 <= n <= MAX_SAFE_INTEGER → Vm.parseStateValue (dec n) = Ok (Ps.VNum (Mn.mkMini n (Some 0))).
Proof.
  intros Hn. pose proof (dec_digits n ltac:(lia)) as Hd. unfold Vm.parseStateValue.
  destruct (String.eqb_spec (dec n) "") as [E|_]; [by destruct (dec_nonempty n)|]. rewrite digits_no_prefix by done.
  assert (Vm.parse_float_is_nan (dec n) = false) as ->.
  { unfold Vm.parse_float_is_nan. rewrite trim_start_digits by done. pose proof (dec_nonempty n) as Hne.
    destruct (dec n) as [|c s]; [done|]. cbn in Hd. apply andb_true_iff in Hd as [Hc _]. cbn [Lx.next_is].
    assert (Ascii.eqb c "+" || Ascii.eqb c "-" = false) as -> by (clear -Hc; revert Hc; FrSpec.each_char c). cbn [Lx.next_is]. rewrite Hc. by destruct (starts_with _ _). }
  by rewrite Ep.whole_number by (assert (MAX_SAFE_INTEGER <= Mn.MAX_VALUE_BIG) by (by vm_compute); lia).
Qed.

Lemma reading_of n m ctx : 0 <= n <= MAX_SAFE_INTEGER → 0 <= m <= MAX_SAFE_INTEGER →
  Ev.port_value (Vm.state ctx) (of_Z 100) = "false"%string → Ev.port_value (Vm.state ctx) (of_Z 101) = dec n →
  Ev.port_value (Vm.prevState ctx) (of_Z 101) = dec m →
  reading ctx = Ok (false, Ps.VNum (Mn.mkMini n (Some 0)), Ps.VNum (Mn.mkMini m (Some 0))).
Proof.
  intros Hn Hm E1 E2 E3. unfold reading, port_read. rewrite E1, E2, E3, !sized_dec by done. cbn [mbind result_bind].
  by rewrite !dec_value.
Qed.
Lemma more_whole n m : Vm.numbers Mn.isMore (Ps.VNum (Mn.mkMini n (Some 0))) (Ps.VNum (Mn.mkMini m (Some 0))) = Ok (m <? n).
Proof.
  unfold Vm.numbers, Mn.isMore, Mn.compareTo, Mn.assertSameScale. cbn. f_equal. destruct (n <? m) eqn:E1; [cbn; lia|].
  destruct (n >? m) eqn:E2; cbn; lia.
Qed.
(** ** The witness *)

Section prevalidation.
Context {Pl : Vm.Platform} (registry : list (string * Pg.ChannelProgram)) (patience fuel : nat).

(** The state has a flat signature of the party over the digest. *)
Definition flat_signed (st : SignedChannelState) (digest : string) (p : ChannelParticipant) : Prop :=
  ∃ sig key, map_get (partyId p) (signatures st) = Some sig ∧ Mm.hexToBytes (Vm.normalizeHex (publicKeyDigest p)) = Ok key ∧
    Vm.wotsVerifyDigest sig digest key = Ok true.

Lemma party_key p : well_keyed p → toLowerCase (strip_0x (publicKeyDigest p)) = Vm.normalizeHex (publicKeyDigest p).
Proof. intros [Hl Hh]. by rewrite key_lower. Qed.
Lemma witness_entry c st a b p : parties c = [a; b] → well_keyed a → well_keyed b → key_digits a ≠ key_digits b → p = a ∨ p = b →
  map_get (Vm.normalizeHex (publicKeyDigest p)) (Vm.signatures (signatureWitness c st)) = Vm.Flat <$> map_get (partyId p) (signatures st).
Proof.
  intros Hp Ha Hb Hne Hin. unfold signatureWitness. rewrite Hp. cbn [foldl Vm.signatures]. rewrite !party_key by done.
  assert (Vm.normalizeHex (publicKeyDigest a) ≠ Vm.normalizeHex (publicKeyDigest b)) as Hk.
  { destruct Ha as [La Ha], Hb as [Lb Hb]. rewrite !key_lower by done. intros E. apply Hne. unfold key_digits.
    rewrite <- (upper_lower (El.strip_prefix (publicKeyDigest a))), E by done. by rewrite upper_lower. }
  destruct Hin as [-> | ->]; destruct (map_get (partyId a) (signatures st)) as [sa|], (map_get (partyId b) (signatures st)) as [sb|];
    rewrite ?map_get_set_eq, ?map_get_set_ne, ?map_get_set_eq by done; try done.
Qed.
Lemma signed_flat c st ctx digest a b p : parties c = [a; b] → well_keyed a → well_keyed b → key_digits a ≠ key_digits b → p = a ∨ p = b →
  Vm.txDigest ctx = Some digest → key_signed (signatureWitness c st) ctx (publicKeyDigest p) = true ↔ flat_signed st digest p.
Proof.
  intros Hp Ha Hb Hne Hin Hd. unfold key_signed, OpSpec.signed. cbn [Vm.new_vm Vm.witness Vm.txCtx]. rewrite (witness_entry _ _ a b) by done. rewrite Hd.
  unfold flat_signed. destruct (map_get (partyId p) (signatures st)) as [sig|]; cbn [fmap option_fmap option_map].
  - destruct (Mm.hexToBytes _) as [key|]; cbn [mbind result_bind Ev.verifyWitnessSignature].
    + destruct (Vm.wotsVerifyDigest sig digest key) as [[]|] eqn:Ev; split; try done; try (intros (? & ? & [= <-] & [= <-] & E'); congruence).
      intros _. by exists sig, key.
    + split; [done|]. by intros (? & ? & _ & [=] & _).
  - split; [done|]. by intros (? & ? & [=] & _).
Qed.

(** The sequence number before the state. *)
Definition previous_sequence (c : OmniaChannel) (m : Z) : Prop :=
  match latestState c with Some l => carries m (stateVariables l) | None => currentSequence c = m end.
Lemma previous_carries c m : previous_sequence c m → ∃ l, previousUpdateState c = stateValuesToContext l ∧ carries m l.
Proof.
  unfold previous_sequence, previousUpdateState. destruct (latestState c) as [l|]; [by exists (stateVariables l)|].
  intros ->. exists (channelStateVars false m). split; [done|]. by exists [].
Qed.

Lemma context_Ok c st draft opts digest : v_settlement opts = false → computeOmniaTxDigest Vm.sha3_256 draft = Ok digest →
  num_is_safe_integer (to_number (JBig (totalValue c))) = true →
  ∃ ctx, txContextForDraft c st draft opts = Ok ctx ∧ Vm.state ctx = stateValuesToContext (d_stateVariables draft) ∧
    Vm.prevState ctx = previousUpdateState c ∧ Vm.txDigest ctx = Some digest.
Proof.
  intros Hs Hd Hn. unfold txContextForDraft. cbv zeta. rewrite Hn, Hd, Hs. cbn [negb throw_if mbind result_bind]. by eexists.
Qed.
Lemma valid_passes c st opts draft ctx : state_draft registry c st opts = Ok draft → txContextForDraft c st draft opts = Ok ctx →
  validateChannelStateWithKissvm registry patience fuel c st opts = Ok None ↔
  passes (Ev.evaluateScript patience fuel (fundingScript c) (signatureWitness c st) ctx) = true.
Proof.
  intros E1 E2. unfold validateChannelStateWithKissvm, passes. rewrite E1. cbn [mbind result_bind]. rewrite E2.
  destruct (Ev.evaluateScript _ _ _ _ _).1 as [r|[[]| | |]]; try done. destruct (Ev.passed r); done.
Qed.

Lemma prevalidates k program a b delay c st opts draft digest n m :
  parties c = [a; b] → map_get k (Pg.programs Vm.sha3_256) = Some program → Pg.buildScript program [a; b] delay = Ok (fundingScript c) →
  (4 <= fuel)%nat → v_settlement opts = false → num_is_safe_integer (to_number (JBig (totalValue c))) = true →
  state_draft registry c st opts = Ok draft → computeOmniaTxDigest Vm.sha3_256 draft = Ok digest →
  carries n (d_stateVariables draft) → previous_sequence c m → 0 <= n <= MAX_SAFE_INTEGER → 0 <= m <= MAX_SAFE_INTEGER →
  let valid := validateChannelStateWithKissvm registry patience fuel c st opts = Ok None in
  let newer := flat_signed st digest a ∧ flat_signed st digest b ∧ m < n in
  (valid → newer) ∧ (program = Pg.DefaultEltooPaymentProgram → newer → valid).
Proof.
  intros Hp Hk Hb Hf Hs Ht Ed Eg Hn Hm Rn Rm. cbv zeta.
  destruct (context_Ok c st draft opts digest Hs Eg Ht) as (ctx & Ec & E1 & E2 & E3).
  rewrite (valid_passes _ _ _ _ _ Ed Ec).
  destruct (scripts_admit patience fuel k program a b delay _ (signatureWitness c st) ctx Hk Hb Hf) as [H1 H2].
  apply (program_script _ _ _ _ _ _ Hk) in Hb as (Ha & Hb & Hne & _).
  apply carries_ports in Hn as [P1 P2]; [|lia]. apply previous_carries in Hm as (l & El & Hm). apply carries_ports in Hm as [_ P3]; [|lia].
  assert (reading ctx = Ok (false, Ps.VNum (Mn.mkMini n (Some 0)), Ps.VNum (Mn.mkMini m (Some 0)))) as Hr
    by (apply reading_of; rewrite ?E1, ?E2, ?El; done).
  assert (admits (signatureWitness c st) ctx a b (window program delay) ↔ flat_signed st digest a ∧ flat_signed st digest b ∧ m < n) as Hadm; [|tauto].
  unfold admits. rewrite (signed_flat _ _ _ digest a b a), (signed_flat _ _ _ digest a b b) by auto. rewrite Hr. split.
  - intros (? & ? & s & q & p & [= <- <- <-] & E). rewrite more_whole in E. split_and!; try done. injection E as E. lia.
  - intros (? & ? & ?). split_and!; try done. exists false. do 2 eexists. split; [done|]. cbn beta iota. rewrite more_whole. f_equal. lia.
Qed.

(** Whatever the mode of the check, a valid state has two flat signatures. *)
Lemma valid_flat k program a b delay c st opts p :
  parties c = [a; b] → map_get k (Pg.programs Vm.sha3_256) = Some program → Pg.buildScript program [a; b] delay = Ok (fundingScript c) →
  (4 <= fuel)%nat → p = a ∨ p = b →
  validateChannelStateWithKissvm registry patience fuel c st opts = Ok None → ∃ digest, flat_signed st digest p.
Proof.
  intros Hp Hk Hb Hf Hin Hv. destruct (state_draft registry c st opts) as [draft|e] eqn:Ed.
  2: { unfold validateChannelStateWithKissvm in Hv. by rewrite Ed in Hv. }
  destruct (txContextForDraft c st draft opts) as [ctx|e] eqn:Ec.
  2: { unfold validateChannelStateWithKissvm in Hv. rewrite Ed in Hv. cbn [mbind result_bind] in Hv. by rewrite Ec in Hv. }
  apply (valid_passes _ _ _ _ _ Ed Ec), (scripts_admit patience fuel k program a b delay _ _ _ Hk Hb Hf) in Hv as (Ha & Hs & _).
  apply (program_script _ _ _ _ _ _ Hk) in Hb as (Ka & Kb & Hne & _).
  assert (∃ digest, Vm.txDigest ctx = Some digest) as (digest & Hd).
  { unfold txContextForDraft in Ec. cbv zeta in Ec. apply result_bind_Ok in Ec as (? & _ & (digest & _ & E%Ok_inj)%result_bind_Ok).
    exists digest. by rewrite <- E. }
  exists digest. rewrite <- (signed_flat c st ctx digest a b p) by auto. by destruct Hin as [-> | ->].
Qed.

End prevalidation.

(** ** The channel's own signatures *)

(** The evaluator and the channel layer over this SDK's key trees. *)
Definition sdk_platform (h h2 : string → string) : Vm.Platform := {|
  Vm.sha3_256 := h; Vm.sha256 := h2; Vm.TreeSignature := list TreeKey.Tk.SignatureProof; Vm.proof_count l := Some (Z.of_nat (length l));
  Vm.wotsVerifyDigest := Wots.Wo.wotsVerifyDigest h; Vm.verifyTreeSignature := TreeKey.Tk.verifyTreeSignature h |}.
Definition tree_verifies (h : string → string) (pk digest sig : string) : bool :=
  match TreeKey.Tk.deserializeTreeSignature sig with
  | Ok proofs => match TreeKey.Tk.verifyTreeSignature h pk digest proofs with Ok b => b | Err _ => false end
  | Err _ => false
  end.

(** A flat signature has 34 parts of 32 bytes. *)
Lemma flat_length h sig digest key : Wots.Wo.wotsVerifyDigest h sig digest key = Ok true → String.length sig = 1088%nat.
Proof.
  unfold Wots.Wo.wotsVerifyDigest. intros (_ & _ & H)%result_bind_Ok. by destruct (Nat.eqb_spec (String.length sig) (Wots.Wo.paramL * 32)).
Qed.

Lemma take_str_le n s : (String.length (take_str n s) <= String.length s)%nat.
Proof. revert s. induction n as [|n IH]; intros [|c s]; cbn; [lia..|]. specialize (IH s). lia. Qed.
Notation slen s := (Z.of_nat (String.length s)).
Lemma field_within data o t b f o' : 0 <= o → TreeKey.Tk.read_field data (Some o) t b = Ok (f, o') →
  ∃ n, o' = Some n ∧ o + 4 <= n ∧ (0 < slen f → o + 4 + slen f <= slen data).
Proof.
  unfold TreeKey.Tk.read_field. intros Ho ([] & _ & ([] & Hn%throw_if_Ok & [= <- <-])%result_bind_Ok)%result_bind_Ok.
  set (len := Mmr.Mm.read_int32 _ _) in *. apply orb_false_iff in Hn as [Hn _]. unfold Mmr.Mm.plus. cbn [fmap option_fmap option_map].
  eexists. split; [done|]. split; [lia|]. unfold Mmr.Mm.slice.
  match goal with |- context [take_str ?n (drop_str ?m data)] => pose proof (take_str_le n (drop_str m data)) as Hl end.
  assert (Mmr.Mm.slice_bound (slen data) (Some (o + 4)) = Z.min (o + 4) (slen data)) as Hb.
  { unfold Mmr.Mm.slice_bound. cbn [default id]. unfold id. by replace (o + 4 <? 0) with false by lia. }
  rewrite length_drop_str, Hb in Hl. rewrite Hb. revert Hl. generalize (take_str (Z.to_nat (Mmr.Mm.slice_bound (slen data) (Some (o + 4 + len)) - Z.min (o + 4) (slen data)))
    (drop_str (Z.to_nat (Z.min (o + 4) (slen data))) data)). lia.
Qed.
Lemma byte_nonneg s o b : Mmr.Mm.byte_at s o = Some b → 0 <= b.
Proof.
  destruct o as [o|]; [|done]. change (Mmr.Mm.byte_at s (Some o)) with (if o <? 0 then None else match drop_str (Z.to_nat o) s with String c _ => Some (code c) | "" => None end%string).
  destruct (o <? 0); [done|]. destruct (drop_str _ _) as [|c ?]; [done|]. intros [= <-]. apply WotsSpec.WoSpec.code_bound.
Qed.
Lemma first_proof data proofs : TreeKey.Tk.deserializeTreeSignature data = Ok proofs →
  ∃ p rest, proofs = p :: rest ∧ (0 < slen (TreeKey.Tk.signature p) → slen (TreeKey.Tk.signature p) < slen data).
Proof.
  unfold TreeKey.Tk.deserializeTreeSignature. destruct (Mmr.Mm.byte_at data (Some 1)) as [nb|] eqn:Eb; [|done].
  intros ([] & _ & ([] & Hn%throw_if_Ok & H)%result_bind_Ok)%result_bind_Ok. set (n := TreeKey.Tk.read_count _ _ _ _) in *.
  apply orb_false_iff in Hn as [Hn _]. destruct (Z.to_nat n) as [|k] eqn:En; [lia|]. cbn [TreeKey.Tk.read_proofs] in H.
  apply byte_nonneg in Eb.
  apply result_bind_Ok in H as ([leaf o1] & H1 & ([sg o2] & H2 & (l & _ & E%Ok_inj)%result_bind_Ok)%result_bind_Ok).
  apply field_within in H1 as (n1 & -> & Hn1 & _); [|lia]. apply field_within in H2 as (n2 & -> & Hn2 & Hs); [|lia].
  subst proofs. do 2 eexists. split; [done|]. cbn [TreeKey.Tk.signature]. lia.
Qed.

(** What verifies as a channel signature is longer than any flat one. *)
Lemma tree_not_flat h pk digest sig : tree_verifies h pk digest sig = true → (1088 < String.length sig)%nat.
Proof.
  unfold tree_verifies. destruct (TreeKey.Tk.deserializeTreeSignature sig) as [proofs|] eqn:Ed; [|done].
  apply first_proof in Ed as (p & rest & -> & Hl). unfold TreeKey.Tk.verifyTreeSignature. cbn [TreeKey.Tk.verify_levels].
  destruct (TreeKey.Tk.getRootPublicKey h p) as [root|]; [|done]. cbn [mbind result_bind]. destruct (_ && _); [done|].
  destruct (TreeKey.Tk.signed_data h digest rest) as [sd|]; [|done]. cbn [mbind result_bind].
  destruct (Wots.Wo.wotsVerifyDigest h _ sd _) as [[]|] eqn:Ev; [|done..]. apply flat_length in Ev. lia.
Qed.

(** ** Properties *)

(** C8. What the pre-validation of an update decides.  For a channel of two parties that
    runs a registered program, a state whose transaction carries sequence [n] is found
    valid only if the state has a flat signature of each party over the digest of that
    transaction and [n] is greater than the sequence [m] before it; with the plain payment
    program, every such state is found valid. *)
Theorem prevalidation_checks_signatures_and_sequence {Pl : Vm.Platform} registry patience fuel k program a b delay c st opts draft digest n m :
  parties c = [a; b] → map_get k (Pg.programs Vm.sha3_256) = Some program → Pg.buildScript program [a; b] delay = Ok (fundingScript c) →
  (4 <= fuel)%nat → v_settlement opts = false → num_is_safe_integer (to_number (JBig (totalValue c))) = true →
  state_draft registry c st opts = Ok draft → computeOmniaTxDigest Vm.sha3_256 draft = Ok digest →
  carries n (d_stateVariables draft) → previous_sequence c m → 0 <= n <= MAX_SAFE_INTEGER → 0 <= m <= MAX_SAFE_INTEGER →
  let valid := validateChannelStateWithKissvm registry patience fuel c st opts = Ok None in
  let newer := flat_signed st digest a ∧ flat_signed st digest b ∧ m < n in
  (valid → newer) ∧ (program = Pg.DefaultEltooPaymentProgram → newer → valid).
Proof. apply prevalidates. Qed.

(** C7. Pre-validation refuses every state of the channel's own scheme.  Over this SDK's
    one-time signatures and key trees, once one party has signed a state the way the
    channel layer verifies signatures, running the channel script over it never finds the
    state valid, in either mode and for any registered program: the script is given the
    serialized tree signature where it expects a flat one. *)
Theorem prevalidation_refuses_channel_signatures h h2 address htlc registry patience fuel k program a b delay c st opts p sig digest :
  parties c = [a; b] → map_get k (Pg.programs h) = Some program → Pg.buildScript program [a; b] delay = Ok (fundingScript c) →
  (4 <= fuel)%nat → p = a ∨ p = b → map_get (partyId p) (signatures st) = Some sig →
  Sign.Sg.verifyChannelSignature (H := Sign.Sg.Build_Crypto h address htlc (tree_verifies h)) sig digest (publicKeyDigest p) = true →
  validateChannelStateWithKissvm (Pl := sdk_platform h h2) registry patience fuel c st opts ≠ Ok None.
Proof.
  intros Hp Hk Hb Hf Hin Hs Hv Hn.
  apply (valid_flat (Pl := sdk_platform h h2) registry patience fuel k program a b delay c st opts p Hp Hk Hb Hf Hin) in Hn
    as (digest' & sig' & key & Es & _ & Hw).
  rewrite Hs in Es. injection Es as <-. apply flat_length in Hw.
  unfold Sign.Sg.verifyChannelSignature in Hv. destruct (String.eqb sig ""); [done|].
  destruct (Sign.Sg.hexToBytes _) as [pk|]; [|done]. apply andb_true_iff in Hv as [_ Hv]. apply tree_not_flat in Hv. lia.
Qed.

(** The channel of two toy parties, at sequence zero, and an update both signed. *)
Definition toy_script (a b : string) : string :=
  match Pg.buildScript Pg.DefaultEltooPaymentProgram [toy_party a; toy_party b] None with Ok s => s | Err _ => "" end.
Definition toy_scripted (a b : string) : OmniaChannel :=
  mkChannel "0xc1" "0xf1" "0x1234" (toy_script a b) (Pg.id Pg.DefaultEltooPaymentProgram) 1 "0xabcd" "0x00" 0 100
    [toy_party a; toy_party b] [(a, 60); (b, 40)] [] 0 (Some 0) None [] active false None None None None None None (of_Z 0) (of_Z 0).
Definition toy_update (a b siga sigb : string) : SignedChannelState :=
  mkState 1 [(a, 50); (b, 50)] [] [] "" [(a, siga); (b, sigb)] [] None None.
Definition toy_opts : KissvmValidationOptions := mkValidation None None false None.
Definition toy_signed : SignedChannelState := toy_update "0a" "0b" (hex_pairs (toy_key "0a")) (hex_pairs (toy_key "0b")).
Definition toy_registry : list (string * Pg.ChannelProgram) := Pg.programs (Vm.sha3_256 (Platform := EvSpec.toy)).
Definition toy_draft : OmniaTxDraft :=
  match state_draft (Pl := EvSpec.toy) toy_registry (toy_scripted "0a" "0b") toy_signed toy_opts with
  | Ok d => d | Err _ => mkDraft update_tx [] [] false [] end.
Definition toy_digest : string :=
  match computeOmniaTxDigest (Vm.sha3_256 (Platform := EvSpec.toy)) toy_draft with Ok d => d | Err _ => "" end.

Lemma toy_drafted : state_draft (Pl := EvSpec.toy) toy_registry (toy_scripted "0a" "0b") toy_signed toy_opts = Ok toy_draft.
Proof. by vm_compute. Qed.
Lemma prevalidation_checks_signatures_and_sequence_witness :
  validateChannelStateWithKissvm (Pl := EvSpec.toy) toy_registry 0 1025 (toy_scripted "0a" "0b") toy_signed toy_opts = Ok None.
Proof.
  refine (proj2 (prevalidation_checks_signatures_and_sequence (Pl := EvSpec.toy) toy_registry 0 1025 "eltoo-payment@1" Pg.DefaultEltooPaymentProgram
    (toy_party "0a") (toy_party "0b") None (toy_scripted "0a" "0b") toy_signed toy_opts toy_draft toy_digest 1 0
    _ _ _ _ _ _ toy_drafted _ _ _ _ _) _ _); [reflexivity|reflexivity|vm_compute; reflexivity|lia|reflexivity|vm_compute; reflexivity|vm_compute; reflexivity| | | | |reflexivity|].
  - exists (drop 2 (d_stateVariables toy_draft)). split; [vm_compute; reflexivity|]. repeat constructor; vm_compute; done.
  - reflexivity.
  - by vm_compute.
  - by vm_compute.
  - split; [|split; [|lia]]; do 2 eexists; (split; [reflexivity|]); split; vm_compute; reflexivity.
Defined.

(** A hash without content, under which a tree of one proof verifies. *)
Definition flat_hash (s : string) : string := repeat_char 32 (byte 0).
Definition toy_tree_signature : string :=
  match TreeKey.Tk.serializeTreeSignature [TreeKey.Tk.mkSigProof (flat_hash "") (repeat_char 1088 (byte 7)) []] with Ok s => s | Err _ => "" end.
Lemma prevalidation_refuses_channel_signatures_witness :
  validateChannelStateWithKissvm (Pl := sdk_platform flat_hash flat_hash) (Pg.programs flat_hash) 0 1025 (toy_scripted "00" "0b")
    (toy_update "00" "0b" toy_tree_signature "") toy_opts ≠ Ok None.
Proof.
  refine (prevalidation_refuses_channel_signatures flat_hash flat_hash (λ s, s) (λ a _ _ _, Ok a) _ 0 1025 "eltoo-payment@1" Pg.DefaultEltooPaymentProgram
    (toy_party "00") (toy_party "0b") None _ _ _ (toy_party "00") toy_tree_signature (flat_hash "") _ _ _ _ (or_introl _) _ _);
    [reflexivity|reflexivity|vm_compute; reflexivity|lia|reflexivity|reflexivity|vm_compute; reflexivity].
Defined.

End KcSpec.
